(* ===== verification/_CoqProject ===== *)
-Q . S2P
Prelude.v
World.v
Codec.v
Openssl.v
Header.v
Libc.v
Posix.v
Secret.v
Store.v
StoreSpec.v
StoreGet.v
StoreSet.v
Allocate.v
AllocateSpec.v
StoreTheorems.v
AllocateTheorems.v
Guard.v
GuardSpec.v
GuardTheorems.v
Config.v
Tss.v
Core.v
Tpm.v
TpmSpec.v
TpmKeySpec.v
TreeSpec.v
KeySpec.v
TpmTheorems.v
Cli.v
CliSpec.v
CliTheorems.v
