(* ===== verification/Prelude.v ===== *)
(** * Padlock: a verification development for the keystore

    Padlock keeps secrets in an encrypted file.  A user-space library
    ([src/src/padlock.c]) creates stores, appends entries and looks them up; the key of a store is
    sealed in its header under a password which the library derives, by HMAC, from the user's login
    password and a key that only the machine's TPM can open.  A command-line program
    ([src/src/padlock_cli.c]) asks for the login password, has PAM check it and runs one of the
    commands [allocate], [set] and [get].  A kernel module
    ([src/kernel/guard/hardcode_padlock_guard.c], protocol in
    [src/include/hardcode/padlock_guard.h]) refuses writes to registered store files to all processes
    but the one with a session.

    ** How the program is modelled

    - [World], [Posix], [Libc]: the C run-time environment.  A C function is a computation [M A]
      that passes a state [sys] (names, inodes, descriptors, [stdio] streams with their write
      buffers, live blocks, bytes left in freed memory, a log of the writes that reached files,
      [errno], environment variables, standard streams, terminal and TPM objects) and a control
      state [ctl] (which calls fail and how, which random bytes are drawn).  It returns, has undefined
      behaviour ([Undef]), or runs out of a loop's fuel ([Diverge]).  [wp nf U m Q s] is its
      weakest precondition over ALL control states ([nf = true]: those without failures; [U]:
      whether undefined behaviour is tolerated); [returns] and [always] are its two usual forms.
      [Core] has the same rules up to what contracts do not mention (errno, residue, log, modes).
    - [Openssl], [Tss], and the class [Host] of [Cli]: libcrypto, tpm2-tss with the TPM, and the name
      service with PAM are type classes of operations, with their documented laws as classes of
      their own ([OpensslLaws], [TssLaws]); [Toy] and [ToyTpm] are instances with the laws proved, and
      [CliDemo.host] is a host, so that witnesses evaluate.
    - [Codec]: [align16], the little-endian integers, [padlock_constant_time_equals],
      [padlock_secure_zero].  [Header]: [write_header], [read_header].  [Secret]: the header key,
      [encrypt_secret], [decrypt_secret], [crypt_xts].  [Store]: [padlock_set], [padlock_get],
      [padlock_free].  [Allocate]: [ensure_parent_directory], [write_urandom_bytes],
      [padlock_allocate].  [Config]: [padlock_parse_size], [padlock_default_store_path],
      [padlock_version].  [Tpm]: [ensure_directory_tree], the [padlock_tpm_*] functions and the two
      functions that derive header passwords.  [Cli]: every function of the command line, up to
      [main].  [Guard]: the guard's table, sessions, ioctl, probes, loading and unloading.
    - Functions are cut where the source has a label ([done]) or a loop body; a record such as
      [create_exit] or [set_exit] holds the local variables the code after the label releases.  An out
      parameter is a component of the result.

    ** What is proved

    - Store ([StoreSpec], [StoreGet], [StoreSet], [StoreTheorems]): [represents] relates a file to the
      list of its entries.  [padlock_set] appends (C1), is consistent at every point of a crash (C3),
      refuses when full (C11), clears its plaintext (C12); [padlock_get] returns the last entry (C2), is
      never wrong whatever fails (C4), ends on every file (C5) and equals a reference reading (C10);
      sequences of both refine the abstract store (C6).  C7, C19 and C31 exhibit defects.
    - Creation ([AllocateSpec], [AllocateTheorems]): a new store appears whole or not at all (C8, C9);
      C13 is a defect.
    - Codecs and parsing: C14 to C18, C29, C30.
    - Sealed key and header passwords ([TpmSpec], [TpmKeySpec], [TreeSpec], [KeySpec],
      [TpmTheorems]): a key is made once and found ever after (C32), everything is released whatever fails
      (C33), header passwords are the hexadecimal HMAC (C34) with a fixed shape (C35); C36 and C37 are
      defects, as is [access_failure_replaces_key].
    - Command line ([CliSpec], [CliTheorems]): the reading of the PAM file equals a reference over its lines
      (C38); a refused login changes nothing (C39); what is set can be got, through prompt, PAM, TPM, HMAC and
      store (C40).
    - Guard ([GuardSpec], [GuardTheorems]): an invariant of every reachable table (C20), refinement of a
      finite map of protections (C21), enforcement by the probes (C22), one writer (C23), the life of a
      session (C24), loading (C28); C25 to C27 are defects.

    ** Bounds and fuel

    Integers are [Z] with the wrap-around of their C type written out.  Loops that are not structural
    have fuel computed from the data: [get_fuel] from the offsets in the header (every round of
    [padlock_get] moves on by 16 bytes, C5), the read and write loops of [write_urandom_bytes] from the
    bytes still missing and the failures the environment has left, the loop over the PAM file from its size;
    the contracts exclude [Diverge], so this fuel is enough.

    ** Assumptions of the environment model

    Names are byte strings in one flat name space; a new name needs its parent directory; there are no
    permissions beyond calls that fail, and the umask is 022.  A [stdio] buffer has no limit of its own, so a
    write reaches the file when the stream is flushed, repositioned or closed; [fsync] has no effect the state shows.
    Texts are shorter than [2^31] bytes.  Out pointers and the pointers the program passes to its own static
    functions are not null.  The guard's mutex makes each of its operations atomic.  TPM authorisation values
    are empty, as the code sets them; the contents of the library's public output blocks are not traced.

    ** Not modelled

    [hardcode_padlock_guard.mod.c] (generated tables), the headers (declarations), tests, build and installation
    files, and the third-party TSS headers: none has operations of the program's own. *)

From Stdlib Require Export Strings.String.
From stdpp Require Export prelude gmap list.
From coqutil Require Export Byte.
From coqutil Require Word.LittleEndianList.

Global Open Scope Z_scope.
Global Set Default Goal Selector "!".

(** ** Bytes *)

#[global] Instance byte_eq_dec : EqDecision byte := Byte.byte_eq_dec.

#[global] Instance byte_countable : Countable byte.
Proof.
  refine (inj_countable Byte.to_N Byte.of_N _).
  intros b. apply Byte.of_to_N.
Defined.

#[global] Instance byte_inhabited : Inhabited byte := populate Byte.x00.

(** The numeric value of an [unsigned char], and the conversion of an integer
    to [unsigned char] (reduction modulo 256). *)
Abbreviation bval := byte.unsigned.
Abbreviation zbyte := byte.of_Z.

(** The bytes of a C string literal, without its terminating NUL. *)
Definition bstr (s : string) : list byte := String.list_byte_of_string s.
Arguments bstr s%_string_scope.

(** ** Machine integers *)

(** Unsigned integers are kept as [Z] and reduced at the width of the C type
    after each operation that can leave the range. *)
Definition u8 (z : Z) : Z := z mod 2 ^ 8.
Definition u32 (z : Z) : Z := z mod 2 ^ 32.
Definition u64 (z : Z) : Z := z mod 2 ^ 64.

(** Conversion to a two's complement [int] (32 bits) and [off_t] (64 bits). *)
Definition int_of (z : Z) : Z := (z + 2 ^ 31) mod 2 ^ 32 - 2 ^ 31.
Definition off_of (z : Z) : Z := (z + 2 ^ 63) mod 2 ^ 64 - 2 ^ 63.

Lemma u32_range z : 0 ≤ u32 z < 2 ^ 32.
Proof. unfold u32. apply Z.mod_pos_bound. lia. Qed.

Lemma u64_range z : 0 ≤ u64 z < 2 ^ 64.
Proof. unfold u64. apply Z.mod_pos_bound. lia. Qed.

Lemma u32_small z : 0 ≤ z < 2 ^ 32 → u32 z = z.
Proof. apply Z.mod_small. Qed.

Lemma u64_small z : 0 ≤ z < 2 ^ 64 → u64 z = z.
Proof. apply Z.mod_small. Qed.

Lemma int_of_small z : 0 ≤ z < 2 ^ 31 → int_of z = z.
Proof. intros. unfold int_of. rewrite Z.mod_small; lia. Qed.

Lemma off_of_small z : 0 ≤ z < 2 ^ 63 → off_of z = z.
Proof. intros. unfold off_of. rewrite Z.mod_small; lia. Qed.

Lemma off_of_neg z : 2 ^ 63 ≤ z < 2 ^ 64 → off_of z < 0.
Proof.
  intros. unfold off_of.
  replace (z + 2 ^ 63) with ((z - 2 ^ 63) + 1 * 2 ^ 64) by lia.
  rewrite Z.mod_add, Z.mod_small; lia.
Qed.

Lemma bval_range x : 0 ≤ bval x < 256.
Proof. apply byte.unsigned_range. Qed.

Lemma bval_zbyte z : bval (zbyte z) = z mod 256.
Proof. apply byte.unsigned_of_Z. Qed.

Lemma bval_zbyte_small z : 0 ≤ z < 256 → bval (zbyte z) = z.
Proof. intros. rewrite bval_zbyte. by apply Z.mod_small. Qed.

Lemma zbyte_bval x : zbyte (bval x) = x.
Proof. apply byte.of_Z_unsigned. Qed.

#[global] Instance bval_inj : Inj (=) (=) bval.
Proof. intros x y. apply byte.unsigned_inj. Qed.

(** ** Buffers: lists indexed by [Z] *)

Abbreviation len l := (Z.of_nat (length l)).

(** [sub off n l]: the [n] elements of [l] from offset [off]. *)
Definition sub {A} (off n : Z) (l : list A) : list A :=
  take (Z.to_nat n) (drop (Z.to_nat off) l).

(** [splice off d l]: [l] with the elements from [off] overwritten by [d]. *)
Definition splice {A} (off : Z) (d l : list A) : list A :=
  take (Z.to_nat off) l ++ d ++ drop (Z.to_nat off + length d) l.

Definition zeros (n : Z) : list byte := replicate (Z.to_nat n) Byte.x00.

Create Rewrite HintDb len.
#[export] Hint Rewrite @length_app @length_take @length_drop @length_replicate
  @length_fmap @length_nil @length_cons : len.

(** [len_lia]: linear arithmetic about the lengths of lists. *)
Ltac len_lia := unfold sub, splice, zeros in *; autorewrite with len in *; lia.

Section Buffers.
Context {A : Type}.
Implicit Types l d : list A.

Lemma len_sub off n l : 0 ≤ off → 0 ≤ n → off + n ≤ len l → len (sub off n l) = n.
Proof. intros. len_lia. Qed.

Lemma len_splice off d l : 0 ≤ off → off + len d ≤ len l → len (splice off d l) = len l.
Proof. intros. len_lia. Qed.

Lemma sub_lookup off n l (i : nat) :
  0 ≤ off → 0 ≤ n → Z.of_nat i < n → sub off n l !! i = l !! (Z.to_nat off + i)%nat.
Proof. intros. unfold sub. rewrite lookup_take_lt by lia. by rewrite lookup_drop. Qed.

Lemma sub_lookup_ge off n l (i : nat) : n ≤ Z.of_nat i → sub off n l !! i = None.
Proof. intros. unfold sub. apply lookup_ge_None. len_lia. Qed.

Lemma splice_lookup_before off d l (i : nat) :
  0 ≤ off → off ≤ len l → Z.of_nat i < off → splice off d l !! i = l !! i.
Proof.
  intros. unfold splice. rewrite lookup_app_l by len_lia.
  apply lookup_take_lt. lia.
Qed.

Lemma splice_lookup_after off d l (i : nat) :
  0 ≤ off → off + len d ≤ len l → off + len d ≤ Z.of_nat i → splice off d l !! i = l !! i.
Proof.
  intros. unfold splice. rewrite lookup_app_r by len_lia. rewrite lookup_app_r by len_lia.
  rewrite lookup_drop. f_equal. len_lia.
Qed.

Lemma sub_ext off n l l' :
  0 ≤ off → 0 ≤ n →
  (∀ i : nat, off ≤ Z.of_nat i < off + n → l !! i = l' !! i) → sub off n l = sub off n l'.
Proof.
  intros ? ? Heq. apply list_eq. intros i.
  destruct (decide (Z.of_nat i < n)).
  - rewrite !sub_lookup by lia. apply Heq. lia.
  - by rewrite !sub_lookup_ge by lia.
Qed.

Lemma sub_splice_same off d l :
  0 ≤ off → off ≤ len l → sub off (len d) (splice off d l) = d.
Proof.
  intros. unfold sub, splice. rewrite drop_app_length' by len_lia.
  rewrite take_app_length'; [done | lia].
Qed.

Lemma sub_splice_before o n off d l :
  0 ≤ o → 0 ≤ n → o + n ≤ off → off ≤ len l → sub o n (splice off d l) = sub o n l.
Proof. intros. apply sub_ext; [lia..|]. intros. apply splice_lookup_before; lia. Qed.

Lemma sub_splice_after o n off d l :
  0 ≤ off → 0 ≤ n → off + len d ≤ o → off + len d ≤ len l →
  sub o n (splice off d l) = sub o n l.
Proof. intros. apply sub_ext; [lia..|]. intros. apply splice_lookup_after; lia. Qed.

Lemma sub_splice_inside o n off d l :
  0 ≤ off ≤ o → 0 ≤ n → o + n ≤ off + len d → off ≤ len l →
  sub o n (splice off d l) = sub (o - off) n d.
Proof.
  intros. apply list_eq. intros i. destruct (decide (Z.of_nat i < n)).
  - rewrite !sub_lookup by lia. unfold splice. rewrite lookup_app_r by len_lia.
    rewrite lookup_app_l by len_lia. f_equal. len_lia.
  - by rewrite !sub_lookup_ge by lia.
Qed.

Lemma sub_sub o n o' n' l :
  0 ≤ o → 0 ≤ n → 0 ≤ o' → o + n ≤ n' → sub o n (sub o' n' l) = sub (o' + o) n l.
Proof.
  intros. apply list_eq. intros i. destruct (decide (Z.of_nat i < n)).
  - rewrite !sub_lookup by lia. f_equal. lia.
  - by rewrite !sub_lookup_ge by lia.
Qed.

Lemma sub_all n l : len l ≤ n → sub 0 n l = l.
Proof. intros. unfold sub. rewrite drop_0. apply take_ge. lia. Qed.

Lemma sub_app_l o n l d :
  0 ≤ o → 0 ≤ n → o + n ≤ len l → sub o n (l ++ d) = sub o n l.
Proof. intros. apply sub_ext; [lia..|]. intros. apply lookup_app_l. lia. Qed.

Lemma sub_app_r o n l d :
  len l ≤ o → 0 ≤ n → sub o n (l ++ d) = sub (o - len l) n d.
Proof. intros. unfold sub. rewrite drop_app_ge by lia. repeat f_equal. lia. Qed.

Lemma sub_add o n m l :
  0 ≤ o → 0 ≤ n → 0 ≤ m → sub o (n + m) l = sub o n l ++ sub (o + n) m l.
Proof.
  intros. unfold sub. rewrite Z2Nat.inj_add, Z2Nat.inj_add by lia.
  rewrite <- drop_drop. rewrite <- (take_drop (Z.to_nat n) (take _ (drop _ l))) at 1.
  rewrite take_take, skipn_firstn_comm, Nat.min_l by lia. do 2 f_equal. lia.
Qed.

Lemma sub_nil_len o l : sub o 0 l = [].
Proof. done. Qed.

Lemma splice_nil off l : splice off [] l = l.
Proof. unfold splice. cbn. rewrite Nat.add_0_r. apply take_drop. Qed.

Lemma splice_all d l : len d = len l → splice 0 d l = d.
Proof. intros. unfold splice. rewrite drop_ge by lia. by rewrite app_nil_r. Qed.

(** A buffer laid out as consecutive segments. *)
Lemma concat_split_at (segs : list (list A)) (i : nat) m :
  segs !! i = Some m → concat segs = concat (take i segs) ++ m ++ concat (drop (S i) segs).
Proof.
  intros Hi. rewrite <- (take_drop_middle segs i m Hi) at 1.
  by rewrite concat_app.
Qed.

Lemma sub_concat (segs : list (list A)) (i : nat) off n m :
  segs !! i = Some m → len (concat (take i segs)) = off → len m = n →
  sub off n (concat segs) = m.
Proof.
  intros Hi <- <-. rewrite (concat_split_at segs i m Hi). unfold sub.
  rewrite drop_app_length' by lia. by rewrite take_app_length' by lia.
Qed.

Lemma splice_concat (segs : list (list A)) (i : nat) off d m :
  segs !! i = Some m → len (concat (take i segs)) = off → len m = len d →
  splice off d (concat segs) = concat (<[i := d]> segs).
Proof.
  intros Hi <- Hm. pose proof (lookup_lt_Some _ _ _ Hi).
  rewrite (concat_split_at segs i m Hi).
  rewrite (concat_split_at (<[i := d]> segs) i d) by (by apply list_lookup_insert_eq).
  rewrite take_insert_ge, drop_insert_lt by lia. unfold splice.
  rewrite take_app_length' by lia. f_equal. f_equal.
  rewrite drop_app_ge by lia. rewrite drop_app_ge by lia.
  match goal with |- drop ?k _ = _ => replace k with 0%nat by lia end. apply drop_0.
Qed.

Lemma splice_splice_end off d d' l :
  0 ≤ off → off + len d + len d' ≤ len l →
  splice (off + len d) d' (splice off d l) = splice off (d ++ d') l.
Proof.
  intros. unfold splice.
  rewrite (take_app_ge (take _ l)) by len_lia. rewrite <- (app_assoc (take _ l)). f_equal.
  rewrite take_app_length' by len_lia.
  rewrite (drop_app_ge (take _ l)) by len_lia.
  rewrite (drop_app_ge d) by len_lia. rewrite drop_drop.
  rewrite <- app_assoc. do 3 f_equal. len_lia.
Qed.
End Buffers.

Lemma len_zeros n : 0 ≤ n → len (zeros n) = n.
Proof. intros. len_lia. Qed.

(** Lemmas that compute the length of a buffer expression; their side
    conditions are themselves lengths and bounds. *)
Create Rewrite HintDb buf.
#[export] Hint Rewrite @len_sub @len_splice len_zeros using lia : buf.
