(* ===== verification/World.v ===== *)
(** * The C run-time environment

    What the user-space code of the repository ([src/src/padlock.c] and
    [src/src/padlock_cli.c]) uses of the C library and of POSIX: memory blocks,
    [stdio] streams with their write buffers, file descriptors, a name space of
    files and directories, [errno] and the environment variables.

    A C function is a computation [M A]: it runs in a system state [sys] and
    under a control state [ctl] that holds the environment's choices (which calls
    fail and how, which bytes an indeterminate or random object holds).  It
    either returns, or runs into undefined behaviour ([Undef]: an access outside
    an object, a block freed twice, a stream read after a write without a
    repositioning), or uses up the fuel of one of its loops ([Diverge]).

    [wp nf U m Q s] is the weakest precondition: for EVERY control state the
    computation ends and its result satisfies [Q].  With [nf = true] only the
    control states without faults are considered; [U] says whether undefined
    behaviour is tolerated ([False] in a safety statement). *)

From S2P Require Import Prelude.

(** ** Error numbers (Linux) *)

Definition EPERM : Z := 1.
Definition ENOENT : Z := 2.
Definition EINTR : Z := 4.
Definition EIO : Z := 5.
Definition EBADF : Z := 9.
Definition EACCES : Z := 13.
Definition EFAULT : Z := 14.
Definition EBUSY : Z := 16.
Definition EEXIST : Z := 17.
Definition ENOTDIR : Z := 20.
Definition EISDIR : Z := 21.
Definition EINVAL : Z := 22.
Definition ENOTTY : Z := 25.
Definition ENOSPC : Z := 28.
Definition ERANGE : Z := 34.
Definition ENAMETOOLONG : Z := 36.

(** ** System state *)

(** Why a call fails: an error with nothing transferred, or (for reads, writes
    and flushes) an error after [k] bytes. *)
Inductive fault :=
  | FErr (e : Z)
  | FShort (k e : Z).

Definition fault_errno (f : fault) : Z :=
  match f with FErr e => e | FShort _ e => e end.

Definition fault_count (f : fault) : Z :=
  match f with FErr _ => 0 | FShort k _ => Z.max 0 k end.

Record inode := Inode { i_dir : bool; i_mode : Z; i_data : list byte }.

(** A stream may not switch between reading and writing without a call that
    repositions or flushes it (C11 7.21.5.3). *)
Inductive direction := Idle | Reading | Writing.

#[global] Instance direction_eq_dec : EqDecision direction.
Proof. solve_decision. Defined.

(** [st_pending] is the write buffer: bytes accepted by [fwrite] that belong at
    the offsets just below [st_pos] and have not reached the file. *)
Record stream := Stream {
  st_ino : nat;
  st_writable : bool;
  st_pos : Z;
  st_dir : direction;
  st_pending : list byte
}.

Inductive fdobj := FdFile (ino : nat) | FdUrandom.

(** A write that reached the file: inode, offset, bytes. *)
Record diskwrite := DiskWrite { dw_ino : nat; dw_off : Z; dw_data : list byte }.

(** What the process holds or has done outside memory and files: the transient
    objects it has loaded in the TPM, the bytes standard input still has, what was
    written to standard output and standard error, and the terminal ([None]: standard
    input is no terminal; otherwise whether it echoes). *)
Record io := Io {
  io_tpm : gset nat;
  io_stdin : list byte;
  io_stdout : list byte;
  io_stderr : list byte;
  io_echo : option bool
}.

Definition no_io : io := Io ∅ [] [] [] None.

Record sys := Sys {
  s_names : gmap (list byte) nat;
  s_inodes : gmap nat inode;
  s_fds : gmap nat fdobj;
  s_streams : gmap nat stream;
  s_live : gset nat;
  s_residue : list (list byte);
  s_log : list diskwrite;
  s_errno : Z;
  s_env : gmap (list byte) (list byte);
  s_io : io
}.

Definition set_names x s := Sys x (s_inodes s) (s_fds s) (s_streams s) (s_live s) (s_residue s) (s_log s) (s_errno s) (s_env s) (s_io s).
Definition set_inodes x s := Sys (s_names s) x (s_fds s) (s_streams s) (s_live s) (s_residue s) (s_log s) (s_errno s) (s_env s) (s_io s).
Definition set_fds x s := Sys (s_names s) (s_inodes s) x (s_streams s) (s_live s) (s_residue s) (s_log s) (s_errno s) (s_env s) (s_io s).
Definition set_streams x s := Sys (s_names s) (s_inodes s) (s_fds s) x (s_live s) (s_residue s) (s_log s) (s_errno s) (s_env s) (s_io s).
Definition set_live x s := Sys (s_names s) (s_inodes s) (s_fds s) (s_streams s) x (s_residue s) (s_log s) (s_errno s) (s_env s) (s_io s).
Definition set_residue x s := Sys (s_names s) (s_inodes s) (s_fds s) (s_streams s) (s_live s) x (s_log s) (s_errno s) (s_env s) (s_io s).
Definition set_log x s := Sys (s_names s) (s_inodes s) (s_fds s) (s_streams s) (s_live s) (s_residue s) x (s_errno s) (s_env s) (s_io s).
Definition set_errno_s x s := Sys (s_names s) (s_inodes s) (s_fds s) (s_streams s) (s_live s) (s_residue s) (s_log s) x (s_env s) (s_io s).
Definition set_io x s := Sys (s_names s) (s_inodes s) (s_fds s) (s_streams s) (s_live s) (s_residue s) (s_log s) (s_errno s) (s_env s) x.

(** ** Control state: the choices of the environment *)

Record ctl := Ctl {
  c_faults : list (option fault);  (* one per fallible call; used up: no fault *)
  c_bytes : nat → byte;            (* random and indeterminate bytes *)
  c_pos : nat
}.

Inductive outcome (A : Type) :=
  | Ret (a : A) (s : sys) (c : ctl)
  | Undef
  | Diverge.
Arguments Ret {A} a s c.
Arguments Undef {A}.
Arguments Diverge {A}.

Definition M (A : Type) : Type := sys → ctl → outcome A.

#[global] Instance M_ret : MRet M := λ A a s c, Ret a s c.
#[global] Instance M_bind : MBind M := λ A B k m s c,
  match m s c with
  | Ret a s' c' => k a s' c'
  | Undef => Undef
  | Diverge => Diverge
  end.

Definition undef {A} : M A := λ _ _, Undef.
Definition diverge {A} : M A := λ _ _, Diverge.

(** Undefined behaviour of a pure step, as [None]. *)
Definition checked {A} (o : option A) : M A :=
  match o with Some a => mret a | None => undef end.

Definition get_sys : M sys := λ s c, Ret s s c.
Definition modify (f : sys → sys) : M unit := λ s c, Ret tt (f s) c.
Definition set_errno (e : Z) : M unit := modify (set_errno_s e).
Definition get_errno : M Z := λ s c, Ret (s_errno s) s c.
Definition getenv (name : list byte) : M (option (list byte)) :=
  λ s c, Ret (s_env s !! name) s c.

(** The environment's decision for the next fallible call. *)
Definition pop : M (option fault) := λ s c,
  match c_faults c with
  | [] => Ret None s c
  | f :: fs => Ret f s (Ctl fs (c_bytes c) (c_pos c))
  end.

(** [n] bytes chosen by the environment. *)
Definition draw (n : Z) : M (list byte) := λ s c,
  Ret (c_bytes c <$> seq (c_pos c) (Z.to_nat n)) s
      (Ctl (c_faults c) (c_bytes c) (c_pos c + Z.to_nat n)%nat).

(** A call that fails with [err] when the environment says so. *)
Definition fallible {A} (err : A) (run : M A) : M A :=
  f ← pop;
  match f with
  | Some f => set_errno (fault_errno f);; mret err
  | None => run
  end.

(** ** Memory *)

(** A block obtained from [malloc] or [calloc]; the code has exactly one name
    for each block at any time, so its contents travel with the pointer and the
    state records which blocks are live. *)
Record buf := Buf { b_id : nat; b_data : list byte }.

Definition alloc_s (i : nat) (s : sys) : sys := set_live ({[i]} ∪ s_live s) s.

(** A name no live block has. *)
Definition new_id : M nat :=
  s ← get_sys; let i := fresh (s_live s) in modify (alloc_s i);; mret i.

Definition new_block (d : list byte) : M (option buf) :=
  i ← new_id; mret (Some (Buf i d)).

Definition malloc (n : Z) : M (option buf) :=
  fallible None (d ← draw n; new_block d).

Definition calloc (n : Z) : M (option buf) := fallible None (new_block (zeros n)).

(** The bytes an object holds when its lifetime ends stay behind in memory:
    [s_residue] collects them. *)
Definition leave (d : list byte) : M unit :=
  modify (λ s, set_residue (s_residue s ++ [d]) s).

Definition free (p : option buf) : M unit :=
  match p with
  | None => mret tt
  | Some p =>
      s ← get_sys;
      if decide (b_id p ∈ s_live s)
      then modify (λ s, set_live (s_live s ∖ {[b_id p]}) s);; leave (b_data p)
      else undef
  end.

#[global] Arguments free p : simpl never.

(** Bounds-checked reads and writes of an object's bytes. *)
Definition load (off n : Z) (d : list byte) : option (list byte) :=
  if (0 <=? off) && (0 <=? n) && (off + n <=? len d) then Some (sub off n d) else None.

Definition store (off : Z) (x d : list byte) : option (list byte) :=
  if (0 <=? off) && (off + len x <=? len d) then Some (splice off x d) else None.

Definition bstore (off : Z) (x : list byte) (p : buf) : M buf :=
  d ← checked (store off x (b_data p)); mret (Buf (b_id p) d).

Definition bload (off n : Z) (p : buf) : M (list byte) := checked (load off n (b_data p)).

(** ** Streams *)

(** [pwrite]: the bytes of a file after a write; a gap reads as zeros. *)
Definition file_write (off : Z) (x d : list byte) : list byte :=
  splice off x (d ++ zeros (off + len x - len d)).

Definition disk_write (i : nat) (off : Z) (x : list byte) (s : sys) : sys :=
  match s_inodes s !! i with
  | Some n => set_log (s_log s ++ [DiskWrite i off x])
                (set_inodes (<[i := Inode (i_dir n) (i_mode n) (file_write off x (i_data n))]> (s_inodes s)) s)
  | None => s
  end.

Definition set_stream (f : nat) (st : stream) : M unit :=
  modify (λ s, set_streams (<[f := st]> (s_streams s)) s).

Definition get_stream (f : nat) : M stream :=
  s ← get_sys; checked (s_streams s !! f).

(** Empties the write buffer into the file; a fault transfers a prefix. *)
Definition flush_stream (f : nat) : M Z :=
  st ← get_stream f;
  match st_pending st with
  | [] => mret 0
  | p =>
      let off := st_pos st - len p in
      let done := Stream (st_ino st) (st_writable st) (st_pos st) (st_dir st) [] in
      d ← pop;
      match d with
      | None => modify (disk_write (st_ino st) off p);; set_stream f done;; mret 0
      | Some e =>
          (if 0 <? fault_count e
           then modify (disk_write (st_ino st) off (take (Z.to_nat (fault_count e)) p))
           else mret tt);;
          set_stream f done;;
          set_errno (fault_errno e);; mret (-1)
      end
  end.

Definition fflush (f : nat) : M Z :=
  r ← flush_stream f;
  st ← get_stream f;
  set_stream f (Stream (st_ino st) (st_writable st) (st_pos st) Idle (st_pending st));;
  mret r.

Definition fseeko (f : nat) (off : Z) : M Z :=
  r ← flush_stream f;
  if negb (r =? 0) then mret (-1) else
  if off <? 0 then set_errno EINVAL;; mret (-1) else
  fallible (-1)
    (st ← get_stream f;
     set_stream f (Stream (st_ino st) (st_writable st) off Idle (st_pending st));;
     mret 0).

Definition inode_data (i : nat) : M (list byte) :=
  s ← get_sys; checked (i_data <$> s_inodes s !! i).

(** [fread] of [n] items of one byte: the bytes transferred. *)
Definition fread (f : nat) (n : Z) : M (list byte) :=
  st ← get_stream f;
  if decide (st_dir st = Writing) then undef else
  d ← inode_data (st_ino st);
  e ← pop;
  let avail := sub (st_pos st) n d in
  let got := match e with
             | None => avail
             | Some e => take (Z.to_nat (fault_count e)) avail
             end in
  (match e with Some e => set_errno (fault_errno e) | None => mret tt end);;
  set_stream f (Stream (st_ino st) (st_writable st) (st_pos st + len got) Reading (st_pending st));;
  mret got.

(** [fwrite] of [n] items of one byte: the number of items accepted. *)
Definition fwrite (x : list byte) (f : nat) : M Z :=
  st ← get_stream f;
  if decide (st_dir st = Reading) then undef else
  if negb (st_writable st) then set_errno EBADF;; mret 0 else
  e ← pop;
  let acc := match e with
             | None => x
             | Some e => take (Z.to_nat (fault_count e)) x
             end in
  (match e with Some e => set_errno (fault_errno e) | None => mret tt end);;
  set_stream f (Stream (st_ino st) true (st_pos st + len acc) Writing (st_pending st ++ acc));;
  mret (len acc).

(** [fclose]: the stream is gone whether or not the last flush succeeds. *)
Definition fclose (f : nat) : M Z :=
  r ← flush_stream f;
  modify (λ s, set_streams (delete f (s_streams s)) s);;
  if negb (r =? 0) then mret (-1) else fallible (-1) (mret 0).

(** [fopen] of an existing file, for reading ("rb") or updating ("rb+"). *)
Definition fopen_existing (path : list byte) (writable : bool) : M (option nat) :=
  fallible None
    (s ← get_sys;
     match s_names s !! path with
     | None => set_errno ENOENT;; mret None
     | Some i =>
         match s_inodes s !! i with
         | Some (Inode false _ _) =>
             let f := fresh (dom (s_streams s)) in
             set_stream f (Stream i writable 0 Idle []);;
             mret (Some f)
         | _ => set_errno EISDIR;; mret None
         end
     end).

(** ** Weakest preconditions *)

Definition ctl_ok (nf : bool) (c : ctl) : Prop := nf = true → c_faults c = [].

Definition wp {A} (nf : bool) (U : Prop) (m : M A) (Q : A → sys → Prop) (s : sys) : Prop :=
  ∀ c, ctl_ok nf c →
  match m s c with
  | Ret a s' c' => ctl_ok nf c' ∧ Q a s'
  | Undef => U
  | Diverge => False
  end.

(** [m] returns [a] in state [s'] when no call fails, whatever the
    environment's bytes are. *)
Definition returns {A} (m : M A) (s : sys) (Q : A → sys → Prop) : Prop := wp true False m Q s.

(** No run of [m] reaches undefined behaviour or fails to end, and every run's
    result satisfies [Q], whatever fails. *)
Definition always {A} (m : M A) (s : sys) (Q : A → sys → Prop) : Prop := wp false False m Q s.

Section WP.
Context (nf : bool) (U : Prop).

Lemma wp_ret {A} (a : A) Q s : Q a s → wp nf U (mret a) Q s.
Proof. by intros ? c ?. Qed.

Lemma wp_bind {A B} (m : M A) (k : A → M B) Q s :
  wp nf U m (λ a s', wp nf U (k a) Q s') s → wp nf U (m ≫= k) Q s.
Proof.
  intros H c Hc. specialize (H c Hc). unfold mbind, M_bind.
  destruct (m s c); [|done..]. destruct H as [Hc' H]. by apply H.
Qed.

Lemma wp_assoc {A B C} (m : M A) (k : A → M B) (h : B → M C) Q s :
  wp nf U ((m ≫= k) ≫= h) Q s → wp nf U (m ≫= λ a, k a ≫= h) Q s.
Proof.
  intros H c Hc. specialize (H c Hc). unfold mbind, M_bind in *. by destruct (m s c).
Qed.

Lemma wp_mono {A} (m : M A) (Q Q' : A → sys → Prop) s :
  wp nf U m Q s → (∀ a s', Q a s' → Q' a s') → wp nf U m Q' s.
Proof.
  intros H HQ c Hc. specialize (H c Hc). destruct (m s c); [|done..].
  destruct H; split; auto.
Qed.

Lemma wp_undef {A} Q s : U → wp nf U (undef : M A) Q s.
Proof. intros ? c ?. done. Qed.

Lemma wp_modify f Q s : Q tt (f s) → wp nf U (modify f) Q s.
Proof. intros ? c ?. done. Qed.

Lemma wp_set_errno e Q s : Q tt (set_errno_s e s) → wp nf U (set_errno e) Q s.
Proof. apply wp_modify. Qed.

Lemma wp_get_errno Q s : Q (s_errno s) s → wp nf U get_errno Q s.
Proof. intros ? c ?. done. Qed.

Lemma wp_get_sys Q s : Q s s → wp nf U get_sys Q s.
Proof. intros ? c ?. done. Qed.

Lemma wp_getenv x Q s : Q (s_env s !! x) s → wp nf U (getenv x) Q s.
Proof. intros ? c ?. done. Qed.

Lemma wp_pop Q s :
  Q None s → (nf = false → ∀ f, Q (Some f) s) → wp nf U pop Q s.
Proof.
  intros HN HF c Hc. unfold pop, ctl_ok in *. destruct (c_faults c) as [|[f|] fs] eqn:E.
  - by split.
  - destruct nf; [specialize (Hc eq_refl); congruence|]. split; [done|]. by apply HF.
  - destruct nf; [specialize (Hc eq_refl); congruence|]. by split.
Qed.

Lemma wp_draw n Q s :
  (∀ d, 0 ≤ n → len d = n → Q d s) → (n < 0 → Q [] s) → wp nf U (draw n) Q s.
Proof.
  intros H H' c Hc. split; [exact Hc|]. destruct (decide (0 ≤ n)).
  - apply H; [done|]. rewrite length_fmap, length_seq. lia.
  - replace (Z.to_nat n) with 0%nat by lia. apply H'. lia.
Qed.

Lemma wp_checked_some {A} (o : option A) a Q s : o = Some a → Q a s → wp nf U (checked o) Q s.
Proof. intros ->. apply wp_ret. Qed.

Lemma wp_checked {A} (o : option A) Q s :
  (o = None → U) → (∀ a, o = Some a → Q a s) → wp nf U (checked o) Q s.
Proof. intros. destruct o; [apply wp_ret; auto|apply wp_undef; auto]. Qed.

Lemma wp_fallible {A} err (run : M A) Q s :
  (nf = false → ∀ e, Q err (set_errno_s e s)) → wp nf U run Q s → wp nf U (fallible err run) Q s.
Proof.
  intros HF HR. apply wp_bind, wp_pop; [done|]. intros Hnf f.
  apply wp_bind, wp_set_errno, wp_ret. auto.
Qed.

Lemma wp_leave d Q s :
  Q tt (set_residue (s_residue s ++ [d]) s) → wp nf U (leave d) Q s.
Proof. apply wp_modify. Qed.
End WP.

Lemma returns_run {A} (m : M A) s c Q :
  returns m s Q → c_faults c = [] → ∃ a s' c', m s c = Ret a s' c' ∧ Q a s'.
Proof.
  intros H Hc. specialize (H c (λ _, Hc)). destruct (m s c); [|done..].
  destruct H. eauto.
Qed.

Lemma always_run {A} (m : M A) s c Q :
  always m s Q → ∃ a s' c', m s c = Ret a s' c' ∧ Q a s'.
Proof.
  intros H. specialize (H c ltac:(done)). destruct (m s c); [|done..].
  destruct H. eauto.
Qed.

(** Equations between states. *)
Lemma set_errno_id s : set_errno_s (s_errno s) s = s.
Proof. by destruct s. Qed.

Lemma set_errno_idemp e e' s : set_errno_s e (set_errno_s e' s) = set_errno_s e s.
Proof. done. Qed.

Lemma set_live_alloc i s : i ∉ s_live s → set_live (s_live (alloc_s i s) ∖ {[i]}) (alloc_s i s) = s.
Proof.
  intros. unfold alloc_s, set_live. destruct s as [? ? ? ? L]; cbn in *. f_equal.
  apply leibniz_equiv. set_solver.
Qed.

(** ** Rules for memory *)

(** More residue. *)
Definition leaves (l : list (list byte)) (s : sys) : sys := set_residue (s_residue s ++ l) s.

Lemma leaves_leaves l l' s : leaves l' (leaves l s) = leaves (l ++ l') s.
Proof. unfold leaves, set_residue. cbn. by rewrite app_assoc. Qed.

Lemma leaves_nil s : leaves [] s = s.
Proof. unfold leaves, set_residue. rewrite app_nil_r. by destruct s. Qed.

Definition free_s (p : buf) (s : sys) : sys :=
  leaves [b_data p] (set_live (s_live s ∖ {[b_id p]}) s).

Section MemoryRules.
Context (nf : bool) (U : Prop).

Lemma wp_new_id Q s : (∀ i, i ∉ s_live s → Q i (alloc_s i s)) → wp nf U new_id Q s.
Proof. intros HQ. apply wp_bind, wp_get_sys, wp_bind, wp_modify, wp_ret, HQ, is_fresh. Qed.

Lemma wp_new_block d Q s :
  (∀ i, i ∉ s_live s → Q (Some (Buf i d)) (alloc_s i s)) → wp nf U (new_block d) Q s.
Proof. intros HQ. apply wp_bind, wp_new_id. intros. apply wp_ret. auto. Qed.

Lemma wp_malloc n Q s :
  0 ≤ n →
  (nf = false → ∀ e, Q None (set_errno_s e s)) →
  (∀ i d, i ∉ s_live s → len d = n → Q (Some (Buf i d)) (alloc_s i s)) →
  wp nf U (malloc n) Q s.
Proof.
  intros Hn HF HR. apply wp_fallible; [done|]. apply wp_bind, wp_draw; [|lia].
  intros. apply wp_new_block. auto.
Qed.

Lemma wp_calloc n Q s :
  (nf = false → ∀ e, Q None (set_errno_s e s)) →
  (∀ i, i ∉ s_live s → Q (Some (Buf i (zeros n))) (alloc_s i s)) →
  wp nf U (calloc n) Q s.
Proof. intros. apply wp_fallible; [done|]. by apply wp_new_block. Qed.

Lemma wp_free_null Q s : Q tt s → wp nf U (free None) Q s.
Proof. apply wp_ret. Qed.

Lemma wp_free p Q s :
  b_id p ∈ s_live s → Q tt (free_s p s) → wp nf U (free (Some p)) Q s.
Proof.
  intros Hl HQ. apply wp_bind, wp_get_sys. rewrite decide_True by done.
  apply wp_bind, wp_modify, wp_leave. done.
Qed.

Lemma load_some off n d : 0 ≤ off → 0 ≤ n → off + n ≤ len d → load off n d = Some (sub off n d).
Proof.
  intros. unfold load.
  by rewrite (proj2 (Z.leb_le _ _)), (proj2 (Z.leb_le 0 n)), (proj2 (Z.leb_le _ (len d))) by lia.
Qed.

Lemma store_some off x d : 0 ≤ off → off + len x ≤ len d → store off x d = Some (splice off x d).
Proof.
  intros. unfold store.
  by rewrite (proj2 (Z.leb_le _ _)), (proj2 (Z.leb_le _ (len d))) by lia.
Qed.

Lemma store_inv off x d d' :
  store off x d = Some d' → 0 ≤ off ∧ off + len x ≤ len d ∧ d' = splice off x d.
Proof.
  unfold store. intros H.
  destruct (Z.leb_spec 0 off), (Z.leb_spec (off + len x) (len d)); simplify_eq/=. done.
Qed.

Lemma load_inv off n d d' :
  load off n d = Some d' → 0 ≤ off ∧ 0 ≤ n ∧ off + n ≤ len d ∧ d' = sub off n d.
Proof.
  unfold load. intros H.
  destruct (Z.leb_spec 0 off), (Z.leb_spec 0 n), (Z.leb_spec (off + n) (len d)); simplify_eq/=.
  done.
Qed.

Lemma wp_bstore off x p Q s :
  0 ≤ off → off + len x ≤ len (b_data p) →
  Q (Buf (b_id p) (splice off x (b_data p))) s → wp nf U (bstore off x p) Q s.
Proof.
  intros. apply wp_bind. eapply wp_checked_some; [by apply store_some|]. by apply wp_ret.
Qed.

Lemma wp_bload off n p Q s :
  0 ≤ off → 0 ≤ n → off + n ≤ len (b_data p) →
  Q (sub off n (b_data p)) s → wp nf U (bload off n p) Q s.
Proof. intros. eapply wp_checked_some; [by apply load_some|]. done. Qed.
End MemoryRules.

(** Two stores, one behind the other. *)
Lemma store_update_final (out fin d : list byte) :
  len out + len fin ≤ len d →
  store 0 out d = Some (splice 0 out d) ∧
  store (len out) fin (splice 0 out d) = Some (splice 0 (out ++ fin) d).
Proof.
  intros. split; [apply store_some; lia|].
  rewrite store_some; [|lia|rewrite len_splice by lia; lia]. f_equal. apply (splice_splice_end 0); lia.
Qed.

(** ** Rules for streams *)

Definition upd_stream (f : nat) (st : stream) (s : sys) : sys :=
  set_streams (<[f := st]> (s_streams s)) s.

(** The stream after its buffer was emptied. *)
Definition drained (st : stream) : stream :=
  Stream (st_ino st) (st_writable st) (st_pos st) (st_dir st) [].

(** The state after a flush that transferred [x], a prefix of the buffer. *)
Definition flushed (f : nat) (st : stream) (x : list byte) (s : sys) : sys :=
  upd_stream f (drained st) (disk_write (st_ino st) (st_pos st - len (st_pending st)) x s).

Definition at_pos (st : stream) (pos : Z) (d : direction) : stream :=
  Stream (st_ino st) (st_writable st) pos d [].

Section StreamRules.
Context (nf : bool) (U : Prop).

Lemma wp_get_stream f st Q s : s_streams s !! f = Some st → Q st s → wp nf U (get_stream f) Q s.
Proof. intros. apply wp_bind, wp_get_sys. by eapply wp_checked_some. Qed.

Lemma wp_flush_clean f st Q s :
  s_streams s !! f = Some st → st_pending st = [] → Q 0 s → wp nf U (flush_stream f) Q s.
Proof. intros ? Hp ?. apply wp_bind, (wp_get_stream _ st); [done|]. rewrite Hp. by apply wp_ret. Qed.

(** A flush of a non-empty buffer: it all arrives, or a prefix of it does. *)
Lemma wp_flush_dirty f st Q s :
  s_streams s !! f = Some st → st_pending st ≠ [] →
  Q 0 (flushed f st (st_pending st) s) →
  (nf = false → ∀ e, Q (-1) (set_errno_s e (upd_stream f (drained st) s))) →
  (nf = false → ∀ e k, Q (-1) (set_errno_s e (flushed f st (take k (st_pending st)) s))) →
  wp nf U (flush_stream f) Q s.
Proof.
  intros Hs Hp HQ HN HT. apply wp_bind, (wp_get_stream _ st); [done|].
  destruct (st_pending st) as [|x p] eqn:E; [done|]. clear Hp.
  apply wp_bind, wp_pop.
  - apply wp_bind, wp_modify, wp_bind, wp_modify, wp_ret.
    unfold flushed, drained, upd_stream in HQ. by rewrite E in HQ.
  - intros Hnf e. apply wp_bind. destruct (0 <? fault_count e).
    + apply wp_modify, wp_bind, wp_modify, wp_bind, wp_set_errno, wp_ret.
      unfold flushed, drained, upd_stream in HT. rewrite E in HT. by apply HT.
    + apply wp_ret, wp_bind, wp_modify, wp_bind, wp_set_errno, wp_ret. by apply HN.
Qed.

Lemma wp_fseeko_clean f st off Q s :
  s_streams s !! f = Some st → st_pending st = [] →
  (nf = false ∨ off < 0 → ∀ e, Q (-1) (set_errno_s e s)) →
  (0 ≤ off → Q 0 (upd_stream f (at_pos st off Idle) s)) →
  wp nf U (fseeko f off) Q s.
Proof.
  intros Hs Hp HF HQ. apply wp_bind. eapply wp_flush_clean; [done..|]. cbn.
  destruct (Z.ltb_spec off 0).
  - apply wp_bind, wp_set_errno, wp_ret. auto.
  - apply wp_fallible; [auto|]. apply wp_bind, (wp_get_stream _ st); [done|].
    rewrite Hp. apply wp_bind, wp_modify, wp_ret. by apply HQ.
Qed.

Lemma wp_fread f st n d Q s :
  s_streams s !! f = Some st → st_pending st = [] → st_dir st ≠ Writing →
  i_data <$> s_inodes s !! st_ino st = Some d →
  (nf = false → ∀ e k, let x := take k (sub (st_pos st) n d) in
     Q x (upd_stream f (at_pos st (st_pos st + len x) Reading) (set_errno_s e s))) →
  (let x := sub (st_pos st) n d in
   Q x (upd_stream f (at_pos st (st_pos st + len x) Reading) s)) →
  wp nf U (fread f n) Q s.
Proof.
  intros Hs Hp Hd Hi HF HQ. apply wp_bind, (wp_get_stream _ st); [done|].
  rewrite decide_False by done. apply wp_bind, wp_bind, wp_get_sys.
  eapply wp_checked_some; [done|]. rewrite Hp.
  apply wp_bind, wp_pop.
  - apply wp_bind, wp_ret, wp_bind, wp_modify, wp_ret. done.
  - intros Hnf e. apply wp_bind, wp_set_errno, wp_bind, wp_modify, wp_ret. by apply HF.
Qed.

Definition written (st : stream) (x : list byte) : stream :=
  Stream (st_ino st) true (st_pos st + len x) Writing (st_pending st ++ x).

Lemma wp_fwrite x f st Q s :
  s_streams s !! f = Some st → st_writable st = true → st_dir st ≠ Reading →
  (nf = false → ∀ e k, Q (len (take k x)) (upd_stream f (written st (take k x)) (set_errno_s e s))) →
  Q (len x) (upd_stream f (written st x) s) →
  wp nf U (fwrite x f) Q s.
Proof.
  intros Hs Hw Hd HF HQ. apply wp_bind, (wp_get_stream _ st); [done|].
  rewrite decide_False by done. rewrite Hw. cbn.
  apply wp_bind, wp_pop.
  - apply wp_bind, wp_ret, wp_bind, wp_modify, wp_ret. done.
  - intros Hnf e. apply wp_bind, wp_set_errno, wp_bind, wp_modify, wp_ret. by apply HF.
Qed.

Lemma wp_fclose_clean f st Q s :
  s_streams s !! f = Some st → st_pending st = [] →
  (nf = false → ∀ e, Q (-1) (set_errno_s e (set_streams (delete f (s_streams s)) s))) →
  Q 0 (set_streams (delete f (s_streams s)) s) →
  wp nf U (fclose f) Q s.
Proof.
  intros. apply wp_bind. eapply wp_flush_clean; [done..|].
  apply wp_bind, wp_modify. cbn. apply wp_fallible; [done|]. by apply wp_ret.
Qed.

Lemma wp_fopen_existing path wr Q s :
  (∀ e, Q None (set_errno_s e s)) →
  (∀ i m d, s_names s !! path = Some i → s_inodes s !! i = Some (Inode false m d) →
     ∀ f, s_streams s !! f = None → Q (Some f) (upd_stream f (Stream i wr 0 Idle []) s)) →
  wp nf U (fopen_existing path wr) Q s.
Proof.
  intros HF HQ. apply wp_fallible; [auto|]. apply wp_bind, wp_get_sys.
  destruct (s_names s !! path) as [i|] eqn:Hn.
  2: { apply wp_bind, wp_set_errno, wp_ret. auto. }
  destruct (s_inodes s !! i) as [[[] m d]|] eqn:Hi.
  - apply wp_bind, wp_set_errno, wp_ret. auto.
  - apply wp_bind, wp_modify, wp_ret. eapply HQ; [done..|]. apply not_elem_of_dom, is_fresh.
  - apply wp_bind, wp_set_errno, wp_ret. auto.
Qed.

Lemma wp_fopen_found path wr i m d Q s :
  s_names s !! path = Some i → s_inodes s !! i = Some (Inode false m d) →
  (nf = false → ∀ e, Q None (set_errno_s e s)) →
  (∀ f, s_streams s !! f = None → Q (Some f) (upd_stream f (Stream i wr 0 Idle []) s)) →
  wp nf U (fopen_existing path wr) Q s.
Proof.
  intros Hn Hi HF HQ. apply wp_fallible; [auto|]. apply wp_bind, wp_get_sys.
  rewrite Hn, Hi. apply wp_bind, wp_modify, wp_ret, HQ. apply not_elem_of_dom, is_fresh.
Qed.
End StreamRules.

(** ** A function that only reads

    While a function reads from one stream and uses the heap, its state has the
    form [rd f st B e p d]: the base [B] with [errno] [e] and the stream [f], which
    was [st] at first, at position [p]. *)

Definition rd (f : nat) (st : stream) (B : sys) (e p : Z) (d : direction) : sys :=
  set_errno_s e (upd_stream f (at_pos st p d) B).

Section ReadRules.
Context (nf : bool) (U : Prop) (f : nat) (st : stream).

Lemma rd_intro B : s_streams B !! f = Some st → st_pending st = [] →
  B = rd f st B (s_errno B) (st_pos st) (st_dir st).
Proof.
  intros Hs Hp. unfold rd, upd_stream, at_pos. rewrite <- Hp.
  rewrite insert_id by (rewrite Hs; by destruct st). by destruct B.
Qed.

Lemma rd_stream B e p d : s_streams (rd f st B e p d) !! f = Some (at_pos st p d).
Proof. apply lookup_insert_eq. Qed.

Lemma rd_upd B e p d p' d' :
  upd_stream f (at_pos (at_pos st p d) p' d') (rd f st B e p d) = rd f st B e p' d'.
Proof. unfold rd, upd_stream, set_errno_s, set_streams, at_pos. cbn. by rewrite insert_insert_eq. Qed.

Lemma rd_errno B e e' p d : set_errno_s e' (rd f st B e p d) = rd f st B e' p d.
Proof. done. Qed.

Lemma wp_rd_fseeko B e p d off Q :
  (nf = false ∨ off < 0 → ∀ e', Q (-1) (rd f st B e' p d)) →
  (0 ≤ off → Q 0 (rd f st B e off Idle)) →
  wp nf U (fseeko f off) Q (rd f st B e p d).
Proof.
  intros HF HQ. eapply wp_fseeko_clean; [apply rd_stream|done| |].
  - intros H e'. rewrite rd_errno. auto.
  - intros H. rewrite rd_upd. auto.
Qed.

(** A read returns a prefix of the bytes at the position, all of them when
    nothing fails. *)
Lemma wp_rd_fread B e p d n x Q :
  d ≠ Writing → i_data <$> s_inodes B !! st_ino st = Some x →
  (nf = false → ∀ e' k, let got := take k (sub p n x) in
     Q got (rd f st B e' (p + len got) Reading)) →
  (let got := sub p n x in Q got (rd f st B e (p + len got) Reading)) →
  wp nf U (fread f n) Q (rd f st B e p d).
Proof.
  intros Hd Hx HF HQ. eapply wp_fread; [apply rd_stream|done|done|exact Hx| |].
  - intros H e' k got. rewrite rd_errno, rd_upd. by apply HF.
  - intros got. rewrite rd_upd. apply HQ.
Qed.

Lemma wp_rd_fclose B e p d Q :
  s_streams B !! f = None →
  (∀ r e', Q r (set_errno_s e' B)) →
  wp nf U (fclose f) Q (rd f st B e p d).
Proof.
  intros HB HQ.
  assert (∀ e', set_errno_s e' (set_streams (delete f (s_streams (rd f st B e p d))) (rd f st B e p d))
                = set_errno_s e' B) as Heq.
  { intros e'. unfold rd, upd_stream, set_errno_s, set_streams. cbn.
    rewrite delete_insert_eq, delete_id by done. by destruct B. }
  eapply wp_fclose_clean; [apply rd_stream|done| |].
  - intros Hn e'. rewrite Heq. apply HQ.
  - specialize (Heq e).
    assert (set_streams (delete f (s_streams (rd f st B e p d))) (rd f st B e p d) = set_errno_s e B) as ->;
      [exact Heq|apply HQ].
Qed.

Lemma rd_alloc B e p d i : alloc_s i (rd f st B e p d) = rd f st (alloc_s i B) e p d.
Proof. done. Qed.

Lemma rd_free B e p d x : free_s x (rd f st B e p d) = rd f st (free_s x B) e p d.
Proof. done. Qed.

Lemma rd_leaves B e p d x : leaves x (rd f st B e p d) = rd f st (leaves x B) e p d.
Proof. done. Qed.
End ReadRules.

(** ** A function that writes one file

    [disk i m x W B] is [B] after the writes [W] reached the regular file [i], which
    held [x]; [ws] is that state with [errno] [e] and the open stream [f]. *)

Definition replay (x : list byte) (W : list diskwrite) : list byte :=
  foldl (λ d w, file_write (dw_off w) (dw_data w) d) x W.

Definition disk (i : nat) (m : Z) (x : list byte) (W : list diskwrite) (B : sys) : sys :=
  set_log (s_log B ++ W) (set_inodes (<[i := Inode false m (replay x W)]> (s_inodes B)) B).

Lemma disk_nil i m x B : s_inodes B !! i = Some (Inode false m x) → disk i m x [] B = B.
Proof. intros Hi. unfold disk. cbn. rewrite app_nil_r, insert_id by done. by destruct B. Qed.

Lemma replay_app x W W' : replay x (W ++ W') = replay (replay x W) W'.
Proof. apply foldl_app. Qed.

(** The write a flush of the stream performs, and what of it may arrive. *)
Definition pend (st : stream) : list diskwrite :=
  match st_pending st with
  | [] => []
  | p => [DiskWrite (st_ino st) (st_pos st - len p) p]
  end.

Definition torn (W W' : list diskwrite) : Prop :=
  match W with
  | [] => W' = []
  | w :: _ => W' = [] ∨ ∃ k, W' = [DiskWrite (dw_ino w) (dw_off w) (take k (dw_data w))]
  end.

Lemma torn_all st : torn (pend st) (pend st).
Proof.
  unfold pend. destruct (st_pending st) as [|b p]; [done|]. right. exists (length (b :: p)). cbn [dw_data dw_ino dw_off].
  by rewrite take_ge.
Qed.

(** What has arrived of a sequence of writes: some whole, one torn, the rest not. *)
Fixpoint arrived (P W : list diskwrite) : Prop :=
  match P with
  | [] => W = []
  | w :: P => torn [w] W ∨ ∃ W', W = w :: W' ∧ arrived P W'
  end.

Lemma arrived_nil P : arrived P [].
Proof. destruct P; [done|]. left. by left. Qed.

Lemma arrived_all P : arrived P P.
Proof. induction P; [done|]. right. eauto. Qed.

Lemma torn_arrived w P W : torn [w] W → arrived (w :: P) W.
Proof. by left. Qed.

Lemma arrived_app P P' W : arrived P' W → arrived (P ++ P') (P ++ W).
Proof. intros. induction P; [done|]. right. eauto. Qed.

Lemma torn_pend_arrived st P W : torn (pend st) W → arrived (pend st ++ P) W.
Proof.
  unfold pend. destruct (st_pending st); cbn [app]; [intros ->; apply arrived_nil|apply torn_arrived].
Qed.

Definition ws (f : nat) (i : nat) (m : Z) (x : list byte) (B : sys) (st : stream) (W : list diskwrite)
    (e : Z) : sys := set_errno_s e (upd_stream f st (disk i m x W B)).

Section WriteRules.
Context (nf : bool) (U : Prop) (f i : nat) (m : Z) (x : list byte) (B : sys).
Implicit Types (st : stream) (W : list diskwrite).
Local Abbreviation ws := (ws f i m x B).

Lemma ws_stream st W e : s_streams (ws st W e) !! f = Some st.
Proof. apply lookup_insert_eq. Qed.

Lemma ws_upd st st' W e : upd_stream f st' (ws st W e) = ws st' W e.
Proof. unfold World.ws, upd_stream, set_errno_s, set_streams. cbn. by rewrite insert_insert_eq. Qed.

Lemma ws_write st W e off d :
  disk_write i off d (ws st W e) = ws st (W ++ [DiskWrite i off d]) e.
Proof.
  unfold disk_write. cbn. rewrite lookup_insert_eq. cbn. unfold World.ws, disk, upd_stream, set_errno_s, set_streams, set_log, set_inodes.
  cbn. by rewrite insert_insert_eq, replay_app, <- app_assoc.
Qed.

Lemma wp_ws_flush st W e Q :
  st_ino st = i →
  Q 0 (ws (drained st) (W ++ pend st) e) →
  (nf = false → ∀ e' W', torn (pend st) W' → Q (-1) (ws (drained st) (W ++ W') e')) →
  wp nf U (flush_stream f) Q (ws st W e).
Proof.
  intros Hi HQ HF. unfold pend in *. destruct (st_pending st) as [|b p] eqn:Ep.
  - eapply wp_flush_clean; [apply ws_stream|done|].
    rewrite app_nil_r in HQ. replace (drained st) with st in HQ by (destruct st; cbn in *; by subst). done.
  - assert (∀ d, flushed f st d (ws st W e)
      = ws (drained st) (W ++ [DiskWrite i (st_pos st - len (b :: p)) d]) e) as Hfl.
    { intros d. unfold flushed. by rewrite Hi, Ep, ws_write, ws_upd. }
    rewrite Hi in *.
    eapply wp_flush_dirty; [apply ws_stream|by rewrite Ep| | |].
    + rewrite Hfl, Ep. apply HQ.
    + intros Hnf e'. rewrite ws_upd. specialize (HF Hnf e' []). rewrite app_nil_r in HF.
      apply HF. by left.
    + intros Hnf e' k. rewrite Hfl, Ep. apply HF; [done|]. right. by exists k.
Qed.

Lemma wp_ws_fseeko st W e off Q :
  st_ino st = i → 0 ≤ off →
  (nf = false → ∀ e' W', torn (pend st) W' → Q (-1) (ws (drained st) (W ++ W') e')) →
  Q 0 (ws (at_pos st off Idle) (W ++ pend st) e) →
  wp nf U (fseeko f off) Q (ws st W e).
Proof.
  intros Hi Ho HF HQ. apply wp_bind, wp_ws_flush; [done|..].
  - cbn [negb Z.eqb]. rewrite (proj2 (Z.ltb_ge _ _)) by done. apply wp_fallible.
    + intros Hnf e'. apply (HF Hnf e'), torn_all.
    + apply wp_bind. eapply wp_get_stream; [apply ws_stream|]. apply wp_bind, wp_modify, wp_ret.
      change (Q 0 (upd_stream f (at_pos st off Idle) (ws (drained st) (W ++ pend st) e))).
      by rewrite ws_upd.
  - intros Hnf e' W' HW. apply wp_ret. by apply HF.
Qed.

Lemma wp_ws_fwrite d st W e Q :
  st_writable st = true → st_dir st ≠ Reading →
  (nf = false → ∀ e' k, Q (len (take k d)) (ws (written st (take k d)) W e')) →
  Q (len d) (ws (written st d) W e) →
  wp nf U (fwrite d f) Q (ws st W e).
Proof.
  intros Hw Hd HF HQ. eapply wp_fwrite; [apply ws_stream|done|done| |].
  - intros Hnf e' k. specialize (HF Hnf e' k).
    change (set_errno_s e' (ws st W e)) with (ws st W e'). by rewrite ws_upd.
  - by rewrite ws_upd.
Qed.

Lemma wp_ws_fclose st W e Q :
  st_ino st = i → s_streams B !! f = None →
  (nf = false → ∀ r e' W', torn (pend st) W' → Q r (set_errno_s e' (disk i m x (W ++ W') B))) →
  Q 0 (set_errno_s e (disk i m x (W ++ pend st) B)) →
  wp nf U (fclose f) Q (ws st W e).
Proof.
  intros Hi HB HF HQ.
  assert (∀ st' W' e', set_streams (delete f (s_streams (ws st' W' e'))) (ws st' W' e')
                    = set_errno_s e' (disk i m x W' B)) as Hdel.
  { intros st' W' e'. unfold World.ws, disk, upd_stream, set_errno_s, set_streams, set_log, set_inodes. cbn.
    by rewrite delete_insert_eq, delete_id by done. }
  apply wp_bind, wp_ws_flush; [done|..].
  - apply wp_bind, wp_modify. rewrite Hdel. cbn [negb Z.eqb]. apply wp_fallible.
    + intros Hnf e'. apply (HF Hnf), torn_all.
    + by apply wp_ret.
  - intros Hnf e' W' HW. apply wp_bind, wp_modify. rewrite Hdel. apply wp_ret. by apply HF.
Qed.

Lemma wp_ws_fflush st W e Q :
  st_ino st = i →
  (nf = false → ∀ e' st' W', st_ino st' = i → Q (-1) (ws st' (W ++ W') e')) →
  Q 0 (ws (at_pos st (st_pos st) Idle) (W ++ pend st) e) →
  wp nf U (fflush f) Q (ws st W e).
Proof.
  intros Hi HF HQ. apply wp_bind, wp_ws_flush; [done|..].
  - apply wp_bind. eapply wp_get_stream; [apply ws_stream|]. apply wp_bind, wp_modify, wp_ret.
    change (Q 0 (upd_stream f (at_pos st (st_pos st) Idle) (ws (drained st) (W ++ pend st) e))).
    by rewrite ws_upd.
  - intros Hnf e' W' HW. apply wp_bind. eapply wp_get_stream; [apply ws_stream|].
    apply wp_bind, wp_modify, wp_ret.
    change (Q (-1) (upd_stream f (at_pos st (st_pos st) Idle) (ws (drained st) (W ++ W') e'))).
    rewrite ws_upd. by apply HF.
Qed.
End WriteRules.
