(* ===== verification/Codec.v ===== *)
(** * Integer codecs and byte helpers of [src/src/padlock.c]

    [align16], the little-endian [put_u32]/[get_u32]/[put_u64]/[get_u64], the
    branch-free comparison and the zeroing loop.  Buffers are bounds-checked:
    [None] is an access outside the object.  The lemmas relate the loops to the
    reference encoding [le_split]/[le_combine]. *)

From S2P Require Import Prelude World.
Import LittleEndianList.

(** [~15u] has type [unsigned int]; widened to 64 bits it is 0xFFFFFFF0. *)
Definition align16 (value : Z) : Z := Z.land (u64 (value + 15)) (2 ^ 32 - 1 - 15).

Definition put_u32 (off value : Z) (target : list byte) : option (list byte) :=
  t0 ← store off [zbyte (Z.land value 0xff)] target;
  t1 ← store (off + 1) [zbyte (Z.land (Z.shiftr value 8) 0xff)] t0;
  t2 ← store (off + 2) [zbyte (Z.land (Z.shiftr value 16) 0xff)] t1;
  store (off + 3) [zbyte (Z.land (Z.shiftr value 24) 0xff)] t2.

(** One byte of a buffer. *)
Definition byte_at (i : Z) (d : list byte) : option byte :=
  if 0 <=? i then d !! Z.to_nat i else None.

Definition get_u32 (off : Z) (source : list byte) : option Z :=
  b0 ← byte_at off source;
  b1 ← byte_at (off + 1) source;
  b2 ← byte_at (off + 2) source;
  b3 ← byte_at (off + 3) source;
  Some (Z.lor (Z.lor (Z.lor (bval b0) (u32 (Z.shiftl (bval b1) 8)))
                     (u32 (Z.shiftl (bval b2) 16)))
              (u32 (Z.shiftl (bval b3) 24))).

Definition put_u64 (off value : Z) (target : list byte) : option (list byte) :=
  foldl (λ t index,
           t ← t; store (off + index) [zbyte (Z.land (Z.shiftr value (index * 8)) 0xff)] t)
        (Some target) (seqZ 0 8).

Definition get_u64 (off : Z) (source : list byte) : option Z :=
  foldl (λ v index,
           v ← v; x ← byte_at (off + index) source;
           Some (Z.lor v (u64 (Z.shiftl (bval x) (index * 8)))))
        (Some 0) (seqZ 0 8).

(** The comparison loop: [n] iterations from [index], accumulating [diff]. *)
Fixpoint compare_loop (n : nat) (index : Z) (left right : list byte) (diff : Z) : option Z :=
  match n with
  | O => Some diff
  | S n =>
      l ← byte_at index left;
      r ← byte_at index right;
      compare_loop n (index + 1) left right (u8 (Z.lor diff (u8 (Z.lxor (bval l) (bval r)))))
  end.

Definition padlock_constant_time_equals (left right : option (list byte)) (length : Z) : option Z :=
  match left, right with
  | Some l, Some r =>
      diff ← compare_loop (Z.to_nat length) 0 l r 0;
      Some (if diff =? 0 then 1 else 0)
  | None, None => Some (if length =? 0 then 1 else 0)
  | _, _ => Some 0
  end.

(** The zeroing loop: [n] stores from [i]. *)
Fixpoint zero_loop (n : nat) (i : Z) (d : list byte) : option (list byte) :=
  match n with
  | O => Some d
  | S n => d ← store i [Byte.x00] d; zero_loop n (i + 1) d
  end.

(** [padlock_secure_zero] on an object, which is what the library itself passes. *)
Definition padlock_secure_zero (buffer : list byte) (length : Z) : option (list byte) :=
  zero_loop (Z.to_nat length) 0 buffer.

(** [padlock_secure_zero] on any pointer: a null pointer is left alone. *)
Definition secure_zero_pointer (buffer : option (list byte)) (length : Z) : option (option (list byte)) :=
  match buffer with
  | None => Some None
  | Some b => d ← padlock_secure_zero b length; Some (Some d)
  end.

(** ** [align16] *)

Lemma align16_land v : 0 ≤ v → v + 15 < 2 ^ 64 →
  align16 v = ((v + 15) / 16 * 16) mod 2 ^ 32.
Proof.
  intros Hv Hb. unfold align16. rewrite u64_small by lia.
  replace (2 ^ 32 - 1 - 15) with (Z.shiftl (Z.ones 28) 4) by reflexivity.
  rewrite <- Z.land_ones by lia.
  replace ((v + 15) / 16 * 16) with (Z.shiftl (Z.shiftr (v + 15) 4) 4)
    by (rewrite Z.shiftl_mul_pow2, Z.shiftr_div_pow2 by lia; reflexivity).
  apply Z.bits_inj'. intros i Hi. rewrite !Z.land_spec.
  destruct (decide (i < 4)).
  - rewrite !Z.shiftl_spec_low by lia. by rewrite !andb_false_r.
  - rewrite !Z.shiftl_spec, Z.shiftr_spec by lia.
    replace (i - 4 + 4) with i by lia. f_equal.
    destruct (decide (i < 32)).
    + rewrite !Z.ones_spec_low by lia. done.
    + rewrite !Z.ones_spec_high by lia. done.
Qed.

(** Below [2^32 - 15], [align16] rounds up to a multiple of 16. *)
Lemma align16_spec v :
  0 ≤ v ≤ 2 ^ 32 - 16 → v ≤ align16 v < v + 16 ∧ (16 | align16 v).
Proof.
  intros Hv. rewrite align16_land by lia.
  pose proof (Z.div_mod (v + 15) 16 ltac:(lia)).
  pose proof (Z.mod_pos_bound (v + 15) 16 ltac:(lia)).
  rewrite Z.mod_small by lia. split; [lia|]. by exists ((v + 15) / 16).
Qed.

Lemma align16_mono v w : 0 ≤ v ≤ w → w ≤ 2 ^ 32 - 16 → align16 v ≤ align16 w.
Proof.
  intros. destruct (align16_spec v) as [? [a Ha]]; [lia|].
  destruct (align16_spec w) as [? [c Hc]]; [lia|]. lia.
Qed.

Lemma align16_range v : 0 ≤ align16 v < 2 ^ 32.
Proof.
  unfold align16. replace (2 ^ 32 - 1 - 15) with (Z.land (Z.ones 32) (2 ^ 32 - 1 - 15)) by reflexivity.
  rewrite Z.land_assoc, (Z.land_comm _ (Z.ones 32)), <- Z.land_assoc, Z.land_comm, Z.land_ones by lia.
  apply Z.mod_pos_bound. lia.
Qed.

(** The mask drops the bits from 32 up. *)
Lemma align16_wraps v : 2 ^ 32 ≤ v < 2 ^ 32 + 2 ^ 31 → align16 v = align16 (v - 2 ^ 32).
Proof.
  intros Hv. rewrite !align16_land by lia.
  replace (v - 2 ^ 32 + 15) with (v + 15 + (- 2 ^ 28) * 16) by lia. rewrite Z.div_add by lia.
  replace (((v + 15) / 16 + - 2 ^ 28) * 16) with ((v + 15) / 16 * 16 + (-1) * 2 ^ 32) by lia.
  by rewrite Z_mod_plus_full.
Qed.

Lemma align16_div v : (16 | align16 v).
Proof.
  unfold align16. replace (2 ^ 32 - 1 - 15) with (Z.shiftl (Z.ones 28) 4) by reflexivity.
  apply Z.mod_divide; [lia|]. change 16 with (2 ^ 4). rewrite <- Z.land_ones by lia.
  apply Z.bits_inj'. intros i Hi. rewrite !Z.land_spec, Z.bits_0.
  destruct (decide (i < 4)).
  - rewrite Z.shiftl_spec_low by lia. by rewrite andb_false_r.
  - rewrite (Z.ones_spec_high 4) by lia. by rewrite andb_false_r.
Qed.

(** ** Little-endian encoding *)

Lemma zbyte_land_ff z : zbyte (Z.land z 0xff) = zbyte z.
Proof.
  apply (inj bval). rewrite !bval_zbyte. change 0xff with (Z.ones 8).
  rewrite Z.land_ones by lia. by rewrite Z.mod_mod.
Qed.

Lemma le_split_4 v :
  le_split 4 v = [zbyte v; zbyte (Z.shiftr v 8); zbyte (Z.shiftr v 16); zbyte (Z.shiftr v 24)].
Proof. cbv [le_split]. by rewrite !Z.shiftr_shiftr by lia. Qed.

Lemma le_split_8 v :
  le_split 8 v = [zbyte v; zbyte (Z.shiftr v 8); zbyte (Z.shiftr v 16); zbyte (Z.shiftr v 24);
                  zbyte (Z.shiftr v 32); zbyte (Z.shiftr v 40); zbyte (Z.shiftr v 48); zbyte (Z.shiftr v 56)].
Proof. cbv [le_split]. by rewrite !Z.shiftr_shiftr by lia. Qed.

Lemma splice_snoc (off : Z) (x : list byte) y d :
  0 ≤ off → off + len x + 1 ≤ len d →
  splice (off + len x) [y] (splice off x d) = splice off (x ++ [y]) d.
Proof. intros. apply splice_splice_end; [lia|]. cbn. lia. Qed.

Lemma store_snoc off (x : list byte) y d d' :
  store off x d = Some d' → off + len x + 1 ≤ len d →
  store (off + len x) [y] d' = store off (x ++ [y]) d.
Proof.
  intros (? & ? & ->)%store_inv ?. rewrite !store_some; try (autorewrite with len; cbn; lia).
  - by rewrite splice_snoc by lia.
  - rewrite len_splice by lia. cbn. lia.
Qed.

Lemma store_bound_none off (x d : list byte) : 0 ≤ off → len d < off + len x → store off x d = None.
Proof.
  intros. unfold store. rewrite (proj2 (Z.leb_gt (off + len x) (len d))) by lia.
  by rewrite andb_false_r.
Qed.

(** The store loop of [put_u64], for any list of bytes. *)
Lemma put_loop off (g : Z → byte) d n :
  0 ≤ off → off + Z.of_nat n ≤ len d →
  foldl (λ (t : option (list byte)) i, t ← t; store (off + i) [g i] t) (Some d) (seqZ 0 (Z.of_nat n))
  = Some (splice off (g <$> seqZ 0 (Z.of_nat n)) d).
Proof.
  intros Ho. induction n as [|n IH]; intros Hn.
  - change (seqZ 0 (Z.of_nat 0)) with (@nil Z). cbn. by rewrite splice_nil.
  - rewrite Nat2Z.inj_succ, <- Z.add_1_r, seqZ_app, foldl_app, IH by lia.
    replace (0 + Z.of_nat n) with (Z.of_nat n) by lia.
    change (seqZ (Z.of_nat n) 1) with [0 + Z.of_nat n]. cbn [foldl mbind option_bind].
    rewrite Z.add_0_l, fmap_app.
    replace (off + Z.of_nat n) with (off + len (g <$> seqZ 0 (Z.of_nat n)))
      by (rewrite length_fmap, length_seqZ; lia).
    rewrite (store_snoc off _ _ d).
    + rewrite store_some; [done|lia|]. rewrite length_app, length_fmap, length_seqZ. cbn. lia.
    + apply store_some; [lia|]. rewrite length_fmap, length_seqZ. lia.
    + rewrite length_fmap, length_seqZ. lia.
Qed.

Lemma put_u32_le off v d : 0 ≤ off → off + 4 ≤ len d →
  put_u32 off v d = Some (splice off (le_split 4 v) d).
Proof.
  intros. pose proof (put_loop off (λ i, zbyte (Z.shiftr v (i * 8))) d 4 ltac:(lia) ltac:(lia)) as Hp.
  rewrite le_split_4. change (seqZ 0 (Z.of_nat 4)) with [0; 1; 2; 3] in Hp.
  cbn -[Z.mul Z.shiftr zbyte store splice Z.add] in Hp.
  rewrite Z.add_0_r, Z.shiftr_0_r in Hp.
  change (1 * 8) with 8 in Hp. change (2 * 8) with 16 in Hp. change (3 * 8) with 24 in Hp.
  unfold put_u32. rewrite !zbyte_land_ff, <- Hp.
  destruct (store off _ d); [|done]. cbn [mbind option_bind].
  destruct (store (off + 1) _ _); [|done]. cbn [mbind option_bind].
  by destruct (store (off + 2) _ _).
Qed.

Lemma put_u64_le off v d : 0 ≤ off → off + 8 ≤ len d →
  put_u64 off v d = Some (splice off (le_split 8 v) d).
Proof.
  intros. unfold put_u64.
  etransitivity; [apply (put_loop off (λ i, zbyte (Z.land (Z.shiftr v (i * 8)) 0xff)) d 8); lia|].
  do 2 f_equal. rewrite le_split_8. change (seqZ 0 (Z.of_nat 8)) with [0; 1; 2; 3; 4; 5; 6; 7].
  cbn [fmap list_fmap]. by rewrite !zbyte_land_ff.
Qed.

Lemma byte_at_sub off i n d :
  0 ≤ off → 0 ≤ i < n → byte_at (off + i) d = sub off n d !! Z.to_nat i.
Proof.
  intros. unfold byte_at. rewrite (proj2 (Z.leb_le 0 (off + i))) by lia.
  rewrite sub_lookup by lia. f_equal. lia.
Qed.

Lemma shiftl_byte_small x k w : 0 ≤ k → k + 8 ≤ w → 0 ≤ Z.shiftl (bval x) k < 2 ^ w.
Proof.
  intros. rewrite Z.shiftl_mul_pow2 by lia. pose proof (bval_range x).
  pose proof (Z.pow_pos_nonneg 2 k ltac:(lia) ltac:(lia)).
  pose proof (Z.pow_le_mono_r 2 (8 + k) w ltac:(lia) ltac:(lia)).
  rewrite Z.pow_add_r in * by lia. nia.
Qed.

(** Evaluates lookups at the literal positions of an explicit list. *)
Ltac simpl_lookups :=
  repeat match goal with
  | |- context [Z.to_nat ?z] => let n := eval compute in (Z.to_nat z) in change (Z.to_nat z) with n
  end;
  cbn [lookup list_lookup mbind option_bind].

Lemma get_u32_le off d : 0 ≤ off → off + 4 ≤ len d →
  get_u32 off d = Some (le_combine (sub off 4 d)).
Proof.
  intros. pose proof (len_sub off 4 d ltac:(lia) ltac:(lia) ltac:(lia)) as Hl.
  unfold get_u32. replace off with (off + 0) at 1 by lia.
  rewrite !(byte_at_sub off _ 4) by lia.
  destruct (sub off 4 d) as [|b0 [|b1 [|b2 [|b3 [|]]]]]; cbn in Hl; try lia.
  simpl_lookups. unfold u32. rewrite !Z.mod_small by (apply shiftl_byte_small; lia).
  f_equal. cbv [le_combine]. rewrite Z.shiftl_0_l, Z.lor_0_r.
  by rewrite !Z.shiftl_lor, !Z.shiftl_shiftl, !Z.lor_assoc by lia.
Qed.

Lemma get_u32_inv off d v :
  0 ≤ off → get_u32 off d = Some v → off + 4 ≤ len d ∧ v = le_combine (sub off 4 d) ∧ 0 ≤ v < 2 ^ 32.
Proof.
  intros Hoff Hg. assert (off + 4 ≤ len d) as Hl.
  { unfold get_u32 in Hg. destruct (byte_at off d); [|done]. destruct (byte_at (off + 1) d); [|done].
    destruct (byte_at (off + 2) d); [|done]. cbn [mbind option_bind] in Hg.
    destruct (byte_at (off + 3) d) as [b3|] eqn:E; [|done]. unfold byte_at in E.
    rewrite (proj2 (Z.leb_le 0 (off + 3))) in E by lia. apply lookup_lt_Some in E. lia. }
  rewrite get_u32_le in Hg by lia. simplify_eq. split_and!; [done..| |].
  - apply le_combine_bound.
  - pose proof (le_combine_bound (sub off 4 d)) as [_ Hb]. rewrite len_sub in Hb by lia. exact Hb.
Qed.

Lemma get_u64_le off d : 0 ≤ off → off + 8 ≤ len d →
  get_u64 off d = Some (le_combine (sub off 8 d)).
Proof.
  intros. pose proof (len_sub off 8 d ltac:(lia) ltac:(lia) ltac:(lia)) as Hl.
  unfold get_u64. change (seqZ 0 8) with [0; 1; 2; 3; 4; 5; 6; 7]. cbn [foldl].
  rewrite !(byte_at_sub off _ 8) by lia.
  destruct (sub off 8 d) as [|b0 [|b1 [|b2 [|b3 [|b4 [|b5 [|b6 [|b7 [|]]]]]]]]]; cbn in Hl; try lia.
  simpl_lookups. unfold u64. rewrite !Z.mod_small by (apply shiftl_byte_small; lia).
  f_equal. cbv [le_combine]. rewrite Z.shiftl_0_l, Z.lor_0_r, Z.shiftl_0_r, Z.lor_0_l.
  by rewrite !Z.shiftl_lor, !Z.shiftl_shiftl, !Z.lor_assoc by lia.
Qed.

Lemma len_le_split n v : len (le_split n v) = Z.of_nat n.
Proof. by rewrite length_le_split. Qed.
#[export] Hint Rewrite length_le_split : len.

Lemma le_combine_split_small n v :
  0 ≤ v < 2 ^ (Z.of_nat n * 8) → le_combine (le_split n v) = v.
Proof. intros. rewrite le_combine_split. by apply Z.mod_small. Qed.

Lemma le_combine_range d n : len d = n → 0 ≤ le_combine d < 2 ^ (8 * n).
Proof. intros <-. apply le_combine_bound. Qed.

(** ** The byte loops *)

Lemma zero_loop_spec n : ∀ i d, 0 ≤ i → i + Z.of_nat n ≤ len d →
  zero_loop n i d = Some (splice i (zeros (Z.of_nat n)) d).
Proof.
  induction n as [|n IH]; intros i d Hi Hn; cbn [zero_loop].
  - change (zeros (Z.of_nat 0)) with (@nil byte). by rewrite splice_nil.
  - rewrite store_some by (cbn; lia). cbn [mbind option_bind].
    rewrite IH; [|lia|rewrite len_splice by (cbn; lia); lia].
    f_equal. replace (i + 1) with (i + len [Byte.x00]) by done.
    rewrite splice_splice_end by (rewrite ?len_zeros; cbn; lia).
    f_equal. unfold zeros. by rewrite !Nat2Z.id.
Qed.

Lemma secure_zero_prefix d n : 0 ≤ n ≤ len d →
  padlock_secure_zero d n = Some (splice 0 (zeros n) d).
Proof.
  intros. unfold padlock_secure_zero. rewrite zero_loop_spec by lia. by rewrite Z2Nat.id by lia.
Qed.

Lemma secure_zero_all d : padlock_secure_zero d (len d) = Some (zeros (len d)).
Proof.
  rewrite secure_zero_prefix by lia. unfold splice. cbn.
  rewrite drop_ge by len_lia. by rewrite app_nil_r.
Qed.

Lemma secure_zero_out_of_bounds d n : len d < n → padlock_secure_zero d n = None.
Proof.
  unfold padlock_secure_zero. rewrite <- (Z.add_0_l n) at 1. intros Hn.
  assert (∀ k i d, 0 ≤ i → len d < i + Z.of_nat k → i ≤ len d → zero_loop k i d = None) as H.
  { clear. induction k as [|k IH]; intros i d Hi Hk Hd; [lia|]. cbn [zero_loop].
    destruct (decide (i + 1 ≤ len d)).
    - rewrite store_some by (cbn; lia). cbn [mbind option_bind].
      apply IH; rewrite ?len_splice by (cbn; lia); lia.
    - by rewrite store_bound_none by (cbn; lia). }
  apply H; lia.
Qed.

Lemma u8_lor_0 a b : 0 ≤ a → 0 ≤ b < 256 → a < 256 → u8 (Z.lor a b) = 0 ↔ a = 0 ∧ b = 0.
Proof.
  intros. unfold u8.
  assert (0 ≤ Z.lor a b < 2 ^ 8) as Hr.
  { destruct (decide (a = 0)) as [->|]; [rewrite Z.lor_0_l; lia|].
    destruct (decide (b = 0)) as [->|]; [rewrite Z.lor_0_r; lia|].
    split; [apply Z.lor_nonneg; lia|]. apply Z.log2_lt_cancel.
    rewrite Z.log2_lor, Z.log2_pow2 by lia.
    apply Z.max_lub_lt; apply Z.log2_lt_pow2; lia. }
  rewrite Z.mod_small by lia. rewrite Z.lor_eq_0_iff. done.
Qed.

Lemma compare_loop_spec n : ∀ i l r diff,
  0 ≤ i → 0 ≤ diff < 256 → i + Z.of_nat n ≤ len l → i + Z.of_nat n ≤ len r →
  ∃ d, compare_loop n i l r diff = Some d ∧
       (d = 0 ↔ diff = 0 ∧ sub i (Z.of_nat n) l = sub i (Z.of_nat n) r).
Proof.
  induction n as [|n IH]; intros i l r diff Hi Hd Hl Hr; cbn [compare_loop].
  { exists diff. split; [done|]. rewrite !sub_nil_len. tauto. }
  assert (∀ d, i < len d → ∃ x, byte_at i d = Some x ∧
            sub i (Z.of_nat (S n)) d = x :: sub (i + 1) (Z.of_nat n) d) as Hb.
  { intros d Hd'. unfold byte_at. rewrite (proj2 (Z.leb_le 0 i)) by lia.
    destruct (d !! Z.to_nat i) as [x|] eqn:E; [|apply lookup_ge_None in E; lia].
    exists x. split; [done|]. unfold sub. erewrite drop_S by done.
    rewrite !Nat2Z.id. cbn. by rewrite Z2Nat.inj_add, Nat.add_1_r by lia. }
  destruct (Hb l) as (x & -> & ->); [lia|]. destruct (Hb r) as (y & -> & ->); [lia|].
  cbn [mbind option_bind].
  destruct (IH (i + 1) l r (u8 (Z.lor diff (u8 (Z.lxor (bval x) (bval y))))))
    as (d & -> & Hiff); [lia| |lia..|].
  { unfold u8. apply Z.mod_pos_bound. lia. }
  exists d. split; [done|]. rewrite Hiff, u8_lor_0; [|lia|unfold u8; apply Z.mod_pos_bound; lia|lia].
  assert (u8 (Z.lxor (bval x) (bval y)) = 0 ↔ x = y) as ->;
    [|split; [by intros [[-> ->] ->]|intros [-> Hc]; by simplify_eq]].
  split; [|intros ->; by rewrite Z.lxor_nilpotent].
  intros H0. apply (inj bval), Z.lxor_eq. unfold u8 in H0.
  rewrite <- Z.land_ones in H0 by lia. apply Z.bits_inj'. intros k Hk.
  destruct (decide (k < 8)).
  - assert (Z.testbit (Z.land (Z.lxor (bval x) (bval y)) (Z.ones 8)) k = false) as E
      by (by rewrite H0, Z.bits_0).
    rewrite Z.land_spec, Z.ones_spec_low, andb_true_r in E by lia. by rewrite Z.bits_0.
  - assert (∀ z, Z.testbit (bval z) k = false) as Hz.
    { intros z. pose proof (bval_range z). destruct (decide (bval z = 0)) as [->|]; [apply Z.bits_0|].
      apply Z.bits_above_log2; [lia|].
      enough (Z.log2 (bval z) < 8) by lia. apply Z.log2_lt_pow2; lia. }
    by rewrite Z.lxor_spec, !Hz, Z.bits_0.
Qed.

(** ** Properties *)

(** C14: [padlock_constant_time_equals] reads exactly the first [length] bytes of both
    buffers (all of them, whatever they hold) and answers whether they are
    equal; a null pointer equals only a null pointer, at length 0. *)
Theorem constant_time_equals_correct left right length :
  0 ≤ length → (∀ l, left = Some l → length ≤ len l) → (∀ r, right = Some r → length ≤ len r) →
  padlock_constant_time_equals left right length =
    Some match left, right with
         | Some l, Some r => if decide (sub 0 length l = sub 0 length r) then 1 else 0
         | None, None => if length =? 0 then 1 else 0
         | _, _ => 0
         end.
Proof.
  intros Hn Hl Hr. destruct left as [l|], right as [r|]; cbn [padlock_constant_time_equals]; [|done..].
  destruct (compare_loop_spec (Z.to_nat length) 0 l r 0) as (d & -> & Hd);
    [lia|lia|specialize (Hl _ eq_refl); lia|specialize (Hr _ eq_refl); lia|].
  rewrite Z2Nat.id in Hd by lia. cbn [mbind option_bind]. f_equal.
  destruct (Z.eqb_spec d 0), (decide (sub 0 length l = sub 0 length r)); tauto.
Qed.

Lemma constant_time_equals_correct_witness :
  padlock_constant_time_equals (Some (bstr "abc")) (Some (bstr "abd")) 3 = Some 0.
Proof. apply (constant_time_equals_correct (Some (bstr "abc")) (Some (bstr "abd")) 3); [lia|by intros l [= <-]|by intros l [= <-]]. Defined.

(** C15: [padlock_secure_zero] clears exactly the first [length] bytes of its buffer and
    keeps the rest; a length past the end of the buffer is an access out of
    bounds; a null pointer is ignored. *)
Theorem secure_zero_exact buffer length :
  0 ≤ length →
  secure_zero_pointer buffer length =
    match buffer with
    | None => Some None
    | Some b => if length <=? len b then Some (Some (splice 0 (zeros length) b)) else None
    end.
Proof.
  intros Hn. destruct buffer as [b|]; [|done]. cbn [secure_zero_pointer].
  destruct (Z.leb_spec length (len b)).
  - by rewrite secure_zero_prefix by lia.
  - by rewrite secure_zero_out_of_bounds by lia.
Qed.

Lemma secure_zero_exact_witness :
  secure_zero_pointer (Some (bstr "abc")) 2 = Some (Some [Byte.x00; Byte.x00; Byte.x63]).
Proof. apply (secure_zero_exact (Some (bstr "abc")) 2). lia. Defined.
