(* ===== verification/Openssl.v ===== *)
(** * The OpenSSL interface

    The repository calls libcrypto's EVP ciphers, PBKDF2 and HMAC; their code is
    not part of it.  [Openssl] holds the functions as the code calls them and
    [OpensslLaws] what the code relies on; every theorem about the store is
    proved against these two classes.  [Toy] is an instance with the laws
    proved, used to evaluate the model on concrete inputs. *)

From S2P Require Import Prelude World.

Inductive cipher := AES_256_CBC | AES_256_XTS.
Inductive cdir := Encrypt | Decrypt.

Class Openssl := {
  (** a cipher context after [EVP_*Init_ex] *)
  evp_ctx : Type;
  EVP_Init : cdir → cipher → list byte → list byte → option evp_ctx;
  EVP_set_padding : evp_ctx → bool → evp_ctx;
  (** [EVP_*Update ctx input inl]: the bytes written to the output *)
  EVP_Update : evp_ctx → list byte → Z → option (evp_ctx * list byte);
  EVP_Final : evp_ctx → option (list byte);
  (** password, its length as an [int], salt, iterations, key length *)
  PKCS5_PBKDF2_HMAC_SHA256 : list byte → Z → list byte → Z → Z → option (list byte);
  (** key, message *)
  HMAC_SHA256 : list byte → list byte → option (list byte)
}.

(** One message through a cipher: the output of [Update] and of [Final]. *)
Definition evp_message {O : Openssl} (prep : evp_ctx → evp_ctx) (d : cdir) (c : cipher)
    (key iv input : list byte) (inl : Z) : option (list byte * list byte) :=
  ctx ← EVP_Init d c key iv;
  '(ctx, o1) ← EVP_Update (prep ctx) input inl;
  o2 ← EVP_Final ctx;
  Some (o1, o2).

Definition xts_message {O : Openssl} (d : cdir) (key tweak input : list byte) :
    option (list byte * list byte) :=
  evp_message (λ ctx, EVP_set_padding ctx false) d AES_256_XTS key tweak input (int_of (len input)).

Definition cbc_message {O : Openssl} (d : cdir) (key iv input : list byte) (inl : Z) :
    option (list byte * list byte) :=
  evp_message id d AES_256_CBC key iv input inl.

(** XTS as a function on messages. *)
Definition xts {O : Openssl} (d : cdir) (key tweak input : list byte) : option (list byte) :=
  '(o1, o2) ← xts_message d key tweak input; Some (o1 ++ o2).

Definition cbc {O : Openssl} (d : cdir) (key iv input : list byte) : option (list byte) :=
  '(o1, o2) ← cbc_message d key iv input (len input); Some (o1 ++ o2).

(** What the code relies on.  A fresh context never writes more than it was
    given, except for the padding block CBC encryption adds; AES-XTS works block
    by block, so a whole number of leading blocks decrypts on its own. *)
Class OpensslLaws (O : Openssl) := {
  xts_key_ok : list byte → bool;
  xts_max : Z;
  xts_max_lower : 2 ^ 16 ≤ xts_max;
  xts_update_fits d key tweak ctx input ctx' o :
    EVP_Init d AES_256_XTS key tweak = Some ctx →
    EVP_Update (EVP_set_padding ctx false) input (int_of (len input)) = Some (ctx', o) →
    len o ≤ len input;
  xts_final_fits d key tweak input o1 o2 :
    xts_message d key tweak input = Some (o1, o2) → len o1 + len o2 = len input;
  xts_encrypt_ok key tweak p :
    len key = 64 → len tweak = 16 → xts_key_ok key = true → 16 ≤ len p ≤ xts_max →
    is_Some (xts Encrypt key tweak p);
  xts_decrypt key tweak p c :
    xts Encrypt key tweak p = Some c → xts Decrypt key tweak c = Some p;
  xts_prefix key tweak c p n :
    xts Decrypt key tweak c = Some p → (16 | len c) → (16 | n) → 16 ≤ n ≤ len c →
    xts Decrypt key tweak (sub 0 n c) = Some (sub 0 n p);
  cbc_encrypt_len key iv p o1 o2 :
    cbc_message Encrypt key iv p (len p) = Some (o1, o2) →
    len o1 + len o2 = 16 * (len p / 16 + 1);
  cbc_encrypt_fits key iv ctx p ctx' o :
    EVP_Init Encrypt AES_256_CBC key iv = Some ctx →
    EVP_Update ctx p (len p) = Some (ctx', o) → len o ≤ len p;
  cbc_encrypt_ok key iv p :
    len key = 32 → len iv = 16 → is_Some (cbc Encrypt key iv p);
  cbc_decrypt key iv p c :
    cbc Encrypt key iv p = Some c → cbc Decrypt key iv c = Some p;
  cbc_decrypt_update_fits key iv ctx c ctx' o :
    EVP_Init Decrypt AES_256_CBC key iv = Some ctx →
    EVP_Update ctx c (len c) = Some (ctx', o) → len o ≤ len c;
  cbc_decrypt_final_fits key iv c o1 o2 :
    cbc_message Decrypt key iv c (len c) = Some (o1, o2) → len o1 + len o2 ≤ len c;
  pbkdf2_len password passlen salt iter n k :
    PKCS5_PBKDF2_HMAC_SHA256 password passlen salt iter n = Some k → len k = n;
  pbkdf2_ok password salt iter n :
    0 < len password → 0 < iter → 0 < n →
    is_Some (PKCS5_PBKDF2_HMAC_SHA256 password (len password) salt iter n);
  hmac_len key msg d : HMAC_SHA256 key msg = Some d → len d = 32
}.

(** ** The calls as C functions *)

(** A library call may also fail for reasons outside its arguments. *)
Definition lib {A} (o : option A) : M (option A) := fallible None (mret o).

(** Cipher contexts are heap objects, but [EVP_CIPHER_CTX_free] cleanses them. *)
Definition EVP_CIPHER_CTX_new : M (option nat) :=
  fallible None
    (i ← new_id; mret (Some i)).

Definition EVP_CIPHER_CTX_free (i : nat) : M unit :=
  s ← get_sys;
  if decide (i ∈ s_live s) then modify (λ s, set_live (s_live s ∖ {[i]}) s) else undef.

Definition RAND_bytes (n : Z) : M (option (list byte)) :=
  fallible None (d ← draw n; mret (Some d)).

Section Rules.
Context (nf : bool) (U : Prop).

Lemma wp_lib {A} (o : option A) Q s :
  (nf = false → ∀ e, Q None (set_errno_s e s)) → Q o s → wp nf U (lib o) Q s.
Proof. intros. apply wp_fallible; [done|]. by apply wp_ret. Qed.

Lemma wp_ctx_new Q s :
  (nf = false → ∀ e, Q None (set_errno_s e s)) →
  (∀ i, i ∉ s_live s → Q (Some i) (alloc_s i s)) → wp nf U EVP_CIPHER_CTX_new Q s.
Proof. intros. apply wp_fallible; [done|]. apply wp_bind, wp_new_id. intros. apply wp_ret. auto. Qed.

Lemma wp_ctx_free i Q s :
  i ∈ s_live s → Q tt (set_live (s_live s ∖ {[i]}) s) → wp nf U (EVP_CIPHER_CTX_free i) Q s.
Proof. intros. apply wp_bind, wp_get_sys. rewrite decide_True by done. by apply wp_modify. Qed.

Lemma wp_RAND_bytes n Q s :
  0 ≤ n → (nf = false → ∀ e, Q None (set_errno_s e s)) →
  (∀ d, len d = n → Q (Some d) s) → wp nf U (RAND_bytes n) Q s.
Proof.
  intros. apply wp_fallible; [done|]. apply wp_bind, wp_draw; [|lia]. intros. apply wp_ret. auto.
Qed.
End Rules.

(** ** A toy instance *)

Module Toy.
(** Bytes are combined by exclusive or. *)
Definition bxor (x y : byte) : byte := zbyte (Z.lxor (bval x) (bval y)).
Definition mask (m : byte) (d : list byte) : list byte := bxor m <$> d.
Definition lead (d : list byte) : byte := default Byte.x00 (head d).
Definition digest (d : list byte) : byte := foldr bxor Byte.x00 d.

Record ctx := Ctx { t_dir : cdir; t_cipher : cipher; t_mask : byte; t_rest : list byte }.

Definition pad (d : list byte) : list byte :=
  let k := 16 - len d in d ++ replicate (Z.to_nat k) (zbyte k).

Definition unpad (d : list byte) : option (list byte) :=
  x ← last d;
  if (1 <=? bval x) && (bval x <=? 16) && (len d =? 16)
  then Some (sub 0 (16 - bval x) d) else None.

Definition init (d : cdir) (c : cipher) (key iv : list byte) : option ctx :=
  match c with
  | AES_256_XTS =>
      if (len key =? 64) && (len iv =? 16) && bool_decide (take 32 key ≠ drop 32 key)
      then Some (Ctx d c (bxor (lead key) (lead iv)) []) else None
  | AES_256_CBC =>
      if (len key =? 32) && (len iv =? 16)
      then Some (Ctx d c (bxor (lead key) (lead iv)) []) else None
  end.

(** Whole blocks go out at once; decryption holds the last block back. *)
Definition whole (d : cdir) (n : Z) : Z :=
  match d with
  | Encrypt => n / 16 * 16
  | Decrypt => if (n mod 16 =? 0) then n - 16 else n / 16 * 16
  end.

Definition update (c : ctx) (input : list byte) (inl : Z) : option (ctx * list byte) :=
  if negb (inl =? len input) then None else
  match t_cipher c with
  | AES_256_XTS =>
      if (16 <=? inl) && (inl <=? 2 ^ 24) then Some (c, mask (t_mask c) input) else None
  | AES_256_CBC =>
      if inl =? 0 then Some (c, []) else
      let k := whole (t_dir c) inl in
      Some (Ctx (t_dir c) (t_cipher c) (t_mask c) (sub k (inl - k) input),
            mask (t_mask c) (sub 0 k input))
  end.

Definition final (c : ctx) : option (list byte) :=
  match t_cipher c, t_dir c with
  | AES_256_XTS, _ => Some []
  | AES_256_CBC, Encrypt => Some (mask (t_mask c) (pad (t_rest c)))
  | AES_256_CBC, Decrypt => unpad (mask (t_mask c) (t_rest c))
  end.

#[export] Instance toy : Openssl := {|
  evp_ctx := ctx;
  EVP_Init := init;
  EVP_set_padding c _ := c;
  EVP_Update := update;
  EVP_Final := final;
  PKCS5_PBKDF2_HMAC_SHA256 password passlen salt iter n :=
    if 0 <? n then Some (replicate (Z.to_nat n) (bxor (digest password) (digest salt))) else None;
  HMAC_SHA256 key msg := Some (replicate 32 (bxor (digest key) (digest msg)))
|}.

(** *** The laws hold *)

Lemma lxor_range a c : 0 ≤ a < 256 → 0 ≤ c < 256 → 0 ≤ Z.lxor a c < 256.
Proof.
  intros. split; [apply Z.lxor_nonneg; lia|].
  destruct (decide (Z.lxor a c = 0)); [lia|].
  assert (0 < Z.lxor a c) by (pose proof (proj2 (Z.lxor_nonneg a c)); lia).
  change 256 with (2 ^ 8). apply Z.log2_lt_pow2; [lia|].
  pose proof (Z.log2_lxor a c ltac:(lia) ltac:(lia)).
  assert (∀ z, 0 ≤ z < 256 → Z.log2 z < 8) as Hl.
  { intros z Hz. destruct (decide (z = 0)) as [->|]; [done|]. apply Z.log2_lt_pow2; lia. }
  pose proof (Hl a). pose proof (Hl c). lia.
Qed.

Lemma bxor_bxor m x : bxor m (bxor m x) = x.
Proof.
  apply (inj bval). unfold bxor. pose proof (bval_range m). pose proof (bval_range x).
  rewrite (bval_zbyte_small (Z.lxor (bval m) (bval x))) by (by apply lxor_range).
  rewrite <- Z.lxor_assoc, Z.lxor_nilpotent, Z.lxor_0_l. by apply bval_zbyte_small.
Qed.

Lemma mask_mask m d : mask m (mask m d) = d.
Proof.
  unfold mask. rewrite <- list_fmap_compose. rewrite <- (list_fmap_id d) at 2.
  apply list_fmap_ext. intros. apply bxor_bxor.
Qed.

Lemma mask_app m d d' : mask m (d ++ d') = mask m d ++ mask m d'.
Proof. apply fmap_app. Qed.

Lemma length_mask m d : length (mask m d) = length d.
Proof. apply length_fmap. Qed.

Lemma sub_mask m o n d : sub o n (mask m d) = mask m (sub o n d).
Proof. unfold sub, mask. by rewrite fmap_take, fmap_drop. Qed.

Lemma length_pad d : len d < 16 → len (pad d) = 16.
Proof. intros. unfold pad. rewrite length_app, length_replicate. lia. Qed.

Lemma unpad_pad d : len d < 16 → unpad (pad d) = Some d.
Proof.
  intros Hd. unfold unpad.
  assert (last (pad d) = Some (zbyte (16 - len d))) as ->.
  { unfold pad. rewrite last_app. replace (Z.to_nat (16 - len d)) with (S (Z.to_nat (15 - len d))) by lia.
    by rewrite replicate_S_end, last_snoc. }
  cbn [mbind option_bind]. rewrite bval_zbyte_small, length_pad by lia.
  rewrite (proj2 (Z.leb_le 1 _)), (proj2 (Z.leb_le _ 16)) by lia. cbn [andb].
  rewrite Z.eqb_refl. f_equal. unfold pad.
  rewrite sub_app_l by lia. apply sub_all. lia.
Qed.

Lemma xts_toy d key tweak p :
  xts d key tweak p =
  (if (len key =? 64) && (len tweak =? 16) && bool_decide (take 32 key ≠ drop 32 key) &&
      ((16 <=? len p) && (len p <=? 2 ^ 24))
   then Some (mask (bxor (lead key) (lead tweak)) p) else None).
Proof.
  unfold xts, xts_message, evp_message. cbn -[take drop].
  destruct ((len key =? 64) && (len tweak =? 16) && bool_decide (take 32 key ≠ drop 32 key)); [|done].
  cbn -[Z.pow]. unfold update. cbn -[Z.pow].
  destruct (decide (len p < 2 ^ 31)) as [Hp|Hp].
  - rewrite int_of_small, Z.eqb_refl by lia. cbn -[Z.pow].
    destruct ((16 <=? len p) && (len p <=? 2 ^ 24)); [|done]. cbn. by rewrite app_nil_r.
  - rewrite (proj2 (Z.leb_gt (len p) _)) by lia. rewrite andb_false_r.
    assert (int_of (len p) ≠ len p) as Hne.
    { unfold int_of. pose proof (Z.mod_pos_bound (len p + 2 ^ 31) (2 ^ 32)). lia. }
    by rewrite (proj2 (Z.eqb_neq _ _) Hne).
Qed.

Lemma xts_message_toy d key tweak p o1 o2 :
  xts_message d key tweak p = Some (o1, o2) → len o1 + len o2 = len p.
Proof.
  unfold xts_message, evp_message. cbn -[take drop].
  destruct ((len key =? 64) && (len tweak =? 16) && bool_decide (take 32 key ≠ drop 32 key)); [|done].
  cbn. unfold update. case_match; [done|]. cbn. case_match; [|done]. cbn. intros [= <- <-].
  rewrite length_mask. cbn. lia.
Qed.

Lemma whole_encrypt n : 0 ≤ n → 0 ≤ whole Encrypt n ≤ n ∧ n - whole Encrypt n < 16.
Proof. intros. cbn. pose proof (Z.div_mod n 16). pose proof (Z.mod_pos_bound n 16). lia. Qed.

Lemma whole_decrypt n : 0 < n → 0 ≤ whole Decrypt n ≤ n.
Proof.
  intros. cbn. pose proof (Z.div_mod n 16). pose proof (Z.mod_pos_bound n 16).
  pose proof (Z.div_pos n 16). destruct (Z.eqb_spec (n mod 16) 0); lia.
Qed.

(** CBC encryption of the toy: the masked message with its padding. *)
Lemma cbc_encrypt_toy key iv p :
  cbc_message Encrypt key iv p (len p) =
  (if (len key =? 32) && (len iv =? 16) then
     let m := bxor (lead key) (lead iv) in let k := whole Encrypt (len p) in
     Some (mask m (sub 0 k p), mask m (pad (sub k (len p - k) p)))
   else None).
Proof.
  unfold cbc_message, evp_message. cbn -[whole].
  destruct ((len key =? 32) && (len iv =? 16)); [|done]. cbn -[whole].
  unfold update. cbn -[whole]. rewrite Z.eqb_refl. cbn -[whole].
  destruct (Z.eqb_spec (len p) 0) as [E|E]; [|done].
  destruct p; [done|cbn in E; lia].
Qed.

Lemma cbc_decrypt_message_toy key iv c :
  0 < len c →
  cbc_message Decrypt key iv c (len c) =
  (if (len key =? 32) && (len iv =? 16) then
     let m := bxor (lead key) (lead iv) in let k := whole Decrypt (len c) in
     o2 ← unpad (mask m (sub k (len c - k) c));
     Some (mask m (sub 0 k c), o2)
   else None).
Proof.
  intros Hc. unfold cbc_message, evp_message. cbn -[whole].
  destruct ((len key =? 32) && (len iv =? 16)); [|done]. cbn -[whole].
  unfold update. cbn -[whole]. rewrite Z.eqb_refl. cbn -[whole].
  rewrite (proj2 (Z.eqb_neq (len c) 0)) by lia. done.
Qed.

Lemma cbc_decrypt_toy key iv p k :
  (len key =? 32) && (len iv =? 16) = true → k = whole Encrypt (len p) →
  let m := bxor (lead key) (lead iv) in
  cbc Decrypt key iv (mask m (sub 0 k p) ++ mask m (pad (sub k (len p - k) p))) = Some p.
Proof.
  intros E Hke m. pose proof (whole_encrypt (len p) ltac:(lia)) as [Hk1 Hk2].
  assert (16 * (len p / 16) = k) as Hk by (rewrite Hke; cbn; lia). rewrite <- Hke in *. clear Hke.
  assert (len (sub k (len p - k) p) = len p - k) as Hr by (apply len_sub; lia).
  assert (len (sub 0 k p) = k) as Hs by (apply len_sub; lia).
  set (c := mask m (sub 0 k p) ++ mask m (pad (sub k (len p - k) p))).
  assert (len c = k + 16) as Hc.
  { unfold c. rewrite length_app, !length_mask. pose proof (length_pad (sub k (len p - k) p)). lia. }
  assert (whole Decrypt (len c) = k) as Hw.
  { cbn. rewrite Hc. replace (k + 16) with ((len p / 16 + 1) * 16) by lia.
    rewrite Z.mod_mul by lia. cbn. lia. }
  unfold cbc. rewrite cbc_decrypt_message_toy, E by lia. cbv zeta. rewrite Hw. fold m.
  assert (sub 0 k c = mask m (sub 0 k p)) as ->.
  { unfold c. rewrite sub_app_l by (rewrite ?length_mask; lia). apply sub_all. rewrite length_mask. lia. }
  assert (sub k (len c - k) c = mask m (pad (sub k (len p - k) p))) as ->.
  { replace (len c - k) with 16 by lia. unfold c. rewrite sub_app_r by (rewrite ?length_mask; lia).
    rewrite length_mask, Hs, Z.sub_diag. apply sub_all. rewrite length_mask, length_pad; lia. }
  rewrite !mask_mask, unpad_pad by lia. cbn [mbind option_bind]. f_equal.
  rewrite <- (sub_add 0) by lia. apply sub_all. lia.
Qed.

Lemma cbc_update_toy d key iv ctx p ctx' o :
  init d AES_256_CBC key iv = Some ctx → update ctx p (len p) = Some (ctx', o) →
  len o ≤ len p ∧ t_cipher ctx' = AES_256_CBC ∧ t_dir ctx' = d ∧ len o + len (t_rest ctx') = len p.
Proof.
  cbn. case_match; [|done]. intros [= <-]. unfold update. cbn -[whole]. rewrite Z.eqb_refl. cbn -[whole].
  destruct (Z.eqb_spec (len p) 0) as [E|E]; intros [= <- <-]; [split_and!; cbn; done || lia|]. cbn -[whole].
  rewrite length_mask.
  assert (0 ≤ whole d (len p) ≤ len p).
  { destruct d; [apply whole_encrypt; lia|apply whole_decrypt; lia]. }
  rewrite !len_sub by lia. split_and!; done || lia.
Qed.

Lemma unpad_len d x : unpad d = Some x → len x ≤ len d.
Proof.
  unfold unpad. destruct (last d); [|done]. cbn [mbind option_bind].
  case_match; [|done]. intros [= <-]. len_lia.
Qed.

#[export] Instance toy_laws : OpensslLaws toy.
Proof.
  refine {| xts_key_ok key := bool_decide (take 32 key ≠ drop 32 key); xts_max := 2 ^ 24 |}.
  - lia.
  - intros d key tweak ctx input ctx' o. cbn -[take drop]. case_match; [|done]. intros [= <-].
    unfold update. case_match; [done|]. cbn. case_match; [|done]. intros [= <- <-].
    rewrite length_mask. lia.
  - intros. by eapply xts_message_toy.
  - intros key tweak p Hk Ht Hok [Hp1 Hp2]. rewrite xts_toy, Hok.
    rewrite (proj2 (Z.eqb_eq _ _) Hk), (proj2 (Z.eqb_eq _ _) Ht),
      (proj2 (Z.leb_le _ _) Hp1), (proj2 (Z.leb_le _ _) Hp2). by eexists.
  - intros key tweak p c. rewrite !xts_toy. case_match eqn:E; [|done]. intros [= <-].
    rewrite length_mask, E. by rewrite mask_mask.
  - intros key tweak c p n. rewrite !xts_toy. case_match eqn:E; [|done]. intros [= <-] _ _ Hn.
    rewrite len_sub by lia. rewrite sub_mask.
    apply andb_true_iff in E as [-> [H1 H2]%andb_true_iff].
    apply Z.leb_le in H1, H2.
    by rewrite (proj2 (Z.leb_le 16 n)), (proj2 (Z.leb_le n (2 ^ 24))) by lia.
  - intros key iv p o1 o2. rewrite cbc_encrypt_toy. case_match; [|done]. cbv zeta. intros Hc.
    apply (inj Some), pair_eq in Hc as [<- <-].
    pose proof (whole_encrypt (len p) ltac:(lia)) as [Hk1 Hk2].
    pose proof (length_pad (sub (whole Encrypt (len p)) (len p - whole Encrypt (len p)) p)) as Hp.
    rewrite len_sub in Hp by lia. rewrite !length_mask, Hp, len_sub by lia. cbn. lia.
  - intros key iv ctx p ctx' o H1 H2. by eapply cbc_update_toy.
  - intros key iv p Hk Hi. unfold cbc. rewrite cbc_encrypt_toy, Hk, Hi. cbn. by eexists.
  - intros key iv p c. unfold cbc at 1. rewrite cbc_encrypt_toy.
    destruct ((len key =? 32) && (len iv =? 16)) eqn:E; [|done].
    cbn [mbind option_bind]. intros Hc. apply (inj Some) in Hc as <-.
    by apply cbc_decrypt_toy.
  - intros key iv ctx p ctx' o H1 H2. by eapply cbc_update_toy.
  - intros key iv c o1 o2. unfold cbc_message, evp_message, EVP_Init, EVP_Update, EVP_Final, toy, id.
    destruct (init Decrypt AES_256_CBC key iv) as [ctx|] eqn:E1; [|done]. cbn [mbind option_bind].
    destruct (update ctx c (len c)) as [[ctx' o]|] eqn:E2; [|done]. cbn [mbind option_bind].
    destruct (cbc_update_toy _ _ _ _ _ _ _ E1 E2) as (? & Hc & Hd & ?).
    unfold final. rewrite Hc, Hd. destruct (unpad _) as [x|] eqn:E3; [|done].
    apply unpad_len in E3. rewrite length_mask in E3. intros [= <- <-]. lia.
  - intros password passlen salt iter n k. cbn. destruct (Z.ltb_spec 0 n); [|done]. intros [= <-].
    rewrite length_replicate. lia.
  - intros. cbn. rewrite (proj2 (Z.ltb_lt 0 n)) by lia. by eexists.
  - intros key msg d. cbn. by intros [= <-].
Defined.
End Toy.
