(* ===== verification/Header.v ===== *)
(** * The store header ([src/src/padlock.c], [padlock_header], [write_header],
    [read_header])

    The header occupies the first 4096 bytes of a store.  [header_image] is the
    reference layout; the theorems show that [write_header] produces it, that
    [read_header] reads it back, and what any header that [read_header] accepts
    satisfies. *)

From S2P Require Import Prelude World Codec.
Import LittleEndianList.

Definition PADLOCK_MAGIC : list byte := bstr "PADLOCK".
Definition PADLOCK_SECRET_MAGIC : list byte := bstr "PLSECRET".
Definition PADLOCK_HEADER_SIZE : Z := 4096.
Definition PADLOCK_SALT_SIZE : Z := 16.
Definition PADLOCK_IV_SIZE : Z := 16.
Definition PADLOCK_XTS_KEY_SIZE : Z := 64.
Definition PADLOCK_TPM_KEY_SIZE : Z := 32.
Definition PADLOCK_SECRET_SIZE : Z := 72.
Definition PADLOCK_MIN_SIZE : Z := 8192.
Definition PADLOCK_KDF_ITERATIONS : Z := 200000.

Record padlock_header := Header {
  total_size : Z;
  write_offset : Z;
  salt : list byte;
  iv : list byte;
  encrypted_secret : list byte;
  encrypted_secret_size : Z
}.

(** The buffer [write_header] fills. *)
Definition encode_header (header : padlock_header) : option (list byte) :=
  let buffer := zeros PADLOCK_HEADER_SIZE in
  buffer ← store 0 PADLOCK_MAGIC buffer;
  buffer ← put_u32 8 1 buffer;
  buffer ← put_u64 16 PADLOCK_HEADER_SIZE buffer;
  buffer ← put_u64 24 (total_size header) buffer;
  buffer ← put_u64 32 (write_offset header) buffer;
  salt ← load 0 PADLOCK_SALT_SIZE (salt header);
  buffer ← store 40 salt buffer;
  iv ← load 0 PADLOCK_IV_SIZE (iv header);
  buffer ← store 56 iv buffer;
  buffer ← put_u32 72 (encrypted_secret_size header) buffer;
  secret ← load 0 128 (encrypted_secret header);
  store 76 secret buffer.

Definition write_header (file : nat) (header : padlock_header) : M Z :=
  buffer ← checked (encode_header header);
  r ← fseeko file 0;
  if negb (r =? 0) then mret (-1) else
  n ← fwrite buffer file;
  mret (if n =? PADLOCK_HEADER_SIZE then 0 else -1).

(** What [read_header] makes of the bytes it read; the outer [None] is an access
    outside the buffer, the inner one the result -1. *)
Definition decode_header (buffer : list byte) : option (option padlock_header) :=
  magic ← load 0 (len PADLOCK_MAGIC) buffer;
  version ← get_u32 8 buffer;
  if bool_decide (magic ≠ PADLOCK_MAGIC) || negb (version =? 1) then Some None else
  total ← get_u64 24 buffer;
  offset ← get_u64 32 buffer;
  salt ← load 40 PADLOCK_SALT_SIZE buffer;
  iv ← load 56 PADLOCK_IV_SIZE buffer;
  size ← get_u32 72 buffer;
  secret ← load 76 128 buffer;
  if (total <? PADLOCK_MIN_SIZE) || (offset <? PADLOCK_HEADER_SIZE)
     || (offset >? total) || (size >? 128)
  then Some None
  else Some (Some (Header total offset salt iv secret size)).

Definition read_header (file : nat) : M (option padlock_header) :=
  r ← fseeko file 0;
  if negb (r =? 0) then mret None else
  buffer ← fread file PADLOCK_HEADER_SIZE;
  if negb (len buffer =? PADLOCK_HEADER_SIZE) then mret None else
  checked (decode_header buffer).

(** ** Specification *)

(** The C types of the fields. *)
Definition header_typed (h : padlock_header) : Prop :=
  0 ≤ total_size h < 2 ^ 64 ∧ 0 ≤ write_offset h < 2 ^ 64 ∧
  len (salt h) = PADLOCK_SALT_SIZE ∧ len (iv h) = PADLOCK_IV_SIZE ∧
  len (encrypted_secret h) = 128 ∧ 0 ≤ encrypted_secret_size h < 2 ^ 32.

(** What [read_header] checks. *)
Definition header_valid (h : padlock_header) : Prop :=
  PADLOCK_MIN_SIZE ≤ total_size h ∧
  PADLOCK_HEADER_SIZE ≤ write_offset h ≤ total_size h ∧
  encrypted_secret_size h ≤ 128.

(** The reference layout: the consecutive fields of a header and its padding. *)
Definition header_segments (h : padlock_header) : list (list byte) :=
  [PADLOCK_MAGIC; zeros 1; le_split 4 1; zeros 4; le_split 8 PADLOCK_HEADER_SIZE;
   le_split 8 (total_size h); le_split 8 (write_offset h); salt h; iv h;
   le_split 4 (encrypted_secret_size h); encrypted_secret h; zeros (PADLOCK_HEADER_SIZE - 204)].

Definition header_image (h : padlock_header) : list byte := concat (header_segments h).

Definition blank_segments : list (list byte) :=
  zeros <$> [7; 1; 4; 4; 8; 8; 8; 16; 16; 4; 128; PADLOCK_HEADER_SIZE - 204].

(** Lengths of explicit segment lists. *)
Ltac seg_lia :=
  cbn [take concat fmap list_fmap]; autorewrite with len; unfold zeros; autorewrite with len;
  change (length PADLOCK_MAGIC) with 7%nat;
  unfold PADLOCK_HEADER_SIZE, PADLOCK_SALT_SIZE, PADLOCK_IV_SIZE in *; lia.

Lemma blank_concat : zeros PADLOCK_HEADER_SIZE = concat blank_segments.
Proof. vm_compute. reflexivity. Qed.

Section Image.
Context (h : padlock_header) (Hh : header_typed h).

Lemma header_image_len : len (header_image h) = PADLOCK_HEADER_SIZE.
Proof. destruct Hh as (_ & _ & ? & ? & ? & _). unfold header_image, header_segments. seg_lia. Qed.

(** One store into the segmented buffer: field [i] of [m] bytes at [off]. *)
Local Ltac field i off m :=
  repeat (rewrite load_some, sub_all by seg_lia; cbn [mbind option_bind]);
  first [ rewrite put_u32_le by seg_lia | rewrite put_u64_le by seg_lia
        | rewrite store_some by seg_lia ];
  rewrite (splice_concat _ i off _ (zeros m)) by (done || seg_lia);
  cbn [insert list_insert mbind option_bind].

Lemma encode_header_image : encode_header h = Some (header_image h).
Proof.
  destruct Hh as (_ & _ & Hs & Hi & He & _). unfold encode_header.
  rewrite blank_concat. unfold blank_segments. cbn [fmap list_fmap]. cbv zeta.
  field 0%nat 0 7. field 2%nat 8 4. field 4%nat 16 8. field 5%nat 24 8. field 6%nat 32 8.
  field 7%nat 40 16. field 8%nat 56 16. field 9%nat 72 4. field 10%nat 76 128.
  done.
Qed.

(** Fields of the image. *)
Local Ltac segment i := unfold header_image, header_segments; apply (sub_concat _ i); [reflexivity|seg_lia|done || seg_lia].

Lemma image_magic : sub 0 7 (header_image h) = PADLOCK_MAGIC.
Proof. segment 0%nat. Qed.
Lemma image_version : sub 8 4 (header_image h) = le_split 4 1.
Proof. segment 2%nat. Qed.
Lemma image_total : sub 24 8 (header_image h) = le_split 8 (total_size h).
Proof. segment 5%nat. Qed.
Lemma image_offset : sub 32 8 (header_image h) = le_split 8 (write_offset h).
Proof. segment 6%nat. Qed.
Lemma image_salt : sub 40 16 (header_image h) = salt h.
Proof. destruct Hh as (_ & _ & ? & ? & ? & _). segment 7%nat. Qed.
Lemma image_iv : sub 56 16 (header_image h) = iv h.
Proof. destruct Hh as (_ & _ & ? & ? & ? & _). segment 8%nat. Qed.
Lemma image_size : sub 72 4 (header_image h) = le_split 4 (encrypted_secret_size h).
Proof. destruct Hh as (_ & _ & ? & ? & ? & _). segment 9%nat. Qed.
Lemma image_secret : sub 76 128 (header_image h) = encrypted_secret h.
Proof. destruct Hh as (_ & _ & ? & ? & ? & _). segment 10%nat. Qed.

Lemma decode_header_image : header_valid h → decode_header (header_image h) = Some (Some h).
Proof.
  intros (Hv1 & Hv2 & Hv3). pose proof Hh as (Ht & Hw & _ & _ & _ & Hz).
  pose proof header_image_len as Hl. unfold PADLOCK_HEADER_SIZE, PADLOCK_MIN_SIZE in *.
  unfold decode_header, PADLOCK_HEADER_SIZE, PADLOCK_MIN_SIZE, PADLOCK_SALT_SIZE, PADLOCK_IV_SIZE.
  change (len PADLOCK_MAGIC) with 7.
  rewrite !load_some, !get_u32_le, !get_u64_le by lia. cbn [mbind option_bind].
  rewrite image_magic, image_version, image_total, image_offset, image_salt, image_iv, image_size, image_secret.
  rewrite !le_combine_split_small by (cbn; lia).
  rewrite bool_decide_false by tauto. cbn [orb negb Z.eqb].
  rewrite (proj2 (Z.ltb_ge _ 8192)), (proj2 (Z.ltb_ge _ 4096)), Z.gtb_ltb,
    (proj2 (Z.ltb_ge (total_size h) _)), Z.gtb_ltb, (proj2 (Z.ltb_ge 128 _)) by lia.
  cbn. by destruct h.
Qed.
End Image.

(** Whatever the bytes are, decoding stays inside the buffer, and a header that
    is accepted has the types and bounds the rest of the code relies on. *)
Lemma decode_header_total buffer :
  len buffer = PADLOCK_HEADER_SIZE →
  ∃ r, decode_header buffer = Some r ∧ (∀ h, r = Some h → header_typed h ∧ header_valid h).
Proof.
  unfold PADLOCK_HEADER_SIZE. intros Hl. unfold decode_header, PADLOCK_SALT_SIZE, PADLOCK_IV_SIZE.
  change (len PADLOCK_MAGIC) with 7.
  rewrite !load_some, !get_u32_le, !get_u64_le by lia. cbn [mbind option_bind].
  case_match; [by eexists|]. case_match eqn:E; [by eexists|]. eexists. split; [done|].
  intros h [= <-]. rewrite !orb_false_iff, !Z.gtb_ltb, !Z.ltb_ge in E.
  pose proof (le_combine_range (sub 24 8 buffer) 8 ltac:(apply len_sub; lia)).
  pose proof (le_combine_range (sub 32 8 buffer) 8 ltac:(apply len_sub; lia)).
  pose proof (le_combine_range (sub 72 4 buffer) 4 ltac:(apply len_sub; lia)).
  unfold header_typed, header_valid, PADLOCK_SALT_SIZE, PADLOCK_IV_SIZE. cbn -[Z.pow le_combine].
  rewrite !len_sub by lia. lia.
Qed.

(** ** The operations on a stream *)

Section Operations.
Context (nf : bool) (U : Prop).

(** [read_header] decodes the first 4096 bytes of the file, or fails; it never
    runs into undefined behaviour. *)
Lemma wp_read_header f st B e p d x Q :
  d ≠ Writing → i_data <$> s_inodes B !! st_ino st = Some x →
  (nf = false ∨ len x < PADLOCK_HEADER_SIZE → ∀ e' p' d', d' ≠ Writing →
     Q None (rd f st B e' p' d')) →
  (∀ r e', PADLOCK_HEADER_SIZE ≤ len x →
     decode_header (sub 0 PADLOCK_HEADER_SIZE x) = Some r →
     Q r (rd f st B e' PADLOCK_HEADER_SIZE Reading)) →
  wp nf U (read_header f) Q (rd f st B e p d).
Proof.
  intros Hd Hx HF HQ. apply wp_bind, wp_rd_fseeko.
  { intros [?|?] e'; [|lia]. apply wp_ret. auto. }
  intros _. cbn [negb Z.eqb]. apply wp_bind.
  assert (∀ e' k, let got := take k (sub 0 PADLOCK_HEADER_SIZE x) in
    (len got < PADLOCK_HEADER_SIZE → nf = false ∨ len x < PADLOCK_HEADER_SIZE) →
    wp nf U (if negb (len got =? PADLOCK_HEADER_SIZE) then mret None
             else checked (decode_header got)) Q (rd f st B e' (0 + len got) Reading)) as Hgot.
  { intros e' k got Hgot. assert (len got ≤ PADLOCK_HEADER_SIZE).
    { unfold got, PADLOCK_HEADER_SIZE. len_lia. }
    destruct (Z.eqb_spec (len got) PADLOCK_HEADER_SIZE) as [El|El]; cbn [negb].
    - assert (got = sub 0 PADLOCK_HEADER_SIZE x) as Eg.
      { apply take_ge. unfold got, PADLOCK_HEADER_SIZE in *. len_lia. }
      destruct (decode_header_total got El) as (r & Hr & _).
      eapply wp_checked_some; [done|]. rewrite El. apply HQ; [|by rewrite <- Eg].
      rewrite Eg in El. unfold PADLOCK_HEADER_SIZE in *. len_lia.
    - apply wp_ret, HF; [|done]. apply Hgot. lia. }
  eapply wp_rd_fread; [done..| |].
  - intros Hn e' k. apply Hgot. auto.
  - rewrite <- (take_ge (sub 0 PADLOCK_HEADER_SIZE x) (length (sub 0 PADLOCK_HEADER_SIZE x))) by lia.
    apply Hgot. rewrite take_ge by lia. intros. right. unfold PADLOCK_HEADER_SIZE in *. len_lia.
Qed.
End Operations.

(** ** Properties *)

(** C16: round trip.  A header that satisfies the checks of [read_header] is written as
    4096 bytes in the documented layout and read back unchanged. *)
Theorem header_roundtrip h :
  header_typed h → header_valid h →
  encode_header h = Some (header_image h) ∧ len (header_image h) = PADLOCK_HEADER_SIZE ∧
  decode_header (header_image h) = Some (Some h).
Proof.
  intros Ht Hv. split; [by apply encode_header_image|].
  split; [by apply header_image_len|by apply decode_header_image].
Qed.

Lemma header_roundtrip_witness :
  let h := Header 8192 4096 (zeros 16) (zeros 16) (zeros 128) 80 in
  encode_header h = Some (header_image h) ∧ len (header_image h) = PADLOCK_HEADER_SIZE ∧
  decode_header (header_image h) = Some (Some h).
Proof.
  apply header_roundtrip; unfold header_typed, header_valid, PADLOCK_MIN_SIZE, PADLOCK_HEADER_SIZE;
    cbn -[zeros]; rewrite ?len_zeros by lia; unfold PADLOCK_SALT_SIZE, PADLOCK_IV_SIZE; lia.
Defined.

(** C17: reading a header never leaves its 4096-byte buffer, whatever the bytes are, and
    a header that is accepted has fields of their C types, a write offset between
    the header and the end of the store, and a sealed secret of at most 128
    bytes. *)
Theorem header_decoding_safe buffer :
  len buffer = PADLOCK_HEADER_SIZE →
  ∃ r, decode_header buffer = Some r ∧ (∀ h, r = Some h → header_typed h ∧ header_valid h).
Proof. apply decode_header_total. Qed.

Lemma header_decoding_safe_witness :
  ∃ r, decode_header (zeros 4096) = Some r ∧ (∀ h, r = Some h → header_typed h ∧ header_valid h).
Proof. apply header_decoding_safe. by rewrite len_zeros by lia. Defined.
