(* ===== verification/Libc.v ===== *)
(** * C strings

    A [char *] argument is the list of bytes from the pointer on; the string
    ends at the first NUL byte or at the end of the list (where C has one). *)

From S2P Require Import Prelude.

(** The characters of the string at a pointer. *)
Fixpoint c_str (s : list byte) : list byte :=
  match s with
  | [] => []
  | x :: s => if decide (x = Byte.x00) then [] else x :: c_str s
  end.

Definition strlen (s : list byte) : Z := len (c_str s).

(** [snprintf] into a buffer of [n] bytes: the characters it holds before its terminator.
    The result of the call is the length of the whole text (texts are shorter than
    [2^31] bytes). *)
Definition snprintf_text (n : Z) (text : list byte) : list byte := take (Z.to_nat (n - 1)) text.

Definition no_nul (s : list byte) : Prop := Byte.x00 ∉ s.

Lemma c_str_no_nul s : no_nul (c_str s).
Proof.
  unfold no_nul. induction s as [|x s IH]; cbn; [set_solver|]. case_decide; set_solver.
Qed.

Lemma c_str_id s : no_nul s → c_str s = s.
Proof.
  unfold no_nul. induction s as [|x s IH]; cbn; [done|]. intros H.
  rewrite decide_False by set_solver. f_equal. apply IH. set_solver.
Qed.

Lemma c_str_idemp s : c_str (c_str s) = c_str s.
Proof. apply c_str_id, c_str_no_nul. Qed.

Lemma strlen_range s : 0 ≤ strlen s ≤ len s.
Proof.
  unfold strlen. split; [lia|]. induction s as [|x s IH]; cbn; [lia|]. case_decide; cbn; lia.
Qed.

Lemma sub_strlen s : sub 0 (strlen s) s = c_str s.
Proof.
  unfold strlen, sub. rewrite drop_0, Nat2Z.id.
  induction s as [|x s IH]; cbn; [done|]. case_decide; cbn; [done|]. by rewrite IH.
Qed.

Lemma snprintf_fits_text n text : len text < n → snprintf_text n text = text.
Proof. intros. apply take_ge. lia. Qed.

Lemma no_nul_app s t : no_nul (s ++ t) ↔ no_nul s ∧ no_nul t.
Proof. unfold no_nul. rewrite elem_of_app. tauto. Qed.

Lemma no_nul_take n s : no_nul s → no_nul (take n s).
Proof. unfold no_nul. intros H Hin. apply H. rewrite <- (take_drop n s), elem_of_app. auto. Qed.

(** A string in a buffer ends at its terminator. *)
Lemma c_str_app_nul s t : c_str (s ++ Byte.x00 :: t) = c_str s.
Proof. induction s as [|x s IH]; cbn; [done|]. case_decide; [done|]. by rewrite IH. Qed.

Lemma c_str_terminated s : strlen s < len s → ∃ t, s = c_str s ++ Byte.x00 :: t.
Proof.
  unfold strlen. induction s as [|x s IH]; cbn; [lia|]. case_decide as Hx; cbn; [subst; eauto|].
  intros Hl. destruct IH as [t Ht]; [lia|]. exists t. by rewrite <- Ht.
Qed.
