(* ===== verification/Posix.v ===== *)
(** * Files, directories and descriptors

    The POSIX calls of [src/src/padlock.c] and [src/src/padlock_cli.c] on names and
    descriptors.  A path is the byte string of its C string; a name other than
    the root and the working directory exists in a directory that exists under
    the name before its last slash.  A call can always fail with any error
    number the environment chooses; the failures written out here are those the
    state forces. *)

From S2P Require Import Prelude World.

Definition SLASH : byte := Byte.x2f.

(** The index of the last slash. *)
Fixpoint strrchr_slash (p : list byte) : option nat :=
  match p with
  | [] => None
  | b :: p =>
      match strrchr_slash p with
      | Some i => Some (S i)
      | None => if decide (b = SLASH) then Some 0%nat else None
      end
  end.

Definition is_dir (s : sys) (p : list byte) : bool :=
  match s_names s !! p with
  | Some i => match s_inodes s !! i with Some n => i_dir n | None => false end
  | None => false
  end.

(** The directory a new name would be in exists. *)
Definition parent_ok (s : sys) (p : list byte) : bool :=
  match strrchr_slash p with
  | None | Some 0%nat => true
  | Some i => is_dir s (take i p)
  end.

(** Every name leads to an inode. *)
Definition names_ok (s : sys) : Prop := ∀ p j, s_names s !! p = Some j → is_Some (s_inodes s !! j).

Definition fail_with {A} (e : Z) (r : A) : M A := set_errno e;; mret r.

(** A new inode under a name. *)
Definition add_name (p : list byte) (i : nat) (n : inode) (s : sys) : sys :=
  set_names (<[p := i]> (s_names s)) (set_inodes (<[i := n]> (s_inodes s)) s).

Definition new_inode (s : sys) : nat := fresh (dom (s_inodes s)).

Definition mkdir (p : list byte) (mode : Z) : M Z :=
  fallible (-1)
    (s ← get_sys;
     if bool_decide (p = []) then fail_with ENOENT (-1) else
     if bool_decide (is_Some (s_names s !! p)) then fail_with EEXIST (-1) else
     if negb (parent_ok s p) then fail_with ENOENT (-1) else
     modify (add_name p (new_inode s) (Inode true mode []));; mret 0).

Definition set_mode (i : nat) (mode : Z) (s : sys) : sys :=
  match s_inodes s !! i with
  | Some n => set_inodes (<[i := Inode (i_dir n) mode (i_data n)]> (s_inodes s)) s
  | None => s
  end.

Definition chmod (p : list byte) (mode : Z) : M Z :=
  fallible (-1)
    (s ← get_sys;
     match s_names s !! p with
     | Some i => modify (set_mode i mode);; mret 0
     | None => fail_with ENOENT (-1)
     end).

Definition unlink (p : list byte) : M Z :=
  fallible (-1)
    (s ← get_sys;
     if negb (bool_decide (is_Some (s_names s !! p))) then fail_with ENOENT (-1) else
     if is_dir s p then fail_with EISDIR (-1) else
     modify (λ s, set_names (delete p (s_names s)) s);; mret 0).

Definition rename (old new : list byte) : M Z :=
  fallible (-1)
    (s ← get_sys;
     match s_names s !! old with
     | None => fail_with ENOENT (-1)
     | Some i =>
         if is_dir s new then fail_with EISDIR (-1) else
         modify (λ s, set_names (<[new := i]> (delete old (s_names s))) s);; mret 0
     end).

(** ** Descriptors *)

Definition new_fd (s : sys) : nat := fresh (dom (s_fds s)).

(** The alphabet of the names [mkstemp] makes. *)
Definition tmp_letter (b : byte) : byte :=
  let n := bval b mod 62 in
  zbyte (if n <? 10 then 48 + n else if n <? 36 then 55 + n else 61 + n).

(** [mkstemp] on a template that ends in six X: a new file under a name nothing
    has, open for reading and writing. *)
Definition mkstemp (template : list byte) : M (option (nat * list byte)) :=
  fallible None
    (if negb (bool_decide (drop (length template - 6) template = replicate 6 Byte.x58)) then fail_with EINVAL None else
     suffix ← draw 6;
     let name := take (length template - 6) template ++ (tmp_letter <$> suffix) in
     s ← get_sys;
     if bool_decide (is_Some (s_names s !! name)) then fail_with EEXIST None else
     if negb (parent_ok s name) then fail_with ENOENT None else
     let i := new_inode s in
     let fd := new_fd s in
     modify (λ s, set_fds (<[fd := FdFile i]> (s_fds s)) (add_name name i (Inode false 0x180 []) s));;
     mret (Some (fd, name))).

Definition get_fd (fd : nat) : M fdobj := s ← get_sys; checked (s_fds s !! fd).

Definition fchmod (fd : nat) (mode : Z) : M Z :=
  fallible (-1)
    (o ← get_fd fd;
     match o with FdFile i => modify (set_mode i mode) | FdUrandom => mret tt end;; mret 0).

Definition drop_fd (fd : nat) (s : sys) : sys := set_fds (delete fd (s_fds s)) s.

Definition close (fd : nat) : M Z :=
  _ ← get_fd fd;
  modify (drop_fd fd);; fallible (-1) (mret 0).

(** [fdopen]: the stream takes the descriptor over; the file is not truncated. *)
Definition fdopen (fd : nat) : M (option nat) :=
  o ← get_fd fd;
  fallible None
    match o with
    | FdFile i =>
        s ← get_sys;
        let f := fresh (dom (s_streams s)) in
        modify (drop_fd fd);;
        set_stream f (Stream i true 0 Idle []);; mret (Some f)
    | FdUrandom => fail_with EINVAL None
    end.

(** [fsync] of a stream's file: an error, or nothing this state shows. *)
Definition fsync (f : nat) : M Z := _ ← get_stream f; fallible (-1) (mret 0).

Definition open_urandom : M (option nat) :=
  fallible None
    (s ← get_sys;
     let fd := new_fd s in
     modify (λ s, set_fds (<[fd := FdUrandom]> (s_fds s)) s);; mret (Some fd)).

(** [read] from the random device: an error, fewer bytes than asked for, or all.
    The first component is negative for an error. *)
Definition read_urandom (fd : nat) (n : Z) : M (Z * list byte) :=
  _ ← get_fd fd;
  f ← pop;
  match f with
  | Some (FErr e) => set_errno e;; mret (-1, [])
  | Some (FShort k e) => d ← draw (Z.min n (Z.max 0 k)); mret (len d, d)
  | None => d ← draw n; mret (len d, d)
  end.

(** [fopen] for writing ("wb"): an existing file is emptied, a missing one is made
    (mode 0666 less a umask of 022). *)
Definition set_data (i : nat) (d : list byte) (s : sys) : sys :=
  match s_inodes s !! i with
  | Some n => set_inodes (<[i := Inode (i_dir n) (i_mode n) d]> (s_inodes s)) s
  | None => s
  end.

Definition open_stream (i : nat) (writable : bool) : M nat :=
  s ← get_sys;
  let f := fresh (dom (s_streams s)) in
  set_stream f (Stream i writable 0 Idle []);; mret f.

Definition fopen_write (path : list byte) : M (option nat) :=
  fallible None
    (s ← get_sys;
     match s_names s !! path with
     | Some i =>
         match s_inodes s !! i with
         | Some (Inode false _ _) =>
             modify (set_data i []);; f ← open_stream i true; mret (Some f)
         | _ => fail_with EISDIR None
         end
     | None =>
         if bool_decide (path = []) || negb (parent_ok s path) then fail_with ENOENT None else
         let i := new_inode s in
         modify (add_name path i (Inode false 0x1a4 []));; f ← open_stream i true; mret (Some f)
     end).

(** [fseek (f, 0, SEEK_END)] and [ftell]. *)
Definition fseek_end (f : nat) : M Z :=
  r ← flush_stream f;
  if negb (r =? 0) then mret (-1) else
  st ← get_stream f;
  d ← inode_data (st_ino st);
  fallible (-1)
    (set_stream f (Stream (st_ino st) (st_writable st) (len d) Idle (st_pending st));; mret 0).

Definition ftell (f : nat) : M Z := st ← get_stream f; fallible (-1) (mret (st_pos st)).

(** [access] for reading: the process may read what it can name. *)
Definition access (p : list byte) : M Z :=
  fallible (-1)
    (s ← get_sys;
     if bool_decide (is_Some (s_names s !! p)) then mret 0 else fail_with ENOENT (-1)).

Section Rules.
Context (nf : bool) (U : Prop).

Lemma wp_fail_with {A} e (r : A) Q s : Q r (set_errno_s e s) → wp nf U (fail_with e r) Q s.
Proof. intros. by apply wp_bind, wp_set_errno, wp_ret. Qed.

Lemma wp_get_fd fd o Q s : s_fds s !! fd = Some o → Q o s → wp nf U (get_fd fd) Q s.
Proof. intros. apply wp_bind, wp_get_sys. by eapply wp_checked_some. Qed.

Lemma wp_close fd o Q s :
  s_fds s !! fd = Some o → (∀ r e, Q r (set_errno_s e (drop_fd fd s))) → wp nf U (close fd) Q s.
Proof.
  intros Hfd HQ. apply wp_bind. eapply wp_get_fd; [done|]. apply wp_bind, wp_modify, wp_fallible; [auto|].
  apply wp_ret. rewrite <- (set_errno_id (drop_fd fd s)). apply HQ.
Qed.

Definition add_fd (fd : nat) (o : fdobj) (s : sys) : sys := set_fds (<[fd := o]> (s_fds s)) s.

Lemma drop_add_fd fd o s : s_fds s !! fd = None → drop_fd fd (add_fd fd o s) = s.
Proof. intros. unfold drop_fd, add_fd, set_fds. cbn. rewrite delete_insert_id by done. by destruct s. Qed.

Lemma new_fd_fresh s : s_fds s !! new_fd s = None.
Proof. unfold new_fd. apply not_elem_of_dom, is_fresh. Qed.

Lemma new_inode_fresh s : s_inodes s !! new_inode s = None.
Proof. unfold new_inode. apply not_elem_of_dom, is_fresh. Qed.

Lemma wp_open_urandom Q s :
  (nf = false → ∀ e, Q None (set_errno_s e s)) →
  (∀ fd, s_fds s !! fd = None → Q (Some fd) (add_fd fd FdUrandom s)) →
  wp nf U open_urandom Q s.
Proof.
  intros HF HQ. apply wp_fallible; [done|]. apply wp_bind, wp_get_sys, wp_bind, wp_modify, wp_ret.
  apply HQ, new_fd_fresh.
Qed.
End Rules.

(** ** Names and directories *)

Lemma is_dir_set_mode s j m p : is_dir (set_mode j m s) p = is_dir s p.
Proof.
  unfold is_dir, set_mode. destruct (s_inodes s !! j) as [n|] eqn:Hj; [|done].
  cbn [s_names s_inodes set_inodes]. destruct (s_names s !! p) as [j'|]; [|done].
  destruct (decide (j' = j)) as [->|]; [by rewrite lookup_insert_eq, Hj|by rewrite lookup_insert_ne].
Qed.

Lemma is_dir_add s q i n p :
  s_names s !! p ≠ Some i → p ≠ q → is_dir (add_name q i n s) p = is_dir s p.
Proof.
  intros Hi Hp. unfold is_dir, add_name. cbn [s_names s_inodes set_inodes set_names].
  rewrite lookup_insert_ne by done. destruct (s_names s !! p) as [j'|] eqn:E; [|done].
  by rewrite lookup_insert_ne by congruence.
Qed.

Lemma strrchr_slash_lt p k : strrchr_slash p = Some k → (k < length p)%nat.
Proof.
  revert k. induction p as [|b p IH]; intros k H; cbn in H; [done|].
  destruct (strrchr_slash p) as [k'|]; [|case_decide; simplify_eq; cbn; lia].
  simplify_eq. specialize (IH k' eq_refl). cbn. lia.
Qed.

Lemma strrchr_slash_app p q : SLASH ∉ q → strrchr_slash (p ++ q) = strrchr_slash p.
Proof.
  intros Hq. induction p as [|b p IH]; cbn [strrchr_slash app]; [|by rewrite IH].
  induction q as [|c q IH]; [done|]. cbn. rewrite IH by set_solver. by rewrite decide_False by set_solver.
Qed.

Lemma parent_ok_app s p q : SLASH ∉ q → parent_ok s (p ++ q) = parent_ok s p.
Proof.
  intros Hq. unfold parent_ok. rewrite strrchr_slash_app by done.
  destruct (strrchr_slash p) as [k|] eqn:Hk; [|done]. apply strrchr_slash_lt in Hk.
  destruct k; [done|]. by rewrite take_app_le by lia.
Qed.

Lemma strrchr_slash_snoc p : strrchr_slash (p ++ [SLASH]) = Some (length p).
Proof. induction p as [|b p IH]; cbn; [done|]. by rewrite IH. Qed.

Lemma parent_ok_snoc s p : parent_ok s (p ++ [SLASH]) = match p with [] => true | _ => is_dir s p end.
Proof.
  unfold parent_ok. rewrite strrchr_slash_snoc. destruct p as [|b p]; [done|]. cbn [length].
  by rewrite take_app_le, take_ge by (cbn; lia).
Qed.
