(* ===== verification/Secret.v ===== *)
(** * The header secret and the record cipher ([src/src/padlock.c])

    [derive_header_key], [encrypt_secret], [decrypt_secret] and [crypt_xts].  The
    store key is sealed in the header under a key derived from the header
    password; records are encrypted with AES-XTS under the store key, with the
    record's 16-byte block number as the tweak.

    A function's [goto done] returns its local variables to the cleanup code that
    follows the label; [leave] marks the end of the life of an automatic array, so
    that what it still holds becomes part of the residue (an array that was never
    written adds nothing to it). *)

From S2P Require Import Prelude World Libc Codec Openssl Header.
Import LittleEndianList.

Section Code.
Context {O : Openssl}.

(** The key is written only on success. *)
Definition derive_header_key (password : option (list byte)) (salt : list byte) :
    M (option (list byte)) :=
  match password with
  | None => mret None
  | Some password =>
      if bool_decide (c_str password = []) then mret None else
      salt ← checked (load 0 PADLOCK_SALT_SIZE salt);
      lib (PKCS5_PBKDF2_HMAC_SHA256 (c_str password) (int_of (strlen password)) salt
             PADLOCK_KDF_ITERATIONS 32)
  end.

(** Clears an automatic array and ends its life. *)
Definition wipe_and_leave (d : list byte) (n : Z) : M unit :=
  d ← checked (padlock_secure_zero d n); leave d.

Definition free_ctx (ctx : option nat) : M unit :=
  match ctx with Some i => EVP_CIPHER_CTX_free i | None => mret tt end.

(** Up to the label [done]: the result, the key and the context. *)
Definition encrypt_secret_body (password : option (list byte)) (header : padlock_header)
    (secret key : list byte) : M (Z * padlock_header * list byte * option nat) :=
  k ← derive_header_key password (salt header);
  match k with None => mret (-1, header, key, None) | Some key =>
  ctx ← EVP_CIPHER_CTX_new;
  match ctx with None => mret (-1, header, key, None) | Some i =>
  c ← lib (EVP_Init Encrypt AES_256_CBC key (iv header));
  match c with None => mret (-1, header, key, Some i) | Some c =>
  u ← lib (EVP_Update c secret (int_of (len secret)));
  match u with None => mret (-1, header, key, Some i) | Some (c, out) =>
  enc ← checked (store 0 out (encrypted_secret header));
  let header := Header (total_size header) (write_offset header) (salt header) (iv header)
                  enc (encrypted_secret_size header) in
  z ← lib (EVP_Final c);
  match z with None => mret (-1, header, key, Some i) | Some fin =>
  enc ← checked (store (len out) fin (encrypted_secret header));
  mret (0, Header (total_size header) (write_offset header) (salt header) (iv header)
             enc (u32 (len out + len fin)), key, Some i)
  end end end end end.

Definition encrypt_secret (password : option (list byte)) (header : padlock_header)
    (xts_key : list byte) : M (Z * padlock_header) :=
  key ← draw 32;
  secret ← checked (store 0 PADLOCK_SECRET_MAGIC (zeros PADLOCK_SECRET_SIZE));
  k ← checked (load 0 PADLOCK_XTS_KEY_SIZE xts_key);
  secret ← checked (store 8 k secret);
  '(ok, header, key, ctx) ← encrypt_secret_body password header secret key;
  free_ctx ctx;;
  wipe_and_leave key PADLOCK_TPM_KEY_SIZE;;
  wipe_and_leave secret (len secret);;
  mret (ok, header).

(** Up to the label [done]: the store key if the result is 0, and the locals. *)
Definition decrypt_secret_body (password : option (list byte)) (header : padlock_header)
    (secret key : list byte) : M (option (list byte) * list byte * list byte * option nat) :=
  k ← derive_header_key password (salt header);
  match k with None => mret (None, secret, key, None) | Some key =>
  ctx ← EVP_CIPHER_CTX_new;
  match ctx with None => mret (None, secret, key, None) | Some i =>
  c ← lib (EVP_Init Decrypt AES_256_CBC key (iv header));
  match c with None => mret (None, secret, key, Some i) | Some c =>
  input ← checked (load 0 (encrypted_secret_size header) (encrypted_secret header));
  u ← lib (EVP_Update c input (int_of (encrypted_secret_size header)));
  match u with None => mret (None, secret, key, Some i) | Some (c, out) =>
  secret ← checked (store 0 out secret);
  z ← lib (EVP_Final c);
  match z with None => mret (None, secret, key, Some i) | Some fin =>
  secret ← checked (store (len out) fin secret);
  if len out + len fin <? PADLOCK_SECRET_SIZE then mret (None, secret, key, Some i) else
  magic ← checked (load 0 (len PADLOCK_SECRET_MAGIC) secret);
  if bool_decide (magic ≠ PADLOCK_SECRET_MAGIC) then mret (None, secret, key, Some i) else
  xts_key ← checked (load 8 PADLOCK_XTS_KEY_SIZE secret);
  mret (Some xts_key, secret, key, Some i)
  end end end end end.

(** The store key on success. *)
Definition decrypt_secret (password : option (list byte)) (header : padlock_header) :
    M (option (list byte)) :=
  let secret := zeros (PADLOCK_SECRET_SIZE + 16) in
  if encrypted_secret_size header >? 128 then leave secret;; mret None else
  key ← draw 32;
  '(xts_key, secret, key, ctx) ← decrypt_secret_body password header secret key;
  free_ctx ctx;;
  wipe_and_leave key PADLOCK_TPM_KEY_SIZE;;
  wipe_and_leave secret (len secret);;
  mret xts_key.

(** Up to the label [done]: the result, the output buffer and the context. *)
Definition crypt_xts_body (encrypt : bool) (xts_key tweak input output : list byte) (length : Z) :
    M (Z * list byte * option nat) :=
  let dir := if encrypt then Encrypt else Decrypt in
  ctx ← EVP_CIPHER_CTX_new;
  match ctx with None => mret (-1, output, None) | Some i =>
  c ← lib (EVP_Init dir AES_256_XTS xts_key tweak);
  match c with None => mret (-1, output, Some i) | Some c =>
  let c := EVP_set_padding c false in
  input ← checked (load 0 length input);
  u ← lib (EVP_Update c input (int_of length));
  match u with None => mret (-1, output, Some i) | Some (c, out) =>
  output ← checked (store 0 out output);
  z ← lib (EVP_Final c);
  match z with None => mret (-1, output, Some i) | Some fin =>
  output ← checked (store (len out) fin output);
  mret (if len out + len fin =? length then 0 else -1, output, Some i)
  end end end end.

(** The result and the bytes of [output] afterwards. *)
Definition crypt_xts (encrypt : bool) (xts_key : list byte) (file_offset : Z)
    (input output : list byte) (length : Z) : M (Z * list byte) :=
  tweak ← checked (put_u64 0 (file_offset / 16) (zeros 16));
  '(ok, output, ctx) ← crypt_xts_body encrypt xts_key tweak input output length;
  free_ctx ctx;;
  mret (ok, output).
End Code.

(** ** Specification *)

Section Spec.
Context {O : Openssl}.

(** The key the header password yields. *)
Definition header_key (password : option (list byte)) (salt : list byte) : option (list byte) :=
  p ← password;
  if bool_decide (c_str p = []) then None else
  PKCS5_PBKDF2_HMAC_SHA256 (c_str p) (int_of (strlen p)) (sub 0 PADLOCK_SALT_SIZE salt)
    PADLOCK_KDF_ITERATIONS 32.

Definition sealed_bytes (h : padlock_header) : list byte :=
  sub 0 (encrypted_secret_size h) (encrypted_secret h).

(** The store key in a decrypted secret. *)
Definition opened (secret : list byte) : option (list byte) :=
  if (PADLOCK_SECRET_SIZE <=? len secret) && bool_decide (sub 0 8 secret = PADLOCK_SECRET_MAGIC)
  then Some (sub 8 PADLOCK_XTS_KEY_SIZE secret) else None.

(** The store key a password opens in a header. *)
Definition unseal (password : option (list byte)) (h : padlock_header) : option (list byte) :=
  key ← header_key password (salt h);
  secret ← cbc Decrypt key (iv h) (sealed_bytes h);
  opened secret.

(** The tweak of the block at a file offset. *)
Definition tweak_of (off : Z) : list byte := le_split 8 (off / 16) ++ zeros 8.

(** The ciphertext of a record at a file offset, and back. *)
Definition xts_at (encrypt : bool) (key : list byte) (off : Z) (d : list byte) : option (list byte) :=
  xts (if encrypt then Encrypt else Decrypt) key (tweak_of off) d.
End Spec.

Section Rules.
Context {O : Openssl} {L : OpensslLaws O} (nf : bool) (U : Prop).

Lemma wp_wipe_and_leave d n Q s :
  n = len d → Q tt (leaves [zeros n] s) → wp nf U (wipe_and_leave d n) Q s.
Proof.
  intros -> HQ. apply wp_bind. eapply wp_checked_some; [apply secure_zero_all|]. by apply wp_leave.
Qed.

Lemma wp_derive_header_key password salt Q s :
  len salt = PADLOCK_SALT_SIZE →
  (nf = false ∨ header_key password salt = None → ∀ e, Q None (set_errno_s e s)) →
  (∀ k, header_key password salt = Some k → len k = 32 → Q (Some k) s) →
  wp nf U (derive_header_key password salt) Q s.
Proof.
  intros Hs HF HQ. unfold derive_header_key. unfold header_key in HF, HQ.
  destruct password as [p|]; cbn [mbind option_bind] in *.
  2: { apply wp_ret. rewrite <- (set_errno_id s). auto. }
  case_bool_decide.
  { apply wp_ret. rewrite <- (set_errno_id s). auto. }
  apply wp_bind. eapply wp_checked_some; [apply load_some; unfold PADLOCK_SALT_SIZE in *; lia|].
  apply wp_lib; [auto|].
  destruct (PKCS5_PBKDF2_HMAC_SHA256 _ _ _ _ _) as [k|] eqn:E.
  - apply HQ; [done|]. by eapply pbkdf2_len.
  - rewrite <- (set_errno_id s). auto.
Qed.

Lemma put_tweak off : put_u64 0 (off / 16) (zeros 16) = Some (tweak_of off).
Proof.
  rewrite put_u64_le by (rewrite ?len_zeros; lia). done.
Qed.

(** A context that was or was not obtained, and the state it lives in. *)
Definition ctx_in (ctx : option nat) (s : sys) : sys :=
  match ctx with Some i => alloc_s i s | None => s end.

Definition ctx_fresh (ctx : option nat) (s : sys) : Prop :=
  match ctx with Some i => i ∉ s_live s | None => True end.

Lemma wp_free_ctx ctx Q s :
  ctx_fresh ctx s → Q tt s → wp nf U (free_ctx ctx) Q (ctx_in ctx s).
Proof.
  destruct ctx as [i|]; intros Hi HQ; [|by apply wp_ret].
  cbn [ctx_in]. apply wp_ctx_free; [cbn; set_solver|]. by rewrite set_live_alloc.
Qed.

(** A library call inside a function that holds a context. *)
Lemma wp_lib_ctx {A} (o : option A) i Q s :
  (nf = false ∨ o = None → ∀ e, Q None (ctx_in (Some i) (set_errno_s e s))) →
  (∀ a, o = Some a → Q (Some a) (ctx_in (Some i) s)) →
  wp nf U (lib o) Q (ctx_in (Some i) s).
Proof.
  intros HF HQ. apply wp_lib; [intros Hn e; by apply HF; left|]. destruct o as [a|]; [by apply HQ|].
  rewrite <- (set_errno_id s). by apply HF; right.
Qed.

(** The failing branch of a call: the specification fails too, or the
    environment made the call fail. *)
Local Ltac call_failed HF :=
  let H := fresh in let e := fresh in
  intros H e; apply wp_ret, HF;
  [ destruct H as [|H]; [by left|right; by rewrite H]
  | try done; try (rewrite len_splice; lia) .. ].

Lemma wp_crypt_xts_body encrypt key off input output n Q s :
  0 ≤ n ≤ len input → n ≤ len output →
  (nf = false ∨ xts_at encrypt key off (sub 0 n input) = None →
     ∀ e out ctx, len out = len output → ctx_fresh ctx s →
       Q (-1, out, ctx) (ctx_in ctx (set_errno_s e s))) →
  (∀ o i, xts_at encrypt key off (sub 0 n input) = Some o → len o = n → i ∉ s_live s →
     Q (0, splice 0 o output, Some i) (ctx_in (Some i) s)) →
  wp nf U (crypt_xts_body encrypt key (tweak_of off) input output n) Q s.
Proof.
  intros Hn Ho HF HQ. unfold xts_at, xts, xts_message, evp_message in HF, HQ.
  pose proof (len_sub 0 n input ltac:(lia) ltac:(lia) ltac:(lia)) as Hi. rewrite Hi in HF, HQ.
  apply wp_bind, wp_ctx_new; [intros Hnf e; apply wp_ret, (HF (or_introl Hnf) e output None); done|].
  intros i Hfresh. change (alloc_s i s) with (ctx_in (Some i) s).
  set (dir := if encrypt then Encrypt else Decrypt) in *.
  apply wp_bind, wp_lib_ctx.
  { call_failed HF. }
  intros c Einit. rewrite Einit in HF, HQ. cbn [mbind option_bind] in HF, HQ.
  apply wp_bind. eapply wp_checked_some; [apply load_some; lia|].
  apply wp_bind, wp_lib_ctx.
  { call_failed HF. }
  intros [c' out] Eupd. rewrite Eupd in HF, HQ. cbn [mbind option_bind] in HF, HQ.
  assert (len out ≤ n) as Hout.
  { rewrite <- Hi. eapply xts_update_fits; [exact Einit|]. by rewrite Hi. }
  apply wp_bind. eapply wp_checked_some; [apply store_some; lia|].
  apply wp_bind, wp_lib_ctx.
  { call_failed HF. }
  intros fin Efin. rewrite Efin in HF, HQ. cbn [mbind option_bind] in HF, HQ.
  assert (len out + len fin = n) as Hfin.
  { rewrite <- Hi. apply (xts_final_fits dir key (tweak_of off)).
    unfold xts_message, evp_message. rewrite Einit, Hi. cbn [mbind option_bind].
    rewrite Eupd. cbn [mbind option_bind]. by rewrite Efin. }
  destruct (store_update_final out fin output ltac:(lia)) as [_ Hst].
  apply wp_bind. eapply wp_checked_some; [exact Hst|].
  rewrite Hfin, Z.eqb_refl. apply wp_ret, HQ; [done| |done]. rewrite length_app. lia.
Qed.

(** [crypt_xts] computes XTS with the tweak of the offset; when it fails, the
    output buffer holds unspecified bytes.  No context is left behind. *)
Lemma wp_crypt_xts encrypt key off input output n Q s :
  0 ≤ n ≤ len input → n ≤ len output →
  (nf = false ∨ xts_at encrypt key off (sub 0 n input) = None →
     ∀ e out, len out = len output → Q (-1, out) (set_errno_s e s)) →
  (∀ o, xts_at encrypt key off (sub 0 n input) = Some o → len o = n →
     Q (0, splice 0 o output) s) →
  wp nf U (crypt_xts encrypt key off input output n) Q s.
Proof.
  intros Hn Ho HF HQ. apply wp_bind. eapply wp_checked_some; [apply put_tweak|].
  apply wp_bind, wp_crypt_xts_body; [done..| |].
  - intros H e out ctx Hl Hf. apply wp_bind, wp_free_ctx; [done|]. apply wp_ret. auto.
  - intros o i E Hl Hf. apply wp_bind, wp_free_ctx; [done|]. apply wp_ret. auto.
Qed.


(** The end of [decrypt_secret_body]: the decrypted bytes are examined. *)
Definition examine_secret (out fin secret key : list byte) (i : nat) :
    M (option (list byte) * list byte * list byte * option nat) :=
  secret ← checked (store (len out) fin secret);
  if len out + len fin <? PADLOCK_SECRET_SIZE then mret (None, secret, key, Some i) else
  magic ← checked (load 0 (len PADLOCK_SECRET_MAGIC) secret);
  if bool_decide (magic ≠ PADLOCK_SECRET_MAGIC) then mret (None, secret, key, Some i) else
  xts_key ← checked (load 8 PADLOCK_XTS_KEY_SIZE secret);
  mret (Some xts_key, secret, key, Some i).

Lemma wp_examine_secret out fin secret key i Q s :
  len secret = 88 → len out ≤ 88 → (len out + len fin ≤ 88 ∨ U) →
  (opened (out ++ fin) = None → ∀ sec, len sec = 88 → Q (None, sec, key, Some i) s) →
  (∀ k sec, opened (out ++ fin) = Some k → len k = 64 → len sec = 88 →
     Q (Some k, sec, key, Some i) s) →
  wp nf U (examine_secret out fin (splice 0 out secret) key i) Q s.
Proof.
  intros Hsec Ho Hf HF HQ. apply wp_bind, wp_checked.
  { intros Hno. destruct Hf as [Hf|]; [|done].
    by rewrite (proj2 (store_update_final out fin secret ltac:(lia))) in Hno. }
  intros sec Hst. assert (len out + len fin ≤ 88) as Hb.
  { apply store_inv in Hst as (_ & Hst & _). rewrite len_splice in Hst; lia. }
  rewrite (proj2 (store_update_final out fin secret ltac:(lia))) in Hst. simplify_eq.
  unfold opened, PADLOCK_SECRET_SIZE, PADLOCK_XTS_KEY_SIZE in *.
  rewrite length_app, Nat2Z.inj_add in HF, HQ.
  assert (len (splice 0 (out ++ fin) secret) = 88) as Hl
    by (rewrite len_splice; rewrite ?length_app; lia).
  destruct (Z.ltb_spec (len out + len fin) 72) as [Hs|Hs].
  { apply wp_ret, HF; [|done]. by rewrite (proj2 (Z.leb_gt 72 _)). }
  rewrite (proj2 (Z.leb_le 72 _)) in HF, HQ by done. cbn [andb] in HF, HQ.
  apply wp_bind. eapply wp_checked_some; [apply load_some; cbn; lia|]. change (len PADLOCK_SECRET_MAGIC) with 8.
  rewrite sub_splice_inside by (rewrite ?length_app; lia). rewrite Z.sub_0_r.
  destruct (decide (sub 0 8 (out ++ fin) = PADLOCK_SECRET_MAGIC)) as [E|E].
  2: { rewrite bool_decide_true by done. rewrite bool_decide_false in HF by done. apply wp_ret, HF; done. }
  rewrite bool_decide_false by tauto. rewrite bool_decide_true in HQ by done.
  apply wp_bind. eapply wp_checked_some; [apply load_some; lia|].
  rewrite sub_splice_inside by (rewrite ?length_app; lia). rewrite Z.sub_0_r.
  apply wp_ret, HQ; [done| |done]. apply len_sub; rewrite ?length_app; lia.
Qed.

(** Opening the header.  The second hypothesis on the size is what keeps
    [EVP_DecryptUpdate] inside the 88 bytes of [secret]. *)
Lemma wp_decrypt_secret_body password h secret key Q s :
  header_typed h → encrypted_secret_size h ≤ 128 → (encrypted_secret_size h ≤ 88 ∨ U) →
  len secret = 88 → len key = 32 →
  (nf = false ∨ unseal password h = None →
     ∀ e sec key ctx, len sec = 88 → len key = 32 → ctx_fresh ctx s →
       Q (None, sec, key, ctx) (ctx_in ctx (set_errno_s e s))) →
  (∀ k sec key i, unseal password h = Some k → len k = 64 →
     len sec = 88 → len key = 32 → i ∉ s_live s →
     Q (Some k, sec, key, Some i) (ctx_in (Some i) s)) →
  wp nf U (decrypt_secret_body password h secret key) Q s.
Proof.
  intros (_ & _ & Hsalt & _ & Henc & Hsz0) Hsz Hsz' Hsec Hkey HF HQ.
  unfold unseal, cbc, cbc_message, evp_message in HF, HQ.
  apply wp_bind, wp_derive_header_key; [done| |].
  { intros H e. apply wp_ret, (HF ltac:(destruct H as [|H]; [by left|right; by rewrite H]) e _ _ None); done. }
  clear Hkey key. intros key Ek Hkey. rewrite Ek in HF, HQ. cbn [mbind option_bind id] in HF, HQ.
  apply wp_bind, wp_ctx_new; [intros Hnf e; apply wp_ret, (HF (or_introl Hnf) e _ _ None); done|].
  intros i Hfresh. change (alloc_s i s) with (ctx_in (Some i) s).
  apply wp_bind, wp_lib_ctx.
  { call_failed HF. }
  intros c Einit. rewrite Einit in HF, HQ. cbn [mbind option_bind] in HF, HQ.
  apply wp_bind. eapply wp_checked_some; [apply load_some; lia|].
  assert (len (sealed_bytes h) = encrypted_secret_size h) as Hl by (apply len_sub; lia).
  rewrite Hl in HF, HQ. rewrite int_of_small by lia. fold (sealed_bytes h).
  apply wp_bind, wp_lib_ctx.
  { call_failed HF. }
  intros [c' out] Eupd. rewrite Eupd in HF, HQ. cbn [mbind option_bind] in HF, HQ.
  assert (len out ≤ encrypted_secret_size h) as Hout.
  { rewrite <- Hl. eapply cbc_decrypt_update_fits; [exact Einit|]. by rewrite Hl. }
  apply wp_bind, wp_checked.
  { intros Hno. destruct Hsz' as [Hsz'|]; [|done]. rewrite store_some in Hno by lia. done. }
  intros sec (_ & Hb & ->)%store_inv.
  apply wp_bind, wp_lib_ctx.
  { call_failed HF. }
  intros fin Efin. rewrite Efin in HF, HQ. cbn [mbind option_bind] in HF, HQ.
  assert (len out + len fin ≤ encrypted_secret_size h) as Hfin.
  { rewrite <- Hl. apply (cbc_decrypt_final_fits key (iv h)).
    unfold cbc_message, evp_message, id. rewrite Einit, Hl. cbn [mbind option_bind].
    rewrite Eupd. cbn [mbind option_bind]. by rewrite Efin. }
  apply (wp_examine_secret out fin secret key i); [done|lia|destruct Hsz'; [left; lia|by right]| |].
  - intros Hno sec Hs. rewrite <- (set_errno_id s). apply HF; [by right|done..].
  - intros k sec Hk Hkl Hs. by apply HQ.
Qed.

(** [decrypt_secret] opens the header with the password, or fails; the derived
    key and the decrypted secret are cleared either way. *)
Lemma wp_decrypt_secret password h Q s :
  header_typed h → encrypted_secret_size h ≤ 128 → (encrypted_secret_size h ≤ 88 ∨ U) →
  (nf = false ∨ unseal password h = None →
     ∀ e, Q None (set_errno_s e (leaves [zeros 32; zeros 88] s))) →
  (∀ k, unseal password h = Some k → len k = 64 → Q (Some k) (leaves [zeros 32; zeros 88] s)) →
  wp nf U (decrypt_secret password h) Q s.
Proof.
  intros Ht Hsz Hsz' HF HQ. unfold decrypt_secret. rewrite Z.gtb_ltb, (proj2 (Z.ltb_ge 128 _)) by lia.
  apply wp_bind, wp_draw; [|lia]. intros key0 _ Hkey0.
  apply wp_bind, wp_decrypt_secret_body; [done..| |].
  - intros H e sec key ctx Hs Hk Hf. apply wp_bind, wp_free_ctx; [done|].
    apply wp_bind, wp_wipe_and_leave; [done|]. apply wp_bind, wp_wipe_and_leave; [done|].
    apply wp_ret. rewrite leaves_leaves, Hs. by apply HF.
  - intros k sec key i Hk Hkl Hs Hkey Hf. apply wp_bind, (wp_free_ctx (Some i)); [done|].
    apply wp_bind, wp_wipe_and_leave; [done|]. apply wp_bind, wp_wipe_and_leave; [done|].
    apply wp_ret. rewrite leaves_leaves, Hs. by apply HQ.
Qed.

(** *** Sealing the store key *)

Lemma header_key_len password salt k : header_key password salt = Some k → len k = 32.
Proof.
  unfold header_key. destruct password as [p|]; [|done]. cbn [mbind option_bind].
  case_bool_decide; [done|]. apply pbkdf2_len.
Qed.

Definition sealed_header (h : padlock_header) (enc : list byte) : padlock_header :=
  Header (total_size h) (write_offset h) (salt h) (iv h) enc 80.

Lemma opened_secret xts_key :
  len xts_key = 64 → opened (PADLOCK_SECRET_MAGIC ++ xts_key) = Some xts_key.
Proof.
  intros Hk. unfold opened, PADLOCK_SECRET_SIZE, PADLOCK_XTS_KEY_SIZE.
  assert (len PADLOCK_SECRET_MAGIC = 8) as Hm by done.
  rewrite length_app, (proj2 (Z.leb_le 72 _)) by lia.
  rewrite sub_app_l, sub_all by lia. rewrite bool_decide_true by done. cbn [andb].
  rewrite sub_app_r, Hm, Z.sub_diag, sub_all by lia. done.
Qed.

(** What was sealed under a password opens with it. *)
Lemma unseal_sealed password h key xts_key c :
  len xts_key = 64 → len (encrypted_secret h) = 128 → len c = 80 →
  header_key password (salt h) = Some key →
  cbc Encrypt key (iv h) (PADLOCK_SECRET_MAGIC ++ xts_key) = Some c →
  unseal password (sealed_header h (splice 0 c (encrypted_secret h))) = Some xts_key.
Proof.
  intros Hx He Hc Hk Henc. unfold unseal, sealed_bytes. cbn. rewrite Hk. cbn [mbind option_bind].
  rewrite <- Hc, sub_splice_same by lia.
  rewrite (cbc_decrypt _ _ _ _ Henc). cbn [mbind option_bind]. by apply opened_secret.
Qed.

(** CBC encryption of a 72-byte secret, call by call. *)
Lemma cbc_encrypt_calls key vec secret :
  len key = 32 → len vec = 16 → len secret = 72 →
  ∃ cx cx' out fin,
    EVP_Init Encrypt AES_256_CBC key vec = Some cx ∧ EVP_Update cx secret 72 = Some (cx', out) ∧
    EVP_Final cx' = Some fin ∧ len out + len fin = 80 ∧
    cbc Encrypt key vec secret = Some (out ++ fin).
Proof.
  intros Hk Hv Hs. destruct (cbc_encrypt_ok key vec secret Hk Hv) as [c Hc].
  pose proof (λ o1 o2, cbc_encrypt_len key vec secret o1 o2) as Hlen.
  unfold cbc, cbc_message, evp_message, id in *. rewrite Hs in *.
  destruct (EVP_Init Encrypt AES_256_CBC key vec) as [cx|]; [|done]. cbn [mbind option_bind] in *.
  destruct (EVP_Update cx secret 72) as [[cx' out]|] eqn:Eu; [|done]. cbn [mbind option_bind] in *.
  destruct (EVP_Final cx') as [fin|] eqn:Ef; [|done]. cbn [mbind option_bind] in *.
  exists cx, cx', out, fin. rewrite Eu. cbn [mbind option_bind]. rewrite Ef.
  split_and!; [done..| |done]. rewrite (Hlen out fin); done.
Qed.

Lemma wp_encrypt_secret_body password h xts_key key Q s :
  header_typed h → len xts_key = 64 → len key = 32 →
  let secret := PADLOCK_SECRET_MAGIC ++ xts_key in
  (nf = false ∨ header_key password (salt h) = None →
     ∀ e h' key ctx, len key = 32 → ctx_fresh ctx s →
       Q (-1, h', key, ctx) (ctx_in ctx (set_errno_s e s))) →
  (∀ enc key i, len enc = 128 → unseal password (sealed_header h enc) = Some xts_key →
     len key = 32 → i ∉ s_live s → Q (0, sealed_header h enc, key, Some i) (ctx_in (Some i) s)) →
  wp nf U (encrypt_secret_body password h secret key) Q s.
Proof.
  intros (_ & _ & Hsalt & Hiv & Henc & _) Hx Hkey secret HF HQ.
  assert (len secret = 72) as Hs by (unfold secret; rewrite length_app, Nat2Z.inj_add, Hx; done).
  apply wp_bind, wp_derive_header_key; [done| |].
  { intros H e. apply wp_ret, (HF H e _ _ None); done. }
  clear Hkey key. intros key Ek Hkey.
  destruct (cbc_encrypt_calls key (iv h) secret) as (cx & cx' & out & fin & Einit & Eupd & Efin & Hlen & Hc);
    [done..|].
  destruct (store_update_final out fin (encrypted_secret h) ltac:(lia)) as [Hst1 Hst2].
  apply wp_bind, wp_ctx_new; [intros Hnf e; apply wp_ret, (HF (or_introl Hnf) e _ _ None); done|].
  intros i Hfresh. change (alloc_s i s) with (ctx_in (Some i) s).
  rewrite Einit. apply wp_bind, wp_lib_ctx; [intros [|] e; [|done]; apply wp_ret, HF; [by left|done..]|].
  intros ? [= <-]. rewrite Hs, int_of_small, Eupd by lia.
  apply wp_bind, wp_lib_ctx; [intros [|] e; [|done]; apply wp_ret, HF; [by left|done..]|].
  intros ? [= <-]. apply wp_bind. eapply wp_checked_some; [exact Hst1|]. rewrite Efin.
  apply wp_bind, wp_lib_ctx; [intros [|] e; [|done]; apply wp_ret, HF; [by left|done..]|].
  intros ? [= <-]. apply wp_bind. eapply wp_checked_some; [exact Hst2|].
  apply wp_ret. cbn [total_size write_offset salt iv]. rewrite Hlen. change (u32 80) with 80.
  apply (HQ (splice 0 (out ++ fin) (encrypted_secret h))); [| |done..].
  - rewrite len_splice; rewrite ?length_app; lia.
  - apply (unseal_sealed password h key xts_key (out ++ fin)); try done. rewrite length_app. lia.
Qed.

(** [encrypt_secret] seals the store key so that the password opens it again;
    the derived key and the plain secret are cleared either way. *)
Lemma wp_encrypt_secret password h xts_key Q s :
  header_typed h → len xts_key = 64 →
  (nf = false ∨ header_key password (salt h) = None →
     ∀ e h', Q (-1, h') (set_errno_s e (leaves [zeros 32; zeros 72] s))) →
  (∀ enc, len enc = 128 → unseal password (sealed_header h enc) = Some xts_key →
     Q (0, sealed_header h enc) (leaves [zeros 32; zeros 72] s)) →
  wp nf U (encrypt_secret password h xts_key) Q s.
Proof.
  intros Ht Hx HF HQ. apply wp_bind, wp_draw; [|lia]. intros key0 _ Hkey0.
  assert (len PADLOCK_SECRET_MAGIC = 8) as Hm by done.
  apply wp_bind. eapply wp_checked_some; [apply store_some; rewrite ?len_zeros; unfold PADLOCK_SECRET_SIZE; lia|].
  apply wp_bind. eapply wp_checked_some; [apply load_some; unfold PADLOCK_XTS_KEY_SIZE; lia|].
  rewrite sub_all by (unfold PADLOCK_XTS_KEY_SIZE; lia).
  destruct (store_update_final PADLOCK_SECRET_MAGIC xts_key (zeros PADLOCK_SECRET_SIZE)) as [_ Hst].
  { rewrite len_zeros; unfold PADLOCK_SECRET_SIZE; lia. }
  rewrite Hm in Hst. apply wp_bind. eapply wp_checked_some; [exact Hst|].
  assert (len (PADLOCK_SECRET_MAGIC ++ xts_key) = 72) as Hs by (rewrite length_app; lia).
  rewrite splice_all by (rewrite len_zeros; unfold PADLOCK_SECRET_SIZE; lia).
  apply wp_bind, wp_encrypt_secret_body; [done..| |].
  - intros H e h' key ctx Hk Hf. apply wp_bind, wp_free_ctx; [done|].
    apply wp_bind, wp_wipe_and_leave; [done|]. apply wp_bind, wp_wipe_and_leave; [done|].
    apply wp_ret. rewrite leaves_leaves, Hs. by apply HF.
  - intros enc key i He Hu Hk Hf. apply wp_bind, (wp_free_ctx (Some i)); [done|].
    apply wp_bind, wp_wipe_and_leave; [done|]. apply wp_bind, wp_wipe_and_leave; [done|].
    apply wp_ret. rewrite leaves_leaves, Hs. by apply HQ.
Qed.
End Rules.

(** ** Properties *)

Section SecretTheorems.
Context {OSSL : Openssl} {Laws : OpensslLaws OSSL}.

Definition seal_then_open (password : option (list byte)) (h : padlock_header) (xts_key : list byte) :
    M (Z * option (list byte)) :=
  '(r, h) ← encrypt_secret password h xts_key;
  k ← decrypt_secret password h;
  mret (r, k).

(** C18: round trip.  When no call fails, the store key that [encrypt_secret] seals in a
    header is the one [decrypt_secret] opens with the same password; the
    header key and the secret are cleared by both, and no block stays
    allocated. *)
Theorem secret_roundtrip password h xts_key s :
  header_typed h → len xts_key = 64 → is_Some (header_key password (salt h)) →
  returns (seal_then_open password h xts_key) s (λ res s',
    res = (0, Some xts_key) ∧ s_live s' = s_live s ∧
    s_residue s' = s_residue s ++ [zeros 32; zeros 72; zeros 32; zeros 88]).
Proof.
  intros Ht Hk [hk Hhk]. apply wp_bind, wp_encrypt_secret; [done|done| |].
  { intros [|Hno]; [done|congruence]. }
  intros enc Henc Hun. apply wp_bind, wp_decrypt_secret; [| |left| |].
  - destruct Ht as (? & ? & ? & ? & _). split_and!; cbn; done || lia.
  - cbn. lia.
  - cbn. lia.
  - intros [|Hno]; [done|congruence].
  - intros k Hun' _. rewrite Hun in Hun'. apply (inj Some) in Hun' as <-.
    apply wp_ret. rewrite leaves_leaves. done.
Qed.
End SecretTheorems.

Section SecretWitness.
#[local] Existing Instance Toy.toy.
#[local] Existing Instance Toy.toy_laws.

Lemma secret_roundtrip_witness :
  let h := Header 8192 4096 (zeros 16) (zeros 16) (zeros 128) 0 in
  let s := Sys ∅ ∅ ∅ ∅ ∅ [] [] 0 ∅ no_io in
  returns (seal_then_open (Some (bstr "pw")) h (zeros 64)) s (λ res s',
    res = (0, Some (zeros 64)) ∧ s_live s' = ∅ ∧
    s_residue s' = [zeros 32; zeros 72; zeros 32; zeros 88]).
Proof.
  intros h s. apply (secret_roundtrip (Some (bstr "pw")) h (zeros 64) s);
    [|by rewrite len_zeros|by eexists].
  unfold header_typed, PADLOCK_SALT_SIZE, PADLOCK_IV_SIZE; cbn -[zeros]; rewrite ?len_zeros by lia; lia.
Defined.

End SecretWitness.
