(* ===== verification/Store.v ===== *)
(** * The store operations ([src/src/padlock.c]: [padlock_set], [padlock_get])

    The functions, statement by statement.  [goto done] hands the local variables
    to the cleanup code ([set_exit], [get_state]).  Pointer arguments are [None]
    for a null pointer. *)

From S2P Require Import Prelude World Libc Codec Openssl Header Secret.

(** The locals [padlock_set] has at its label [done]. *)
Record set_exit := SetExit {
  se_ok : Z;
  se_plain : option buf;
  se_cipher : option buf;
  se_padded : Z;
  se_key : list byte
}.

(** The locals of the loop of [padlock_get]. *)
Record get_state := GetState {
  g_offset : Z;
  g_found : option buf;
  g_found_length : Z;
  g_cipher : list byte;
  g_block : list byte
}.

Definition with_offset (h : padlock_header) (off : Z) : padlock_header :=
  Header (total_size h) off (salt h) (iv h) (encrypted_secret h) (encrypted_secret_size h).

Section Code.
Context {OSSL : Openssl}.

(** *** [padlock_set] *)

(** Fills the plain record: length byte, key, value length, value. *)
Definition fill_plain (key value : list byte) (key_length value_length : Z) (plain : buf) : M buf :=
  plain ← bstore 0 [zbyte key_length] plain;
  k ← checked (load 0 key_length key);
  plain ← bstore 1 k plain;
  d ← checked (put_u32 (1 + key_length) value_length (b_data plain));
  v ← checked (load 0 value_length value);
  bstore (1 + key_length + 4) v (Buf (b_id plain) d).

(** From the ciphertext to the label [done]: seek, write the record, write the
    header. *)
Definition set_write (file : nat) (header : padlock_header) (exit : Z → set_exit)
    (padded_length : Z) (cipher : buf) : M set_exit :=
  r ← fseeko file (off_of (write_offset header));
  if negb (r =? 0) then mret (exit (-1)) else
  out ← bload 0 padded_length cipher;
  n ← fwrite out file;
  if negb (n =? padded_length) then mret (exit (-1)) else
  let header := with_offset header (u64 (write_offset header + padded_length)) in
  r ← write_header file header;
  if negb (r =? 0) then mret (exit (-1)) else
  mret (exit 0).

(** From the allocated record buffers to the label [done]. *)
Definition set_record (file : nat) (header : padlock_header) (xts_key key value : list byte)
    (key_length value_length padded_length : Z) (plain cipher : buf) : M set_exit :=
  plain ← fill_plain key value key_length value_length plain;
  '(r, c) ← crypt_xts true xts_key (write_offset header) (b_data plain) (b_data cipher) padded_length;
  let cipher := Buf (b_id cipher) c in
  let exit ok := SetExit ok (Some plain) (Some cipher) padded_length xts_key in
  if negb (r =? 0) then mret (exit (-1)) else
  set_write file header exit padded_length cipher.

(** From the opened file to the label [done]. *)
Definition set_file (file : nat) (password key value : list byte) (key_length value_length : Z)
    (xts_key : list byte) : M set_exit :=
  header ← read_header file;
  match header with None => mret (SetExit (-1) None None 0 xts_key) | Some header =>
  k ← decrypt_secret (Some password) header;
  match k with None => mret (SetExit (-1) None None 0 xts_key) | Some xts_key =>
  let plain_length := u64 (1 + key_length + 4 + value_length) in
  let padded_length := align16 plain_length in
  if (padded_length <? 16) || (u64 (write_offset header + padded_length) >? total_size header)
  then mret (SetExit (-1) None None padded_length xts_key) else
  plain ← calloc padded_length;
  cipher ← malloc padded_length;
  match plain, cipher with
  | Some plain, Some cipher =>
      set_record file header xts_key key value key_length value_length padded_length plain cipher
  | _, _ => mret (SetExit (-1) plain cipher padded_length xts_key)
  end end end.

(** The label [done] of [padlock_set]. *)
Definition set_done (file : option nat) (x : set_exit) : M Z :=
  (match file with Some f => fclose f;; mret tt | None => mret tt end);;
  (match se_plain x with
   | Some p =>
       d ← checked (padlock_secure_zero (b_data p) (se_padded x));
       free (Some (Buf (b_id p) d))
   | None => mret tt
   end);;
  free (se_cipher x);;
  wipe_and_leave (se_key x) PADLOCK_XTS_KEY_SIZE;;
  mret (se_ok x).

Definition padlock_set (path password key value : option (list byte)) (value_length : Z) : M Z :=
  match path, password, key, value with
  | Some path, Some password, Some key, Some value =>
      let key_length := strlen key in
      if (key_length =? 0) || (key_length >? 255) then mret (-1) else
      xts_key ← draw PADLOCK_XTS_KEY_SIZE;
      file ← fopen_existing path true;
      match file with
      | None => set_done None (SetExit (-1) None None 0 xts_key)
      | Some f =>
          x ← set_file f password key value key_length value_length xts_key;
          set_done (Some f) x
      end
  | _, _, _, _ => mret (-1)
  end.

(** *** [padlock_get] *)

(** Seek, read [n] bytes into [cipher] and decrypt them into [plain]; [false]
    when one of the three fails. *)
Definition read_decrypt (file : nat) (xts_key : list byte) (offset n : Z) (cipher plain : list byte) :
    M (bool * list byte * list byte) :=
  r ← fseeko file (off_of offset);
  if negb (r =? 0) then mret (false, cipher, plain) else
  got ← fread file n;
  cipher ← checked (store 0 got cipher);
  if negb (len got =? n) then mret (false, cipher, plain) else
  '(r, plain) ← crypt_xts false xts_key offset cipher plain n;
  mret (r =? 0, cipher, plain).

(** Clears [n] bytes of a block. *)
Definition wipe_block (p : buf) (n : Z) : M buf :=
  d ← checked (padlock_secure_zero (b_data p) n); mret (Buf (b_id p) d).

(** The record is read: compare its key and keep its value. *)
Definition get_match (key : list byte) (key_length key_size value_length : Z)
    (entry_plain : buf) (st : get_state) : M (option (option buf * Z)) :=
  if negb (key_size =? key_length) then mret (Some (g_found st, g_found_length st)) else
  mem ← bload 1 key_length entry_plain;
  k ← checked (load 0 key_length key);
  if bool_decide (mem ≠ k) then mret (Some (g_found st, g_found_length st)) else
  replacement ← malloc (u32 (value_length + 1));
  match replacement with None => mret None | Some r =>
  v ← bload (1 + key_size + 4) value_length entry_plain;
  r ← bstore 0 v r;
  r ← bstore value_length [Byte.x00] r;
  free (g_found st);;
  mret (Some (Some r, value_length))
  end.

(** From the known record length to the end of the iteration. *)
Definition get_entry (file : nat) (xts_key key : list byte) (key_length key_size value_length prefix_length
    padded_length : Z) (prefix_cipher prefix_plain : buf) (st : get_state) : M (bool * get_state) :=
  entry_cipher ← malloc padded_length;
  entry_plain ← malloc padded_length;
  match entry_cipher, entry_plain with
  | Some ec, Some ep =>
      '(ok, c, p) ← read_decrypt file xts_key (g_offset st) padded_length (b_data ec) (b_data ep);
      let ec := Buf (b_id ec) c in
      let ep := Buf (b_id ep) p in
      if negb ok then
        pp ← wipe_block prefix_plain prefix_length;
        free (Some prefix_cipher);; free (Some pp);; free (Some ec);; free (Some ep);;
        mret (false, st)
      else
      m ← get_match key key_length key_size value_length ep st;
      match m with
      | None => free (Some ec);; free (Some ep);; mret (false, st)
      | Some (found, found_length) =>
          pp ← wipe_block prefix_plain prefix_length;
          free (Some prefix_cipher);; free (Some pp);;
          ep ← wipe_block ep padded_length;
          free (Some ec);; free (Some ep);;
          mret (true, GetState (u64 (g_offset st + padded_length)) found found_length
                        (g_cipher st) (g_block st))
      end
  | _, _ =>
      pp ← wipe_block prefix_plain prefix_length;
      free (Some prefix_cipher);; free (Some pp);; free entry_cipher;; free entry_plain;;
      mret (false, st)
  end.

(** From the first block of a record to the length of its value. *)
Definition get_prefix (file : nat) (header : padlock_header) (xts_key key : list byte)
    (key_length key_size : Z) (st : get_state) : M (bool * get_state) :=
  let prefix_length := align16 (u32 (1 + key_size + 4)) in
  if u64 (g_offset st + prefix_length) >? write_offset header then mret (false, st) else
  prefix_cipher ← malloc prefix_length;
  prefix_plain ← malloc prefix_length;
  match prefix_cipher, prefix_plain with
  | Some pc, Some pp =>
      '(ok, c, p) ← read_decrypt file xts_key (g_offset st) prefix_length (b_data pc) (b_data pp);
      let pc := Buf (b_id pc) c in
      let pp := Buf (b_id pp) p in
      if negb ok then free (Some pc);; free (Some pp);; mret (false, st) else
      value_length ← checked (get_u32 (1 + key_size) p);
      let entry_length := u32 (1 + key_size + 4 + value_length) in
      let padded_length := align16 entry_length in
      if (padded_length <? 16) || (u64 (g_offset st + padded_length) >? write_offset header) then
        pp ← wipe_block pp prefix_length;
        free (Some pc);; free (Some pp);; mret (false, st)
      else
      get_entry file xts_key key key_length key_size value_length prefix_length padded_length pc pp st
  | _, _ => free prefix_cipher;; free prefix_plain;; mret (false, st)
  end.

(** One iteration of the loop; [false] is [goto done]. *)
Definition get_step (file : nat) (header : padlock_header) (xts_key key : list byte) (key_length : Z)
    (st : get_state) : M (bool * get_state) :=
  '(ok, c, b) ← read_decrypt file xts_key (g_offset st) 16 (g_cipher st) (g_block st);
  let st := GetState (g_offset st) (g_found st) (g_found_length st) c b in
  if negb ok then mret (false, st) else
  x ← checked (byte_at 0 b);
  let key_size := bval x in
  if key_size =? 0 then mret (false, st) else
  get_prefix file header xts_key key key_length key_size st.

Fixpoint get_loop (fuel : nat) (file : nat) (header : padlock_header) (xts_key key : list byte)
    (key_length : Z) (st : get_state) : M (bool * get_state) :=
  if u64 (g_offset st + 16) <=? write_offset header then
    match fuel with
    | O => diverge
    | S fuel =>
        '(more, st) ← get_step file header xts_key key key_length st;
        if more : bool then get_loop fuel file header xts_key key key_length st
        else mret (false, st)
    end
  else mret (true, st).

(** Each iteration advances by at least 16 bytes. *)
Definition get_fuel (header : padlock_header) : nat :=
  S (Z.to_nat ((write_offset header - PADLOCK_HEADER_SIZE) / 16)).

(** The label [done] of [padlock_get], with what the caller receives. *)
Definition get_done (file : option nat) (ok : Z) (value : option buf) (value_length : Z)
    (found : option buf) (xts_key cipher block : list byte) : M (Z * option buf * Z) :=
  (match file with Some f => fclose f;; mret tt | None => mret tt end);;
  free found;;
  wipe_and_leave xts_key PADLOCK_XTS_KEY_SIZE;;
  leave cipher;; leave block;;
  mret (ok, value, value_length).

(** The result, [*value] and [*value_length]. *)
Definition padlock_get (path password key : option (list byte)) : M (Z * option buf * Z) :=
  match path, password, key with
  | Some path, Some password, Some key =>
      let key_length := strlen key in
      xts_key ← draw PADLOCK_XTS_KEY_SIZE;
      cipher ← draw 16;
      block ← draw 16;
      file ← fopen_existing path false;
      match file with
      | None => get_done None (-1) None 0 None xts_key cipher block
      | Some f =>
      header ← read_header f;
      match header with None => get_done file (-1) None 0 None xts_key cipher block | Some header =>
      k ← decrypt_secret (Some password) header;
      match k with None => get_done file (-1) None 0 None xts_key cipher block | Some xts_key =>
      '(ended, st) ← get_loop (get_fuel header) f header xts_key key key_length
                       (GetState PADLOCK_HEADER_SIZE None 0 cipher block);
      match ended, g_found st with
      | true, Some found =>
          get_done file 0 (Some found) (g_found_length st) None xts_key (g_cipher st) (g_block st)
      | _, found => get_done file (-1) None 0 found xts_key (g_cipher st) (g_block st)
      end end end end
  | _, _, _ => mret (-1, None, 0)
  end.
End Code.

Definition padlock_free (value : option buf) : M unit := free value.
