(* ===== verification/StoreSpec.v ===== *)
(** * What a store file means

    [record_plain] is the layout of a record, [encodes] a sequence of encrypted
    records, [represents] the relation between the bytes of a store file and the
    list of entries it holds, oldest first; [lookup_last] is the abstract lookup.
    [parse_record] is the reference reading of one record, the specification of an
    iteration of [padlock_get] on ANY file.  [heap] and the rules at the end are
    the proof interface for functions that read one stream and use the heap. *)

From S2P Require Import Prelude World Libc Codec Openssl Header Secret Store.
Import LittleEndianList.

(** ** Entries *)

Abbreviation entry := (list byte * list byte)%type.

(** The value of the last entry with a key. *)
Definition lookup_last (k : list byte) (es : list entry) : option (list byte) :=
  foldl (λ acc '(k', v), if decide (k' = k) then Some v else acc) None es.

Lemma lookup_last_snoc k es k' v :
  lookup_last k (es ++ [(k', v)]) = if decide (k' = k) then Some v else lookup_last k es.
Proof. unfold lookup_last. by rewrite foldl_app. Qed.

(** An entry whose record length does not overflow the 32-bit computations. *)
Definition entry_ok (k v : list byte) : Prop :=
  1 ≤ len k ≤ 255 ∧ no_nul k ∧ 5 + len k + len v ≤ 2 ^ 32 - 16.

Definition record_length (k v : list byte) : Z := align16 (5 + len k + len v).

Definition record_body (k v : list byte) : list byte :=
  [zbyte (len k)] ++ k ++ le_split 4 (len v) ++ v.

Definition record_plain (k v : list byte) : list byte :=
  record_body k v ++ zeros (record_length k v - (5 + len k + len v)).

Section Meaning.
Context {OSSL : Openssl}.

(** [c], at file offset [off], holds the encrypted records of [es]. *)
Fixpoint encodes (key : list byte) (off : Z) (es : list entry) (c : list byte) : Prop :=
  match es with
  | [] => c = []
  | (k, v) :: es =>
      entry_ok k v ∧
      ∃ c1 c2, c = c1 ++ c2 ∧ len c1 = record_length k v ∧
        xts_at true key off (record_plain k v) = Some c1 ∧
        encodes key (off + len c1) es c2
  end.

(** The bytes [x] are a store that opens with [password], whose records are
    encrypted under [key] and hold the entries [es]. *)
Record store_rep (password : option (list byte)) (x : list byte) (h : padlock_header)
    (key c : list byte) (es : list entry) : Prop := {
  sr_typed : header_typed h;
  sr_valid : header_valid h;
  sr_secret_size : encrypted_secret_size h = 80;
  sr_size : total_size h = len x;
  sr_bound : len x < 2 ^ 63;
  sr_header : sub 0 PADLOCK_HEADER_SIZE x = header_image h;
  sr_unseal : unseal password h = Some key;
  sr_key : len key = 64;
  sr_offset : write_offset h = PADLOCK_HEADER_SIZE + len c;
  sr_records : sub PADLOCK_HEADER_SIZE (len c) x = c;
  sr_encodes : encodes key PADLOCK_HEADER_SIZE es c
}.

Definition represents (password : option (list byte)) (x : list byte) (es : list entry) : Prop :=
  ∃ h key c, store_rep password x h key c es.

(** ** Reading a record from any file *)

(** The plain bytes of [n] bytes at [off], if they can be read and decrypted. *)
Definition dec_at (key x : list byte) (off n : Z) : option (list byte) :=
  if (off <? 2 ^ 63) && (off + n <=? len x) then xts_at false key off (sub off n x) else None.

Record parsed := Parsed {
  p_key_size : Z;
  p_value_length : Z;
  p_padded : Z;
  p_plain : list byte
}.

(** The rest of a record whose first block says its key has [ks] bytes. *)
Definition parse_value (key x : list byte) (wo off ks : Z) : option parsed :=
  let pl := align16 (u32 (1 + ks + 4)) in
  if u64 (off + pl) >? wo then None else
  pp ← dec_at key x off pl;
  vl ← get_u32 (1 + ks) pp;
  let padded := align16 (u32 (1 + ks + 4 + vl)) in
  if (padded <? 16) || (u64 (off + padded) >? wo) then None else
  ep ← dec_at key x off padded;
  Some (Parsed ks vl padded ep).

Definition parse_record (key x : list byte) (wo off : Z) : option parsed :=
  block ← dec_at key x off 16;
  b ← byte_at 0 block;
  if bval b =? 0 then None else parse_value key x wo off (bval b).
End Meaning.

(** The record's bytes all lie inside the decrypted buffer: the 32-bit length
    computation of [padlock_get] did not wrap. *)
Definition no_wrap (p : parsed) : Prop := 5 + p_key_size p + p_value_length p ≤ p_padded p.

(** ** The heap of a function that reads *)

Definition heap (L : gset nat) (R : list (list byte)) (B : sys) : sys := set_residue R (set_live L B).

Lemma heap_intro B : B = heap (s_live B) (s_residue B) B.
Proof. by destruct B. Qed.

Section HeapRules.
Context (nf : bool) (U : Prop) (f : nat) (st : stream) (B : sys).

(** Reading state with live blocks [L] and residue [R]. *)
Definition hs (L : gset nat) (R : list (list byte)) (e p : Z) (d : direction) : sys :=
  rd f st (heap L R B) e p d.

Lemma wp_hs_malloc n Q L R e p d :
  0 ≤ n →
  (nf = false → ∀ e', Q None (hs L R e' p d)) →
  (∀ i x, i ∉ L → len x = n → Q (Some (Buf i x)) (hs ({[i]} ∪ L) R e p d)) →
  wp nf U (malloc n) Q (hs L R e p d).
Proof. intros Hn HF HQ. apply wp_malloc; [done|..]; auto. Qed.

Lemma wp_hs_free x Q L R e p d :
  b_id x ∈ L → Q tt (hs (L ∖ {[b_id x]}) (R ++ [b_data x]) e p d) →
  wp nf U (free (Some x)) Q (hs L R e p d).
Proof. intros Hx HQ. apply wp_free; auto. Qed.

Lemma wp_hs_leave x Q L R e p d :
  Q tt (hs L (R ++ [x]) e p d) → wp nf U (leave x) Q (hs L R e p d).
Proof. intros HQ. apply wp_leave, HQ. Qed.
End HeapRules.

Section ReadDecrypt.
Context {OSSL : Openssl} {Laws : OpensslLaws OSSL}.
Context (nf : bool) (U : Prop) (f : nat) (st : stream) (B : sys) (x : list byte).
Context (Hx : i_data <$> s_inodes B !! st_ino st = Some x).

Lemma xts_at_len enc key off d o : xts_at enc key off d = Some o → len o = len d.
Proof.
  unfold xts_at, xts. destruct (xts_message _ _ _ _) as [[o1 o2]|] eqn:E; [|done].
  apply xts_final_fits in E. intros [= <-]. rewrite length_app. lia.
Qed.

Lemma dec_at_len key y off n o : 0 ≤ off → 0 ≤ n → dec_at key y off n = Some o → len o = n.
Proof.
  intros. unfold dec_at in *. case_match eqn:E; [|done].
  apply andb_true_iff in E as [_ E%Z.leb_le].
  erewrite xts_at_len by done. apply len_sub; lia.
Qed.

(** Seek, read and decrypt: the plain bytes of the file at the offset. *)
Lemma wp_read_decrypt key off n cipher plain Q L R e p d :
  0 ≤ off < 2 ^ 64 → 0 < n ≤ len cipher → n ≤ len plain → d ≠ Writing →
  (nf = false ∨ dec_at key x off n = None → ∀ e' p' d' ci pl, d' ≠ Writing →
     len ci = len cipher → len pl = len plain → Q (false, ci, pl) (hs f st B L R e' p' d')) →
  (∀ o e' p', dec_at key x off n = Some o → len o = n → 0 ≤ off < 2 ^ 63 →
     Q (true, splice 0 (sub off n x) cipher, splice 0 o plain) (hs f st B L R e' p' Reading)) →
  wp nf U (read_decrypt f key off n cipher plain) Q (hs f st B L R e p d).
Proof.
  intros Hoff Hn Hn' Hd HF HQ. unfold dec_at in HF, HQ. apply wp_bind, wp_rd_fseeko.
  { intros H e'. apply wp_ret, HF; [|done..]. destruct H as [|Hneg]; [by left|right].
    destruct (Z.ltb_spec off (2 ^ 63)); [|done]. rewrite off_of_small in Hneg by lia. lia. }
  intros Hpos. cbn [negb Z.eqb].
  assert (off < 2 ^ 63) as Hoff'.
  { destruct (Z.lt_ge_cases off (2 ^ 63)) as [|Hge]; [done|]. pose proof (off_of_neg off). lia. }
  rewrite off_of_small in * by lia. rewrite (proj2 (Z.ltb_lt off _)) in HF, HQ by done.
  cbn [andb] in HF, HQ.
  assert (∀ e' k, let got := take k (sub off n x) in
    (len got < n → nf = false ∨ len x < off + n) →
    wp nf U (cipher ← checked (store 0 got cipher);
             if negb (len got =? n) then mret (false, cipher, plain) else
             '(r, plain) ← crypt_xts false key off cipher plain n;
             mret (r =? 0, cipher, plain)) Q (hs f st B L R e' (off + len got) Reading)) as Hgot.
  { intros e' k got Hlt. assert (len got ≤ n) by (unfold got; len_lia).
    apply wp_bind. eapply wp_checked_some; [apply store_some; lia|].
    assert (len (splice 0 got cipher) = len cipher) as Hc by (apply len_splice; lia).
    destruct (Z.eqb_spec (len got) n) as [El|El]; cbn [negb].
    2: { apply wp_ret, HF; [|done..]. destruct (Hlt ltac:(lia)) as [|Hs]; [by left|right].
         by rewrite (proj2 (Z.leb_gt _ _)). }
    assert (got = sub off n x) as Eg by (apply take_ge; unfold got in *; len_lia).
    assert (off + n ≤ len x) as Hfit.
    { rewrite Eg in El. unfold sub in El. rewrite length_take, length_drop in El. lia. }
    rewrite (proj2 (Z.leb_le _ _)) in HF, HQ by done.
    assert (sub 0 n (splice 0 got cipher) = sub off n x) as Esub.
    { rewrite <- El at 1. rewrite sub_splice_same by lia. done. }
    apply wp_bind, wp_crypt_xts; [lia|lia|rewrite Esub..].
    - intros Hf e'' out Ho. apply wp_ret, HF; done.
    - intros o Ho Hl. apply wp_ret. rewrite Eg. by apply HQ. }
  apply wp_bind, (wp_rd_fread _ _ _ _ _ _ _ _ _ x); [done|exact Hx| |].
  - intros Hn0 e' k. apply Hgot. auto.
  - intros got. unfold got. rewrite <- (take_ge (sub off n x) (length (sub off n x))) by lia.
    apply Hgot. rewrite take_ge by lia. intros Hl. right. unfold sub in Hl.
    rewrite length_take, length_drop in Hl. lia.
Qed.
End ReadDecrypt.
