(* ===== verification/StoreGet.v ===== *)
(** * Correctness of [padlock_get]

    The iteration of [padlock_get] follows [parse_record] on any file
    ([wp_get_step]); the loop ends within its fuel; on a store that represents
    entries the result is the last value of the key.  The rules hold for every
    pattern of failing calls. *)

From S2P Require Import Prelude World Libc Codec Openssl Header Secret Store StoreSpec.
Import LittleEndianList.

(** The live blocks while [found] holds a value. *)
Definition found_live (found : option buf) (L : gset nat) : gset nat :=
  match found with Some b => {[b_id b]} ∪ L | None => L end.

Definition found_fresh (found : option buf) (L : gset nat) : Prop :=
  match found with Some b => b_id b ∉ L | None => True end.

(** The record of a parse has the wanted key. *)
Definition key_matches (key : list byte) (ks : Z) (plain : list byte) : Prop :=
  ks = strlen key ∧ sub 1 ks plain = c_str key.

#[export] Instance key_matches_dec key ks plain : Decision (key_matches key ks plain).
Proof. unfold key_matches. apply _. Defined.

Definition parsed_value (p : parsed) : list byte :=
  sub (5 + p_key_size p) (p_value_length p) (p_plain p).

Section Step.
Context {OSSL : Openssl} {Laws : OpensslLaws OSSL}.
Context (nf : bool) (U : Prop) (f : nat) (st : stream) (B : sys) (x : list byte).
Context (Hx : i_data <$> s_inodes B !! st_ino st = Some x).
Context (xts_key key : list byte).
Implicit Types (L : gset nat) (R : list (list byte)).

Local Abbreviation hs := (hs f st B).

Lemma hs_live L L' R e p d : L ≡ L' → hs L R e p d = hs L' R e p d.
Proof. by intros ->%leibniz_equiv. Qed.

Lemma wp_free_opt fo Q L R e p d :
  (∀ b, fo = Some b → b_id b ∈ L) →
  (∀ R', Q tt (hs (match fo with Some b => L ∖ {[b_id b]} | None => L end) R' e p d)) →
  wp nf U (free fo) Q (hs L R e p d).
Proof. destruct fo; intros; [apply wp_hs_free; auto|by apply wp_ret]. Qed.

(** Keeping the value of a record whose key is the one wanted. *)
Lemma wp_get_match ks vl ep g Q L R e p d :
  0 < ks → 0 ≤ vl < 2 ^ 32 → (5 + ks + vl ≤ len (b_data ep) ∧ vl + 1 < 2 ^ 32 ∨ U) →
  (∀ b, g_found g = Some b → b_id b ∈ L) →
  (¬ key_matches key ks (b_data ep) → Q (Some (g_found g, g_found_length g)) (hs L R e p d)) →
  (nf = false → ∀ e', Q None (hs L R e' p d)) →
  (key_matches key ks (b_data ep) → 5 + ks + vl ≤ len (b_data ep) →
     ∀ i R', i ∉ L →
     Q (Some (Some (Buf i (sub (5 + ks) vl (b_data ep) ++ [Byte.x00])), vl))
       (hs (match g_found g with Some b => ({[i]} ∪ L) ∖ {[b_id b]} | None => {[i]} ∪ L end)
           R' e p d)) →
  wp nf U (get_match key (strlen key) ks vl ep g) Q (hs L R e p d).
Proof.
  intros Hks Hvl Hw Hfound Hmiss Hnull Hhit. unfold get_match, key_matches in *.
  pose proof (strlen_range key).
  destruct (Z.eqb_spec ks (strlen key)) as [Eks|Eks]; cbn [negb].
  2: { apply wp_ret, Hmiss. tauto. }
  apply wp_bind, wp_checked.
  { intros Hno. destruct Hw as [Hw|]; [|done]. rewrite load_some in Hno by lia. done. }
  intros mem (_ & _ & Hb1 & ->)%load_inv.
  apply wp_bind. eapply wp_checked_some; [apply load_some; lia|]. rewrite sub_strlen, <- Eks.
  case_bool_decide as Hm.
  { apply wp_ret, Hmiss. intros [_ ?]. done. }
  apply wp_bind, wp_hs_malloc; [apply u32_range|intros; apply wp_ret; auto|].
  intros i r Hi Hr. apply wp_bind, wp_checked.
  { intros Hno. destruct Hw as [Hw|]; [|done]. rewrite load_some in Hno by lia. done. }
  intros v (_ & _ & Hb2 & ->)%load_inv. replace (1 + ks + 4) with (5 + ks) in * by lia.
  set (v := sub (5 + ks) vl (b_data ep)).
  assert (len v = vl) as Hv by (apply len_sub; lia).
  pose proof (u32_range (vl + 1)) as Hur.
  apply wp_bind, wp_bind, wp_checked.
  { intros Hno. destruct Hw as [Hw|]; [|done]. rewrite u32_small in Hr by lia.
    cbn [b_data] in Hno. rewrite store_some in Hno by lia. done. }
  cbn [b_data]. intros d1 (_ & Hd1 & ->)%store_inv.
  apply wp_ret, wp_bind, wp_bind, wp_checked; cbn [b_data].
  { intros Hno. destruct Hw as [Hw|]; [|done]. rewrite u32_small in Hr by lia.
    rewrite store_some in Hno by (rewrite ?len_splice by lia; cbn; lia). done. }
  intros d2 (_ & Hd2 & ->)%store_inv. rewrite len_splice in Hd2 by lia. cbn in Hd2.
  apply wp_ret, wp_bind, wp_free_opt; [set_solver|]. intros R'. apply wp_ret. cbn [b_id].
  replace (splice vl [Byte.x00] (splice 0 v r)) with (v ++ [Byte.x00]).
  { destruct (g_found g); by apply (Hhit (conj Eks Hm)). }
  replace vl with (0 + len v) by lia. rewrite splice_splice_end by (cbn; lia).
  rewrite splice_all; [done|]. rewrite length_app. cbn.
  assert (u32 (vl + 1) ≤ vl + 1) by (apply Z.mod_le; lia). lia.
Qed.

Lemma wp_wipe_block b n Q s :
  n = len (b_data b) → Q (Buf (b_id b) (zeros n)) s → wp nf U (wipe_block b n) Q s.
Proof.
  intros -> HQ. apply wp_bind. eapply wp_checked_some; [apply secure_zero_all|]. by apply wp_ret.
Qed.

(** Steps through the frees and wipes on the way out of an iteration. *)
Local Ltac cleanup :=
  repeat first
    [ apply wp_bind, wp_wipe_block; [done|]; cbn [b_id b_data]
    | apply wp_bind, wp_free_null
    | apply wp_bind, wp_hs_free; [cbn [b_id]; set_solver|]; cbn [b_id b_data]
    | apply wp_bind, wp_free_null ].

Context (L0 : gset nat).

(** The ways an iteration can give up: the value found so far is kept; blocks
    leak only when an allocation failed. *)
Definition gives_up (Q : bool * get_state → sys → Prop) (g : get_state) : Prop :=
  ∀ L' R' e p d, found_live (g_found g) L0 ⊆ L' → (nf = true → L' = found_live (g_found g) L0) →
    d ≠ Writing → Q (false, g) (hs L' R' e p d).

Lemma gives_up_eq Q g L R e p d :
  gives_up Q g → L ≡ found_live (g_found g) L0 → d ≠ Writing → Q (false, g) (hs L R e p d).
Proof. intros HQ ->%leibniz_equiv Hd. by apply HQ. Qed.

(** The next iteration starts, without or with a new value. *)
Definition goes_on (Q : bool * get_state → sys → Prop) (g : get_state) (ks vl padded : Z)
    (plain : list byte) : Prop :=
  (¬ key_matches key ks plain → ∀ R' e p,
     Q (true, GetState (u64 (g_offset g + padded)) (g_found g) (g_found_length g) (g_cipher g) (g_block g))
       (hs (found_live (g_found g) L0) R' e p Reading)) ∧
  (key_matches key ks plain → 5 + ks + vl ≤ padded → ∀ i R' e p, i ∉ L0 →
     Q (true, GetState (u64 (g_offset g + padded)) (Some (Buf i (sub (5 + ks) vl plain ++ [Byte.x00]))) vl
                (g_cipher g) (g_block g))
       (hs ({[i]} ∪ L0) R' e p Reading)).

Lemma wp_get_entry g ks vl pl padded pc pp Q R e p d :
  0 ≤ g_offset g < 2 ^ 64 → 16 ≤ padded → 0 < ks → 0 ≤ vl < 2 ^ 32 → pl = len (b_data pp) →
  (is_Some (dec_at xts_key x (g_offset g) padded) → 5 + ks + vl ≤ padded ∧ vl + 1 < 2 ^ 32 ∨ U) →
  d ≠ Writing → found_fresh (g_found g) L0 →
  let Lf := found_live (g_found g) L0 in
  b_id pc ∉ Lf → b_id pp ∉ ({[b_id pc]} ∪ Lf) →
  (nf = false ∨ dec_at xts_key x (g_offset g) padded = None → gives_up Q g) →
  (∀ plain, dec_at xts_key x (g_offset g) padded = Some plain → len plain = padded →
     goes_on Q g ks vl padded plain) →
  wp nf U (get_entry f xts_key key (strlen key) ks vl pl padded pc pp g) Q
    (hs ({[b_id pp]} ∪ ({[b_id pc]} ∪ Lf)) R e p d).
Proof.
  intros Hoff Hpad Hks Hvl Hpl Hw Hd Hff Lf Hpc Hpp HF HQ.
  apply wp_bind, wp_hs_malloc; [lia| |].
  { intros Hn e'. apply wp_bind, wp_hs_malloc; [lia| |].
    - intros _ e''. cleanup. apply wp_ret, gives_up_eq; [auto|set_solver|done].
    - intros i y Hi Hy. cleanup. apply wp_ret, gives_up_eq; [auto|set_solver|done]. }
  intros ec y Hec Hy. apply wp_bind, wp_hs_malloc; [lia| |].
  { intros Hn e'. cleanup. apply wp_ret, gives_up_eq; [auto|set_solver|done]. }
  intros ep z Hep Hz. apply wp_bind, (wp_read_decrypt _ _ _ _ _ x Hx); cbn [b_data]; [lia|lia|lia|done| |].
  { intros Hf e' p' d' ci plo Hd' Hci Hplo. cbn [negb]. cleanup.
    apply wp_ret, gives_up_eq; [auto|set_solver|done]. }
  intros plain e' p' Hdec Hlen Hoff'. cbn [negb b_id].
  rewrite (splice_all plain z) by lia. specialize (HQ plain Hdec Hlen) as [Hmiss Hhit].
  apply wp_bind, wp_get_match; cbn [b_data]; [done..|rewrite Hlen; by apply Hw| | | |].
  - intros b Hb. unfold Lf. rewrite Hb. set_solver.
  - intros Hm. cleanup. apply wp_ret.
    erewrite hs_live; [apply (Hmiss Hm)|]. set_solver.
  - intros Hn e''. cleanup. apply wp_ret, HF; [by left|set_solver|congruence|done].
  - intros Hm Hfit i R' Hi. rewrite Hlen in Hfit.
    assert (i ∉ L0) as Hi0 by (unfold Lf in *; destruct (g_found g); set_solver).
    specialize (Hhit Hm Hfit i).
    destruct (g_found g) as [b|]; cbn [found_live found_fresh] in *; unfold Lf in *; cleanup;
      apply wp_ret; (erewrite hs_live; [by apply Hhit|]); set_solver.
Qed.

(** What a parse guarantees on any file. *)
Lemma parse_value_bounds wo off ks pr :
  0 < ks < 256 → 0 ≤ off → 0 ≤ wo < 2 ^ 64 → parse_value xts_key x wo off ks = Some pr →
  p_key_size pr = ks ∧ 0 ≤ p_value_length pr < 2 ^ 32 ∧ 16 ≤ p_padded pr < 2 ^ 32 ∧
  off < 2 ^ 63 ∧ off + p_padded pr ≤ wo ∧ len (p_plain pr) = p_padded pr.
Proof.
  intros Hks Hoff Hwo. unfold parse_value. rewrite (u32_small (1 + ks + 4)) by lia.
  destruct (align16_spec (1 + ks + 4) ltac:(lia)) as [Hpl _].
  case_match; [done|]. destruct (dec_at _ _ _ (align16 _)) as [pp|] eqn:Edec; [|done].
  cbn [mbind option_bind]. destruct (get_u32 (1 + ks) pp) as [vl|] eqn:Evl; [|done].
  apply get_u32_inv in Evl as (_ & _ & Hvl); [|lia].
  cbn [mbind option_bind]. case_match eqn:Eg; [done|].
  destruct (dec_at xts_key x off (align16 (u32 (1 + ks + 4 + vl)))) as [ep|] eqn:Edec'; [|done].
  cbn [mbind option_bind]. intros Hpr. apply (inj Some) in Hpr as <-.
  cbn [p_key_size p_value_length p_padded].
  apply orb_false_iff in Eg as [Eg1 Eg2]. apply Z.ltb_ge in Eg1. rewrite Z.gtb_ltb in Eg2.
  apply Z.ltb_ge in Eg2. pose proof (align16_range (u32 (1 + ks + 4 + vl))).
  assert (off < 2 ^ 63) as Hoff'.
  { unfold dec_at in Edec'. destruct (Z.ltb_spec off (2 ^ 63)); done. }
  rewrite u64_small in Eg2 by lia. split_and!; try lia.
  eapply dec_at_len; [done|lia|done].
Qed.

Lemma wp_get_prefix h g ks Q R e p d :
  0 < ks < 256 → 0 ≤ g_offset g < 2 ^ 64 → 0 ≤ write_offset h < 2 ^ 64 → d ≠ Writing →
  found_fresh (g_found g) L0 →
  let r := parse_value xts_key x (write_offset h) (g_offset g) ks in
  (∀ pr, r = Some pr → no_wrap pr ∨ U) →
  (nf = false ∨ r = None → gives_up Q g) →
  (∀ pr, r = Some pr → goes_on Q g ks (p_value_length pr) (p_padded pr) (p_plain pr)) →
  wp nf U (get_prefix f h xts_key key (strlen key) ks g) Q
    (hs (found_live (g_found g) L0) R e p d).
Proof.
  intros Hks Hoff Hwo Hd Hff r Hw HF HQ. unfold get_prefix. unfold r, parse_value in *. clear r.
  assert (u32 (1 + ks + 4) = 1 + ks + 4) as Eu by (apply u32_small; lia).
  destruct (align16_spec (1 + ks + 4) ltac:(lia)) as [Hpl _]. rewrite Eu in *.
  set (pl := align16 (1 + ks + 4)) in *.
  destruct (u64 (g_offset g + pl) >? write_offset h).
  { apply wp_ret, gives_up_eq; [auto|done|done]. }
  apply wp_bind, wp_hs_malloc; [lia| |].
  { intros Hn e'. apply wp_bind, wp_hs_malloc; [lia| |].
    - intros _ e''. cleanup. apply wp_ret, gives_up_eq; [auto|set_solver|done].
    - intros i y Hi Hy. cleanup. apply wp_ret, gives_up_eq; [auto|set_solver|done]. }
  intros pc y Hpc Hy. apply wp_bind, wp_hs_malloc; [lia| |].
  { intros Hn e'. cleanup. apply wp_ret, gives_up_eq; [auto|set_solver|done]. }
  intros pp z Hpp Hz. apply wp_bind, (wp_read_decrypt _ _ _ _ _ x Hx); cbn [b_data]; [lia|lia|lia|done| |].
  { intros Hf e' p' d' ci plo Hd' Hci Hplo. cbn [negb]. cleanup.
    apply wp_ret, gives_up_eq; [|set_solver|done]. apply HF.
    destruct Hf as [|Hf]; [by left|right; by rewrite Hf]. }
  intros plain e' p' Hdec Hlen Hoff'. cbn [negb b_id]. rewrite Hdec in HF, HQ, Hw.
  cbn [mbind option_bind] in HF, HQ, Hw. rewrite (splice_all plain z) by lia.
  rewrite get_u32_le in * by lia.
  apply wp_bind. eapply wp_checked_some; [done|]. cbn [mbind option_bind] in HF, HQ, Hw.
  set (vl := le_combine (sub (1 + ks) 4 plain)) in *.
  assert (0 ≤ vl < 2 ^ 32) as Hvl.
  { apply (le_combine_range _ 4). apply len_sub; lia. }
  pose proof (align16_range (u32 (1 + ks + 4 + vl))) as Hpr.
  set (padded := align16 (u32 (1 + ks + 4 + vl))) in *.
  destruct ((padded <? 16) || (u64 (g_offset g + padded) >? write_offset h)) eqn:Eg.
  { cleanup. apply wp_ret, gives_up_eq; [auto|set_solver|done]. }
  apply orb_false_iff in Eg as [Eg1%Z.ltb_ge _].
  apply (wp_get_entry g ks vl pl padded (Buf pc _) (Buf pp plain)); cbn [b_data b_id];
    [lia|done|lia|done|done| |done|done|done|done| |].
  - intros [ep Eep]. rewrite Eep in Hw. cbn [mbind option_bind] in Hw.
    destruct (Hw _ eq_refl) as [Hnw|]; [|by right]. unfold no_wrap in Hnw. cbn in Hnw. left. lia.
  - intros [|Hn]; [auto|]. apply HF. right. by rewrite Hn.
  - intros ep Eep Hl. rewrite Eep in HQ. cbn [mbind option_bind] in HQ. by apply (HQ _ eq_refl).
Qed.

Lemma parse_record_bounds wo off pr :
  0 ≤ off → 0 ≤ wo < 2 ^ 64 → parse_record xts_key x wo off = Some pr →
  0 < p_key_size pr < 256 ∧ 0 ≤ p_value_length pr < 2 ^ 32 ∧ 16 ≤ p_padded pr < 2 ^ 32 ∧
  off < 2 ^ 63 ∧ off + p_padded pr ≤ wo ∧ len (p_plain pr) = p_padded pr.
Proof.
  intros Hoff Hwo. unfold parse_record.
  destruct (dec_at _ _ _ 16) as [b|]; [|done]. cbn [mbind option_bind].
  destruct (byte_at 0 b) as [c|]; [|done]. cbn [mbind option_bind]. pose proof (bval_range c).
  destruct (Z.eqb_spec (bval c) 0); [done|]. intros Hp.
  apply parse_value_bounds in Hp as (-> & ?); [|lia..]. split; [lia|done].
Qed.

(** One iteration, on any file. *)
Lemma wp_get_step h g Q R e p d :
  0 ≤ g_offset g < 2 ^ 64 → 0 ≤ write_offset h < 2 ^ 64 → d ≠ Writing →
  len (g_cipher g) = 16 → len (g_block g) = 16 → found_fresh (g_found g) L0 →
  let r := parse_record xts_key x (write_offset h) (g_offset g) in
  let g' c b := GetState (g_offset g) (g_found g) (g_found_length g) c b in
  (∀ pr, r = Some pr → no_wrap pr ∨ U) →
  (nf = false ∨ r = None → ∀ c b, len c = 16 → len b = 16 → gives_up Q (g' c b)) →
  (∀ pr c b, r = Some pr → len c = 16 → len b = 16 →
     goes_on Q (g' c b) (p_key_size pr) (p_value_length pr) (p_padded pr) (p_plain pr)) →
  wp nf U (get_step f h xts_key key (strlen key) g) Q (hs (found_live (g_found g) L0) R e p d).
Proof.
  intros Hoff Hwo Hd Hc Hb Hff r g' Hw HF HQ.
  pose proof (λ pr, parse_record_bounds (write_offset h) (g_offset g) pr) as Hpb.
  unfold r, parse_record in *. clear r.
  apply wp_bind, (wp_read_decrypt _ _ _ _ _ x Hx); [lia|lia|lia|done| |].
  { intros Hf e' p' d' ci pl Hd' Hci Hpl. cbn [negb]. apply wp_ret.
    apply (gives_up_eq Q (g' ci pl)); [|done|done]. apply HF; [|lia..].
    destruct Hf as [|Hf]; [by left|right; by rewrite Hf]. }
  intros blk e' p' Hdec Hlen Hoff'. cbn [negb]. rewrite Hdec in *. cbn [mbind option_bind] in *.
  rewrite (splice_all blk) by lia.
  destruct (byte_at 0 blk) as [c|] eqn:Ec.
  2: { unfold byte_at in Ec. cbn in Ec. destruct blk; [done|done]. }
  apply wp_bind. eapply wp_checked_some; [done|]. cbn [mbind option_bind] in *.
  pose proof (bval_range c).
  assert (len (splice 0 (sub (g_offset g) 16 x) (g_cipher g)) = 16) as Hci.
  { unfold dec_at in Hdec. case_match eqn:E; [|done]. apply andb_true_iff in E as [_ E%Z.leb_le].
    rewrite len_splice; rewrite ?len_sub; lia. }
  destruct (Z.eqb_spec (bval c) 0) as [E0|E0].
  { apply wp_ret, (gives_up_eq Q (g' _ _)); [|done|done]. apply HF; [by right|done..]. }
  apply (wp_get_prefix h (g' _ _)); [lia|done|done|done|done|done| |].
  - intros Hf. by apply HF.
  - intros pr Hpr. pose proof (HQ pr _ _ Hpr Hci Hlen) as Hgo.
    apply parse_value_bounds in Hpr as (Eks & _); [|cbn; lia..]. by rewrite Eks in Hgo.
Qed.

(** *** The loop *)

(** The result of reading records from [off] to [wo] on any file. *)
Inductive scan_result :=
  | Ended (v : option (list byte))   (* reached the write offset *)
  | Stopped                          (* a record could not be read *)
  | OutOfFuel.

Definition next_value (pr : parsed) (acc : option (list byte)) : option (list byte) :=
  if decide (key_matches key (p_key_size pr) (p_plain pr)) then Some (parsed_value pr) else acc.

Fixpoint scan (fuel : nat) (wo off : Z) (acc : option (list byte)) : scan_result :=
  if u64 (off + 16) <=? wo then
    match fuel with
    | 0%nat => OutOfFuel
    | S fuel =>
        match parse_record xts_key x wo off with
        | None => Stopped
        | Some pr => scan fuel wo (off + p_padded pr) (next_value pr acc)
        end
    end
  else Ended acc.

(** No record on the way has a length that wrapped. *)
Fixpoint scan_safe (fuel : nat) (wo off : Z) : Prop :=
  if u64 (off + 16) <=? wo then
    match fuel with
    | 0%nat => True
    | S fuel =>
        match parse_record xts_key x wo off with
        | None => True
        | Some pr => no_wrap pr ∧ scan_safe fuel wo (off + p_padded pr)
        end
    end
  else True.

(** Each record moves on by 16 bytes at least, so the loop ends. *)
Lemma scan_ends fuel wo : ∀ off acc,
  0 ≤ wo < 2 ^ 64 → 0 ≤ off ≤ wo → (wo - off) / 16 < Z.of_nat fuel →
  scan fuel wo off acc ≠ OutOfFuel.
Proof.
  induction fuel as [|fuel IH]; intros off acc Hwo Hoff Hfuel.
  { pose proof (Z.div_pos (wo - off) 16). lia. }
  cbn [scan]. case_match; [|done]. destruct (parse_record xts_key x wo off) as [pr|] eqn:E; [|done].
  apply parse_record_bounds in E as (_ & _ & Hp & _ & Hle & _); [|lia..].
  apply IH; [done|lia|].
  enough ((wo - (off + p_padded pr)) / 16 + 1 ≤ (wo - off) / 16) by lia.
  rewrite <- Z.div_add by lia. apply Z.div_le_mono; lia.
Qed.

(** The value found so far, as the code holds it. *)
Definition holds (found : option buf) (n : Z) (v : option (list byte)) : Prop :=
  match found, v with
  | Some b, Some v => b_data b = v ++ [Byte.x00] ∧ n = len v
  | None, None => True
  | _, _ => False
  end.

(** The loop refines [scan]: when nothing fails it ends with what [scan] says;
    a fault can only make it give up. *)
Lemma wp_get_loop fuel h : ∀ g acc Q R e p d,
  0 ≤ g_offset g < 2 ^ 64 → 0 ≤ write_offset h < 2 ^ 64 → d ≠ Writing →
  len (g_cipher g) = 16 → len (g_block g) = 16 → found_fresh (g_found g) L0 →
  holds (g_found g) (g_found_length g) acc →
  (scan_safe fuel (write_offset h) (g_offset g) ∨ U) →
  let r := scan fuel (write_offset h) (g_offset g) acc in
  r ≠ OutOfFuel →
  (nf = false ∨ r = Stopped → ∀ g', found_fresh (g_found g') L0 →
     len (g_cipher g') = 16 → len (g_block g') = 16 → gives_up Q g') →
  (∀ v g' R' e' p' d', r = Ended v → holds (g_found g') (g_found_length g') v →
     found_fresh (g_found g') L0 → len (g_cipher g') = 16 → len (g_block g') = 16 → d' ≠ Writing →
     Q (true, g') (hs (found_live (g_found g') L0) R' e' p' d')) →
  wp nf U (get_loop fuel f h xts_key key (strlen key) g) Q (hs (found_live (g_found g) L0) R e p d).
Proof.
  induction fuel as [|fuel IH]; intros g acc Q R e p d Hoff Hwo Hd Hc Hb Hff Hh Hsafe r Hr HF HQ;
    unfold r in *; cbn [get_loop scan scan_safe] in *; clear r.
  { destruct (u64 (g_offset g + 16) <=? write_offset h); [done|]. apply wp_ret. by eapply HQ. }
  destruct (u64 (g_offset g + 16) <=? write_offset h).
  2: { apply wp_ret. by eapply HQ. }
  apply wp_bind, wp_get_step; [done..| | |].
  - intros pr Hpr. rewrite Hpr in Hsafe. destruct Hsafe as [[]|]; auto.
  - intros Hf c b Hlc Hlb L' R' e' p' d' HL HLn Hd'. apply wp_ret.
    apply HF; [|done..]. destruct Hf as [|Hf]; [by left|right; by rewrite Hf].
  - intros pr c b Hpr Hlc Hlb. rewrite Hpr in Hsafe, Hr, HF, HQ.
    pose proof (parse_record_bounds _ (g_offset g) _ ltac:(lia) Hwo Hpr) as (Hks & Hvl & Hpad & Hoff' & Hle & Hpp).
    assert (scan_safe fuel (write_offset h) (g_offset g + p_padded pr) ∨ U) as Hsafe'
      by (destruct Hsafe as [[]|]; auto).
    unfold next_value in *. split; cbn [g_offset g_found g_found_length g_cipher g_block];
      rewrite (u64_small (g_offset g + p_padded pr)) by lia.
    + intros Hm R' e' p'. rewrite decide_False in * by done.
      eapply (IH (GetState _ (g_found g) (g_found_length g) c b)); eauto; cbn; lia.
    + intros Hm Hfit i R' e' p' Hi. rewrite decide_True in * by done.
      eapply (IH (GetState _ (Some (Buf i _)) (p_value_length pr) c b)); eauto; cbn; [lia|].
      split; [done|]. unfold parsed_value. rewrite len_sub; lia.
Qed.
End Step.

(** ** On a store that represents entries *)

Section Represented.
Context {OSSL : Openssl} {Laws : OpensslLaws OSSL}.
Implicit Types (k v : list byte).

Lemma record_length_spec k v : entry_ok k v →
  5 + len k + len v ≤ record_length k v < 5 + len k + len v + 16 ∧
  16 ≤ record_length k v < 2 ^ 32 ∧ (16 | record_length k v) ∧
  len (record_plain k v) = record_length k v.
Proof.
  intros (Hk & _ & Hv). unfold record_length.
  destruct (align16_spec (5 + len k + len v)) as [Ha [q Hq]]; [lia|].
  pose proof (align16_range (5 + len k + len v)). split_and!; try lia; [by exists q|].
  unfold record_plain, record_body, record_length. len_lia.
Qed.

Lemma record_segments k v :
  record_plain k v = concat [[zbyte (len k)]; k; le_split 4 (len v); v;
                             zeros (record_length k v - (5 + len k + len v))].
Proof. unfold record_plain, record_body. cbn [concat]. by rewrite app_nil_r, <- !app_assoc. Qed.

Lemma record_key k v : sub 1 (len k) (record_plain k v) = k.
Proof. rewrite record_segments. by apply (sub_concat _ 1). Qed.

Lemma record_value_length k v : sub (1 + len k) 4 (record_plain k v) = le_split 4 (len v).
Proof.
  rewrite record_segments. apply (sub_concat _ 2); [done| |by rewrite length_le_split].
  cbn [take concat]. rewrite app_nil_r. cbn. lia.
Qed.

Lemma record_value k v : sub (5 + len k) (len v) (record_plain k v) = v.
Proof.
  rewrite record_segments. apply (sub_concat _ 3); [done| |done].
  cbn [take concat]. rewrite app_nil_r, !length_app, length_le_split. cbn. lia.
Qed.

(** A whole number of leading blocks of a record can be read from the file. *)
Lemma dec_record key x off k v c n :
  entry_ok k v → xts_at true key off (record_plain k v) = Some c →
  0 ≤ off < 2 ^ 63 → off + len c ≤ len x → sub off (len c) x = c →
  (16 | n) → 16 ≤ n ≤ len c →
  dec_at key x off n = Some (sub 0 n (record_plain k v)).
Proof.
  intros Hok Hc Hoff Hfit Hsub Hdiv Hn.
  destruct (record_length_spec k v Hok) as (_ & _ & Hd & Hl).
  pose proof (xts_at_len _ _ _ _ _ Hc) as Hlc.
  unfold dec_at. rewrite (proj2 (Z.ltb_lt off _)), (proj2 (Z.leb_le (off + n) _)) by lia.
  cbn [andb]. replace (sub off n x) with (sub 0 n c).
  - apply xts_prefix; [by apply xts_decrypt|by rewrite Hlc, Hl|done|done].
  - rewrite <- Hsub at 1. rewrite sub_sub by lia. f_equal. lia.
Qed.

(** Reading a record where one was written gives that record. *)
Lemma parse_written key x wo off k v c :
  entry_ok k v → xts_at true key off (record_plain k v) = Some c →
  0 ≤ off → off + len c ≤ wo → wo ≤ len x < 2 ^ 63 → sub off (len c) x = c →
  parse_record key x wo off =
    Some (Parsed (len k) (len v) (record_length k v) (record_plain k v)).
Proof.
  intros Hok Hc Hoff Hwo Hx Hsub.
  destruct (record_length_spec k v Hok) as (Hr1 & Hr2 & Hr3 & Hl).
  pose proof (xts_at_len _ _ _ _ _ Hc) as Hlc. rewrite Hl in Hlc.
  pose proof Hok as (Hk & _ & Hv).
  destruct (align16_spec (1 + len k + 4)) as [Hpl Hpd]; [lia|].
  assert (align16 (1 + len k + 4) ≤ record_length k v) as Hple by (apply align16_mono; lia).
  assert (16 ≤ align16 (1 + len k + 4)) by (destruct Hpd; lia).
  unfold parse_record, parse_value.
  rewrite (dec_record key x off k v c 16) by (done || lia || by exists 1). cbn [mbind option_bind].
  assert (byte_at 0 (sub 0 16 (record_plain k v)) = Some (zbyte (len k))) as -> by done.
  cbn [mbind option_bind]. rewrite bval_zbyte_small by lia.
  rewrite (proj2 (Z.eqb_neq (len k) 0)) by lia.
  rewrite (u32_small (1 + len k + 4)), Z.gtb_ltb, u64_small, (proj2 (Z.ltb_ge wo _)) by lia.
  rewrite (dec_record key x off k v c (align16 _)) by (done || lia). cbn [mbind option_bind].
  rewrite get_u32_le by (rewrite ?len_sub; lia). cbn [mbind option_bind].
  rewrite sub_sub, Z.add_0_l, record_value_length by lia.
  rewrite le_combine_split_small by (cbn; lia).
  rewrite (u32_small (1 + len k + 4 + len v)) by lia.
  replace (1 + len k + 4 + len v) with (5 + len k + len v) by lia. fold (record_length k v).
  rewrite (proj2 (Z.ltb_ge _ 16)), Z.gtb_ltb, u64_small, (proj2 (Z.ltb_ge wo _)) by lia. cbn [orb].
  rewrite (dec_record key x off k v c (record_length k v)) by (done || lia). cbn [mbind option_bind].
  by rewrite sub_all by lia.
Qed.

Lemma matches_written key k v :
  key_matches key (len k) (record_plain k v) ↔ k = c_str key.
Proof.
  unfold key_matches. rewrite record_key. split; [by intros [_ ?]|].
  intros ->. done.
Qed.

(** Scanning encoded records finds the last value of the key. *)
Lemma scan_encoded xkey key x wo : ∀ es fuel off c acc,
  encodes xkey off es c → 0 ≤ off → off + len c = wo → wo ≤ len x < 2 ^ 63 →
  sub off (len c) x = c → (wo - off) / 16 < Z.of_nat fuel →
  scan x xkey key fuel wo off acc =
    Ended (foldl (λ acc '(k', v), if decide (k' = c_str key) then Some v else acc) acc es) ∧
  scan_safe x xkey fuel wo off.
Proof.
  induction es as [|[k v] es IH]; intros fuel off c acc Henc Hoff Hwo Hx Hsub Hfuel.
  - cbn in Henc. subst c. cbn in Hwo.
    destruct fuel as [|fuel]; cbn [scan scan_safe foldl]; rewrite u64_small by lia;
      rewrite (proj2 (Z.leb_gt _ _)) by lia; done.
  - destruct Henc as (Hok & c1 & c2 & -> & Hlc & Hc1 & Henc).
    destruct (record_length_spec k v Hok) as (Hr1 & Hr2 & _ & _).
    rewrite length_app in *.
    destruct fuel as [|fuel]; [pose proof (Z.div_pos (wo - off) 16); lia|].
    assert (parse_record xkey x wo off =
              Some (Parsed (len k) (len v) (record_length k v) (record_plain k v))) as Hp.
    { apply (parse_written xkey x wo off k v c1); try done; [lia|].
      rewrite Nat2Z.inj_add, sub_add in Hsub by lia. apply app_inj_1 in Hsub as [? _]; [done|].
      apply Nat2Z.inj. apply len_sub; lia. }
    destruct (IH fuel (off + len c1) c2
                (next_value key (Parsed (len k) (len v) (record_length k v) (record_plain k v)) acc))
      as [IHs IHsafe]; [done|lia|lia|done| | |].
    { rewrite Nat2Z.inj_add, sub_add in Hsub by lia. apply app_inj_1 in Hsub as [_ ?]; [done|].
      apply Nat2Z.inj. apply len_sub; lia. }
    { enough ((wo - (off + len c1)) / 16 + 1 ≤ (wo - off) / 16) by lia.
      rewrite <- Z.div_add by lia. apply Z.div_le_mono; lia. }
    cbn [scan scan_safe foldl]. rewrite u64_small, (proj2 (Z.leb_le _ _)), Hp by lia.
    cbn [p_padded]. replace (off + record_length k v) with (off + len c1) by lia. split; [|split; [unfold no_wrap; cbn; lia|done]].
    rewrite IHs. f_equal. f_equal. unfold next_value, parsed_value. cbn [p_key_size p_plain p_value_length].
    rewrite record_value.
    pose proof (matches_written key k v) as Hm.
    destruct (decide (key_matches key (len k) (record_plain k v))), (decide (k = c_str key)); tauto.
Qed.
End Represented.

(** ** The whole function *)

Section Get.
Context {OSSL : Openssl} {Laws : OpensslLaws OSSL}.

(** What [padlock_get] is to return for a file with bytes [x], whatever they
    are: the value, or nothing. *)
Definition get_ref (password key x : list byte) : option (list byte) :=
  if len x <? PADLOCK_HEADER_SIZE then None else
  match decode_header (sub 0 PADLOCK_HEADER_SIZE x) with
  | Some (Some h) =>
      xkey ← unseal (Some password) h;
      match scan x xkey key (get_fuel h) (write_offset h) PADLOCK_HEADER_SIZE None with
      | Ended v => v
      | _ => None
      end
  | _ => None
  end.

Lemma get_ref_decoded password key x r :
  PADLOCK_HEADER_SIZE ≤ len x → decode_header (sub 0 PADLOCK_HEADER_SIZE x) = Some r →
  get_ref password key x =
    (h ← r; xkey ← unseal (Some password) h;
     match scan x xkey key (get_fuel h) (write_offset h) PADLOCK_HEADER_SIZE None with
     | Ended v => v
     | _ => None
     end).
Proof. intros Hl Hr. unfold get_ref. rewrite (proj2 (Z.ltb_ge _ _)), Hr by done. by destruct r. Qed.

(** The lengths in the file stay inside the buffers the code allots: the sealed
    secret fits the 88 bytes of [decrypt_secret], no record length wraps. *)
Definition file_safe (password x : list byte) : Prop :=
  ∀ h, PADLOCK_HEADER_SIZE ≤ len x →
  decode_header (sub 0 PADLOCK_HEADER_SIZE x) = Some (Some h) →
  encrypted_secret_size h ≤ 88 ∧
  ∀ xkey, unseal (Some password) h = Some xkey →
    scan_safe x xkey (get_fuel h) (write_offset h) PADLOCK_HEADER_SIZE.

(** What the caller of [padlock_get] can rely on: the value or the failure, and
    a state in which only [errno], the heap and the residue have changed. *)
Definition get_post (nf : bool) (s : sys) (ref : option (list byte))
    (res : Z * option buf * Z) (s' : sys) : Prop :=
  ∃ e L R, s' = set_errno_s e (heap L R s) ∧
  ((∃ b v, res = (0, Some b, len v) ∧ ref = Some v ∧ b_data b = v ++ [Byte.x00] ∧
      (b_id b ∉ s_live s) ∧ L = {[b_id b]} ∪ s_live s) ∨
   (res = (-1, None, 0) ∧ (nf = true → ref = None) ∧ s_live s ⊆ L ∧ (nf = true → L = s_live s))).

Lemma wp_get_close nf U (s : sys) Q ok v n found xkey c b L R e :
  len xkey = 64 → (∀ y, found = Some y → b_id y ∈ L) →
  (∀ R', Q (ok, v, n)
     (set_errno_s e (heap (match found with Some y => L ∖ {[b_id y]} | None => L end) R' s))) →
  wp nf U (get_done None ok v n found xkey c b) Q (set_errno_s e (heap L R s)).
Proof.
  intros Hk Hfound HQ. apply wp_bind, wp_ret, wp_bind.
  destruct found as [y|]; [apply wp_free; [by apply Hfound|]|apply wp_free_null];
    apply wp_bind, wp_wipe_and_leave; try done;
    apply wp_bind, wp_leave, wp_bind, wp_leave, wp_ret.
  - apply (HQ ((((R ++ [b_data y]) ++ [zeros 64]) ++ [c]) ++ [b])).
  - apply (HQ (((R ++ [zeros 64]) ++ [c]) ++ [b])).
Qed.

Lemma wp_get_done nf U (s : sys) Q f st ok v n found xkey c b L R e p d :
  s_streams s !! f = None → len xkey = 64 → (∀ y, found = Some y → b_id y ∈ L) →
  (∀ e' R', Q (ok, v, n)
     (set_errno_s e' (heap (match found with Some y => L ∖ {[b_id y]} | None => L end) R' s))) →
  wp nf U (get_done (Some f) ok v n found xkey c b) Q (hs f st s L R e p d).
Proof.
  intros Hf Hk Hfound HQ. apply wp_bind, wp_bind, wp_rd_fclose; [done|]. intros r e'. apply wp_ret.
  pose proof (wp_get_close nf U s Q ok v n found xkey c b L R e' Hk Hfound (HQ e')) as H. exact H.
Qed.

(** From the opened store on. *)
Lemma wp_get_opened nf U password key s f st x c b L R e Q :
  s_streams s !! f = None → i_data <$> s_inodes s !! st_ino st = Some x →
  (file_safe password x ∨ U) → len c = 16 → len b = 16 →
  ∀ h, PADLOCK_HEADER_SIZE ≤ len x → decode_header (sub 0 PADLOCK_HEADER_SIZE x) = Some (Some h) →
  ∀ xkey, unseal (Some password) h = Some xkey → len xkey = 64 →
  (∀ res s', get_post nf s (get_ref password key x) res s' → Q res s') → L = s_live s →
  ∀ p d, d ≠ Writing →
  wp nf U ('(ended, g) ← get_loop (get_fuel h) f h xkey key (strlen key)
                           (GetState PADLOCK_HEADER_SIZE None 0 c b);
           match ended, g_found g with
           | true, Some found =>
               get_done (Some f) 0 (Some found) (g_found_length g) None xkey (g_cipher g) (g_block g)
           | _, found => get_done (Some f) (-1) None 0 found xkey (g_cipher g) (g_block g)
           end) Q (hs f st s L R e p d).
Proof.
  intros Hf Hx Hsafe Hc Hb h Hlx Hh xkey Hk Hlk HQ -> p d Hd.
  destruct (decode_header_total (sub 0 PADLOCK_HEADER_SIZE x)) as (r & Hr & Hok).
  { unfold PADLOCK_HEADER_SIZE in *. apply len_sub; lia. }
  rewrite Hh in Hr. apply (inj Some) in Hr as <-. destruct (Hok h eq_refl) as [Ht Hv].
  destruct Ht as (_ & Hwo & _), Hv as (_ & Hv & _).
  assert (get_ref password key x =
    match scan x xkey key (get_fuel h) (write_offset h) PADLOCK_HEADER_SIZE None with
    | Ended v => v | _ => None end) as Href.
  { rewrite (get_ref_decoded password key x (Some h)) by done. cbn [mbind option_bind]. by rewrite Hk. }
  apply wp_bind. change (s_live s) with (found_live None (s_live s)).
  eapply (wp_get_loop nf U f st s x Hx xkey key (s_live s) (get_fuel h) h (GetState _ None 0 c b) None);
    cbn [g_offset g_found g_cipher g_block]; try done.
  - destruct Hsafe as [Hs|]; [left|by right]. by apply (Hs h).
  - unfold get_fuel, PADLOCK_HEADER_SIZE in *. apply scan_ends; [done|lia|].
    pose proof (Z.div_pos (write_offset h - 4096) 16). lia.
  - intros Hg g Hfresh Hlc Hlb L' R' e' p' d' HL HLn Hd'.
    apply wp_get_done; [done|done| |].
    { intros y Hy. apply HL. rewrite Hy. cbn. set_solver. }
    intros e2 R2. apply HQ. eexists e2, _, R2. split; [done|]. right. split; [done|].
    rewrite Href. split; [|split].
    + intros Hnf. destruct Hg as [|Hg]; [congruence|by rewrite Hg].
    + unfold found_live, found_fresh in *. destruct (g_found g); set_solver.
    + intros Hnf. rewrite (HLn Hnf). unfold found_live, found_fresh in *.
      destruct (g_found g); [apply leibniz_equiv; set_solver|done].
  - intros v g R' e' p' d' Hend Hh' Hfresh Hlc Hlb Hd'. unfold holds in Hh'. rewrite Hend in Href.
    destruct (g_found g) as [y|], v as [v|]; try done; apply wp_get_done; try done;
      intros e2 R2; apply HQ; eexists e2, _, R2; (split; [done|]).
    + left. destruct Hh' as [Hy ->]. by exists y, v.
    + right. done.
Qed.

(** [padlock_get] on any file: it ends, and what it returns is [get_ref]'s value
    or, when a call failed, an error. *)
Lemma wp_padlock_get nf U path password key s i m x :
  s_names s !! path = Some i → s_inodes s !! i = Some (Inode false m x) →
  (file_safe password x ∨ U) →
  wp nf U (padlock_get (Some path) (Some password) (Some key)) (get_post nf s (get_ref password key x)) s.
Proof.
  intros Hn Hi Hsafe.
  assert (∀ e R, (nf = false ∨ get_ref password key x = None) →
    get_post nf s (get_ref password key x) (-1, None, 0) (set_errno_s e (heap (s_live s) R s))) as Hfail.
  { intros e R Hnf. exists e, (s_live s), R. split; [done|]. right. split; [done|].
    split; [|done]. destruct Hnf; congruence. }
  apply wp_bind, wp_draw; [|done]. intros xk0 _ Hxk0. unfold PADLOCK_XTS_KEY_SIZE in Hxk0.
  apply wp_bind, wp_draw; [|done]. intros c0 _ Hc0. apply wp_bind, wp_draw; [|done]. intros b0 _ Hb0.
  apply wp_bind. eapply wp_fopen_found; [done..| |].
  { intros Hnf e. rewrite (heap_intro s) at 2. apply wp_get_close; [done..|].
    intros R'. apply Hfail. by left. }
  intros f Hf. set (st := Stream i false 0 Idle []).
  assert (upd_stream f st s = hs f st s (s_live s) (s_residue s) (s_errno s) 0 Idle) as -> by by destruct s.
  assert (i_data <$> s_inodes s !! st_ino st = Some x) as Hx by (cbn; by rewrite Hi).
  assert (∀ R e p d, (nf = false ∨ get_ref password key x = None) →
    wp nf U (get_done (Some f) (-1) None 0 None xk0 c0 b0) (get_post nf s (get_ref password key x))
      (hs f st s (s_live s) R e p d)) as Hgive.
  { intros R e p d Hnf. apply wp_get_done; [done..|]. intros. by apply Hfail. }
  apply wp_bind, wp_read_header with (x := x); [done|exact Hx| |].
  { intros Hnf e' p' d' _. apply Hgive. destruct Hnf as [|Hlt]; [by left|right].
    unfold get_ref. by rewrite (proj2 (Z.ltb_lt _ _)). }
  intros r e' Hlx Hr.
  pose proof (get_ref_decoded password key x r Hlx Hr) as Href.
  destruct r as [h|]; [|apply Hgive; by right].
  destruct (decode_header_total (sub 0 PADLOCK_HEADER_SIZE x)) as (r & Hr' & Hok).
  { unfold PADLOCK_HEADER_SIZE in *. apply len_sub; lia. }
  rewrite Hr in Hr'. apply (inj Some) in Hr' as <-. destruct (Hok h eq_refl) as [Ht Hv].
  apply wp_bind, wp_decrypt_secret; [done|apply Hv| | |].
  { destruct Hsafe as [Hs|]; [left|by right]. by apply (Hs h). }
  { intros Hnf e2. apply (Hgive (s_residue s ++ [zeros 32; zeros 88]) e2 PADLOCK_HEADER_SIZE Reading).
    destruct Hnf as [|Hnf]; [by left|right]. rewrite Href. cbn [mbind option_bind]. by rewrite Hnf. }
  intros xkey Hk Hlk.
  apply (wp_get_opened nf U password key s f st x c0 b0 (s_live s)
           (s_residue s ++ [zeros 32; zeros 88]) e' _ Hf Hx Hsafe Hc0 Hb0 h Hlx Hr xkey Hk Hlk); try done.
Qed.

(** On a store the reference is the abstract lookup, and every length fits. *)
Lemma get_ref_represents password key x es :
  represents (Some password) x es →
  get_ref password key x = lookup_last (c_str key) es ∧ file_safe password x.
Proof.
  intros (h & xkey & c & [sr_typed0 sr_valid0 ? ? ? sr_header0 sr_unseal0 ? ? ? ?]).
  assert (PADLOCK_HEADER_SIZE ≤ len x) as Hlx.
  { destruct sr_valid0 as (_ & ? & _). lia. }
  assert (decode_header (sub 0 PADLOCK_HEADER_SIZE x) = Some (Some h)) as Hd.
  { rewrite sr_header0. by apply decode_header_image. }
  destruct sr_valid0 as (_ & Hv & _).
  destruct (scan_encoded xkey key x (write_offset h) es (get_fuel h) PADLOCK_HEADER_SIZE c None)
    as [Hscan Hsafe]; [done|done|done|lia|done| |].
  { unfold get_fuel, PADLOCK_HEADER_SIZE in *. pose proof (Z.div_pos (write_offset h - 4096) 16). lia. }
  split.
  - rewrite (get_ref_decoded _ _ _ (Some h)) by done. cbn [mbind option_bind].
    rewrite sr_unseal0. cbn [mbind option_bind]. by rewrite Hscan.
  - intros h' _ Hh'. rewrite Hd in Hh'. apply (inj Some), (inj Some) in Hh' as <-.
    split; [lia|]. intros xkey' Hk'. rewrite sr_unseal0 in Hk'. by apply (inj Some) in Hk' as <-.
Qed.
End Get.
