(* ===== verification/StoreSet.v ===== *)
(** * Correctness of [padlock_set]

    [padlock_set] on any file ([wp_padlock_set]): the writes that reach the file are
    the record at the write offset and then the header, or, when a call fails, a
    torn prefix of that sequence; nothing else of the file changes.  On a store
    that represents entries the new file represents them with one more. *)

From S2P Require Import Prelude World Libc Codec Openssl Header Secret Store StoreSpec StoreGet.
Import LittleEndianList.

Lemma splice_zeros x n : len x ≤ n → splice 0 x (zeros n) = x ++ zeros (n - len x).
Proof.
  intros Hn. unfold splice, zeros. change (take (Z.to_nat 0) ?l) with (@nil byte). cbn [app].
  rewrite drop_replicate. do 2 f_equal. change (Z.to_nat 0) with 0%nat. lia.
Qed.

Lemma store_len off x d d' : store off x d = Some d' → len d' = len d.
Proof. intros (? & ? & ->)%store_inv. by apply len_splice. Qed.

Lemma put_u32_len off v d d' : put_u32 off v d = Some d' → len d' = len d.
Proof.
  unfold put_u32. intros H.
  repeat (apply bind_Some in H as (? & ?%store_len & H)). apply store_len in H. lia.
Qed.

Section SetRules.
Context {OSSL : Openssl} {Laws : OpensslLaws OSSL}.

(** Filling the record: the bounds of its last step cover the others. *)
Lemma wp_fill_plain nf U key value vl i padded Q s :
  1 ≤ strlen key ≤ 255 → 0 ≤ vl → 0 ≤ padded →
  (5 + strlen key + vl ≤ padded ∧ vl ≤ len value ∨ U) →
  (5 + strlen key + vl ≤ padded → vl ≤ len value →
     Q (Buf i (record_body (c_str key) (sub 0 vl value) ++ zeros (padded - (5 + strlen key + vl)))) s) →
  wp nf U (fill_plain key value (strlen key) vl (Buf i (zeros padded))) Q s.
Proof.
  intros Hk Hvl Hp0 Hw HQ.
  pose proof (strlen_range key) as [_ Hkl]. assert (len (c_str key) = strlen key) as Hlk by done.
  destruct (decide (5 + strlen key + vl ≤ padded ∧ vl ≤ len value)) as [[Hfit Hval]|Hno].
  - assert (len (sub 0 vl value) = vl) as Hlv by (apply len_sub; lia).
    pose proof (len_zeros padded Hp0) as Hz. set (z := zeros padded) in *.
    apply wp_bind, wp_bstore; cbn [b_data b_id]; [lia|cbn; lia|].
    apply wp_bind. eapply wp_checked_some; [apply load_some; lia|]. rewrite sub_strlen.
    assert (splice 1 (c_str key) (splice 0 [zbyte (strlen key)] z)
            = splice 0 ([zbyte (strlen key)] ++ c_str key) z) as E1
      by (apply (splice_splice_end 0 [zbyte (strlen key)]); cbn; lia).
    apply wp_bind, wp_bstore; cbn [b_data b_id]; [lia|rewrite len_splice; cbn; lia|]. rewrite E1.
    assert (len ([zbyte (strlen key)] ++ c_str key) = 1 + strlen key) as L1 by (cbn [app length]; lia).
    set (d1 := [zbyte (strlen key)] ++ c_str key) in *.
    assert (splice (1 + strlen key) (le_split 4 vl) (splice 0 d1 z) = splice 0 (d1 ++ le_split 4 vl) z) as E2.
    { rewrite <- L1. apply (splice_splice_end 0 d1); rewrite ?length_le_split; lia. }
    apply wp_bind. eapply wp_checked_some; [apply put_u32_le; [lia|rewrite len_splice; lia]|]. rewrite E2.
    apply wp_bind. eapply wp_checked_some; [apply load_some; lia|].
    set (d2 := d1 ++ le_split 4 vl) in *. set (v := sub 0 vl value) in *.
    assert (len d2 = 1 + strlen key + 4) as L2
      by (unfold d2; rewrite length_app, length_le_split; lia).
    assert (splice (1 + strlen key + 4) v (splice 0 d2 z) = splice 0 (d2 ++ v) z) as E3.
    { rewrite <- L2. apply (splice_splice_end 0 d2); lia. }
    apply wp_bstore; cbn [b_data b_id]; [lia|rewrite len_splice; lia|]. rewrite E3.
    assert (len (d2 ++ v) = 5 + strlen key + vl) as L3 by (rewrite length_app; lia).
    unfold z. rewrite splice_zeros, L3 by lia.
    specialize (HQ Hfit Hval). unfold record_body in HQ. rewrite Hlv, Hlk in HQ.
    unfold d2, d1. rewrite <- !app_assoc in *. exact HQ.
  - assert U as HU by (destruct Hw; [by destruct Hno|done]). unfold fill_plain, bstore. cbn [b_data b_id].
    apply wp_bind, wp_bind, wp_checked; [done|]. intros d1 H1%store_len. apply wp_ret.
    apply wp_bind, wp_checked; [done|]. intros k _.
    apply wp_bind, wp_bind, wp_checked; [done|]. cbn [b_data b_id]. intros d2 H2%store_len. apply wp_ret.
    apply wp_bind, wp_checked; [done|]. cbn [b_data b_id]. intros d3 H3%put_u32_len.
    apply wp_bind, wp_checked; [done|]. intros v (_ & _ & Hv & ->)%load_inv.
    apply wp_bind, wp_checked; [done|]. cbn [b_data]. intros d4 (_ & H4 & _)%store_inv.
    rewrite len_sub in H4 by lia. rewrite len_zeros in H1 by done. destruct Hno. lia.
Qed.

(** *** The header write *)

(** The header goes to the front of the file, after what the stream still held. *)
Lemma wp_ws_write_header nf U f i m x B st W e h Q :
  header_typed h → st_ino st = i → st_writable st = true →
  let P := pend st ++ [DiskWrite i 0 (header_image h)] in
  (nf = false → ∀ e' st' W', st_ino st' = i → (∀ W'', torn (pend st') W'' → arrived P (W' ++ W'')) →
     Q (-1) (ws f i m x B st' (W ++ W') e')) →
  (∀ e' st', st_ino st' = i → pend st' = [DiskWrite i 0 (header_image h)] →
     Q 0 (ws f i m x B st' (W ++ pend st) e')) →
  wp nf U (write_header f h) Q (ws f i m x B st W e).
Proof.
  intros Hh Hi Hw P HF HQ. apply wp_bind. eapply wp_checked_some; [by apply encode_header_image|].
  pose proof (header_image_len h Hh) as Hl. set (img := header_image h) in *.
  apply wp_bind, wp_ws_fseeko; [done|lia| |].
  { intros Hnf e' W' HW. apply wp_ret, (HF Hnf); [done|]. intros W'' ->.
    rewrite app_nil_r. by apply torn_pend_arrived. }
  assert (∀ d, pend (written (at_pos st 0 Idle) d) =
            match d with [] => [] | _ => [DiskWrite i 0 d] end) as Hpend.
  { intros d. unfold pend. cbn. rewrite Hi. destruct d; [done|]. do 2 f_equal. cbn [length]. lia. }
  assert (img ≠ []) as Himg by (intros ->; done).
  apply wp_bind, wp_ws_fwrite; [done|done| |].
  - intros Hnf e' k. destruct (Z.eqb_spec (len (take k img)) PADLOCK_HEADER_SIZE) as [E|E]; apply wp_ret.
    + assert (take k img = img) as -> by (apply take_ge; rewrite length_take in E; lia).
      apply HQ; [done|]. rewrite Hpend. by destruct img.
    + apply (HF Hnf); [done|]. rewrite Hpend. intros W'' HW. apply arrived_app, torn_arrived.
      destruct (take k img) as [|b d] eqn:Ek; [left; done|]. destruct HW as [HW|[k' HW]]; [by left|right].
      exists (k' `min` k)%nat. rewrite HW. cbn [dw_ino dw_off dw_data]. by rewrite <- Ek, take_take.
  - rewrite Hl, Z.eqb_refl. apply wp_ret, HQ; [done|]. rewrite Hpend.
    by destruct img.
Qed.

(** *** The record write *)

Definition set_writes (i : nat) (h : padlock_header) (c : list byte) : list diskwrite :=
  [DiskWrite i (write_offset h) c;
   DiskWrite i 0 (header_image (with_offset h (write_offset h + len c)))].

(** What [padlock_set] is to write to a file with bytes [x]: the header it finds
    there and the ciphertext of the record; nothing if it is to fail. *)
Definition set_plan (password key value : list byte) (x : list byte) :
    option (padlock_header * list byte) :=
  if len x <? PADLOCK_HEADER_SIZE then None else
  match decode_header (sub 0 PADLOCK_HEADER_SIZE x) with
  | Some (Some h) =>
      xkey ← unseal (Some password) h;
      if (record_length (c_str key) value <? 16)
         || (u64 (write_offset h + record_length (c_str key) value) >? total_size h) then None else
      if 2 ^ 63 <=? write_offset h then None else
      c ← xts_at true xkey (write_offset h) (record_plain (c_str key) value);
      Some (h, c)
  | _ => None
  end.

(** The state in which [padlock_set] reaches its label [done]: what was written
    and what the stream still holds. *)
Definition set_reached (nf : bool) (i : nat) (plan : option (padlock_header * list byte))
    (r : Z) (st : stream) (W : list diskwrite) : Prop :=
  st_ino st = i ∧
  match plan with
  | None => r = -1 ∧ W = [] ∧ pend st = []
  | Some (h, c) =>
      (∀ W'', torn (pend st) W'' → arrived (set_writes i h c) (W ++ W'')) ∧
      (r = 0 ∧ W = take 1 (set_writes i h c) ∨ r = -1 ∧ nf = false) ∧
      (nf = true → W ++ pend st = set_writes i h c)
  end.

Lemma set_gave_up i plan st W :
  st_ino st = i → pend st = [] → W = [] → set_reached false i plan (-1) st W.
Proof.
  intros Hi Hp ->. split; [done|]. destruct plan as [[h c]|]; [|done]. split; [|split; [by right|done]].
  rewrite Hp. intros W'' ->. apply arrived_nil.
Qed.

Lemma rd_ws f st s i m x L R e p d :
  s_inodes s !! i = Some (Inode false m x) →
  rd f st (heap L R s) e p d = ws f i m x (heap L R s) (at_pos st p d) [] e.
Proof. intros Hi. unfold ws. by rewrite disk_nil. Qed.

Lemma pend_written st wo c :
  pend (written (at_pos st wo Idle) c) =
    match c with [] => [] | _ => [DiskWrite (st_ino st) wo c] end.
Proof. unfold pend. cbn. destruct c; [done|]. do 2 f_equal. cbn [length]. lia. Qed.

(** The part of a write that a stream accepted and that then arrives is a torn
    part of the write. *)
Lemma torn_pend_take st wo c k W :
  torn (pend (written (at_pos st wo Idle) (take k c))) W → torn [DiskWrite (st_ino st) wo c] W.
Proof.
  rewrite pend_written. destruct (take k c) as [|b d] eqn:E; [by left|].
  intros [HW|[k' HW]]; [by left|right]. exists (k' `min` k)%nat. rewrite HW. cbn [dw_ino dw_off dw_data].
  by rewrite <- E, take_take.
Qed.

Lemma with_offset_typed h o : header_typed h → 0 ≤ o < 2 ^ 64 → header_typed (with_offset h o).
Proof. intros (? & _ & ?) ?. split; [done|]. split; [cbn; lia|done]. Qed.

Lemma wp_set_write nf U f wr s i m x h exit c ci Q L R e p d :
  let st := Stream i wr 0 Idle [] in
  header_typed h → s_inodes s !! i = Some (Inode false m x) → wr = true → d ≠ Writing →
  c ≠ [] → (write_offset h < 2 ^ 63 → write_offset h + len c ≤ total_size h) →
  (∀ r st' W e', set_reached nf i (if 2 ^ 63 <=? write_offset h then None else Some (h, c)) r st' W →
     Q (exit r) (ws f i m x (heap L R s) st' W e')) →
  wp nf U (set_write f h exit (len c) (Buf ci c)) Q (hs f st s L R e p d).
Proof.
  intros st Hh Hi -> Hd Hc Htot HQ. pose proof Hh as (Ht & Hwo & _).
  apply wp_bind, wp_rd_fseeko.
  { intros Hneg e'. apply wp_ret. rewrite (rd_ws _ _ _ i m x) by done. apply HQ.
    destruct (Z.leb_spec (2 ^ 63) (write_offset h)) as [Hge|Hlt]; [done|].
    destruct Hneg as [->|Hneg]; [by apply set_gave_up|]. rewrite off_of_small in Hneg by lia. lia. }
  intros Hpos. cbn [negb Z.eqb].
  destruct (Z.leb_spec (2 ^ 63) (write_offset h)) as [Hge|Hlt].
  { pose proof (off_of_neg (write_offset h)). lia. }
  rewrite off_of_small in * by lia. specialize (Htot Hlt).
  rewrite (rd_ws _ _ _ i m x) by done.
  apply wp_bind, wp_bload; cbn [b_data]; [lia|lia|lia|]. rewrite sub_all by done.
  set (w1 := DiskWrite i (write_offset h) c).
  apply wp_bind.
  assert (∀ e', wp nf U (r ← write_header f (with_offset h (u64 (write_offset h + len c)));
                   if negb (r =? 0) then mret (exit (-1)) else mret (exit 0)) Q
      (ws f i m x (heap L R s) (written (at_pos st (write_offset h) Idle) c) [] e')) as Hhdr.
  { intros e'. rewrite u64_small by lia.
    assert (pend (written (at_pos st (write_offset h) Idle) c) = [w1]) as Hpend
      by (rewrite pend_written; by destruct c).
    apply wp_bind, wp_ws_write_header; [apply with_offset_typed; [done|lia]|done|done|..]; rewrite Hpend.
    - intros -> e2 st' W' Hi' HW'. cbn [negb Z.eqb]. apply wp_ret, HQ. split; [done|]. split; [done|].
      split; [by right|done].
    - intros e2 st' Hi' Hp'. cbn [negb Z.eqb]. apply wp_ret, HQ. split; [done|]. rewrite Hp'.
      split; [|split; [by left|done]]. intros W'' HW. cbn [app]. right. exists W''. split; [done|]. by left. }
  apply wp_ws_fwrite; [done|done| |].
  - intros Hnf e' k. destruct (Z.eqb_spec (len (take k c)) (len c)) as [E|E]; cbn [negb].
    + assert (take k c = c) as -> by (apply take_ge; rewrite length_take in E; lia). apply Hhdr.
    + apply wp_ret, HQ. split; [done|]. split; [|split; [by right|congruence]].
      intros W'' HW. apply torn_arrived. by eapply torn_pend_take in HW.
  - rewrite Z.eqb_refl. cbn [negb]. apply Hhdr.
Qed.

(** *** From the buffers to the label [done] *)

(** The blocks held at [done]. *)
Definition set_live_at (ex : set_exit) (L : gset nat) : gset nat :=
  found_live (se_cipher ex) (found_live (se_plain ex) L).

Definition set_blocks (nf : bool) (plan : option (padlock_header * list byte)) (L : gset nat)
    (ex : set_exit) : Prop :=
  found_fresh (se_plain ex) L ∧ found_fresh (se_cipher ex) (found_live (se_plain ex) L) ∧
  (∀ b, se_plain ex = Some b → len (b_data b) = se_padded ex) ∧ len (se_key ex) = 64 ∧
  (∀ h c, nf = true → plan = Some (h, c) → b_data <$> se_cipher ex = Some c).

(** What the code leaves to the label [done]. *)
Definition set_at_done (nf : bool) (s : sys) (f i : nat) (m : Z) (x : list byte)
    (plan : option (padlock_header * list byte)) (ns : list Z) (ex : set_exit) (s' : sys) : Prop :=
  ∃ st W e, set_blocks nf plan (s_live s) ex ∧ set_reached nf i plan (se_ok ex) st W ∧
    s' = ws f i m x (heap (set_live_at ex (s_live s)) (s_residue s ++ (zeros <$> ns)) s) st W e.

Lemma wp_set_record nf U f s i m x h xkey key value vl padded pi ci c0 ns e p d :
  let st := Stream i true 0 Idle [] in
  let v := sub 0 vl value in
  let plan := if 2 ^ 63 <=? write_offset h then None else
              c ← xts_at true xkey (write_offset h) (record_plain (c_str key) v); Some (h, c) in
  let L := {[ci]} ∪ ({[pi]} ∪ s_live s) in
  header_typed h → s_inodes s !! i = Some (Inode false m x) → d ≠ Writing →
  1 ≤ strlen key ≤ 255 → 0 ≤ vl → 16 ≤ padded → padded = align16 (5 + strlen key + vl) →
  len c0 = padded → len xkey = 64 → pi ∉ s_live s → ci ∉ {[pi]} ∪ s_live s →
  (write_offset h < 2 ^ 63 → write_offset h + padded ≤ total_size h) →
  (5 + strlen key + vl ≤ padded ∧ vl ≤ len value ∨ U) →
  wp nf U (set_record f h xkey key value (strlen key) vl padded (Buf pi (zeros padded)) (Buf ci c0))
    (set_at_done nf s f i m x plan ns) (hs f st s L (s_residue s ++ (zeros <$> ns)) e p d).
Proof.
  intros st v plan L Hh Hi Hd Hk Hvl Hp16 Hpad Hc0 Hxk Hpi Hci Htot Hw.
  assert (0 ≤ padded) as Hp0 by lia.
  apply wp_bind, wp_fill_plain; [done..|]. intros Hfit Hval.
  assert (len v = vl) as Hlv by (apply len_sub; lia).
  assert (record_length (c_str key) v = padded) as Hrl.
  { unfold record_length. rewrite Hlv, Hpad. done. }
  replace (record_body (c_str key) (sub 0 vl value) ++ zeros (padded - (5 + strlen key + vl)))
    with (record_plain (c_str key) v).
  2: { unfold record_plain. rewrite Hrl, Hlv. done. }
  assert (len (record_plain (c_str key) v) = padded) as Hlp.
  { unfold record_plain, record_body. rewrite Hrl, Hlv, !length_app, length_le_split. cbn [length].
    unfold strlen in *. unfold zeros. rewrite length_replicate. lia. }
  cbn [b_data b_id].
  apply wp_bind, wp_crypt_xts; [lia|lia|..]; rewrite sub_all by lia.
  - intros Hno e' out Hout. cbn [negb Z.eqb]. apply wp_ret.
    eexists (at_pos st p d), [], e'. split; [|split].
    + split_and!; cbn; try done; [by intros b [= <-]|]. intros h' c' Hnf Hpl. subst plan.
      destruct Hno as [|Hno]; [congruence|]. rewrite Hno in Hpl. by case_match.
    + destruct Hno as [->|Hno]; [by apply set_gave_up|]. subst plan. rewrite Hno. by case_match.
    + unfold ws. by rewrite disk_nil.
  - intros c Hc Hlc. cbn [negb Z.eqb]. rewrite splice_all by lia. cbn [b_id].
    rewrite <- Hlc.
    eapply (wp_set_write nf U f true); try done.
    + intros ->. cbn in Hlc. lia.
    + by rewrite Hlc.
    + intros r st' W e' Hr. eexists st', W, e'. split; [|split]; [|cbn [se_ok]|reflexivity].
      * split_and!; cbn [se_plain se_cipher se_padded se_key found_fresh found_live b_id b_data]; try done; [intros b [= <-]; cbn [b_data]; congruence|]. intros h' c' Hnf Hpl. subst plan.
        rewrite Hc in Hpl. case_match; [done|]. cbn [mbind option_bind] in Hpl. by simplify_eq.
      * subst plan. rewrite Hc. exact Hr.
Qed.

Lemma set_plan_decoded password key v x r :
  PADLOCK_HEADER_SIZE ≤ len x → decode_header (sub 0 PADLOCK_HEADER_SIZE x) = Some r →
  set_plan password key v x =
    (h ← r; xkey ← unseal (Some password) h;
     if (record_length (c_str key) v <? 16)
        || (u64 (write_offset h + record_length (c_str key) v) >? total_size h) then None else
     if 2 ^ 63 <=? write_offset h then None else
     c ← xts_at true xkey (write_offset h) (record_plain (c_str key) v); Some (h, c)).
Proof. intros Hl Hr. unfold set_plan. rewrite (proj2 (Z.ltb_ge _ _)), Hr by done. by destruct r. Qed.

(** A record length that fits 32 bits, and a sealed secret that fits the 88 bytes
    of [decrypt_secret]. *)
Definition set_safe (x key v : list byte) : Prop :=
  5 + strlen key + len v ≤ 2 ^ 32 - 16 ∧
  ∀ h, PADLOCK_HEADER_SIZE ≤ len x → decode_header (sub 0 PADLOCK_HEADER_SIZE x) = Some (Some h) →
    encrypted_secret_size h ≤ 88.

Lemma set_at_done_early nf s f i m x plan ns padded xkey e p d :
  s_inodes s !! i = Some (Inode false m x) → (nf = false ∨ plan = None) → len xkey = 64 →
  set_at_done nf s f i m x plan ns (SetExit (-1) None None padded xkey)
    (hs f (Stream i true 0 Idle []) s (s_live s) (s_residue s ++ (zeros <$> ns)) e p d).
Proof.
  intros Hi Hnf Hk. eexists (at_pos (Stream i true 0 Idle []) p d), [], e. unfold set_blocks. split_and!; cbn; try done.
  - intros h c ? ?. destruct Hnf; congruence.
  - destruct Hnf as [->| ->]; [by apply set_gave_up|done].
  - unfold ws. by rewrite disk_nil.
Qed.

(** With the header and the store key in hand. *)
Lemma wp_set_alloc nf U f s i m x h xkey key value vl ns e p d :
  let v := sub 0 vl value in
  let padded := align16 (u64 (1 + strlen key + 4 + vl)) in
  let plan := if (record_length (c_str key) v <? 16)
                 || (u64 (write_offset h + record_length (c_str key) v) >? total_size h) then None else
              if 2 ^ 63 <=? write_offset h then None else
              c ← xts_at true xkey (write_offset h) (record_plain (c_str key) v); Some (h, c) in
  header_typed h → s_inodes s !! i = Some (Inode false m x) → d ≠ Writing →
  1 ≤ strlen key ≤ 255 → 0 ≤ vl < 2 ^ 32 → vl ≤ len value → len xkey = 64 →
  (5 + strlen key + vl ≤ 2 ^ 32 - 16 ∨ U) →
  wp nf U (if (padded <? 16) || (u64 (write_offset h + padded) >? total_size h)
           then mret (SetExit (-1) None None padded xkey) else
           plain ← calloc padded;
           cipher ← malloc padded;
           match plain, cipher with
           | Some plain, Some cipher =>
               set_record f h xkey key value (strlen key) vl padded plain cipher
           | _, _ => mret (SetExit (-1) plain cipher padded xkey)
           end) (set_at_done nf s f i m x plan ns)
    (hs f (Stream i true 0 Idle []) s (s_live s) (s_residue s ++ (zeros <$> ns)) e p d).
Proof.
  intros v padded plan Hh Hi Hd Hk Hvl Hval Hxk Hw. pose proof Hh as (Ht & Hwo & _).
  assert (len v = vl) as Hlv by (apply len_sub; lia).
  assert (padded = align16 (5 + strlen key + vl)) as Hpad.
  { unfold padded. rewrite u64_small by lia. f_equal. lia. }
  assert (record_length (c_str key) v = padded) as Hrl.
  { unfold record_length. rewrite Hlv, Hpad. done. }
  unfold plan. rewrite Hrl. clear plan.
  destruct ((padded <? 16) || (u64 (write_offset h + padded) >? total_size h)) eqn:E.
  { apply wp_ret, set_at_done_early; [done|by right|done]. }
  apply orb_false_iff in E as [E1%Z.ltb_ge E2]. rewrite Z.gtb_ltb, Z.ltb_ge in E2.
  pose proof (align16_range (5 + strlen key + vl)) as Har.
  apply wp_bind, wp_calloc.
  { intros ->. intros e'. apply wp_bind, (wp_hs_malloc _ _ f (Stream i true 0 Idle [])); [lia|..].
    - intros _ e2. apply wp_ret, set_at_done_early; [done|by left|done].
    - intros j c Hj _. apply wp_ret. eexists (at_pos (Stream i true 0 Idle []) p d), [], e'.
      unfold set_blocks. split_and!; cbn; try done; [by apply set_gave_up|].
      unfold ws. by rewrite disk_nil. }
  intros pi Hpi.
  change (alloc_s pi (hs ?f ?st s ?L ?R ?e ?p ?d)) with (hs f st s ({[pi]} ∪ s_live s) R e p d).
  apply wp_bind, wp_hs_malloc; [lia|..].
  { intros -> e2. apply wp_ret. eexists (at_pos (Stream i true 0 Idle []) p d), [], e2.
    unfold set_blocks. split_and!; cbn -[zeros]; try done; [|by apply set_gave_up|].
    - intros b [= <-]. cbn -[zeros]. apply len_zeros. lia.
    - unfold ws. by rewrite disk_nil. }
  intros ci c0 Hci Hc0. apply wp_set_record; try done; [lia|..].
  - intros Hlt. rewrite u64_small in E2 by lia. done.
  - destruct Hw as [Hw|]; [left|by right]. split; [|done]. rewrite Hpad.
    destruct (align16_spec (5 + strlen key + vl)); lia.
Qed.

Lemma wp_set_file nf U f s i m x password key value vl xk0 :
  let v := sub 0 vl value in
  let plan := set_plan password key v x in
  s_inodes s !! i = Some (Inode false m x) →
  1 ≤ strlen key ≤ 255 → 0 ≤ vl < 2 ^ 32 → vl ≤ len value → len xk0 = 64 →
  (set_safe x key v ∨ U) →
  wp nf U (set_file f password key value (strlen key) vl xk0)
    (λ ex s', ∃ ns, set_at_done nf s f i m x plan ns ex s')
    (upd_stream f (Stream i true 0 Idle []) s).
Proof.
  intros v plan Hi Hk Hvl Hval Hxk Hsafe. set (st := Stream i true 0 Idle []).
  assert (upd_stream f st s = hs f st s (s_live s) (s_residue s) (s_errno s) 0 Idle) as -> by by destruct s.
  assert (i_data <$> s_inodes s !! st_ino st = Some x) as Hx by (cbn; by rewrite Hi).
  assert (len v = vl) as Hlv by (apply len_sub; lia).
  assert (∀ ns e p d, (nf = false ∨ plan = None) → ∃ ns', set_at_done nf s f i m x plan ns'
    (SetExit (-1) None None 0 xk0) (hs f st s (s_live s) (s_residue s ++ (zeros <$> ns)) e p d)) as Hearly.
  { intros ns e p d Hnf. exists ns. by apply set_at_done_early. }
  assert (∀ e p d, (nf = false ∨ plan = None) → ∃ ns', set_at_done nf s f i m x plan ns'
    (SetExit (-1) None None 0 xk0) (hs f st s (s_live s) (s_residue s) e p d)) as Hearly0.
  { intros e p d Hnf. destruct (Hearly [] e p d Hnf) as [ns' Hd]. exists ns'.
    cbn [fmap list_fmap] in Hd. by rewrite app_nil_r in Hd. }
  apply wp_bind, wp_read_header with (x := x); [done|exact Hx| |].
  { intros Hnf e' p' d' _. apply wp_ret, Hearly0. destruct Hnf as [|Hlt]; [by left|right].
    unfold plan, set_plan. by rewrite (proj2 (Z.ltb_lt _ _)). }
  intros r e' Hlx Hr. pose proof (set_plan_decoded password key v x r Hlx Hr) as Hplan.
  fold plan in Hplan. destruct r as [h|]; [|apply wp_ret, Hearly0; by right].
  destruct (decode_header_total (sub 0 PADLOCK_HEADER_SIZE x)) as (r & Hr' & Hok).
  { unfold PADLOCK_HEADER_SIZE in *. apply len_sub; lia. }
  rewrite Hr in Hr'. apply (inj Some) in Hr' as <-. destruct (Hok h eq_refl) as [Ht Hv].
  cbn [mbind option_bind] in Hplan.
  apply wp_bind, wp_decrypt_secret; [done|apply Hv| | |].
  { destruct Hsafe as [[_ Hs]|]; [left|by right]. by apply (Hs h). }
  { intros Hnf e2. apply wp_ret, (Hearly [32; 88] e2 PADLOCK_HEADER_SIZE Reading).
    destruct Hnf as [|Hnf]; [by left|right]. by rewrite Hplan, Hnf. }
  intros xkey Hkey Hlk. rewrite Hkey in Hplan. cbn [mbind option_bind] in Hplan. rewrite Hplan.
  eapply wp_mono; [eapply (wp_set_alloc nf U f s i m x h xkey key value vl [32; 88] e' PADLOCK_HEADER_SIZE Reading);
    try done|].
  - destruct Hsafe as [[Hs _]|]; [left|by right]. lia.
  - intros ex s' Hd. by exists [32; 88].
Qed.

(** *** The label [done] *)

(** What the caller of [padlock_set] can rely on.  Of the writes the plan says,
    all arrive when nothing fails; whatever fails, those that arrive are the first
    of them, the last one perhaps torn.  Nothing stays allocated; the
    residue is zeros and the record's ciphertext buffer. *)
Definition set_post (nf : bool) (s : sys) (i : nat) (m : Z) (x : list byte)
    (plan : option (padlock_header * list byte)) (r : Z) (s' : sys) : Prop :=
  ∃ e ns co ms W,
    s' = set_errno_s e (heap (s_live s)
           (s_residue s ++ (zeros <$> ns) ++ option_list co ++ (zeros <$> ms)) (disk i m x W s)) ∧
    match plan with
    | None => r = -1 ∧ W = []
    | Some (h, c) =>
        arrived (set_writes i h c) W ∧
        (r = 0 ∧ take 1 W = take 1 (set_writes i h c) ∨ r = -1 ∧ nf = false) ∧
        (nf = true → W = set_writes i h c ∧ co = Some c)
    end.

(** The blocks are given back, the record and the key cleared first. *)
Lemma wp_set_clean nf U plan B ex Q R e :
  set_blocks nf plan (s_live B) ex →
  (∀ ms co ms', (∀ h c, nf = true → plan = Some (h, c) → co = Some c) →
     Q (se_ok ex) (set_errno_s e (heap (s_live B) (R ++ (zeros <$> ms) ++ option_list co ++ (zeros <$> ms')) B))) →
  wp nf U (set_done None ex) Q (set_errno_s e (heap (set_live_at ex (s_live B)) R B)).
Proof.
  destruct ex as [r pl ci padded xk]. unfold set_blocks, set_live_at, found_live, found_fresh. cbn.
  intros (Hpl & Hci & Hlen & Hxk & Hco) HQ. unfold set_done. cbn [se_plain se_cipher se_padded se_key se_ok].
  apply wp_bind, wp_ret, wp_bind.
  destruct pl as [[pi pd]|]; [apply wp_bind|apply wp_ret].
  - eapply wp_checked_some; [rewrite <- (Hlen _ eq_refl); apply secure_zero_all|].
    apply wp_free; [destruct ci; cbn; set_solver|]. apply wp_bind.
    destruct ci as [[cj cd]|]; cbn [b_id b_data] in *.
    + apply wp_free; [cbn; set_solver|]. apply wp_bind, wp_wipe_and_leave; [done|]. apply wp_ret.
      specialize (HQ [len pd] (Some cd) [64] Hco).
      assert ((({[cj]} ∪ ({[pi]} ∪ s_live B)) ∖ {[pi]}) ∖ {[cj]} = s_live B) as Hl
        by (apply leibniz_equiv; set_solver).
      cbn [fmap list_fmap option_list app] in HQ. rewrite <- Hl in HQ at 1.
      unfold leaves, free_s, leaves. cbn. rewrite <- !app_assoc. exact HQ.
    + apply wp_free_null. apply wp_bind, wp_wipe_and_leave; [done|]. apply wp_ret.
      specialize (HQ [len pd] None [64] Hco).
      assert ((({[pi]} ∪ s_live B)) ∖ {[pi]} = s_live B) as Hl by (apply leibniz_equiv; set_solver).
      cbn [fmap list_fmap option_list app] in HQ. rewrite <- Hl in HQ at 1.
      unfold leaves, free_s, leaves. cbn. rewrite <- !app_assoc. exact HQ.
  - apply wp_bind. destruct ci as [[cj cd]|]; cbn [b_id b_data] in *.
    + apply wp_free; [cbn; set_solver|]. apply wp_bind, wp_wipe_and_leave; [done|]. apply wp_ret.
      specialize (HQ [] (Some cd) [64] Hco).
      assert (({[cj]} ∪ s_live B) ∖ {[cj]} = s_live B) as Hl by (apply leibniz_equiv; set_solver).
      cbn [fmap list_fmap option_list app] in HQ. rewrite <- Hl in HQ at 1.
      unfold leaves, free_s, leaves. cbn. rewrite <- !app_assoc. exact HQ.
    + apply wp_free_null. apply wp_bind, wp_wipe_and_leave; [done|]. apply wp_ret.
      apply (HQ [] None [64] Hco).
Qed.

Lemma wp_set_done nf U s f i m x plan ns ex s' :
  s_streams s !! f = None → set_at_done nf s f i m x plan ns ex s' →
  wp nf U (set_done (Some f) ex) (set_post nf s i m x plan) s'.
Proof.
  intros Hf (st & W & e & Hb & [Hi Hr] & ->).
  apply wp_bind, wp_bind.
  assert (∀ e' W', torn (pend st) W' → (nf = true → W' = pend st) →
    wp nf U (set_done None ex) (set_post nf s i m x plan)
      (set_errno_s e' (heap (set_live_at ex (s_live s)) (s_residue s ++ (zeros <$> ns))
                         (disk i m x (W ++ W') s)))) as Hclean.
  { intros e' W' HW HWn. apply (wp_set_clean nf U plan (disk i m x (W ++ W') s)); [done|].
    intros ms co ms' Hco. eexists e', (ns ++ ms), co, ms', (W ++ W').
    split; [by rewrite fmap_app, <- !app_assoc|].
    destruct plan as [[h c]|].
    - destruct Hr as (Harr & Hok & Hn). split_and!; [by apply Harr| |].
      + destruct Hok as [[-> ->]|[-> ?]]; [by left|by right].
      + intros Hnf. rewrite (HWn Hnf). split; [by apply Hn|by apply (Hco h c)].
    - destruct Hr as (-> & -> & Hp). rewrite Hp in HW. by rewrite HW. }
  apply wp_ws_fclose; [done|done| |].
  - intros Hnf r e' W' HW. apply wp_ret. apply (Hclean e' W' HW). congruence.
  - apply wp_ret. apply (Hclean e (pend st) (torn_all st)). done.
Qed.

(** [padlock_set] on any regular file. *)
Lemma wp_padlock_set nf U path password key value vl s i m x :
  let v := sub 0 vl value in
  s_names s !! path = Some i → s_inodes s !! i = Some (Inode false m x) →
  1 ≤ strlen key ≤ 255 → 0 ≤ vl < 2 ^ 32 → vl ≤ len value →
  (set_safe x key v ∨ U) →
  wp nf U (padlock_set (Some path) (Some password) (Some key) (Some value) vl)
    (set_post nf s i m x (set_plan password key v x)) s.
Proof.
  intros v Hn Hi Hk Hvl Hval Hsafe. unfold padlock_set.
  rewrite (proj2 (Z.eqb_neq _ _)), Z.gtb_ltb, (proj2 (Z.ltb_ge _ _)) by lia. cbn [orb].
  apply wp_bind, wp_draw; [|done]. intros xk0 _ Hxk0. unfold PADLOCK_XTS_KEY_SIZE in Hxk0.
  apply wp_bind. eapply wp_fopen_found; [done..| |].
  - intros -> e. rewrite (heap_intro s) at 2.
    apply (wp_set_clean false U (set_plan password key v x) s (SetExit (-1) None None 0 xk0)); [done|].
    intros ms co ms' _. cbn [se_ok]. eexists e, ms, co, ms', []. split; [by rewrite disk_nil|].
    destruct (set_plan password key v x) as [[h c]|]; [|done].
    split_and!; [apply arrived_nil|by right|done].
  - intros f Hf. apply wp_bind. eapply wp_mono; [by apply wp_set_file|].
    intros ex s' [ns Hd]. by eapply wp_set_done.
Qed.
End SetRules.

(** ** On a store that represents entries *)

Lemma file_write_inside off d x : 0 ≤ off → off + len d ≤ len x → file_write off d x = splice off d x.
Proof.
  intros. unfold file_write, zeros. replace (Z.to_nat (off + len d - len x)) with 0%nat by lia.
  by rewrite app_nil_r.
Qed.

(** The header image: what precedes the write offset, the offset, the rest. *)
Definition image_front (h : padlock_header) : list byte := concat (take 6 (header_segments h)).
Definition image_back (h : padlock_header) : list byte := concat (drop 7 (header_segments h)).

Lemma image_split h : header_image h = image_front h ++ le_split 8 (write_offset h) ++ image_back h.
Proof. unfold header_image, image_front, image_back, header_segments. cbn [take drop concat]. by rewrite <- !app_assoc, !app_nil_r. Qed.

Lemma image_front_len h : header_typed h → len (image_front h) = 32.
Proof. intros. unfold image_front, header_segments. seg_lia. Qed.

(** A write of a prefix of the new header that does not end inside the offset
    field leaves the old header or the new one. *)
Lemma torn_header h o x k :
  header_typed h → sub 0 PADLOCK_HEADER_SIZE x = header_image h → PADLOCK_HEADER_SIZE ≤ len x →
  (k ≤ 32 ∨ 40 ≤ k)%nat →
  splice 0 (take k (header_image (with_offset h o))) x = x ∨
  splice 0 (take k (header_image (with_offset h o))) x = splice 0 (header_image (with_offset h o)) x.
Proof.
  intros Hh Hx Hlx Hk. pose proof (image_front_len h Hh) as Hf.
  pose proof (header_image_len h Hh) as Hl.
  set (n := Z.to_nat PADLOCK_HEADER_SIZE).
  assert (x = header_image h ++ drop n x) as Ex.
  { rewrite <- Hx. unfold sub. fold n. change (drop (Z.to_nat 0) x) with x. by rewrite take_drop. }
  set (t := drop n x) in *. clearbody t n. subst x.
  unfold splice. change (take (Z.to_nat 0) ?l) with (@nil byte). change (Z.to_nat 0) with 0%nat. cbn [app plus].
  change (image_front (with_offset h o)) with (image_front h).
  rewrite !image_split in *. change (image_front (with_offset h o)) with (image_front h).
  change (image_back (with_offset h o)) with (image_back h). cbn [write_offset with_offset].
  set (F := image_front h) in *. set (K := image_back h) in *.
  assert (length (le_split 8 o) = 8%nat) as Ho by apply length_le_split.
  assert (length (le_split 8 (write_offset h)) = 8%nat) as Hw by apply length_le_split.
  destruct Hk as [Hk|Hk]; [left|right].
  - rewrite (take_app_le F) by lia. rewrite length_take, Nat.min_l by lia.
    rewrite <- (app_assoc F), drop_app_le by lia. by rewrite app_assoc, take_drop.
  - rewrite length_take. set (A := F ++ le_split 8 o). set (A' := F ++ le_split 8 (write_offset h)).
    assert (length A = 40%nat) as HA by (unfold A; rewrite length_app; lia).
    assert (length A' = 40%nat) as HA' by (unfold A'; rewrite length_app; lia).
    rewrite !(app_assoc F). fold A A'. rewrite !length_app, !HA in *.
    rewrite <- !(app_assoc A'), !(drop_app_ge A'), HA' by lia.
    rewrite (take_app_ge A), HA, <- app_assoc by lia. rewrite <- app_assoc. f_equal.
    destruct (Nat.le_gt_cases (k - 40) (length K)) as [Hle|Hgt].
    + rewrite Nat.min_l by lia. rewrite drop_app_le by lia. rewrite app_assoc, take_drop.
      rewrite (drop_app_length' K) by lia. done.
    + rewrite Nat.min_r by lia. by rewrite (take_ge K) by lia.
Qed.

Section Represented.
Context {OSSL : Openssl} {Laws : OpensslLaws OSSL}.
Implicit Types (k v : list byte).

Lemma encodes_snoc key : ∀ es off c k v c',
  encodes key off es c → entry_ok k v → len c' = record_length k v →
  xts_at true key (off + len c) (record_plain k v) = Some c' →
  encodes key off (es ++ [(k, v)]) (c ++ c').
Proof.
  induction es as [|[k1 v1] es IH]; intros off c k v c' Henc Hok Hl Hc.
  - cbn in Henc. subst c. cbn in Hc. rewrite Z.add_0_r in Hc. split; [done|].
    exists c', []. by rewrite app_nil_r.
  - destruct Henc as (Hok1 & c1 & c2 & -> & Hl1 & Hc1 & Henc). split; [done|].
    exists c1, (c2 ++ c'). rewrite app_assoc. split_and!; [done..|]. apply IH; [done..|].
    rewrite length_app, Nat2Z.inj_add in Hc. by rewrite <- Z.add_assoc.
Qed.

(** Bytes past the write offset do not matter. *)
Lemma store_rep_beyond password x h key c es off d :
  store_rep password x h key c es → write_offset h ≤ off → off + len d ≤ len x →
  store_rep password (splice off d x) h key c es.
Proof.
  intros [Ht Hv ? ? ? Hh ? ? Ho Hr ?] Hoff Hd. pose proof Hv as (_ & Hv' & _).
  unfold PADLOCK_HEADER_SIZE in *. split; try done; rewrite ?len_splice by lia; try done;
    unfold PADLOCK_HEADER_SIZE.
  - rewrite sub_splice_before by lia. done.
  - rewrite sub_splice_before by lia. done.
Qed.

(** The record and then the new header make a store with one more entry. *)
Lemma store_rep_snoc password x h key c es k v c' :
  store_rep password x h key c es → entry_ok k v →
  xts_at true key (write_offset h) (record_plain k v) = Some c' →
  write_offset h + record_length k v ≤ total_size h →
  let h' := with_offset h (write_offset h + len c') in
  store_rep password (splice 0 (header_image h') (splice (write_offset h) c' x)) h' key
    (c ++ c') (es ++ [(k, v)]).
Proof.
  intros [Ht Hv Hss Hsz Hb Hh Hu Hk Ho Hr He] Hok Hc Hfit h'.
  pose proof Hv as (Hm & Hv' & Hz). pose proof Ht as (Ht1 & _).
  destruct (record_length_spec k v Hok) as (_ & Hrl & _ & Hlp).
  pose proof (xts_at_len _ _ _ _ _ Hc) as Hlc. rewrite Hlp in Hlc.
  assert (header_typed h') as Ht'
    by (apply with_offset_typed; [done|unfold PADLOCK_HEADER_SIZE in *; lia]).
  pose proof (header_image_len h' Ht') as Hl'. unfold PADLOCK_HEADER_SIZE in *.
  assert (len (splice (write_offset h) c' x) = len x) as Hl1 by (apply len_splice; lia).
  assert (len (splice 0 (header_image h') (splice (write_offset h) c' x)) = len x) as Hl2
    by (rewrite len_splice; lia).
  split; try done; rewrite ?Hl2; try done; unfold PADLOCK_HEADER_SIZE.
  - split; [done|]. split; [|done]. cbn. unfold PADLOCK_HEADER_SIZE. lia.
  - rewrite <- Hl' at 1. apply sub_splice_same; lia.
  - cbn. rewrite length_app. lia.
  - rewrite sub_splice_after by lia. rewrite length_app, Nat2Z.inj_add, sub_add by lia.
    f_equal.
    + rewrite sub_splice_before by lia. done.
    + rewrite <- Ho. apply sub_splice_same; lia.
  - apply encodes_snoc; [done|done|lia|]. by rewrite <- Ho.
Qed.

(** There is room for the record, and the library can encrypt it. *)
Definition has_room (password : option (list byte)) (x k v : list byte) : Prop :=
  ∀ h key, decode_header (sub 0 PADLOCK_HEADER_SIZE x) = Some (Some h) → unseal password h = Some key →
    write_offset h + record_length k v ≤ total_size h ∧
    is_Some (xts_at true key (write_offset h) (record_plain k v)).

Lemma store_rep_decode password x h key c es :
  store_rep password x h key c es →
  PADLOCK_HEADER_SIZE ≤ len x ∧ decode_header (sub 0 PADLOCK_HEADER_SIZE x) = Some (Some h).
Proof.
  intros [Ht Hv ? ? ? Hh]. split; [destruct Hv as (_ & ? & _); lia|].
  rewrite Hh. by apply decode_header_image.
Qed.

Lemma set_plan_represents password x h xkey c es key v :
  store_rep (Some password) x h xkey c es → entry_ok (c_str key) v →
  has_room (Some password) x (c_str key) v →
  ∃ c', set_plan password key v x = Some (h, c') ∧
    xts_at true xkey (write_offset h) (record_plain (c_str key) v) = Some c' ∧
    len c' = record_length (c_str key) v ∧
    write_offset h + record_length (c_str key) v ≤ total_size h ∧ set_safe x key v.
Proof.
  intros Hrep Hok Hroom. destruct (store_rep_decode _ _ _ _ _ _ Hrep) as [Hlx Hd].
  destruct Hrep as [Ht Hv Hss Hsz Hb Hh Hu Hk Ho Hr He].
  destruct (Hroom h xkey Hd Hu) as [Hfit [c' Hc]]. exists c'.
  destruct (record_length_spec _ v Hok) as (_ & Hrl & _ & Hlp). pose proof Ht as (Ht1 & _).
  pose proof Hv as (_ & Hv' & _). unfold PADLOCK_HEADER_SIZE in Hv'.
  split_and!; [|done| |done|].
  - rewrite (set_plan_decoded _ _ _ _ (Some h)) by done. cbn [mbind option_bind]. rewrite Hu.
    cbn [mbind option_bind]. rewrite u64_small by lia.
    rewrite (proj2 (Z.ltb_ge _ 16)), Z.gtb_ltb, (proj2 (Z.ltb_ge (total_size h) _)) by lia. cbn [orb].
    rewrite (proj2 (Z.leb_gt _ _)) by lia. by rewrite Hc.
  - apply xts_at_len in Hc. lia.
  - split; [apply Hok|]. intros h' _ Hd'. rewrite Hd in Hd'. apply (inj Some), (inj Some) in Hd' as <-. lia.
Qed.

(** What a store holds after any part of the writes of [padlock_set] arrived: the
    old entries or the new ones, unless the header write ended inside its 8 bytes
    of write offset. *)
Lemma arrived_represents password x h xkey c es k v c' i W :
  store_rep (Some password) x h xkey c es → entry_ok k v →
  xts_at true xkey (write_offset h) (record_plain k v) = Some c' →
  write_offset h + record_length k v ≤ total_size h →
  arrived (set_writes i h c') W →
  (∀ w, last W = Some w → dw_off w = 0 → len (dw_data w) ≤ 32 ∨ 40 ≤ len (dw_data w)) →
  represents (Some password) (replay x W) es ∨
  represents (Some password) (replay x W) (es ++ [(k, v)]).
Proof.
  intros Hrep Hok Hc Hfit HW Htear.
  pose proof (store_rep_snoc _ _ _ _ _ _ _ _ _ Hrep Hok Hc Hfit) as Hnew. cbv zeta in Hnew.
  destruct (record_length_spec k v Hok) as (_ & Hrl & _ & Hlp).
  pose proof (xts_at_len _ _ _ _ _ Hc) as Hlc. rewrite Hlp in Hlc.
  pose proof Hrep as [Ht Hv Hss Hsz Hb _ _ _ _ _ _]. pose proof Hv as (_ & Hv' & _).
  unfold PADLOCK_HEADER_SIZE in Hv'.
  destruct HW as [[->|[j ->]]|(W' & -> & HW)].
  { left. by eexists _, _, _. }
  { left. cbn. rewrite file_write_inside by (rewrite ?length_take; lia).
    eexists _, _, _. eapply store_rep_beyond; [done|lia|rewrite length_take; lia]. }
  pose proof (store_rep_beyond _ _ _ _ _ _ (write_offset h) c' Hrep ltac:(lia) ltac:(lia)) as Hmid.
  assert (header_typed (with_offset h (write_offset h + len c'))) as Ht'.
  { apply with_offset_typed; [done|]. destruct Ht as ((_ & ?) & _). lia. }
  pose proof (header_image_len _ Ht') as Hl'. unfold PADLOCK_HEADER_SIZE in Hl'.
  assert (len (splice (write_offset h) c' x) = len x) as Hl1 by (apply len_splice; lia).
  cbn [replay foldl dw_off dw_data]. rewrite file_write_inside by lia.
  assert (represents (Some password) (splice (write_offset h) c' x) es) as Hold by by eexists _, _, _.
  assert (represents (Some password) (splice 0 (header_image (with_offset h (write_offset h + len c')))
    (splice (write_offset h) c' x)) (es ++ [(k, v)])) as Hdone by by eexists _, _, _.
  destruct HW as [[->|[j ->]]|(W'' & -> & ->)]; cbn [foldl dw_off dw_data dw_ino]; [by left| |].
  - specialize (Htear _ eq_refl eq_refl). cbn [dw_data] in Htear. rewrite length_take in Htear.
    rewrite file_write_inside by (rewrite ?length_take; lia).
    destruct (torn_header h (write_offset h + len c') (splice (write_offset h) c' x) j) as [-> | ->];
      [done|by destruct Hmid|unfold PADLOCK_HEADER_SIZE; lia|lia|by left|by right].
  - right. by rewrite file_write_inside by lia.
Qed.
End Represented.
