(* ===== verification/Allocate.v ===== *)
(** * Creating a store ([src/src/padlock.c]: [padlock_allocate])

    [ensure_parent_directory], [write_urandom_bytes] and [padlock_allocate].  The
    store is built in a temporary file beside its final name and renamed to
    it.  [done] of [padlock_allocate] receives the descriptor, the stream and the
    result. *)

From S2P Require Import Prelude World Posix Libc Codec Openssl Header Secret.

Definition PATH_MAX : Z := 4096.
Definition BUFFER_SIZE : Z := 1024 * 1024.

(** [".tmp.XXXXXX"] *)
Definition TMP_SUFFIX : list byte := bstr ".tmp.XXXXXX".

Section Code.
Context {OSSL : Openssl}.

Definition ensure_parent_directory (path : list byte) : M Z :=
  if len path >=? PATH_MAX then mret (-1) else
  match strrchr_slash path with
  | None => mret 0
  | Some slash =>
      let copy := take slash path in
      r ← mkdir copy 0x1c0;
      e ← get_errno;
      if (r =? 0) || (e =? EEXIST) then chmod copy 0x1c0;; mret 0 else mret (-1)
  end.

(** The read loop: a signal restarts a read, nothing read is an error.  The fuel
    counts a byte or an interruption per iteration. *)
Fixpoint read_loop (fuel : nat) (fd : nat) (amount : Z) (buffer : list byte) (read_total : Z) :
    M (bool * list byte) :=
  if read_total <? amount then
    match fuel with
    | O => diverge
    | S fuel =>
        '(r, got) ← read_urandom fd (amount - read_total);
        if r <? 0 then
          e ← get_errno;
          if e =? EINTR then read_loop fuel fd amount buffer read_total
          else mret (false, buffer)
        else if r =? 0 then set_errno EIO;; mret (false, buffer)
        else
          buffer ← checked (store read_total got buffer);
          read_loop fuel fd amount buffer (read_total + r)
    end
  else mret (true, buffer).

Fixpoint write_loop (fuel : nat) (file : nat) (amount : Z) (buffer : list byte) (write_total : Z) : M bool :=
  if write_total <? amount then
    match fuel with
    | O => diverge
    | S fuel =>
        d ← checked (load write_total (amount - write_total) buffer);
        written ← fwrite d file;
        if written =? 0 then mret false
        else write_loop fuel file amount buffer (write_total + written)
    end
  else mret true.

(** How many failures the environment still has in store. *)
Definition faults_left : M nat := λ s c, Ret (length (c_faults c)) s c.

Fixpoint urandom_loop (fuel : nat) (file fd : nat) (buffer : list byte) (remaining : Z) :
    M (bool * list byte) :=
  if 0 <? remaining then
    match fuel with
    | O => diverge
    | S fuel =>
        let amount := if remaining >? BUFFER_SIZE then BUFFER_SIZE else remaining in
        n ← faults_left;
        '(ok, buffer) ← read_loop (Z.to_nat amount + n) fd amount buffer 0;
        if negb ok then mret (false, buffer) else
        ok ← write_loop (Z.to_nat amount) file amount buffer 0;
        if negb ok then mret (false, buffer) else
        urandom_loop fuel file fd buffer (remaining - amount)
    end
  else mret (true, buffer).

Definition write_urandom_bytes (file : nat) (length : Z) : M Z :=
  buffer ← malloc BUFFER_SIZE;
  match buffer with None => mret (-1) | Some buffer =>
  random_fd ← open_urandom;
  '(ok, d) ← match random_fd with
             | None => mret (false, b_data buffer)
             | Some fd =>
                 urandom_loop (S (Z.to_nat (length / BUFFER_SIZE))) file fd (b_data buffer) length
             end;
  (match random_fd with Some fd => close fd;; mret tt | None => mret tt end);;
  d ← checked (padlock_secure_zero d BUFFER_SIZE);
  free (Some (Buf (b_id buffer) d));;
  mret (if ok : bool then 0 else -1)
  end.

(** The label [done] of [padlock_allocate]. *)
Definition allocate_done (file fd : option nat) (temp_path xts_key : list byte) (ok : Z) : M Z :=
  (match file with Some f => fclose f;; mret tt | None => mret tt end);;
  (match fd with Some fd => close fd;; mret tt | None => mret tt end);;
  (if negb (ok =? 0) && negb (bool_decide (temp_path = [])) then unlink temp_path;; mret tt else mret tt);;
  wipe_and_leave xts_key PADLOCK_XTS_KEY_SIZE;;
  mret ok.

(** From the sealed header to the end. *)
Definition allocate_finish (file : nat) (path temp_path xts_key : list byte) (header : padlock_header) : M Z :=
  let fail := allocate_done (Some file) None temp_path xts_key (-1) in
  r ← write_header file header;
  if negb (r =? 0) then fail else
  r ← fflush file;
  if negb (r =? 0) then fail else
  r ← fsync file;
  if negb (r =? 0) then fail else
  r ← fclose file;
  if negb (r =? 0) then allocate_done None None temp_path xts_key (-1) else
  r ← rename temp_path path;
  if negb (r =? 0) then allocate_done None None temp_path xts_key (-1) else
  allocate_done None None temp_path xts_key 0.

(** From the filled file to the sealed header. *)
Definition allocate_header (file : nat) (path temp_path password xts_key : list byte) (size : Z) : M Z :=
  let fail k := allocate_done (Some file) None temp_path k (-1) in
  salt ← RAND_bytes PADLOCK_SALT_SIZE;
  match salt with None => fail xts_key | Some salt =>
  iv ← RAND_bytes PADLOCK_IV_SIZE;
  match iv with None => fail xts_key | Some iv =>
  k ← RAND_bytes PADLOCK_XTS_KEY_SIZE;
  match k with None => fail xts_key | Some xts_key =>
  let header := Header size PADLOCK_HEADER_SIZE salt iv (zeros 128) 0 in
  '(r, header) ← encrypt_secret (Some password) header xts_key;
  if negb (r =? 0) then fail xts_key else
  allocate_finish file path temp_path xts_key header
  end end end.

Definition padlock_allocate (path : option (list byte)) (size : Z) (password : option (list byte)) : M Z :=
  match path, password with
  | Some path, Some password =>
      if size <? PADLOCK_MIN_SIZE then mret (-1) else
      r ← ensure_parent_directory path;
      if negb (r =? 0) then mret (-1) else
      let temp_path := path ++ TMP_SUFFIX in
      if len temp_path >=? PATH_MAX then mret (-1) else
      t ← mkstemp temp_path;
      match t with None => mret (-1) | Some (fd, temp_path) =>
      xts_key ← draw PADLOCK_XTS_KEY_SIZE;
      r ← fchmod fd 0x180;
      if negb (r =? 0) then allocate_done None (Some fd) temp_path xts_key (-1) else
      file ← fdopen fd;
      match file with None => allocate_done None (Some fd) temp_path xts_key (-1) | Some file =>
      r ← write_urandom_bytes file size;
      if negb (r =? 0) then allocate_done (Some file) None temp_path xts_key (-1) else
      allocate_header file path temp_path password xts_key size
      end end
  | _, _ => mret (-1)
  end.
End Code.

(** ** The random fill *)

(** [st'] is [st] after the bytes [d] were written to it. *)
Definition wrote (st : stream) (d : list byte) (st' : stream) : Prop :=
  st_ino st' = st_ino st ∧ st_writable st' = true ∧ st_dir st' ≠ Reading ∧
  st_pos st' = st_pos st + len d ∧ st_pending st' = st_pending st ++ d.

Lemma wrote_nil st : st_writable st = true → st_dir st ≠ Reading → wrote st [] st.
Proof. intros. split_and!; [done..| |by rewrite app_nil_r]. cbn. lia. Qed.

Lemma wrote_trans st1 d1 st2 d2 st3 : wrote st1 d1 st2 → wrote st2 d2 st3 → wrote st1 (d1 ++ d2) st3.
Proof.
  intros (Hi & Hw & Hd & Hp & Hq) (Hi' & Hw' & Hd' & Hp' & Hq').
  split_and!; [congruence|done|done| |by rewrite Hq', Hq, app_assoc]. rewrite length_app. lia.
Qed.

Lemma wrote_written st d : st_dir st ≠ Reading → wrote st d (written st d).
Proof. intros. by split_and!. Qed.

Section FillRules.
Context (nf : bool) (U : Prop).

(** One read: an error uses up a failure; otherwise at most [n] bytes come. *)
Lemma read_urandom_run fd n s c :
  s_fds s !! fd = Some FdUrandom → 0 < n → ctl_ok nf c →
  ∃ r d s' c', read_urandom fd n s c = Ret (r, d) s' c' ∧ ctl_ok nf c' ∧
    ((nf = false ∧ r = -1 ∧ (∃ e, s' = set_errno_s e s) ∧ (length (c_faults c') < length (c_faults c))%nat) ∨
     (r = len d ∧ len d ≤ n ∧ (nf = true → len d = n) ∧ s' = s ∧
      (length (c_faults c') ≤ length (c_faults c))%nat)).
Proof.
  intros Hfd Hn Hc. unfold read_urandom, get_fd, pop, draw, checked, mbind, M_bind, mret, M_ret, get_sys. rewrite Hfd.
  assert (∀ m cp, 0 ≤ m → len (c_bytes c <$> seq cp (Z.to_nat m)) = m) as Hl.
  { intros. rewrite length_fmap, length_seq. lia. }
  unfold ctl_ok in *. destruct c as [[|f fs] bs ps]; cbn [c_faults c_bytes c_pos] in *.
  - eexists _, _, _, _. split; [reflexivity|]. rewrite Hl by lia. split; [done|]. right.
    split_and!; try done.
  - assert (nf = false) as Hnf by (destruct nf; [specialize (Hc eq_refl); done|done]).
    destruct f as [[e1|k e1]|]; eexists _, _, _, _; (split; [reflexivity|]); cbn.
    + split; [congruence|]. left. split_and!; [done..|by eexists|lia].
    + split; [congruence|]. right. rewrite Hl by lia. split_and!; try done; try lia. congruence.
    + split; [congruence|]. right. rewrite Hl by lia. split_and!; try done; try lia.
Qed.

(** The read loop ends: every iteration reads a byte or uses up a failure. *)
Lemma read_loop_run fd amount : ∀ fuel buffer rt s c (Q : bool * list byte → sys → Prop),
  s_fds s !! fd = Some FdUrandom → 0 ≤ rt ≤ amount → amount ≤ len buffer → ctl_ok nf c →
  amount - rt + Z.of_nat (length (c_faults c)) ≤ Z.of_nat fuel →
  (nf = false → ∀ e' b, len b = len buffer → Q (false, b) (set_errno_s e' s)) →
  (∀ e' b, len b = len buffer → Q (true, b) (set_errno_s e' s)) →
  match read_loop fuel fd amount buffer rt s c with
  | Ret a s' c' => ctl_ok nf c' ∧ Q a s'
  | _ => False
  end.
Proof.
  induction fuel as [|fuel IH]; intros buffer rt s c Q Hfd Hrt Ham Hc Hfuel HF HQ; cbn [read_loop].
  { rewrite (proj2 (Z.ltb_ge _ _)) by lia. split; [done|]. rewrite <- (set_errno_id s). by apply HQ. }
  destruct (Z.ltb_spec rt amount) as [Hlt|Hge].
  2: { split; [done|]. rewrite <- (set_errno_id s). by apply HQ. }
  destruct (read_urandom_run fd (amount - rt) s c Hfd ltac:(lia) Hc)
    as (r & d & s' & c' & Hr & Hc' & [(Hnf & -> & [e ->] & Hfs)|(-> & Hd & Hdn & -> & Hfs)]);
    unfold mbind at 1, M_bind at 1; rewrite Hr.
  - unfold mbind, M_bind, get_errno. cbn [Z.ltb Z.compare s_errno set_errno_s]. destruct (e =? EINTR).
    + apply IH; [done|lia|lia|done|lia|..]; [intros _; by apply HF|by apply HQ].
    + split; [done|]. by apply HF.
  - rewrite (proj2 (Z.ltb_ge (len d) 0)) by lia. destruct (Z.eqb_spec (len d) 0) as [Hz|Hz].
    + cbn. split; [done|]. apply HF; [|done]. destruct nf; [|done]. specialize (Hdn eq_refl). lia.
    + rewrite store_some by lia. unfold mbind, M_bind, checked. cbn [mret M_ret].
      assert (len (splice rt d buffer) = len buffer) as Hs by (apply len_splice; lia).
      apply IH; [done|lia|lia|done|lia|..].
      * intros Hnf e' b Hb. apply HF; [done|lia].
      * intros e' b Hb. apply HQ. lia.
Qed.

Lemma wp_read_loop fd amount buffer Q s :
  s_fds s !! fd = Some FdUrandom → 0 ≤ amount ≤ len buffer →
  (nf = false → ∀ e' b, len b = len buffer → Q (false, b) (set_errno_s e' s)) →
  (∀ e' b, len b = len buffer → Q (true, b) (set_errno_s e' s)) →
  wp nf U (n ← faults_left; read_loop (Z.to_nat amount + n) fd amount buffer 0) Q s.
Proof.
  intros Hfd Ham HF HQ c Hc. unfold mbind, M_bind, faults_left.
  pose proof (read_loop_run fd amount (Z.to_nat amount + length (c_faults c)) buffer 0 s c Q
                Hfd ltac:(lia) ltac:(lia) Hc ltac:(lia) HF HQ) as H.
  by destruct (read_loop _ _ _ _ _ _ _).
Qed.

Context (f i : nat) (m : Z) (x : list byte).

Lemma wp_write_loop B amount buffer W Q : ∀ fuel wt st e,
  st_writable st = true → st_dir st ≠ Reading → 0 ≤ wt ≤ amount → amount ≤ len buffer →
  amount - wt ≤ Z.of_nat fuel →
  (nf = false → ∀ e' st', st_ino st' = st_ino st → Q false (ws f i m x B st' W e')) →
  (∀ e' st' d, len d = amount - wt → wrote st d st' → Q true (ws f i m x B st' W e')) →
  wp nf U (write_loop fuel f amount buffer wt) Q (ws f i m x B st W e).
Proof.
  induction fuel as [|fuel IH]; intros wt st e Hw Hd Hwt Hb Hfuel HF HQ; cbn [write_loop].
  { rewrite (proj2 (Z.ltb_ge _ _)) by lia. apply wp_ret, (HQ e st []); [cbn; lia|by apply wrote_nil]. }
  destruct (Z.ltb_spec wt amount) as [Hlt|Hge].
  2: { apply wp_ret, (HQ e st []); [cbn; lia|by apply wrote_nil]. }
  apply wp_bind. eapply wp_checked_some; [apply load_some; lia|].
  set (y := sub wt (amount - wt) buffer). assert (len y = amount - wt) as Hy by (apply len_sub; lia).
  assert (∀ e' d, len d ≤ amount - wt → (len d = 0 → nf = false) →
    wp nf U (if len d =? 0 then mret false else write_loop fuel f amount buffer (wt + len d)) Q
      (ws f i m x B (written st d) W e')) as Hgo.
  { intros e' d Hld Hz. destruct (Z.eqb_spec (len d) 0) as [E|E]; [apply wp_ret, HF; auto|].
    apply IH; [done|done|lia|done|lia|auto|]. intros e2 st' d' Hd' Hwr.
    apply (HQ e2 st' (d ++ d')); [rewrite length_app; lia|].
    eapply wrote_trans; [by apply wrote_written|done]. }
  apply wp_bind, wp_ws_fwrite; [done|done| |].
  - intros Hnf e' k. apply Hgo; [rewrite length_take; lia|done].
  - apply Hgo; lia.
Qed.

Lemma wp_urandom_loop B fd W Q : ∀ fuel buffer remaining st e,
  s_fds B !! fd = Some FdUrandom → st_writable st = true → st_dir st ≠ Reading →
  len buffer = BUFFER_SIZE → 0 ≤ remaining → remaining ≤ Z.of_nat fuel * BUFFER_SIZE →
  (nf = false → ∀ e' st' b, st_ino st' = st_ino st → len b = BUFFER_SIZE →
     Q (false, b) (ws f i m x B st' W e')) →
  (∀ e' st' d b, len d = remaining → wrote st d st' → len b = BUFFER_SIZE →
     Q (true, b) (ws f i m x B st' W e')) →
  wp nf U (urandom_loop fuel f fd buffer remaining) Q (ws f i m x B st W e).
Proof.
  induction fuel as [|fuel IH]; intros buffer remaining st e Hfd Hw Hd Hb Hrem Hfuel HF HQ; cbn [urandom_loop].
  { rewrite (proj2 (Z.ltb_ge _ _)) by lia. apply wp_ret, (HQ e st []); [cbn; lia|by apply wrote_nil|done]. }
  destruct (Z.ltb_spec 0 remaining) as [Hlt|Hge].
  2: { apply wp_ret, (HQ e st []); [cbn; lia|by apply wrote_nil|done]. }
  set (amount := if remaining >? BUFFER_SIZE then BUFFER_SIZE else remaining).
  assert (0 < amount ≤ BUFFER_SIZE ∧ amount ≤ remaining ∧ (amount = BUFFER_SIZE ∨ amount = remaining)) as Ham.
  { unfold amount. rewrite Z.gtb_ltb. unfold BUFFER_SIZE in *. destruct (Z.ltb_spec (1024 * 1024) remaining); lia. }
  apply wp_assoc, wp_bind, wp_read_loop; [done|lia| |].
  { intros Hnf e' b Hlb. apply wp_ret. by apply (HF Hnf e' st b); [|lia]. }
  intros e' b Hlb. cbn [negb].
  change (set_errno_s e' (ws f i m x B st W e)) with (ws f i m x B st W e').
  apply wp_bind, wp_write_loop; [done|done|lia|lia|lia| |].
  { intros Hnf e2 st' Hi. apply wp_ret, HF; [done|done|lia]. }
  intros e2 st' d Hld Hwr. cbn [negb]. pose proof Hwr as (Hi & Hw' & Hd' & _).
  apply IH; [done|done|done|lia|lia|lia| |].
  - intros Hnf e3 st'' b' Hi'. apply HF; [done|congruence].
  - intros e3 st'' d' b' Hld' Hwr'. apply (HQ e3 st'' (d ++ d')); [rewrite length_app; lia|].
    by eapply wrote_trans.
Qed.

(** The file gets [length] bytes; the buffer is cleared and given back. *)
Lemma wp_write_urandom_bytes B length W Q st e :
  st_writable st = true → st_dir st ≠ Reading → 0 ≤ length →
  (nf = false → ∀ e' st' R, st_ino st' = st_ino st → (∀ y, y ∈ R → y = zeros BUFFER_SIZE) →
     Q (-1) (ws f i m x (leaves R B) st' W e')) →
  (∀ e' st' d, len d = length → wrote st d st' →
     Q 0 (ws f i m x (leaves [zeros BUFFER_SIZE] B) st' W e')) →
  wp nf U (write_urandom_bytes f length) Q (ws f i m x B st W e).
Proof.
  intros Hw Hd Hlen HF HQ.
  assert (0 ≤ BUFFER_SIZE) as Hbs by (unfold BUFFER_SIZE; lia).
  apply wp_bind, wp_malloc; [done| |].
  { intros Hnf e'. apply wp_ret. specialize (HF Hnf e' st []). rewrite leaves_nil in HF.
    apply HF; [done|]. intros y Hy. by apply elem_of_nil in Hy. }
  intros j b Hj Hb.
  change (alloc_s j (ws f i m x B st W e)) with (ws f i m x (alloc_s j B) st W e).
  change (j ∉ s_live B) in Hj.
  assert (∀ ok d st' e', len d = BUFFER_SIZE →
    Q (if ok : bool then 0 else -1) (ws f i m x (leaves [zeros BUFFER_SIZE] B) st' W e') →
    wp nf U (d ← checked (padlock_secure_zero d BUFFER_SIZE); free (Some (Buf j d));;
             mret (if ok then 0 else -1)) Q (ws f i m x (alloc_s j B) st' W e')) as Hend.
  { intros ok d st' e' Hld Hq. apply wp_bind.
    eapply wp_checked_some; [rewrite <- Hld; apply secure_zero_all|]. rewrite Hld.
    apply wp_bind, wp_free; [cbn; set_solver|]. apply wp_ret.
    change (Q (if ok then 0 else -1) (ws f i m x (leaves [zeros BUFFER_SIZE]
      (set_live (s_live (alloc_s j B) ∖ {[j]}) (alloc_s j B))) st' W e')).
    by rewrite set_live_alloc. }
  apply wp_bind, wp_open_urandom.
  { intros Hnf e'. apply wp_bind, wp_ret, wp_bind, wp_ret. apply (Hend false b st e' Hb).
    apply (HF Hnf); [done|]. intros y ->%list_elem_of_singleton. done. }
  intros fd Hfd. change (s_fds B !! fd = None) in Hfd.
  change (add_fd fd FdUrandom (ws f i m x (alloc_s j B) st W e))
    with (ws f i m x (add_fd fd FdUrandom (alloc_s j B)) st W e).
  assert (s_fds (add_fd fd FdUrandom (alloc_s j B)) !! fd = Some FdUrandom) as Hfd' by apply lookup_insert_eq.
  assert (∀ ok d st' e', len d = BUFFER_SIZE →
    (∀ e2, Q (if ok : bool then 0 else -1) (ws f i m x (leaves [zeros BUFFER_SIZE] B) st' W e2)) →
    wp nf U ((close fd;; mret tt);; d ← checked (padlock_secure_zero d BUFFER_SIZE); free (Some (Buf j d));;
             mret (if ok then 0 else -1)) Q
      (ws f i m x (add_fd fd FdUrandom (alloc_s j B)) st' W e')) as Hend'.
  { intros ok d st' e' Hld Hq. apply wp_bind, wp_bind. eapply wp_close; [exact Hfd'|].
    intros r e2. apply wp_ret.
    change (set_errno_s e2 (drop_fd fd (ws f i m x (add_fd fd FdUrandom (alloc_s j B)) st' W e')))
      with (ws f i m x (drop_fd fd (add_fd fd FdUrandom (alloc_s j B))) st' W e2).
    rewrite drop_add_fd by done. by apply Hend. }
  apply wp_bind, wp_urandom_loop; [exact Hfd'|done|done|done|done| | |].
  - pose proof (Z.mod_pos_bound length BUFFER_SIZE ltac:(unfold BUFFER_SIZE; lia)).
    pose proof (Z.div_mod length BUFFER_SIZE ltac:(unfold BUFFER_SIZE; lia)).
    pose proof (Z.div_pos length BUFFER_SIZE ltac:(lia) ltac:(unfold BUFFER_SIZE; lia)).
    rewrite Nat2Z.inj_succ, Z2Nat.id by done. nia.
  - intros Hnf e' st' d Hi Hld. apply (Hend' false d st' e' Hld). intros e2. apply (HF Hnf); [done|].
    intros y ->%list_elem_of_singleton. done.
  - intros e' st' d d' Hld Hwr Hld'. apply (Hend' true d' st' e' Hld'). intros e2. by apply (HQ e2 st' d).
Qed.
End FillRules.
