(* ===== verification/AllocateSpec.v ===== *)
(** * Correctness of [padlock_allocate]

    Whatever fails, the files that existed keep their contents: the store appears
    under its name only when it is complete.  When nothing fails it does. *)

From S2P Require Import Prelude World Posix Libc Codec Openssl Header Secret Store StoreSpec StoreGet StoreSet Allocate.

(** Every regular file of [s], except those [P] names, is in [s'] under its name and
    with its contents. *)
Definition keeps_files (P : list byte → Prop) (s s' : sys) : Prop :=
  ∀ p j m d, ¬ P p → s_names s !! p = Some j → s_inodes s !! j = Some (Inode false m d) →
    s_names s' !! p = Some j ∧ ∃ m', s_inodes s' !! j = Some (Inode false m' d).

(** Nothing stays open or allocated, and the files are kept. *)
Definition quiet (s s' : sys) : Prop :=
  s_live s' = s_live s ∧ s_fds s' = s_fds s ∧ s_streams s' = s_streams s ∧
  keeps_files (λ _, False) s s'.

Lemma quiet_refl s : quiet s s.
Proof. split_and!; [done..|]. intros p j m d _ Hp Hj. eauto. Qed.

Lemma quiet_trans s1 s2 s3 : quiet s1 s2 → quiet s2 s3 → quiet s1 s3.
Proof.
  intros (E1 & E2 & E3 & K) (E1' & E2' & E3' & K'). split_and!; [congruence..|].
  intros p j m d HP Hp Hj. destruct (K p j m d HP Hp Hj) as [Hp' [m' Hj']]. by apply (K' p j m' d).
Qed.

(** A state change that touches only [errno], the residue and the log. *)
Lemma quiet_same s s' :
  s_live s' = s_live s → s_fds s' = s_fds s → s_streams s' = s_streams s →
  s_names s' = s_names s → s_inodes s' = s_inodes s → quiet s s'.
Proof.
  intros ? ? ? Hn Hi. split_and!; [done..|]. intros p j m d _ Hp Hj. rewrite Hn, Hi. eauto.
Qed.

(** Writes to a file that did not exist. *)
Lemma quiet_disk s B i m x W : quiet s B → s_inodes s !! i = None → quiet s (disk i m x W B).
Proof.
  intros (E1 & E2 & E3 & K) Hi. split_and!; [done..|]. intros p j m' d HP Hp Hj.
  destruct (K p j m' d HP Hp Hj) as [Hp' Hj']. split; [done|]. cbn. by rewrite lookup_insert_ne by congruence.
Qed.

(** A name that did not exist is removed. *)
Lemma quiet_unlink s s' t : quiet s s' → s_names s !! t = None → quiet s (set_names (delete t (s_names s')) s').
Proof.
  intros (E1 & E2 & E3 & K) Ht. split_and!; [done..|]. intros p j m d HP Hp Hj.
  destruct (K p j m d HP Hp Hj) as [Hp' Hj']. split; [|done]. cbn. by rewrite lookup_delete_ne by congruence.
Qed.

Lemma quiet_mode s s' j m : quiet s s' → quiet s (set_mode j m s').
Proof.
  intros Hq. eapply quiet_trans; [done|]. unfold set_mode. destruct (s_inodes s' !! j) as [n|] eqn:Hj; [|apply quiet_refl].
  split_and!; [done..|]. intros p j' m' d _ Hp Hj'. split; [done|]. cbn.
  destruct (decide (j' = j)) as [->|]; [|rewrite lookup_insert_ne by done; eauto].
  rewrite Hj in Hj'. apply (inj Some) in Hj' as ->. rewrite lookup_insert_eq. eauto.
Qed.

(** A new file or directory under a new name. *)
Lemma quiet_add s s' p i n : quiet s s' → s_names s' !! p = None → s_inodes s' !! i = None → quiet s (add_name p i n s').
Proof.
  intros Hq Hp Hi. eapply quiet_trans; [done|]. split_and!; [done..|]. intros q j m d _ Hq' Hj. cbn.
  rewrite !lookup_insert_ne by congruence. eauto.
Qed.

Lemma is_dir_disk B i m x W p : is_dir (disk i m x W B) p = true → is_dir B p = true.
Proof.
  unfold is_dir, disk. cbn [s_names s_inodes set_log set_inodes]. destruct (s_names B !! p) as [j|]; [|done].
  destruct (decide (j = i)) as [->|]; [by rewrite lookup_insert_eq|by rewrite lookup_insert_ne].
Qed.

Section Spec.
Context {OSSL : Openssl} {Laws : OpensslLaws OSSL}.

(** What [padlock_allocate] guarantees: a complete empty store under the name, or
    a failure that changed no file. *)
Definition allocate_post (nf : bool) (s : sys) (path password : list byte) (size r : Z) (s' : sys) : Prop :=
  (r = 0 ∧ s_live s' = s_live s ∧ s_fds s' = s_fds s ∧ s_streams s' = s_streams s ∧
   keeps_files (λ p, p = path) s s' ∧
   ∃ i x, s_names s' !! path = Some i ∧ s_inodes s' !! i = Some (Inode false 0x180 x) ∧
     len x = size ∧ represents (Some password) x []) ∨
  (r = -1 ∧ nf = false ∧ quiet s s').

Section Done.
Context (nf : bool) (U : Prop) (s : sys) (path password : list byte) (size : Z) (temp : list byte).
Context (Htemp : s_names s !! temp = None).

(** The failing exits. *)
Lemma wp_fail_closed key s' :
  nf = false → len key = 64 → quiet s s' →
  wp nf U (allocate_done None None temp key (-1)) (allocate_post nf s path password size) s'.
Proof.
  intros Hnf Hk Hq. apply wp_bind, wp_ret, wp_bind, wp_ret, wp_bind.
  assert (∀ s1, quiet s s1 → wp nf U (wipe_and_leave key PADLOCK_XTS_KEY_SIZE;; mret (-1))
            (allocate_post nf s path password size) s1) as Hend.
  { intros s1 Hq1. apply wp_bind, wp_wipe_and_leave; [done|]. apply wp_ret. right. split_and!; [done..|].
    eapply quiet_trans; [done|]. by apply quiet_same. }
  cbn [Z.eqb negb]. case_bool_decide; cbn [negb andb]; [apply wp_ret; by apply Hend|].
  apply wp_bind, wp_fallible.
  { intros _ e. apply wp_ret, Hend. eapply quiet_trans; [done|]. by apply quiet_same. }
  apply wp_bind, wp_get_sys. case_bool_decide; cbn [negb].
  2: { apply wp_fail_with, wp_ret, Hend. eapply quiet_trans; [done|]. by apply quiet_same. }
  destruct (is_dir s' temp).
  { apply wp_fail_with, wp_ret, Hend. eapply quiet_trans; [done|]. by apply quiet_same. }
  apply wp_bind, wp_modify, wp_ret, wp_ret, Hend. by apply quiet_unlink.
Qed.

Lemma wp_fail_fd fd o key s' :
  nf = false → len key = 64 → s_fds s' !! fd = Some o → quiet s (drop_fd fd s') →
  wp nf U (allocate_done None (Some fd) temp key (-1)) (allocate_post nf s path password size) s'.
Proof.
  intros Hnf Hk Hfd Hq. apply wp_bind, wp_ret, wp_bind, wp_bind. eapply wp_close; [done|].
  intros r e. apply wp_ret. apply (wp_fail_closed key); [done..|].
  eapply quiet_trans; [done|]. by apply quiet_same.
Qed.

Lemma wp_fail_open f i m x B st W e key :
  nf = false → len key = 64 → s_streams B !! f = None → quiet s B → s_inodes s !! i = None → st_ino st = i →
  wp nf U (allocate_done (Some f) None temp key (-1)) (allocate_post nf s path password size)
    (ws f i m x B st W e).
Proof.
  intros Hnf Hk Hf Hq Hi Hst. apply wp_bind, wp_bind, wp_ws_fclose; [done|done| |].
  - intros _ r e' W' _. apply wp_ret, (wp_fail_closed key); [done..|].
    eapply quiet_trans; [by apply quiet_disk|]. by apply quiet_same.
  - apply wp_ret, (wp_fail_closed key); [done..|].
    eapply quiet_trans; [by apply quiet_disk|]. by apply quiet_same.
Qed.
End Done.

(** A file of random bytes under a sealed header is an empty store. *)
Lemma fresh_store password h key d :
  header_typed h → total_size h = len d → PADLOCK_MIN_SIZE ≤ len d < 2 ^ 63 →
  write_offset h = PADLOCK_HEADER_SIZE → encrypted_secret_size h = 80 →
  unseal password h = Some key → len key = 64 →
  represents password (splice 0 (header_image h) d) [].
Proof.
  intros Ht Hsz Hb Ho Hs Hu Hk. pose proof (header_image_len h Ht) as Hl.
  unfold PADLOCK_MIN_SIZE, PADLOCK_HEADER_SIZE in *.
  assert (len (splice 0 (header_image h) d) = len d) as Hls by (apply len_splice; lia).
  exists h, key, []. split; try done; rewrite ?Hls; try done; unfold PADLOCK_HEADER_SIZE.
  - unfold header_valid, PADLOCK_MIN_SIZE, PADLOCK_HEADER_SIZE. lia.
  - lia.
  - rewrite <- Hl at 1. apply sub_splice_same; lia.
Qed.

Lemma replay_fresh i d img : len img ≤ len d → replay [] [DiskWrite i 0 d; DiskWrite i 0 img] = splice 0 img d.
Proof.
  intros Hl. cbn [replay foldl dw_off dw_data].
  assert (file_write 0 d [] = d) as ->.
  { unfold file_write. cbn [length app]. rewrite splice_all; [done|]. rewrite len_zeros; lia. }
  apply file_write_inside; lia.
Qed.

Section Finish.
Context (nf : bool) (U : Prop) (s : sys) (path password : list byte) (size : Z) (temp : list byte).
Context (Htemp : s_names s !! temp = None) (Hpt : path ≠ temp).
Context (f i : nat) (B : sys) (Hf : s_streams B !! f = None) (Hq : quiet s B).
Context (Hi : s_inodes s !! i = None) (Hbt : s_names B !! temp = Some i).
Context (Hdir : nf = true → is_dir B path = false) (Hsize : PADLOCK_MIN_SIZE ≤ size < 2 ^ 63).

(** The complete file gets its name. *)
Lemma wp_rename_done x W e key R :
  replay [] W = x → len x = size → represents (Some password) x [] → len key = 64 →
  wp nf U (r ← rename temp path;
           if negb (r =? 0) then allocate_done None None temp key (-1)
           else allocate_done None None temp key 0)
    (allocate_post nf s path password size) (set_errno_s e (disk i 0x180 [] W (leaves R B))).
Proof.
  intros Hx Hlx Hrep Hk.
  assert (quiet s (disk i 0x180 [] W (leaves R B))) as Hq'.
  { apply quiet_disk; [|done]. eapply quiet_trans; [done|]. by apply quiet_same. }
  apply wp_bind, wp_fallible.
  { intros Hnf e'. cbn [negb Z.eqb]. apply wp_fail_closed; [done..|].
    eapply quiet_trans; [done|]. by apply quiet_same. }
  apply wp_bind, wp_get_sys. set (s1 := set_errno_s e (disk i 0x180 [] W (leaves R B))) in *.
  assert (s_names s1 !! temp = Some i) as -> by done.
  destruct (is_dir s1 path) eqn:Ed.
  { destruct nf eqn:Hnf.
    - exfalso. specialize (Hdir eq_refl). apply (is_dir_disk (leaves R B) i 0x180 [] W path) in Ed.
      change (is_dir B path = true) in Ed. congruence.
    - apply wp_fail_with. cbn [negb Z.eqb]. apply wp_fail_closed; [done..|].
      eapply quiet_trans; [done|]. by apply quiet_same. }
  apply wp_bind, wp_modify, wp_ret. cbn [negb Z.eqb].
  apply wp_bind, wp_ret, wp_bind, wp_ret, wp_bind. cbn [Z.eqb negb andb]. apply wp_ret.
  apply wp_bind, wp_wipe_and_leave; [done|]. apply wp_ret. left.
  destruct Hq' as (E1 & E2 & E3 & K). split_and!; [done..| |].
  - intros p j m d Hp Hpj Hj. destruct (K p j m d (λ H, H) Hpj Hj) as [Hp' Hj']. split; [|done].
    cbn. rewrite lookup_insert_ne by done. rewrite lookup_delete_ne by congruence. done.
  - exists i, x. cbn. rewrite !lookup_insert_eq, Hx. done.
Qed.

Lemma quiet_leaves R : quiet s (leaves R B).
Proof. eapply quiet_trans; [exact Hq|]. by apply quiet_same. Qed.

Lemma wp_allocate_finish d st e key h R :
  len d = size → d ≠ [] → st_ino st = i → st_writable st = true → pend st = [DiskWrite i 0 d] →
  header_typed h → total_size h = size → write_offset h = PADLOCK_HEADER_SIZE →
  encrypted_secret_size h = 80 → unseal (Some password) h = Some key → len key = 64 →
  wp nf U (allocate_finish f path temp key h) (allocate_post nf s path password size)
    (ws f i 0x180 [] (leaves R B) st [] e).
Proof.
  intros Hd Hd0 Hino Hw Hpend Hh Htot Hoff Hsec Hun Hk.
  assert (∀ st' W' e', st_ino st' = i → nf = false →
    wp nf U (allocate_done (Some f) None temp key (-1)) (allocate_post nf s path password size)
      (ws f i 0x180 [] (leaves R B) st' W' e')) as Hfail.
  { intros. apply wp_fail_open; done || apply quiet_leaves. }
  pose proof (header_image_len h Hh) as Hl.
  assert (len (header_image h) ≤ len d) as Hle.
  { rewrite Hl. unfold PADLOCK_MIN_SIZE, PADLOCK_HEADER_SIZE in *. lia. }
  assert (len (splice 0 (header_image h) d) = size) as Hls by (rewrite len_splice; lia).
  assert (represents (Some password) (splice 0 (header_image h) d) []) as Hrep.
  { apply (fresh_store _ h key); try done; lia. }
  apply wp_bind, wp_ws_write_header; [done|done|done|..]; rewrite ?Hpend.
  { intros Hnf e' st' W' Hi' _. cbn [negb Z.eqb]. by apply Hfail. }
  intros e' st' Hi' Hp'. cbn [negb Z.eqb app].
  apply wp_bind, wp_ws_fflush; [done|..].
  { intros Hnf e2 st2 W2 Hi2. cbn [negb Z.eqb]. by apply Hfail. }
  cbn [negb Z.eqb app]. rewrite Hp'. cbn [app].
  apply wp_bind, wp_bind. eapply wp_get_stream; [apply ws_stream|]. apply wp_fallible.
  { intros Hnf e2. cbn [negb Z.eqb]. apply (Hfail (at_pos st' (st_pos st') Idle) _ e2); done. }
  apply wp_ret. cbn [negb Z.eqb].
  apply wp_bind, wp_ws_fclose; [done|done| |].
  - intros Hnf r e2 W2 HW2. cbn in HW2. subst W2. rewrite app_nil_r.
    destruct (r =? 0); cbn [negb].
    + by apply (wp_rename_done (splice 0 (header_image h) d)); [apply replay_fresh|..].
    + apply wp_fail_closed; [done..|]. eapply quiet_trans; [apply (quiet_disk s (leaves R B)); [apply quiet_leaves|exact Hi]|].
      by apply quiet_same.
  - cbn [negb Z.eqb]. change (pend (at_pos st' (st_pos st') Idle)) with (@nil diskwrite). rewrite app_nil_r.
    by apply (wp_rename_done (splice 0 (header_image h) d)); [apply replay_fresh|..].
Qed.

Lemma wp_allocate_header d st e key0 R :
  len d = size → st_ino st = i → st_writable st = true → pend st = [DiskWrite i 0 d] → len key0 = 64 →
  (nf = true → ∀ sa, len sa = PADLOCK_SALT_SIZE → is_Some (header_key (Some password) sa)) →
  wp nf U (allocate_header f path temp password key0 size) (allocate_post nf s path password size)
    (ws f i 0x180 [] (leaves R B) st [] e).
Proof.
  intros Hd Hino Hw Hpend Hk0 Hkdf.
  assert (∀ R' e' k, len k = 64 → nf = false →
    wp nf U (allocate_done (Some f) None temp k (-1)) (allocate_post nf s path password size)
      (ws f i 0x180 [] (leaves R' B) st [] e')) as Hfail.
  { intros. apply wp_fail_open; done || apply quiet_leaves. }
  assert (0 ≤ size < 2 ^ 64) as Hs by (unfold PADLOCK_MIN_SIZE in *; lia).
  apply wp_bind, wp_RAND_bytes; [done|intros; by apply (Hfail R)|]. intros sa Hsa.
  apply wp_bind, wp_RAND_bytes; [done|intros; by apply (Hfail R)|]. intros iv0 Hiv.
  apply wp_bind, wp_RAND_bytes; [done|intros; by apply (Hfail R)|]. intros k Hk.
  set (h := Header size PADLOCK_HEADER_SIZE sa iv0 (zeros 128) 0).
  assert (header_typed h) as Hh by (split_and!; cbn; done || lia).
  apply wp_bind, wp_encrypt_secret; [done|done| |].
  - intros Hno e' h'. cbn [negb Z.eqb].
    change (set_errno_s e' (leaves ?l (ws f i ?m ?x (leaves R B) st [] e)))
      with (ws f i m x (leaves l (leaves R B)) st [] e'). rewrite leaves_leaves. apply Hfail; [done|].
    destruct nf; [|done]. destruct Hno as [|Hno]; [done|]. destruct (Hkdf eq_refl sa Hsa) as [? Hx]. change (salt h) with sa in Hno. congruence.
  - intros enc Henc Hun. cbn [negb Z.eqb].
    change (leaves ?l (ws f i ?m ?x (leaves R B) st [] e))
      with (ws f i m x (leaves l (leaves R B)) st [] e). rewrite leaves_leaves.
    apply (wp_allocate_finish d); try done.
    intros ->. unfold PADLOCK_MIN_SIZE in *. cbn in Hd. lia.
Qed.
End Finish.

(** *** The parent directory *)

(** The directory before the last slash exists, or can be made. *)
Definition parent_ready (s : sys) (path : list byte) : Prop :=
  match strrchr_slash path with
  | None => True
  | Some k => let d := take k path in
      d ≠ [] ∧ (is_dir s d = true ∨ (s_names s !! d = None ∧ parent_ok s d = true))
  end.

(** What holds once the parent directory is there. *)
Record prepared (nf : bool) (path : list byte) (s s1 : sys) : Prop := {
  pr_quiet : quiet s s1;
  pr_names : ∀ p, (length path ≤ length p)%nat → s_names s1 !! p = s_names s !! p;
  pr_dir : is_dir s1 path = is_dir s path;
  pr_parent : nf = true → parent_ready s path → parent_ok s1 path = true;
  pr_inodes : ∀ i, s_inodes s1 !! i = None → s_inodes s !! i = None
}.

Lemma prepared_errno nf path s s1 e : prepared nf path s s1 → prepared nf path s (set_errno_s e s1).
Proof.
  intros [Hq ? ? ? ?]. by split.
Qed.

Lemma prepared_mode nf path s s1 j m : prepared nf path s s1 → prepared nf path s (set_mode j m s1).
Proof.
  intros [Hq Hn Hd Hp Hi]. split.
  - by apply quiet_mode.
  - unfold set_mode. by case_match.
  - by rewrite is_dir_set_mode.
  - intros Hnf Hr. specialize (Hp Hnf Hr). unfold parent_ok in *.
    case_match; [|done]. case_match; [done|]. by rewrite is_dir_set_mode.
  - intros i H. apply Hi. unfold set_mode in H. destruct (s_inodes s1 !! j) as [n|] eqn:Hj; [|done].
    cbn [s_inodes set_inodes] in H. by apply lookup_insert_None in H as [? _].
Qed.

Lemma prepared_refl nf path s :
  (nf = true → parent_ready s path → parent_ok s path = true) → prepared nf path s s.
Proof. intros. split; done || apply quiet_refl. Qed.

Lemma prepared_mkdir nf path s k m :
  names_ok s → strrchr_slash path = Some k → s_names s !! take k path = None →
  prepared nf path s (add_name (take k path) (new_inode s) (Inode true m []) s).
Proof.
  intros Hok Hk Hn. pose proof (strrchr_slash_lt _ _ Hk) as Hlt. pose proof (new_inode_fresh s) as Hfr.
  assert (∀ p, (length path ≤ length p)%nat → p ≠ take k path) as Hne.
  { intros p Hp ->. rewrite length_take in Hp. lia. }
  split.
  - apply quiet_add; [apply quiet_refl|done..].
  - intros p Hp. cbn [s_names add_name set_names]. by rewrite lookup_insert_ne by (symmetry; by apply Hne).
  - apply is_dir_add; [|by apply Hne]. intros Hp. apply Hok in Hp as [? ?]. congruence.
  - intros _ _. unfold parent_ok. rewrite Hk. destruct k; [done|]. unfold is_dir, add_name.
    cbn [s_names s_inodes set_inodes set_names]. by rewrite !lookup_insert_eq.
  - intros i H. cbn [s_inodes add_name set_names set_inodes] in H. by apply lookup_insert_None in H as [? _].
Qed.

Lemma wp_ensure_parent nf U s path Q :
  names_ok s →
  (nf = false ∨ ¬ (len path < PATH_MAX ∧ parent_ready s path) → ∀ e, Q (-1) (set_errno_s e s)) →
  (∀ s1, prepared nf path s s1 → Q 0 s1) →
  wp nf U (ensure_parent_directory path) Q s.
Proof.
  intros Hok HF HQ. unfold ensure_parent_directory. rewrite Z.geb_leb.
  destruct (Z.leb_spec PATH_MAX (len path)) as [Hlen|Hlen].
  { apply wp_ret. rewrite <- (set_errno_id s). apply HF. right. lia. }
  unfold parent_ready in HF. destruct (strrchr_slash path) as [k|] eqn:Hk.
  2: { apply wp_ret, HQ, prepared_refl. unfold parent_ok. by rewrite Hk. }
  assert (∀ s1, prepared nf path s s1 → wp nf U (chmod (take k path) 0x1c0;; mret 0) Q s1) as Hch.
  { intros s1 Hp. apply wp_bind, wp_fallible.
    - intros _ e. apply wp_ret, HQ. by apply prepared_errno.
    - apply wp_bind, wp_get_sys. destruct (s_names s1 !! take k path).
      + apply wp_bind, wp_modify, wp_ret, wp_ret, HQ. by apply prepared_mode.
      + apply wp_fail_with, wp_ret, HQ. by apply prepared_errno. }
  assert (∀ e, e ≠ EEXIST → (nf = false ∨ ¬ (take k path ≠ [] ∧
      (is_dir s (take k path) = true ∨ (s_names s !! take k path = None ∧ parent_ok s (take k path) = true)))) →
    wp nf U (e ← get_errno; if (-1 =? 0) || (e =? EEXIST) then chmod (take k path) 0x1c0;; mret 0 else mret (-1))
      Q (set_errno_s e s)) as Hbad.
  { intros e He Hno. apply wp_bind, wp_get_errno. cbn [s_errno set_errno_s].
    rewrite (proj2 (Z.eqb_neq e _)) by done. apply wp_ret, HF. tauto. }
  apply wp_bind, wp_fallible.
  { intros Hnf e. destruct (decide (e = EEXIST)) as [->|]; [|apply Hbad; by auto].
    apply wp_bind, wp_get_errno. apply Hch, prepared_errno, prepared_refl. congruence. }
  apply wp_bind, wp_get_sys. case_bool_decide as Hd.
  { apply wp_fail_with, Hbad; [done|right; tauto]. }
  case_bool_decide as Hex.
  { apply wp_fail_with, wp_bind, wp_get_errno. apply Hch, prepared_errno, prepared_refl.
    intros _. unfold parent_ready, parent_ok. rewrite Hk. intros [_ [Hdir|[Hnone _]]]; [by destruct k|].
    rewrite Hnone in Hex. by destruct Hex. }
  destruct (parent_ok s (take k path)) eqn:Hpo; cbn [negb].
  2: { apply wp_fail_with, Hbad; [done|]. right. intros [_ [Hdir|[_ ?]]]; [|done].
       unfold is_dir in Hdir. case_match; [|done]. by destruct Hex. }
  apply wp_bind, wp_modify, wp_ret, wp_bind, wp_get_errno. cbn [Z.eqb orb].
  apply Hch, prepared_mkdir; [done..|]. by apply eq_None_not_Some.
Qed.

(** *** The temporary file *)

Lemma tmp_letter_slash b : tmp_letter b ≠ SLASH.
Proof.
  unfold tmp_letter. pose proof (Z.mod_pos_bound (bval b) 62 ltac:(lia)).
  intros H'. apply (f_equal bval) in H'. rewrite bval_zbyte_small in H'.
  - change (bval SLASH) with 47 in H'. repeat case_match; lia.
  - repeat case_match; lia.
Qed.

(** The names the template stands for. *)
Definition temp_name (path suffix : list byte) : list byte := path ++ bstr ".tmp." ++ suffix.

Lemma wp_mkstemp nf U path Q s :
  (∀ e, (nf = true → parent_ok s path = true →
           (∀ suf, length suf = 6%nat → s_names s !! temp_name path suf = None) → False) →
     Q None (set_errno_s e s)) →
  (∀ fd i suf, let name := temp_name path suf in
     s_fds s !! fd = None → s_inodes s !! i = None → s_names s !! name = None → length suf = 6%nat →
     Q (Some (fd, name)) (add_fd fd (FdFile i) (add_name name i (Inode false 0x180 []) s))) →
  wp nf U (mkstemp (path ++ TMP_SUFFIX)) Q s.
Proof.
  intros HF HQ. apply wp_fallible; [intros ->; intros; by apply HF|].
  assert (length (path ++ TMP_SUFFIX) - 6 = length (path ++ bstr ".tmp."))%nat as El
    by (rewrite !length_app; cbn; lia).
  assert (path ++ TMP_SUFFIX = (path ++ bstr ".tmp.") ++ replicate 6 Byte.x58) as Et
    by by rewrite <- app_assoc.
  rewrite El, Et, drop_app_length, take_app_length. rewrite bool_decide_eq_true_2 by done. cbn [negb].
  apply wp_bind, wp_draw; [|done]. intros suf0 _ Hsuf. apply wp_bind, wp_get_sys.
  rewrite <- app_assoc. set (suf := tmp_letter <$> suf0).
  assert (length suf = 6%nat) as Hls by (unfold suf; rewrite length_fmap; lia).
  fold (temp_name path suf). case_bool_decide as Hex.
  { apply wp_fail_with, HF. intros _ _ Hno. rewrite Hno in Hex by done. by destruct Hex. }
  assert (SLASH ∉ bstr ".tmp." ++ suf) as Hsl.
  { rewrite elem_of_app. intros [Hin|Hin].
    - change (bstr ".tmp.") with [Byte.x2e; Byte.x74; Byte.x6d; Byte.x70; Byte.x2e] in Hin. set_solver.
    - unfold suf in Hin. apply list_elem_of_fmap in Hin as (b & Hb & _). by apply (tmp_letter_slash b). }
  unfold temp_name at 1. rewrite parent_ok_app by done.
  destruct (parent_ok s path) eqn:Hpo; cbn [negb].
  2: { apply wp_fail_with, HF. congruence. }
  apply wp_bind, wp_modify, wp_ret. apply HQ; [apply new_fd_fresh|apply new_inode_fresh| |done].
  by apply eq_None_not_Some.
Qed.

(** When nothing fails, what [padlock_allocate] needs. *)
Definition allocate_ready (s : sys) (path password : list byte) : Prop :=
  len path + 11 < PATH_MAX ∧ parent_ready s path ∧ is_dir s path = false ∧
  (∀ suf, length suf = 6%nat → s_names s !! temp_name path suf = None) ∧
  (∀ sa, len sa = PADLOCK_SALT_SIZE → is_Some (header_key (Some password) sa)).

Lemma wp_padlock_allocate nf U s path password size :
  names_ok s → PADLOCK_MIN_SIZE ≤ size < 2 ^ 63 → (nf = true → allocate_ready s path password) →
  wp nf U (padlock_allocate (Some path) size (Some password)) (allocate_post nf s path password size) s.
Proof.
  intros Hok Hsize Hready. unfold padlock_allocate. rewrite (proj2 (Z.ltb_ge _ _)) by lia.
  apply wp_bind, wp_ensure_parent; [done| |].
  { intros Hno e. cbn [negb Z.eqb]. apply wp_ret. right. split_and!; [done| |by apply quiet_same].
    destruct nf; [|done]. destruct Hno as [|Hno]; [done|]. destruct (Hready eq_refl) as (? & ? & _).
    destruct Hno. split; [lia|done]. }
  intros s1 Hprep. cbn [negb Z.eqb]. pose proof Hprep as [Hq Hnames Hdir Hpar Hino].
  assert (len (path ++ TMP_SUFFIX) = len path + 11) as Hlt by (rewrite length_app; cbn; lia).
  rewrite Z.geb_leb, Hlt. destruct (Z.leb_spec PATH_MAX (len path + 11)).
  { apply wp_ret. right. split_and!; [done| |done]. destruct nf; [|done].
    destruct (Hready eq_refl) as (? & _). lia. }
  assert (∀ suf, s_names s1 !! temp_name path suf = s_names s !! temp_name path suf) as Htn.
  { intros suf. apply Hnames. unfold temp_name. rewrite length_app. lia. }
  apply wp_bind, wp_mkstemp.
  { intros e Hno. apply wp_ret. right. split_and!; [done| |].
    - destruct nf; [|done]. destruct (Hready eq_refl) as (_ & Hpr & _ & Htmp & _). exfalso.
      apply Hno; [done|by apply Hpar|]. intros suf Hs. rewrite Htn. by apply Htmp.
    - eapply quiet_trans; [done|]. by apply quiet_same. }
  intros fd i suf name Hfd Hi Hn Hsuf. set (B := add_name name i (Inode false 0x180 []) s1).
  assert (s_names s !! name = None) as Hn' by (unfold name in *; by rewrite <- Htn).
  assert (s_inodes s !! i = None) as Hi' by by apply Hino.
  assert (quiet s B) as HqB by by apply quiet_add.
  assert (s_inodes B !! i = Some (Inode false 0x180 [])) as HiB by apply lookup_insert_eq.
  assert (∀ e, drop_fd fd (set_errno_s e (add_fd fd (FdFile i) B)) = set_errno_s e B) as Hdrop.
  { intros e. change (set_errno_s e (drop_fd fd (add_fd fd (FdFile i) B)) = set_errno_s e B).
    by rewrite drop_add_fd. }
  assert (path ≠ name) as Hpn.
  { unfold name, temp_name. intros Hp. apply (f_equal length) in Hp. rewrite !length_app in Hp. cbn in Hp. lia. }
  apply wp_bind, wp_draw; [|done]. intros key0 _ Hk0. unfold PADLOCK_XTS_KEY_SIZE in Hk0.
  assert (∀ e, nf = false → wp nf U (allocate_done None (Some fd) name key0 (-1))
     (allocate_post nf s path password size) (set_errno_s e (add_fd fd (FdFile i) B))) as Hfail.
  { intros e Hnf. eapply wp_fail_fd; [done|done|done|apply lookup_insert_eq|].
    rewrite Hdrop. eapply quiet_trans; [done|]. by apply quiet_same. }
  apply wp_bind, wp_fallible; [intros Hnf e; by apply Hfail|].
  apply wp_bind. eapply wp_get_fd; [apply lookup_insert_eq|]. apply wp_bind, wp_modify, wp_ret.
  assert (set_mode i 0x180 (add_fd fd (FdFile i) B) = add_fd fd (FdFile i) B) as ->.
  { unfold set_mode. cbn [s_inodes add_fd set_fds]. rewrite HiB. cbn [i_dir i_data].
    rewrite insert_id by done. done. }
  cbn [negb Z.eqb]. apply wp_bind, wp_bind. eapply wp_get_fd; [apply lookup_insert_eq|].
  apply wp_fallible; [intros Hnf e; by apply Hfail|].
  apply wp_bind, wp_get_sys, wp_bind, wp_modify, wp_bind, wp_modify, wp_ret.
  set (f := fresh _). assert (s_streams B !! f = None) as Hf by (apply not_elem_of_dom, is_fresh).
  clearbody f. set (st := Stream i true 0 Idle []).
  assert (upd_stream f st (drop_fd fd (add_fd fd (FdFile i) B)) = ws f i 0x180 [] B st [] (s_errno B)) as Hst.
  { unfold ws. rewrite disk_nil, drop_add_fd by done. by destruct B. }
  unfold upd_stream in Hst. rewrite Hst.
  apply wp_bind, wp_write_urandom_bytes; [done|done|unfold PADLOCK_MIN_SIZE in *; lia| |].
  { intros Hnf e' st' R Hi2 _. cbn [negb Z.eqb]. by apply wp_fail_open. }
  intros e' st' d Hd (Hw1 & Hw2 & Hw3 & Hw4 & Hw5). cbn [negb Z.eqb].
  apply (wp_allocate_header nf U s path password size name) with (d := d); try done.
  - apply lookup_insert_eq.
  - intros Hnf. destruct (Hready Hnf) as (_ & _ & Hnd & _). unfold B. rewrite is_dir_add; [congruence| |done].
    rewrite Hnames by lia. intros Hp. apply Hok in Hp as [? ?]. congruence.
  - unfold pend. rewrite Hw5, Hw4. cbn. destruct d; [cbn in Hd; unfold PADLOCK_MIN_SIZE in *; lia|].
    rewrite Hw1. cbn. do 2 f_equal. lia.
  - intros Hnf. by apply Hready.
Qed.
End Spec.
