(* ===== verification/StoreTheorems.v ===== *)
(** * The store as its callers see it

    The contracts of [padlock_set] and [padlock_get] against the abstract store (a list
    of entries, [lookup_last]), for runs without failures and for every pattern of
    failing calls; termination on any file; the length computations that overflow.
    [Demo] is a concrete store under the toy library, for the witnesses. *)

From S2P Require Import Prelude World Posix Libc Codec Openssl Header Secret Store StoreSpec StoreGet StoreSet Allocate AllocateSpec.
Import LittleEndianList.

(** A regular file with bytes [x] under a name. *)
Definition file_at (s : sys) (path x : list byte) : Prop :=
  ∃ i m, s_names s !! path = Some i ∧ s_inodes s !! i = Some (Inode false m x).

(** The value a successful [padlock_get] hands out. *)
Definition got (res : Z * option buf * Z) : option (list byte) :=
  match res with
  | (0, Some b, n) => Some (take (Z.to_nat n) (b_data b))
  | _ => None
  end.

Module Demo.
#[local] Existing Instance Toy.toy.
#[local] Existing Instance Toy.toy_laws.

Definition path : list byte := bstr "s.plk".
Definition password : list byte := bstr "pw".
Definition store_key : list byte := zbyte <$> seqZ 0 64.

Definition blank_header : padlock_header :=
  Header 8192 PADLOCK_HEADER_SIZE (zeros 16) (zeros 16) (zeros 128) 0.

Definition header : padlock_header :=
  match header_key (Some password) (zeros 16) with
  | Some k =>
      match cbc Encrypt k (zeros 16) (PADLOCK_SECRET_MAGIC ++ store_key) with
      | Some c => sealed_header blank_header (splice 0 c (zeros 128))
      | None => blank_header
      end
  | None => blank_header
  end.

Definition file : list byte := splice 0 (header_image header) (zeros 8192).

Definition world : sys :=
  Sys {[path := 0%nat]} {[0%nat := Inode false 0x180 file]} ∅ ∅ ∅ [] [] 0 ∅ no_io.

Lemma file_represents : represents (Some password) file [].
Proof.
  apply (fresh_store _ header store_key); try (vm_compute; done).
  all: rewrite ?len_zeros by lia; unfold header_typed, PADLOCK_MIN_SIZE; split_and?; done.
Qed.

Lemma file_rep : store_rep (Some password) file header store_key [] [].
Proof.
  destruct file_represents as (h & k & c & H).
  assert (decode_header (sub 0 PADLOCK_HEADER_SIZE file) = Some (Some header)) as Ed by (vm_compute; reflexivity).
  assert (unseal (Some password) header = Some store_key) as Eu by (vm_compute; reflexivity).
  destruct (store_rep_decode _ _ _ _ _ _ H) as [_ Hd]. rewrite Ed in Hd. apply (inj Some), (inj Some) in Hd as <-.
  pose proof (sr_unseal _ _ _ _ _ _ H) as Hu. rewrite Eu in Hu. apply (inj Some) in Hu as <-.
  pose proof (sr_encodes _ _ _ _ _ _ H) as He. cbn in He. by subst c.
Qed.

Definition key : list byte := bstr "k".
Definition value : list byte := bstr "v".

Lemma entry_fits : entry_ok (c_str key) (sub 0 1 value).
Proof. split; [done|]. split; [|vm_compute; discriminate]. apply c_str_no_nul. Qed.

Lemma room : has_room (Some password) file (c_str key) (sub 0 1 value).
Proof.
  intros h k Hd Hu.
  assert (decode_header (sub 0 PADLOCK_HEADER_SIZE file) = Some (Some header)) as Ed by (vm_compute; reflexivity).
  rewrite Ed in Hd. apply (inj Some), (inj Some) in Hd as <-.
  rewrite (sr_unseal _ _ _ _ _ _ file_rep) in Hu. apply (inj Some) in Hu as <-.
  split; [vm_compute; discriminate|]. eexists. vm_compute. reflexivity.
Qed.

Lemma world_file : file_at world path file.
Proof. by exists 0%nat, 0x180. Qed.
End Demo.

(** ** Shared lemmas *)

Section Lemmas.
Context {OSSL : Openssl} {Laws : OpensslLaws OSSL}.

(** Files, streams and descriptors are as before. *)
Definition same_files (s s' : sys) : Prop :=
  s_names s' = s_names s ∧ s_inodes s' = s_inodes s ∧ s_streams s' = s_streams s ∧
  s_fds s' = s_fds s ∧ s_log s' = s_log s.

Lemma get_post_same nf s ref res s' : get_post nf s ref res s' → same_files s s'.
Proof. by intros (e & L & R & -> & _). Qed.

(** A name that is not a regular file cannot be opened. *)
Lemma wp_fopen_none nf U path wr Q s :
  ¬ (∃ x, file_at s path x) → (∀ e, Q None (set_errno_s e s)) → wp nf U (fopen_existing path wr) Q s.
Proof.
  intros Hno HQ. apply wp_fopen_existing; [done|]. intros i m d Hn Hi. destruct Hno. by exists d, i, m.
Qed.

Lemma wp_padlock_get_any path password key s :
  wp false True (padlock_get path password key) (λ _ _, True) s.
Proof.
  destruct path as [path|], password as [password|], key as [key|]; try by apply wp_ret.
  destruct (s_names s !! path) as [i|] eqn:Hn; [destruct (s_inodes s !! i) as [[[] m x]|] eqn:Hi|].
  2: { eapply wp_mono; [by apply (wp_padlock_get false True path password key s i m x); [..|right]|done]. }
  all: apply wp_bind, wp_draw; [|done]; intros xk0 _ Hxk0;
    apply wp_bind, wp_draw; [|done]; intros c0 _ Hc0; apply wp_bind, wp_draw; [|done]; intros b0 _ Hb0;
    apply wp_bind, wp_fopen_none; [intros (y & j & m' & ? & ?); congruence|];
    intros e; rewrite (heap_intro s); by apply wp_get_close.
Qed.

Lemma arrived_take P : ∀ W n, arrived P W → arrived P (take n W).
Proof.
  induction P as [|w P IH]; intros W n HW; cbn in HW |- *.
  - subst W. by rewrite take_nil.
  - destruct n as [|n]; [left; by left|]. destruct HW as [HW|(W' & -> & HW)].
    + left. destruct HW as [->|[k ->]]; [by left|right]. exists k. by destruct n.
    + right. exists (take n W'). auto.
Qed.

Lemma file_at_disk s path i m x W e L R :
  s_names s !! path = Some i → file_at (set_errno_s e (heap L R (disk i m x W s))) path (replay x W).
Proof. intros Hn. exists i, m. split; [done|]. apply lookup_insert_eq. Qed.

Lemma entry_key_range key v : entry_ok (c_str key) v → 1 ≤ strlen key ≤ 255.
Proof. by intros [? _]. Qed.

(** [padlock_set] on a store with room, in terms of the entries. *)
Lemma wp_set_represented nf s path password key value vl x es :
  let v := sub 0 vl value in
  file_at s path x → represents (Some password) x es → 0 ≤ vl ≤ len value →
  entry_ok (c_str key) v → has_room (Some password) x (c_str key) v →
  wp nf False (padlock_set (Some path) (Some password) (Some key) (Some value) vl)
    (λ r s', ∃ i m h xkey c c' e R W,
       s_names s !! path = Some i ∧ store_rep (Some password) x h xkey c es ∧
       xts_at true xkey (write_offset h) (record_plain (c_str key) v) = Some c' ∧
       write_offset h + record_length (c_str key) v ≤ total_size h ∧
       s' = set_errno_s e (heap (s_live s) R (disk i m x W s)) ∧
       arrived (set_writes i h c') W ∧
       (r = 0 ∧ take 1 W = take 1 (set_writes i h c') ∨ r = -1 ∧ nf = false) ∧
       (nf = true → W = set_writes i h c')) s.
Proof.
  intros v (i & m & Hn & Hi) (h & xkey & c & Hrep) Hvl Hok Hroom.
  destruct (set_plan_represents password x h xkey c es key v Hrep Hok Hroom)
    as (c' & Hplan & Hc & Hlc & Hfit & Hsafe).
  assert (len v = vl) as Hlv by (apply len_sub; lia).
  assert (vl < 2 ^ 32) as Hv32 by (destruct Hok as (? & _ & ?); lia).
  eapply wp_mono; [apply (wp_padlock_set nf False path password key value vl s i m x);
    [done|done|by eapply entry_key_range|lia|lia|by left]|].
  intros r s' (e & ns & co & ms & W & -> & Hpost). fold v in Hpost. rewrite Hplan in Hpost.
  destruct Hpost as (Harr & Hr & Hnf).
  eexists i, m, h, xkey, c, c', e, _, W. split_and!; try done. intros H. by apply Hnf.
Qed.

Lemma replay_set_writes password i h xkey c es k v c' x :
  store_rep (Some password) x h xkey c es → entry_ok k v →
  xts_at true xkey (write_offset h) (record_plain k v) = Some c' →
  write_offset h + record_length k v ≤ total_size h →
  len (replay x (set_writes i h c')) = len x ∧
  ∃ h' c2, store_rep (Some password) (replay x (set_writes i h c')) h' xkey c2 (es ++ [(k, v)]) ∧
    total_size h' = total_size h ∧ write_offset h' = write_offset h + record_length k v.
Proof.
  intros Hrep Hok Hc Hfit.
  pose proof (store_rep_snoc _ _ _ _ _ _ _ _ _ Hrep Hok Hc Hfit) as Hnew. cbv zeta in Hnew.
  destruct (record_length_spec k v Hok) as (_ & Hrl & _ & Hlp).
  pose proof (xts_at_len _ _ _ _ _ Hc) as Hlc. rewrite Hlp in Hlc.
  destruct Hrep as [Ht (_ & Hv & _) _ Hsz _ _ _ _ _ _ _]. unfold PADLOCK_HEADER_SIZE in Hv.
  assert (len (splice (write_offset h) c' x) = len x) as Hl1 by (apply len_splice; lia).
  assert (header_typed (with_offset h (write_offset h + len c'))) as Ht'.
  { apply with_offset_typed; [done|]. destruct Ht as ((_ & ?) & _). lia. }
  pose proof (header_image_len _ Ht') as Hl'. unfold PADLOCK_HEADER_SIZE in Hl'.
  unfold set_writes. cbn [replay foldl dw_off dw_data]. rewrite (file_write_inside (write_offset h)) by lia. rewrite file_write_inside by lia.
  split; [rewrite len_splice; lia|]. eexists _, _. split; [exact Hnew|]. split; [done|].
  cbn [write_offset with_offset]. lia.
Qed.
End Lemmas.

(** ** Looking up *)

Section GetTheorems.
Context {OSSL : Openssl} {Laws : OpensslLaws OSSL}.

(** C2: when no call fails, [padlock_get] on a store returns the value of the last
    entry with the key, with a terminating zero, in a block of its own, or -1
    when there is none; nothing else changes but [errno] and the residue. *)
Theorem get_returns_last s path password key x es :
  file_at s path x → represents (Some password) x es →
  returns (padlock_get (Some path) (Some password) (Some key)) s (λ res s',
    same_files s s' ∧
    match lookup_last (c_str key) es with
    | Some v => ∃ b, res = (0, Some b, len v) ∧ b_data b = v ++ [Byte.x00] ∧
                  (b_id b ∉ s_live s) ∧ s_live s' = {[b_id b]} ∪ s_live s
    | None => res = (-1, None, 0) ∧ s_live s' = s_live s
    end).
Proof.
  intros (i & m & Hn & Hi) Hrep. destruct (get_ref_represents password key x es Hrep) as [Href Hsafe].
  eapply wp_mono; [by apply (wp_padlock_get true False path password key s i m x); [..|left]|].
  intros res s' Hpost. split; [by eapply get_post_same|]. destruct Hpost as (e & L & R & -> & Hpost).
  rewrite Href in Hpost. destruct Hpost as [(b & v & -> & Hl & Hb & Hf & ->)|(-> & Hl & _ & HL)].
  - rewrite Hl. by exists b.
  - rewrite (Hl eq_refl), (HL eq_refl). done.
Qed.

(** C4: whatever fails (reads, seeks, allocations, library calls), [padlock_get] never
    hands out a wrong value, has no undefined behaviour, ends, and leaves every
    file as it was. *)
Theorem get_never_wrong s path password key x es :
  file_at s path x → represents (Some password) x es →
  always (padlock_get (Some path) (Some password) (Some key)) s (λ res s',
    same_files s s' ∧
    (res = (-1, None, 0) ∨
     ∃ b v, lookup_last (c_str key) es = Some v ∧ res = (0, Some b, len v) ∧ b_data b = v ++ [Byte.x00])).
Proof.
  intros (i & m & Hn & Hi) Hrep. destruct (get_ref_represents password key x es Hrep) as [Href Hsafe].
  eapply wp_mono; [by apply (wp_padlock_get false False path password key s i m x); [..|left]|].
  intros res s' Hpost. split; [by eapply get_post_same|]. destruct Hpost as (e & L & R & -> & Hpost).
  rewrite Href in Hpost. destruct Hpost as [(b & v & -> & Hl & Hb & _)|(-> & _)]; [|by left].
  right. by exists b, v.
Qed.


(** C5: [padlock_get] ends on every file, whatever bytes it holds and whatever fails:
    each round of its loop moves on by at least 16 bytes. *)
Theorem get_terminates path password key s c : padlock_get path password key s c ≠ Diverge.
Proof.
  pose proof (wp_padlock_get_any path password key s c ltac:(done)) as H.
  intros E. by rewrite E in H.
Qed.
End GetTheorems.

(** ** Setting *)

Section SetTheorems.
Context {OSSL : Openssl} {Laws : OpensslLaws OSSL}.

(** C1: when no call fails and there is room, [padlock_set] returns 0 and the file then
    represents the old entries followed by the new one; its size is unchanged,
    and nothing stays allocated or open. *)
Theorem set_appends s path password key value vl x es :
  let v := sub 0 vl value in
  file_at s path x → represents (Some password) x es → 0 ≤ vl ≤ len value →
  entry_ok (c_str key) v → has_room (Some password) x (c_str key) v →
  returns (padlock_set (Some path) (Some password) (Some key) (Some value) vl) s (λ r s',
    r = 0 ∧ s_live s' = s_live s ∧ s_streams s' = s_streams s ∧ s_names s' = s_names s ∧
    ∃ x', file_at s' path x' ∧ len x' = len x ∧ represents (Some password) x' (es ++ [(c_str key, v)])).
Proof.
  intros v Hfile Hrep Hvl Hok Hroom. eapply wp_mono; [by apply wp_set_represented|].
  intros r s' (i & m & h & xkey & c & c' & e & R & W & Hn & Hr & Hc & Hfit & -> & _ & Hres & HW).
  rewrite (HW eq_refl). destruct (replay_set_writes _ i _ _ _ _ _ _ _ _ Hr Hok Hc Hfit)
    as (Hl & h' & c2 & Hrep' & _).
  destruct Hres as [[-> _]|[_ ?]]; [|done]. split_and!; [done..|].
  exists (replay x (set_writes i h c')). split_and!; [by apply file_at_disk|done|by eexists _, _, _].
Qed.

(** C3: whatever fails, and wherever the program is cut off between two writes, the file
    still represents the old entries or those with the new one, unless the
    write of the header ended inside its 8 bytes of write offset.  0 is returned only
    if the whole record is in the file. *)
Theorem set_crash_consistent s path password key value vl x es :
  let v := sub 0 vl value in
  file_at s path x → represents (Some password) x es → 0 ≤ vl ≤ len value →
  entry_ok (c_str key) v → has_room (Some password) x (c_str key) v →
  always (padlock_set (Some path) (Some password) (Some key) (Some value) vl) s (λ r s',
    ∃ W, s_log s' = s_log s ++ W ∧ file_at s' path (replay x W) ∧
      (r = 0 → ∃ w, head W = Some w ∧ len (dw_data w) = record_length (c_str key) v) ∧
      ∀ n, (∀ w, last (take n W) = Some w → dw_off w = 0 → len (dw_data w) ≤ 32 ∨ 40 ≤ len (dw_data w)) →
        represents (Some password) (replay x (take n W)) es ∨
        represents (Some password) (replay x (take n W)) (es ++ [(c_str key, v)])).
Proof.
  intros v Hfile Hrep Hvl Hok Hroom. eapply wp_mono; [by apply wp_set_represented|].
  intros r s' (i & m & h & xkey & c & c' & e & R & W & Hn & Hr & Hc & Hfit & -> & Harr & Hres & _).
  exists W. split_and!; [done|by apply file_at_disk| |].
  - intros ->. destruct Hres as [[_ HW]|[? _]]; [|done]. destruct W as [|w W]; [done|].
    cbn in HW. simplify_eq. eexists. split; [done|]. cbn [dw_data]. rewrite (xts_at_len _ _ _ _ _ Hc).
    by apply record_length_spec.
  - intros n Htear. eapply arrived_represents; try done. by apply arrived_take.
Qed.

(** C11: a record that does not fit between the write offset and the end of the store
    is refused: -1, and no byte of the file changes, whatever fails besides. *)
Theorem set_refuses_full s path password key value vl x h es :
  let v := sub 0 vl value in
  file_at s path x → represents (Some password) x es → 0 ≤ vl ≤ len value → entry_ok (c_str key) v →
  decode_header (sub 0 PADLOCK_HEADER_SIZE x) = Some (Some h) →
  total_size h < write_offset h + record_length (c_str key) v →
  always (padlock_set (Some path) (Some password) (Some key) (Some value) vl) s (λ r s',
    r = -1 ∧ s_log s' = s_log s ∧ file_at s' path x).
Proof.
  intros v (i & m & Hn & Hi) (h' & xkey & c & Hrep) Hvl Hok Hd Hfull.
  destruct (store_rep_decode _ _ _ _ _ _ Hrep) as [Hlx Hd']. rewrite Hd in Hd'.
  apply (inj Some), (inj Some) in Hd' as <-.
  destruct Hrep as [Ht Hval Hss Hsz Hb Hh Hu Hk Ho Hr He]. pose proof Hval as (_ & Hval' & _).
  unfold PADLOCK_HEADER_SIZE in Hval'. destruct (record_length_spec _ v Hok) as (_ & Hrl & _ & _).
  assert (len v = vl) as Hlv by (apply len_sub; lia).
  assert (vl < 2 ^ 32) as Hv32 by (destruct Hok as (? & _ & ?); lia).
  assert (set_plan password key v x = None) as Hplan.
  { rewrite (set_plan_decoded _ _ _ _ (Some h)) by done. cbn [mbind option_bind]. rewrite Hu.
    cbn [mbind option_bind]. rewrite u64_small by lia.
    rewrite Z.gtb_ltb, (proj2 (Z.ltb_lt (total_size h) _)), orb_true_r by lia. done. }
  eapply wp_mono; [apply (wp_padlock_set false False path password key value vl s i m x);
    [done|done|by eapply entry_key_range|lia|lia|left]|].
  - split; [apply Hok|]. intros h2 _ Hd2. rewrite Hd in Hd2. apply (inj Some), (inj Some) in Hd2 as <-. lia.
  - intros r s' (e & ns & co & ms & W & -> & Hpost). fold v in Hpost. rewrite Hplan in Hpost.
    destruct Hpost as [-> ->]. split_and!; [done|cbn; by rewrite app_nil_r|].
    by apply (file_at_disk s path i m x []).
Qed.

End SetTheorems.

(** ** Lengths that overflow *)

Section Overflow.
Context {OSSL : Openssl} {Laws : OpensslLaws OSSL}.

(** C7: [align16] masks with a 32-bit constant, so a value whose record is longer than
    [2^32] bytes passes the size check with a small padded length, and
    [padlock_set] then writes past the end of its record buffer: every run without
    failures on a store with that little room is undefined. *)
Theorem set_overflows s path password key value vl x h xkey c es :
  file_at s path x → store_rep (Some password) x h xkey c es →
  1 ≤ strlen key ≤ 255 → 0 ≤ vl < 2 ^ 32 → vl ≤ len value →
  2 ^ 32 < 5 + strlen key + vl → write_offset h + 512 ≤ total_size h →
  ∀ ctl, c_faults ctl = [] →
  padlock_set (Some path) (Some password) (Some key) (Some value) vl s ctl = Undef.
Proof.
  intros (i & m & Hn & Hi) Hrep Hk Hvl Hval Hbig Hroom ctl Hctl.
  destruct (store_rep_decode _ _ _ _ _ _ Hrep) as [Hlx Hd].
  destruct Hrep as [Ht Hv Hss Hsz Hb Hh Hu Hlk Ho Hr He].
  assert (wp true True (padlock_set (Some path) (Some password) (Some key) (Some value) vl) (λ _ _, False) s) as H.
  { unfold padlock_set. rewrite (proj2 (Z.eqb_neq _ _)), Z.gtb_ltb, (proj2 (Z.ltb_ge _ _)) by lia. cbn [orb].
    apply wp_bind, wp_draw; [|done]. intros xk0 _ _. apply wp_bind. eapply wp_fopen_found; [done..|].
    intros f Hf. apply wp_bind. set (st := Stream i true 0 Idle []).
    assert (upd_stream f st s = hs f st s (s_live s) (s_residue s) (s_errno s) 0 Idle) as -> by by destruct s.
    apply wp_bind, wp_read_header with (x := x); [done|cbn; by rewrite Hi|intros [|]; [done|lia]|].
    intros r e' _ Hr'. rewrite Hd in Hr'. apply (inj Some) in Hr' as <-.
    apply wp_bind, wp_decrypt_secret; [done|apply Hv|by right|intros [|]; [done|congruence]|].
    intros k Hk' Hlk'. rewrite Hu in Hk'. apply (inj Some) in Hk' as <-.
    cbv zeta. replace (u64 (1 + strlen key + 4 + vl)) with (5 + strlen key + vl) by (rewrite u64_small by lia; lia).
    assert (16 ≤ align16 (5 + strlen key + vl) ≤ 512) as Hal.
    { rewrite align16_wraps by lia. destruct (align16_spec (5 + strlen key + vl - 2 ^ 32)) as [? [q Hq]]; lia. }
    pose proof Ht as (Ht1 & Hwo & _). rewrite u64_small, Z.gtb_ltb by lia.
    rewrite (proj2 (Z.ltb_ge _ 16)), (proj2 (Z.ltb_ge (total_size h) _)) by lia. cbn [orb].
    apply wp_bind, wp_calloc; [done|]. intros pi Hpi. apply wp_bind, wp_malloc; [lia|done|].
    intros ci c0 Hci Hc0. apply wp_bind, wp_fill_plain; [done|lia|lia|by right|]. lia. }
  specialize (H ctl (λ _, Hctl)). destruct (padlock_set _ _ _ _ _ _ _); [by destruct H|done|done].
Qed.
End Overflow.

(** ** Sequences of operations *)

Section Sequences.
Context {OSSL : Openssl} {Laws : OpensslLaws OSSL}.
Implicit Types (k v : list byte).

(** What a client does with a store. *)
Inductive op :=
  | OpSet (k v : list byte)
  | OpGet (k : list byte).

Definition run_op (path password : list byte) (o : op) : M (Z * option (list byte)) :=
  match o with
  | OpSet k v =>
      r ← padlock_set (Some path) (Some password) (Some k) (Some v) (len v);
      mret (r, None)
  | OpGet k =>
      '(r, b, n) ← padlock_get (Some path) (Some password) (Some k);
      padlock_free b;;
      mret (r, got (r, b, n))
  end.

Fixpoint run_ops (path password : list byte) (os : list op) : M (list (Z * option (list byte))) :=
  match os with
  | [] => mret []
  | o :: os => r ← run_op path password o; rs ← run_ops path password os; mret (r :: rs)
  end.

(** The abstract store. *)
Definition abs_op (es : list entry) (o : op) : list entry * (Z * option (list byte)) :=
  match o with
  | OpSet k v => (es ++ [(k, v)], (0, None))
  | OpGet k =>
      (es, match lookup_last k es with Some v => (0, Some v) | None => (-1, None) end)
  end.

Fixpoint abs_ops (es : list entry) (os : list op) : list entry * list (Z * option (list byte)) :=
  match os with
  | [] => (es, [])
  | o :: os => let '(es, r) := abs_op es o in let '(es, rs) := abs_ops es os in (es, r :: rs)
  end.

Definition op_ok (o : op) : Prop :=
  match o with
  | OpSet k v => entry_ok k v ∧ record_length k v ≤ xts_max
  | OpGet k => no_nul k
  end.

Definition op_size (o : op) : Z := match o with OpSet k v => record_length k v | OpGet _ => 0 end.

Fixpoint ops_size (os : list op) : Z := match os with [] => 0 | o :: os => op_size o + ops_size os end.

Lemma ops_size_nonneg os : 0 ≤ ops_size os.
Proof.
  induction os as [|o os IH]; cbn; [lia|]. destruct o; cbn; [|lia].
  pose proof (align16_range (5 + len k + len v)). unfold record_length. lia.
Qed.

Lemma store_rep_inj password x h h' key key' c c' es es' :
  store_rep password x h key c es → store_rep password x h' key' c' es' → h = h' ∧ key = key'.
Proof.
  intros H1 H2. destruct (store_rep_decode _ _ _ _ _ _ H1) as [_ D1], (store_rep_decode _ _ _ _ _ _ H2) as [_ D2].
  rewrite D1 in D2. apply (inj Some), (inj Some) in D2 as <-.
  destruct H1 as [_ _ _ _ _ _ U1 _ _ _ _], H2 as [_ _ _ _ _ _ U2 _ _ _ _].
  rewrite U1 in U2. by apply (inj Some) in U2 as <-.
Qed.

Lemma tweak_len off : len (tweak_of off) = 16.
Proof. unfold tweak_of. rewrite length_app, length_le_split, Nat2Z.inj_add, len_zeros; lia. Qed.

(** Room in the store and a key the library takes are room for the record. *)
Lemma room_for password x h key c es k v :
  store_rep password x h key c es → xts_key_ok key = true → entry_ok k v → record_length k v ≤ xts_max →
  write_offset h + record_length k v ≤ total_size h → has_room password x k v.
Proof.
  intros Hrep Hkey Hok Hmax Hfit h' key' Hd Hu. pose proof (store_rep_decode _ _ _ _ _ _ Hrep) as [_ Hd'].
  rewrite Hd in Hd'. apply (inj Some), (inj Some) in Hd' as ->.
  pose proof Hrep as [_ _ _ _ _ _ Hu' Hlk _ _ _]. rewrite Hu in Hu'. apply (inj Some) in Hu' as ->.
  split; [done|]. destruct (record_length_spec k v Hok) as (_ & Hrl & _ & Hlp).
  apply xts_encrypt_ok; [done|apply tweak_len|done|lia].
Qed.

(** One operation, the store key and header tracked. *)
Lemma wp_run_op s path password x h key c es o :
  file_at s path x → store_rep (Some password) x h key c es → xts_key_ok key = true → op_ok o →
  write_offset h + op_size o ≤ total_size h →
  returns (run_op path password o) s (λ r s',
    r = (abs_op es o).2 ∧ s_live s' = s_live s ∧ s_streams s' = s_streams s ∧
    ∃ x' h' c', file_at s' path x' ∧ store_rep (Some password) x' h' key c' (abs_op es o).1 ∧
      total_size h' = total_size h ∧ write_offset h' = write_offset h + op_size o).
Proof.
  intros Hfile Hrep Hkey Hok Hfit. destruct o as [k v|k]; cbn [run_op abs_op fst snd op_size] in *; apply wp_bind.
  - destruct Hok as [Hok Hmax]. pose proof (c_str_id k ltac:(apply Hok)) as Ek.
    assert (sub 0 (len v) v = v) as Ev by by apply sub_all.
    eapply wp_mono; [apply (wp_set_represented true s path password k v (len v) x es); rewrite ?Ek, ?Ev|].
    + done.
    + by eexists _, _, _.
    + lia.
    + done.
    + by eapply room_for.
    + intros r s' (i & m & h0 & k0 & c0 & c' & e & R & W & Hn & Hr & Hc & Hf & -> & _ & Hres & HW).
      destruct (store_rep_inj _ _ _ _ _ _ _ _ _ _ Hrep Hr) as [<- <-]. rewrite Ek, Ev in *.
      rewrite (HW eq_refl). destruct (replay_set_writes _ i _ _ _ _ _ _ _ _ Hr Hok Hc Hf)
        as (_ & h' & c2 & Hrep' & Ht & Ho).
      destruct Hres as [[-> _]|[_ ?]]; [|done]. apply wp_ret. split_and!; [done..|].
      eexists _, h', c2. split; [by apply file_at_disk|done].
  - destruct Hfile as (i & m & Hn & Hi). cbn in Hok.
    destruct (get_ref_represents password k x es ltac:(by eexists _, _, _)) as [Href Hsafe].
    eapply wp_mono; [by apply (wp_padlock_get true False path password k s i m x); [..|left]|].
    intros res s' (e & L & R & -> & Hpost). rewrite Href, c_str_id in Hpost by done.
    destruct Hpost as [(b & v & -> & Hl & Hb & Hf & ->)|(-> & Hl & _ & HL)].
    + apply wp_bind, wp_free; [cbn; set_solver|]. apply wp_ret. rewrite Hl. cbn [got]. rewrite Hb.
      split_and!; [by rewrite Nat2Z.id, take_app_length| |done|].
      * cbn. apply leibniz_equiv. set_solver.
      * exists x, h, c. split_and!; [by exists i, m|done|done|lia].
    + apply wp_bind, wp_free_null, wp_ret. rewrite (Hl eq_refl), (HL eq_refl).
      split_and!; [done..|]. exists x, h, c. split_and!; [by exists i, m|done|done|lia].
Qed.

(** C6: refinement.  When no call fails, any sequence of [padlock_set] and [padlock_get]
    calls that fits the store returns exactly what the abstract store returns,
    and the file ends up representing the abstract state. *)
Theorem store_refines path password os : ∀ s x h key c es,
  file_at s path x → store_rep (Some password) x h key c es → xts_key_ok key = true → Forall op_ok os →
  write_offset h + ops_size os ≤ total_size h →
  returns (run_ops path password os) s (λ rs s',
    rs = (abs_ops es os).2 ∧ s_live s' = s_live s ∧
    ∃ x', file_at s' path x' ∧ represents (Some password) x' (abs_ops es os).1).
Proof.
  induction os as [|o os IH]; intros s x h key c es Hfile Hrep Hkey Hok Hfit; cbn [run_ops abs_ops ops_size] in *.
  - apply wp_ret. split_and!; [done..|]. exists x. split; [done|]. by eexists _, _, _.
  - apply Forall_cons in Hok as [Ho Hos]. pose proof (ops_size_nonneg os).
    destruct (abs_op es o) as [es1 r1] eqn:Eo.
    apply wp_bind. eapply wp_mono; [apply (wp_run_op s path password x h key c es o); try done; lia|].
    rewrite Eo. intros r s1 (-> & Hl1 & Hs1 & x1 & h1 & c1 & Hf1 & Hr1 & Ht1 & Ho1). cbn [fst snd] in *.
    destruct (abs_ops es1 os) as [es2 rs] eqn:Eos.
    apply wp_bind. eapply wp_mono; [apply (IH s1 x1 h1 key c1 es1); try done; lia|].
    rewrite Eos. intros rs' s2 (-> & Hl2 & Hx). apply wp_ret. split_and!; [done|congruence|done].
Qed.
End Sequences.

(** ** Witnesses *)

#[local] Existing Instance Toy.toy.
#[local] Existing Instance Toy.toy_laws.


Lemma get_returns_last_witness :
  returns (padlock_get (Some Demo.path) (Some Demo.password) (Some (bstr "k"))) Demo.world
    (λ res s', same_files Demo.world s' ∧ res = (-1, None, 0) ∧ s_live s' = s_live Demo.world).
Proof. apply (get_returns_last Demo.world _ _ _ Demo.file []); [apply Demo.world_file|apply Demo.file_represents]. Defined.

Lemma get_never_wrong_witness :
  always (padlock_get (Some Demo.path) (Some Demo.password) (Some (bstr "k"))) Demo.world
    (λ res s', same_files Demo.world s' ∧
       (res = (-1, None, 0) ∨ ∃ b v, None = Some v ∧ res = (0, Some b, len v) ∧ b_data b = v ++ [Byte.x00])).
Proof. apply (get_never_wrong Demo.world _ _ _ Demo.file []); [apply Demo.world_file|apply Demo.file_represents]. Defined.



Lemma set_appends_witness :
  returns (padlock_set (Some Demo.path) (Some Demo.password) (Some Demo.key) (Some Demo.value) 1) Demo.world
    (λ r s', r = 0 ∧ s_live s' = ∅ ∧ s_streams s' = ∅ ∧ s_names s' = s_names Demo.world ∧
       ∃ x', file_at s' Demo.path x' ∧ len x' = len Demo.file ∧
         represents (Some Demo.password) x' [(Demo.key, Demo.value)]).
Proof.
  apply (set_appends Demo.world Demo.path Demo.password Demo.key Demo.value 1 Demo.file []);
    [apply Demo.world_file|apply Demo.file_represents|done|apply Demo.entry_fits|apply Demo.room].
Defined.

Lemma set_crash_consistent_witness :
  always (padlock_set (Some Demo.path) (Some Demo.password) (Some Demo.key) (Some Demo.value) 1) Demo.world
    (λ r s', ∃ W, s_log s' = [] ++ W ∧ file_at s' Demo.path (replay Demo.file W) ∧
       (r = 0 → ∃ w, head W = Some w ∧ len (dw_data w) = 16) ∧
       ∀ n, (∀ w, last (take n W) = Some w → dw_off w = 0 → len (dw_data w) ≤ 32 ∨ 40 ≤ len (dw_data w)) →
          represents (Some Demo.password) (replay Demo.file (take n W)) [] ∨
          represents (Some Demo.password) (replay Demo.file (take n W)) [(Demo.key, Demo.value)]).
Proof.
  apply (set_crash_consistent Demo.world Demo.path Demo.password Demo.key Demo.value 1 Demo.file []);
    [apply Demo.world_file|apply Demo.file_represents|done|apply Demo.entry_fits|apply Demo.room].
Defined.

Lemma set_refuses_full_witness :
  always (padlock_set (Some Demo.path) (Some Demo.password) (Some Demo.key) (Some (zeros 5000)) 5000) Demo.world
    (λ r s', r = -1 ∧ s_log s' = [] ∧ file_at s' Demo.path Demo.file).
Proof.
  apply (set_refuses_full Demo.world Demo.path Demo.password Demo.key (zeros 5000) 5000 Demo.file Demo.header []);
    [apply Demo.world_file|apply Demo.file_represents|by vm_compute| |vm_compute; reflexivity|by vm_compute].
  split; [done|]. split; [apply c_str_no_nul|by vm_compute].
Defined.


Lemma set_overflows_witness :
  padlock_set (Some Demo.path) (Some Demo.password) (Some Demo.key) (Some (zeros (2 ^ 32 - 1))) (2 ^ 32 - 1)
    Demo.world (Ctl [] (λ _, Byte.x00) 0) = Undef.
Proof.
  apply (set_overflows Demo.world _ _ _ _ _ Demo.file Demo.header Demo.store_key [] []);
    [apply Demo.world_file|apply Demo.file_rep|done|lia|rewrite len_zeros; lia|done|done|done].
Defined.

Definition demo_ops : list op :=
  [OpSet Demo.key Demo.value; OpGet Demo.key; OpSet Demo.key (bstr "w"); OpGet Demo.key; OpGet (bstr "z")].

Lemma store_refines_witness :
  returns (run_ops Demo.path Demo.password demo_ops) Demo.world
    (λ rs s', rs = [(0, None); (0, Some Demo.value); (0, None); (0, Some (bstr "w")); (-1, None)] ∧
       s_live s' = ∅ ∧
       ∃ x', file_at s' Demo.path x' ∧
         represents (Some Demo.password) x' [(Demo.key, Demo.value); (Demo.key, bstr "w")]).
Proof.
  apply (store_refines Demo.path Demo.password demo_ops Demo.world Demo.file Demo.header Demo.store_key [] []);
    [apply Demo.world_file|apply Demo.file_rep|by vm_compute| |by vm_compute].
  repeat constructor; first [exact (c_str_no_nul Demo.key)|exact (c_str_no_nul (bstr "z"))|by vm_compute].
Defined.
