(* ===== verification/AllocateTheorems.v ===== *)
(** * Creating a store: the contract of [padlock_allocate] *)

From S2P Require Import Prelude World Posix Libc Codec Openssl Header Secret Store StoreSpec StoreGet StoreSet Allocate AllocateSpec StoreTheorems.

Section AllocateTheorems.
Context {OSSL : Openssl} {Laws : OpensslLaws OSSL}.

(** C8: when no call fails, [padlock_allocate] returns 0 and puts an empty store of the
    requested size, mode 0600, under the name; every other file is as before and
    nothing stays open or allocated. *)
Theorem allocate_creates s path password size :
  names_ok s → PADLOCK_MIN_SIZE ≤ size < 2 ^ 63 → allocate_ready s path password →
  returns (padlock_allocate (Some path) size (Some password)) s (λ r s',
    r = 0 ∧ s_live s' = s_live s ∧ s_fds s' = s_fds s ∧ s_streams s' = s_streams s ∧
    keeps_files (λ p, p = path) s s' ∧
    ∃ i x, s_names s' !! path = Some i ∧ s_inodes s' !! i = Some (Inode false 0x180 x) ∧
      len x = size ∧ represents (Some password) x []).
Proof.
  intros Hok Hsize Hready. eapply wp_mono; [by apply wp_padlock_allocate|].
  intros r s' [H|(_ & ? & _)]; [exact H|done].
Qed.

(** C9: whatever fails, [padlock_allocate] is all or nothing: it returns 0 with a complete
    empty store under the name, or -1 with every file, an older store under the
    same name included, as it was. *)
Theorem allocate_atomic s path password size :
  names_ok s → PADLOCK_MIN_SIZE ≤ size < 2 ^ 63 →
  always (padlock_allocate (Some path) size (Some password)) s (λ r s',
    s_live s' = s_live s ∧ s_fds s' = s_fds s ∧ s_streams s' = s_streams s ∧
    ((r = 0 ∧ keeps_files (λ p, p = path) s s' ∧
      ∃ x, file_at s' path x ∧ len x = size ∧ represents (Some password) x []) ∨
     (r = -1 ∧ keeps_files (λ _, False) s s'))).
Proof.
  intros Hok Hsize. eapply wp_mono; [by apply wp_padlock_allocate|].
  intros r s' [(-> & ? & ? & ? & ? & i & x & Hn & Hi & Hl & Hr)|(-> & _ & ? & ? & ? & ?)].
  - split_and!; [done..|]. left. split_and!; [done..|]. exists x. split_and!; [by exists i, 0x180|done..].
  - split_and!; [done..|]. by right.
Qed.

(** C13: a store directly under the root cannot be created: the directory part of its
    path is the empty string, [mkdir] refuses it, and the call returns -1. *)
Theorem allocate_root_refused s name password size :
  SLASH ∉ name →
  returns (padlock_allocate (Some (SLASH :: name)) size (Some password)) s (λ r s',
    r = -1 ∧ s_names s' = s_names s ∧ s_inodes s' = s_inodes s).
Proof.
  intros Hname. unfold padlock_allocate. destruct (size <? PADLOCK_MIN_SIZE); [by apply wp_ret|].
  apply wp_bind. unfold ensure_parent_directory.
  destruct (len (SLASH :: name) >=? PATH_MAX); [by apply wp_ret, wp_ret|].
  assert (strrchr_slash (SLASH :: name) = Some 0%nat) as ->.
  { change (SLASH :: name) with ([SLASH] ++ name). by rewrite strrchr_slash_app. }
  apply wp_bind, wp_fallible; [done|]. apply wp_bind, wp_get_sys. cbn [take].
  rewrite bool_decide_eq_true_2 by done. apply wp_fail_with, wp_bind, wp_get_errno.
  cbn [s_errno set_errno_s Z.eqb orb]. by apply wp_ret, wp_ret.
Qed.
End AllocateTheorems.

(** ** Witnesses *)

#[local] Existing Instance Toy.toy.
#[local] Existing Instance Toy.toy_laws.

Lemma demo_names_ok : names_ok Demo.world.
Proof.
  intros p j Hp. cbn in Hp. apply lookup_singleton_Some in Hp as [_ <-]. by eexists.
Qed.

Lemma demo_ready : allocate_ready Demo.world (bstr "t.plk") Demo.password.
Proof.
  split_and!; [done|done| | |].
  - by vm_compute.
  - intros suf Hs. cbn [s_names Demo.world]. apply lookup_singleton_ne. intros E.
    apply (f_equal length) in E. unfold temp_name in E. rewrite !length_app in E. cbn in E. lia.
  - intros sa _. by eexists.
Qed.

Lemma allocate_creates_witness :
  returns (padlock_allocate (Some (bstr "t.plk")) 8192 (Some Demo.password)) Demo.world (λ r s',
    r = 0 ∧ s_live s' = ∅ ∧ s_fds s' = ∅ ∧ s_streams s' = ∅ ∧
    keeps_files (λ p, p = bstr "t.plk") Demo.world s' ∧
    ∃ i x, s_names s' !! bstr "t.plk" = Some i ∧ s_inodes s' !! i = Some (Inode false 0x180 x) ∧
      len x = 8192 ∧ represents (Some Demo.password) x []).
Proof. apply (allocate_creates Demo.world); [apply demo_names_ok|done|apply demo_ready]. Defined.

Lemma allocate_atomic_witness :
  always (padlock_allocate (Some Demo.path) 8192 (Some Demo.password)) Demo.world (λ r s',
    s_live s' = ∅ ∧ s_fds s' = ∅ ∧ s_streams s' = ∅ ∧
    ((r = 0 ∧ keeps_files (λ p, p = Demo.path) Demo.world s' ∧
      ∃ x, file_at s' Demo.path x ∧ len x = 8192 ∧ represents (Some Demo.password) x []) ∨
     (r = -1 ∧ keeps_files (λ _, False) Demo.world s'))).
Proof. apply (allocate_atomic Demo.world); [apply demo_names_ok|done]. Defined.

Lemma allocate_root_refused_witness :
  returns (padlock_allocate (Some (SLASH :: bstr "s.plk")) 8192 (Some Demo.password)) Demo.world (λ r s',
    r = -1 ∧ s_names s' = s_names Demo.world ∧ s_inodes s' = s_inodes Demo.world).
Proof.
  apply allocate_root_refused.
  change (bstr "s.plk") with [Byte.x73; Byte.x2e; Byte.x70; Byte.x6c; Byte.x6b]. set_solver.
Defined.
