(* ===== verification/Guard.v ===== *)
(** * The kernel guard ([src/kernel/guard/hardcode_padlock_guard.c])

    The module keeps a table of 64 protected files, keyed by device and inode
    number, behind a mutex: every operation below runs with the mutex held, so
    an execution is a sequence of whole operations.  A process opens a write
    session on a protected file and closes it with the token it got; the probe
    handlers refuse writes, truncations, unlinks and renames of a protected file to
    every process but the one that holds its session.

    What the kernel provides is a parameter: [hash_min], the bucket of a hash
    key; [fs], the path lookup [kern_path] (no such path, or a dentry with or without
    an inode) at the time of the call; the caller's process id; the random words;
    whether user memory can be read and written.  [None] as the result of an
    operation is undefined behaviour: a string read past the end of its array. *)

From S2P Require Import Prelude World Libc Codec.

Definition PADLOCK_GUARD_HASH_BITS : Z := 8.
Definition PADLOCK_GUARD_MAX_ENTRIES : nat := 64.
Definition PADLOCK_GUARD_PATH_MAX : Z := 4096.
Definition PADLOCK_GUARD_IOCTL_MAGIC : Z := 80.
Definition PADLOCK_GUARD_FLAG_LOCKED : Z := 1.
Definition PADLOCK_GUARD_FLAG_SESSION : Z := 2.

Record padlock_guard_entry := GuardEntry {
  in_use : bool;
  dev : Z;
  ino : Z;
  path : list byte;
  start : Z;
  length_ : Z;
  token : Z;
  writer_tgid : Z;
  locked : bool;
  session_active : bool;
  session_dirty : bool
}.

Definition zero_entry : padlock_guard_entry :=
  GuardEntry false 0 0 (zeros PADLOCK_GUARD_PATH_MAX) 0 0 0 0 false false false.

Record padlock_guard_request := GuardRequest {
  rq_path : list byte;
  rq_start : Z;
  rq_length : Z;
  rq_token : Z;
  rq_flags : Z;
  rq_reserved : Z
}.

Definition set_rq_flags (f : Z) (r : padlock_guard_request) : padlock_guard_request :=
  GuardRequest (rq_path r) (rq_start r) (rq_length r) (rq_token r) f (rq_reserved r).

(** [padlock_guard_entries] and [padlock_guard_table]: a bucket lists the indices of its
    entries, newest first. *)
Record guard := Guard {
  g_entries : list padlock_guard_entry;
  g_table : gmap Z (list nat)
}.

(** Device and inode number of an inode. *)
Abbreviation inode_id := (Z * Z)%type.

(** [kern_path] with [LOOKUP_FOLLOW], then [d_inode]. *)
Abbreviation lookup_fn := (list byte → option (option inode_id)).

Definition padlock_guard_key (dev ino : Z) : Z := Z.lxor (u64 (Z.shiftl dev 32)) ino.

(** The length loop of [padlock_guard_copy_path]; [None] reads outside [src]. *)
Fixpoint copy_length (fuel : nat) (length dst_len : Z) (src : list byte) : option Z :=
  match fuel with
  | O => Some length
  | S fuel =>
      if length + 1 <? dst_len then
        x ← byte_at length src;
        if decide (x = Byte.x00) then Some length else copy_length fuel (length + 1) dst_len src
      else Some length
  end.

Definition padlock_guard_copy_path (dst : list byte) (dst_len : Z) (src : option (list byte)) :
    option (list byte) :=
  if dst_len =? 0 then Some dst else
  match src with
  | None => store 0 [Byte.x00] dst
  | Some src =>
      length ← copy_length (Z.to_nat dst_len) 0 dst_len src;
      bytes ← load 0 length src;
      dst ← store 0 bytes dst;
      store length [Byte.x00] dst
  end.

(** A path argument as [kern_path] reads it: it needs a terminator. *)
Definition c_path (bytes : list byte) : option (list byte) :=
  if decide (Byte.x00 ∈ bytes) then Some (c_str bytes) else None.

Section Operations.
Context (hash_min : Z → Z).

Definition bucket (g : guard) (b : Z) : list nat := default [] (g_table g !! b).

Definition hash_add (i : nat) (key : Z) (t : gmap Z (list nat)) : gmap Z (list nat) :=
  <[hash_min key := i :: default [] (t !! hash_min key)]> t.

(** [hash_del]: the node leaves whatever bucket it is in. *)
Definition hash_del (i : nat) (t : gmap Z (list nat)) : gmap Z (list nat) :=
  filter (λ j, j ≠ i) <$> t.

(** [hash_for_each_possible] over a bucket. *)
Fixpoint find_bucket (es : list padlock_guard_entry) (ids : list nat) (d n : Z) : option nat :=
  match ids with
  | [] => None
  | i :: ids =>
      match es !! i with
      | Some e => if (dev e =? d) && (ino e =? n) then Some i else find_bucket es ids d n
      | None => find_bucket es ids d n
      end
  end.

Definition padlock_guard_find_locked (g : guard) (d n : Z) : option nat :=
  find_bucket (g_entries g) (bucket g (hash_min (padlock_guard_key d n))) d n.

Definition padlock_guard_find_inode_locked (g : guard) (inode : option inode_id) : option nat :=
  match inode with None => None | Some (d, n) => padlock_guard_find_locked g d n end.

(** [None]: the path is not terminated. *)
Definition padlock_guard_find_path_locked (fs : lookup_fn) (g : guard) (bytes : list byte) :
    option (option nat) :=
  p ← c_path bytes;
  Some match fs p with
       | None | Some None => None
       | Some (Some (d, n)) => padlock_guard_find_locked g d n
       end.

Definition padlock_guard_is_authorized (e : padlock_guard_entry) (tgid : Z) : bool :=
  session_active e && (writer_tgid e =? tgid).

(** The entry of an inode refuses the caller. *)
Definition deny_inode (g : guard) (tgid : Z) (inode : option inode_id) : bool :=
  match inode with
  | None => false
  | Some _ =>
      match padlock_guard_find_inode_locked g inode with
      | None => false
      | Some i =>
          match g_entries g !! i with
          | None => false
          | Some e => negb (negb (locked e) || padlock_guard_is_authorized e tgid)
          end
      end
  end.

(** A null file, or one without inode, is not refused. *)
Definition padlock_guard_deny_file (g : guard) (tgid : Z) (file : option (option inode_id)) : bool :=
  match file with None => false | Some inode => deny_inode g tgid inode end.

Definition padlock_guard_deny_dentry (g : guard) (tgid : Z) (dentry : option (option inode_id)) : bool :=
  match dentry with None => false | Some inode => deny_inode g tgid inode end.

(** *** Probe handlers *)

(** The registers a probe handler reads and writes: the caller's return address, the
    value the probed function is made to return, the next instruction. *)
Record pt_regs := Regs { return_address : Z; return_value : Z; instruction_pointer : Z }.

(** 1: the probed function is skipped. *)
Definition padlock_guard_kprobe_deny (regs : pt_regs) : Z * pt_regs :=
  if return_address regs =? 0 then (0, regs)
  else (1, Regs (return_address regs) (- EPERM) (return_address regs)).

Definition MAY_WRITE : Z := 2.

Definition padlock_guard_kprobe_file_permission (g : guard) (tgid : Z) (file : option (option inode_id))
    (mask : Z) (regs : pt_regs) : Z * pt_regs :=
  if Z.land mask MAY_WRITE =? 0 then (0, regs) else
  if negb (padlock_guard_deny_file g tgid file) then (0, regs) else padlock_guard_kprobe_deny regs.

Definition padlock_guard_kprobe_file_truncate (g : guard) (tgid : Z) (file : option (option inode_id))
    (regs : pt_regs) : Z * pt_regs :=
  if negb (padlock_guard_deny_file g tgid file) then (0, regs) else padlock_guard_kprobe_deny regs.

Definition padlock_guard_kprobe_path_unlink (g : guard) (tgid : Z) (dentry : option (option inode_id))
    (regs : pt_regs) : Z * pt_regs :=
  if negb (padlock_guard_deny_dentry g tgid dentry) then (0, regs) else padlock_guard_kprobe_deny regs.

(** Of the dentries of a rename, the handler looks at the old one only. *)
Definition padlock_guard_kprobe_path_rename (g : guard) (tgid : Z) (old_dentry new_dentry : option (option inode_id))
    (regs : pt_regs) : Z * pt_regs :=
  if negb (padlock_guard_deny_dentry g tgid old_dentry) then (0, regs) else padlock_guard_kprobe_deny regs.

(** [None]: a null path; otherwise its dentry. *)
Definition padlock_guard_kprobe_path_truncate (g : guard) (tgid : Z)
    (path : option (option (option inode_id))) (regs : pt_regs) : Z * pt_regs :=
  let dentry := match path with Some d => d | None => None end in
  if negb (padlock_guard_deny_dentry g tgid dentry) then (0, regs) else padlock_guard_kprobe_deny regs.

(** *** Registration *)

(** The first entry that is not in use. *)
Fixpoint free_slot (i : nat) (es : list padlock_guard_entry) : option nat :=
  match es with
  | [] => None
  | e :: es => if negb (in_use e) then Some i else free_slot (S i) es
  end.

Definition claim_slot (i : nat) (d n : Z) (g : guard) : guard :=
  let z := zero_entry in
  let e := GuardEntry true d n (path z) (start z) (length_ z) (token z) (writer_tgid z)
             (locked z) (session_active z) (session_dirty z) in
  Guard (<[i := e]> (g_entries g)) (hash_add i (padlock_guard_key d n) (g_table g)).

(** The entry of the inode, claimed if it has none. *)
Definition find_or_claim (g : guard) (d n : Z) : option (nat * guard) :=
  match padlock_guard_find_inode_locked g (Some (d, n)) with
  | Some i => Some (i, g)
  | None => i ← free_slot 0 (g_entries g); Some (i, claim_slot i d n g)
  end.

Definition padlock_guard_register_entry (fs : lookup_fn) (g : guard) (bytes : list byte) (st le : Z) :
    option (Z * guard) :=
  p ← c_path bytes;
  match fs p with
  | None | Some None => Some (- ENOENT, g)
  | Some (Some (d, n)) =>
      match find_or_claim g d n with
      | None => Some (- ENOSPC, g)
      | Some (i, g) =>
          e ← g_entries g !! i;
          buffer ← padlock_guard_copy_path (path e) PADLOCK_GUARD_PATH_MAX (Some bytes);
          let e := GuardEntry (in_use e) (dev e) (ino e) buffer st le 0 0 true false false in
          Some (0, Guard (<[i := e]> (g_entries g)) (g_table g))
      end
  end.

Definition clear_in_use (e : padlock_guard_entry) : padlock_guard_entry :=
  GuardEntry false (dev e) (ino e) (path e) (start e) (length_ e) (token e) (writer_tgid e)
    (locked e) (session_active e) (session_dirty e).

Definition padlock_guard_unregister_entry (fs : lookup_fn) (g : guard) (bytes : list byte) : option guard :=
  p ← c_path bytes;
  match fs p with
  | None | Some None => Some g
  | Some (Some (d, n)) =>
      match padlock_guard_find_inode_locked g (Some (d, n)) with
      | None => Some g
      | Some i => Some (Guard (alter clear_in_use i (g_entries g)) (hash_del i (g_table g)))
      end
  end.

(** *** Sessions *)

Definition with_session (e : padlock_guard_entry) (active dirty : bool) (tgid tok : Z) : padlock_guard_entry :=
  GuardEntry (in_use e) (dev e) (ino e) (path e) (start e) (length_ e) tok tgid (locked e) active dirty.

(** [get_random_bytes] until the word is not zero; [None] if none of the words is. *)
Fixpoint nonzero_word (words : list Z) : option Z :=
  match words with
  | [] => None
  | w :: words => if w =? 0 then nonzero_word words else Some w
  end.

Definition empty_path (r : padlock_guard_request) : bool :=
  match rq_path r with b :: _ => bool_decide (b = Byte.x00) | [] => true end.

Definition padlock_guard_begin_session (fs : lookup_fn) (tgid : Z) (words : list Z) (g : guard)
    (r : padlock_guard_request) : option (Z * padlock_guard_request * guard) :=
  if empty_path r then Some (- EINVAL, r, g) else
  f ← padlock_guard_find_path_locked fs g (rq_path r);
  match f with
  | None => Some (- ENOENT, r, g)
  | Some i =>
      e ← g_entries g !! i;
      if session_active e && negb (writer_tgid e =? tgid) then Some (- EBUSY, r, g) else
      tok ← nonzero_word words;
      Some (0,
            GuardRequest (rq_path r) (rq_start r) (rq_length r) tok
              (Z.lor PADLOCK_GUARD_FLAG_LOCKED PADLOCK_GUARD_FLAG_SESSION) (rq_reserved r),
            Guard (<[i := with_session e true true tgid tok]> (g_entries g)) (g_table g))
  end.

Definition padlock_guard_end_session (fs : lookup_fn) (tgid : Z) (g : guard) (r : padlock_guard_request) :
    option (Z * padlock_guard_request * guard) :=
  if empty_path r then Some (- EINVAL, r, g) else
  f ← padlock_guard_find_path_locked fs g (rq_path r);
  match f with
  | None => Some (- ENOENT, r, g)
  | Some i =>
      e ← g_entries g !! i;
      if negb (session_active e) || negb (writer_tgid e =? tgid) || negb (token e =? rq_token r)
      then Some (- EPERM, r, g) else
      Some (0, set_rq_flags PADLOCK_GUARD_FLAG_LOCKED r,
            Guard (<[i := with_session e false false 0 0]> (g_entries g)) (g_table g))
  end.

Definition padlock_guard_query (fs : lookup_fn) (g : guard) (r : padlock_guard_request) :
    option (Z * padlock_guard_request) :=
  if empty_path r then Some (- EINVAL, r) else
  f ← padlock_guard_find_path_locked fs g (rq_path r);
  match f with
  | None => Some (- ENOENT, r)
  | Some i =>
      e ← g_entries g !! i;
      let flags := 0 in
      let flags := if locked e then Z.lor flags PADLOCK_GUARD_FLAG_LOCKED else flags in
      let flags := if session_active e then Z.lor flags PADLOCK_GUARD_FLAG_SESSION else flags in
      Some (0, GuardRequest (rq_path r) (start e) (length_ e) (token e) flags (rq_reserved r))
  end.

(** *** The device *)

(** [sizeof (struct padlock_guard_request)] *)
Definition request_size : Z := PADLOCK_GUARD_PATH_MAX + 8 + 8 + 8 + 4 + 4.

(** The kernel's encoding of an ioctl number. *)
Definition _IOC (dir type nr size : Z) : Z :=
  Z.lor (Z.lor (Z.shiftl dir 30) (Z.shiftl size 16)) (Z.lor (Z.shiftl type 8) nr).
Definition _IOC_TYPE (cmd : Z) : Z := Z.land (Z.shiftr cmd 8) 0xff.
Definition _IOC_DIR (cmd : Z) : Z := Z.land (Z.shiftr cmd 30) 3.
Definition _IOC_READ : Z := 2.

Definition PADLOCK_GUARD_IOCTL_REGISTER : Z := _IOC 1 PADLOCK_GUARD_IOCTL_MAGIC 1 request_size.
Definition PADLOCK_GUARD_IOCTL_UNREGISTER : Z := _IOC 1 PADLOCK_GUARD_IOCTL_MAGIC 2 request_size.
Definition PADLOCK_GUARD_IOCTL_BEGIN_WRITE : Z := _IOC 3 PADLOCK_GUARD_IOCTL_MAGIC 3 request_size.
Definition PADLOCK_GUARD_IOCTL_END_WRITE : Z := _IOC 1 PADLOCK_GUARD_IOCTL_MAGIC 4 request_size.
Definition PADLOCK_GUARD_IOCTL_QUERY : Z := _IOC 3 PADLOCK_GUARD_IOCTL_MAGIC 5 request_size.

(** The switch: result, request and state afterwards. *)
Definition ioctl_switch (fs : lookup_fn) (tgid : Z) (words : list Z) (cmd : Z) (g : guard)
    (r : padlock_guard_request) : option (Z * padlock_guard_request * guard) :=
  if cmd =? PADLOCK_GUARD_IOCTL_REGISTER then
    last_byte ← byte_at (PADLOCK_GUARD_PATH_MAX - 1) (rq_path r);
    if negb (bool_decide (last_byte = Byte.x00)) then Some (- ENAMETOOLONG, r, g) else
    '(res, g) ← padlock_guard_register_entry fs g (rq_path r) (rq_start r) (rq_length r);
    Some (res, set_rq_flags (if res =? 0 then PADLOCK_GUARD_FLAG_LOCKED else 0) r, g)
  else if cmd =? PADLOCK_GUARD_IOCTL_UNREGISTER then
    g ← padlock_guard_unregister_entry fs g (rq_path r);
    Some (0, r, g)
  else if cmd =? PADLOCK_GUARD_IOCTL_BEGIN_WRITE then padlock_guard_begin_session fs tgid words g r
  else if cmd =? PADLOCK_GUARD_IOCTL_END_WRITE then padlock_guard_end_session fs tgid g r
  else if cmd =? PADLOCK_GUARD_IOCTL_QUERY then
    '(res, r) ← padlock_guard_query fs g r; Some (res, r, g)
  else Some (- ENOTTY, r, g).

(** [user] is the request in user memory ([None]: it cannot be read), [writable]
    whether it can be written.  The result, what user memory receives, the
    state. *)
Definition padlock_guard_ioctl (fs : lookup_fn) (tgid : Z) (words : list Z) (cmd : Z)
    (user : option padlock_guard_request) (writable : bool) (g : guard) :
    option (Z * option padlock_guard_request * guard) :=
  if negb (_IOC_TYPE cmd =? PADLOCK_GUARD_IOCTL_MAGIC) then Some (- ENOTTY, None, g) else
  match user with
  | None => Some (- EFAULT, None, g)
  | Some r =>
      '(res, r, g) ← ioctl_switch fs tgid words cmd g r;
      if negb (res =? 0) then Some (res, None, g) else
      if negb (Z.land (_IOC_DIR cmd) _IOC_READ =? 0) then
        if writable then Some (0, Some r, g) else Some (- EFAULT, None, g)
      else Some (0, None, g)
  end.

(** [hash_init] and the static initialisation. *)
Definition guard_init : guard := Guard (replicate PADLOCK_GUARD_MAX_ENTRIES zero_entry) ∅.
End Operations.

(** ** Loading and unloading *)

Module Lifecycle.
Inductive probe :=
  | FilePermission
  | FileTruncate
  | PathUnlink
  | PathRename
  | PathTruncate.

#[export] Instance probe_eq_dec : EqDecision probe.
Proof. solve_decision. Defined.

(** What the module has registered with the kernel. *)
Record module_state := ModuleState {
  misc_registered : bool;
  probes : list probe;
  pinned : bool
}.

Section Code.
(** [register_kprobe]'s answer for each probe; whether the kernel is built with
    [CONFIG_SECURITY_PATH]. *)
Context (register_kprobe : probe → Z) (security_path : bool).

Definition padlock_guard_register_probe (p : probe) (m : module_state) : Z * module_state :=
  let result := register_kprobe p in
  (result, if result =? 0 then ModuleState (misc_registered m) (p :: probes m) (pinned m) else m).

Definition padlock_guard_register_optional_probe (p : probe) (m : module_state) : Z * module_state :=
  let '(result, m) := padlock_guard_register_probe p m in
  if result =? - ENOENT then (0, m) else (result, m).

Definition all_probes : list probe :=
  [FilePermission; FileTruncate] ++
  (if security_path then [PathUnlink; PathRename; PathTruncate] else []).

Definition padlock_guard_unregister_all_probes (m : module_state) : module_state :=
  ModuleState (misc_registered m) (filter (λ p, p ∉ all_probes) (probes m)) (pinned m).

Definition misc_deregister (m : module_state) : module_state :=
  ModuleState false (probes m) (pinned m).

(** The optional probes, one after the other, up to the first failure. *)
Fixpoint register_optional (ps : list probe) (m : module_state) : Z * module_state :=
  match ps with
  | [] => (0, m)
  | p :: ps =>
      let '(result, m) := padlock_guard_register_optional_probe p m in
      if negb (result =? 0) then (result, m) else register_optional ps m
  end.

(** [misc] is the answer of [misc_register], [pin] that of [try_module_get]. *)
Definition padlock_guard_init (misc : Z) (pin : bool) : Z * module_state :=
  let m := ModuleState false [] false in
  if negb (misc =? 0) then (misc, m) else
  let m := ModuleState true (probes m) (pinned m) in
  let '(result, m) := padlock_guard_register_probe FilePermission m in
  if negb (result =? 0) then (result, misc_deregister m) else
  let '(result, m) := register_optional (tail all_probes) m in
  if negb (result =? 0) then (result, misc_deregister (padlock_guard_unregister_all_probes m)) else
  (0, ModuleState (misc_registered m) (probes m) pin).

(** [module_put] gives the reference back. *)
Definition padlock_guard_exit (m : module_state) : module_state :=
  let m := if pinned m then ModuleState (misc_registered m) (probes m) false else m in
  misc_deregister (padlock_guard_unregister_all_probes m).
End Code.
End Lifecycle.
