(* ===== verification/GuardSpec.v ===== *)
(** * The guard's table, its invariant and its meaning

    [guard_ok] ties the hash table to the entries; [view] is what the guard knows of an
    inode.  The abstract guard is a map from inodes to protections with at most 64
    elements; [refines] relates the two. *)

From S2P Require Import Prelude World Libc Codec Guard.

(** What is kept about a protected file; the session is its process and token. *)
Record protection := Protection {
  p_path : list byte;
  p_start : Z;
  p_length : Z;
  p_session : option (Z * Z)
}.

Definition protection_of (e : padlock_guard_entry) : protection :=
  Protection (c_str (path e)) (start e) (length_ e)
    (if session_active e then Some (writer_tgid e, token e) else None).

(** An entry in use is locked; outside a session it has no token and no writer. *)
Definition entry_good (e : padlock_guard_entry) : Prop :=
  locked e = true ∧ len (path e) = PADLOCK_GUARD_PATH_MAX ∧
  if session_active e then token e ≠ 0 ∧ session_dirty e = true
  else token e = 0 ∧ writer_tgid e = 0 ∧ session_dirty e = false.

Section Invariant.
Context (hash_min : Z → Z).
Local Abbreviation find := (padlock_guard_find_locked hash_min).

(** Entry [i] is in use for inode [(d, n)]. *)
Definition holds_inode (es : list padlock_guard_entry) (i : nat) (d n : Z) (e : padlock_guard_entry) : Prop :=
  es !! i = Some e ∧ in_use e = true ∧ dev e = d ∧ ino e = n.

Record guard_ok (g : guard) : Prop := {
  go_length : length (g_entries g) = PADLOCK_GUARD_MAX_ENTRIES;
  go_bucket : ∀ b i, i ∈ bucket g b ↔
    ∃ d n e, holds_inode (g_entries g) i d n e ∧ hash_min (padlock_guard_key d n) = b;
  go_unique : ∀ i j d n e e', holds_inode (g_entries g) i d n e → holds_inode (g_entries g) j d n e' → i = j;
  go_good : ∀ i d n e, holds_inode (g_entries g) i d n e → entry_good e;
  go_paths : ∀ i e, g_entries g !! i = Some e → len (path e) = PADLOCK_GUARD_PATH_MAX
}.

Lemma find_bucket_some es ids d n i :
  find_bucket es ids d n = Some i → i ∈ ids ∧ ∃ e, es !! i = Some e ∧ dev e = d ∧ ino e = n.
Proof.
  induction ids as [|j ids IH]; cbn; [done|]. destruct (es !! j) as [e|] eqn:E.
  - destruct (Z.eqb_spec (dev e) d), (Z.eqb_spec (ino e) n); cbn [andb];
      [intros [= <-]; split; [left|by eauto]|intros [? ?]%IH; split; [by right|done]..].
  - intros [? ?]%IH. split; [by right|done].
Qed.

Lemma find_bucket_none es ids d n :
  find_bucket es ids d n = None → ∀ i e, i ∈ ids → es !! i = Some e → dev e = d → ino e = n → False.
Proof.
  induction ids as [|j ids IH]; cbn; [by intros _ i e ?%elem_of_nil|].
  intros Hf i e Hi He Hd Hn. apply elem_of_cons in Hi as [->|Hi].
  - rewrite He, Hd, Hn, !Z.eqb_refl in Hf. done.
  - destruct (es !! j) as [e'|]; [destruct ((dev e' =? d) && (ino e' =? n)); [done|]|]; by eapply IH.
Qed.

Lemma find_some g d n i :
  guard_ok g → find g d n = Some i ↔ ∃ e, holds_inode (g_entries g) i d n e.
Proof.
  intros Hok. unfold padlock_guard_find_locked. split.
  - intros (Hi & e & He & Hd & Hn)%find_bucket_some. exists e.
    apply go_bucket in Hi as (d' & n' & e' & (He' & Hu & _ & _) & _); [|done].
    rewrite He in He'. apply (inj Some) in He' as <-. done.
  - intros (e & He & Hu & Hd & Hn).
    assert (i ∈ bucket g (hash_min (padlock_guard_key d n))) as Hin.
    { apply go_bucket; [done|]. by exists d, n, e. }
    destruct (find_bucket _ _ d n) as [j|] eqn:Hf; [|by destruct (find_bucket_none _ _ _ _ Hf i e)].
    apply find_bucket_some in Hf as (Hj & e' & He' & Hd' & Hn').
    apply go_bucket in Hj as (d2 & n2 & e2 & (He2 & Hu2 & _ & _) & _); [|done].
    rewrite He' in He2. apply (inj Some) in He2 as <-. f_equal. by apply (go_unique g Hok j i d n e' e).
Qed.

(** What the guard knows of an inode. *)
Definition view (g : guard) (id : inode_id) : option padlock_guard_entry :=
  i ← find g id.1 id.2; g_entries g !! i.

Lemma view_some g d n e :
  guard_ok g → view g (d, n) = Some e ↔ ∃ i, holds_inode (g_entries g) i d n e.
Proof.
  intros Hok. unfold view. cbn [fst snd]. split.
  - intros (i & Hf & He)%bind_Some. apply find_some in Hf as (e' & Hh); [|done].
    exists i. destruct Hh as (He' & ?). rewrite He in He'. apply (inj Some) in He' as <-. done.
  - intros (i & Hh). apply bind_Some. exists i. split; [|by destruct Hh].
    apply find_some; [done|]. eauto.
Qed.

Lemma view_find g d n i e :
  guard_ok g → find g d n = Some i → g_entries g !! i = Some e → holds_inode (g_entries g) i d n e.
Proof.
  intros Hok Hf He. apply find_some in Hf as (e' & Hh); [|done]. pose proof Hh as (He' & _).
  rewrite He in He'. by apply (inj Some) in He' as <-.
Qed.

Lemma guard_init_ok : guard_ok (guard_init).
Proof.
  assert (∀ i d n e, ¬ holds_inode (g_entries guard_init) i d n e) as Hno.
  { intros i d n e (He & Hu & _). cbn [g_entries guard_init] in He. apply lookup_replicate in He as [-> _]. done. }
  split.
  - done.
  - intros b i. unfold bucket. cbn. rewrite lookup_empty. cbn. split; [by intros ?%elem_of_nil|].
    intros (d & n & e & Hh & _). by destruct (Hno i d n e).
  - intros i j d n e e' Hh. by destruct (Hno i d n e).
  - intros i d n e Hh. by destruct (Hno i d n e).
  - intros i e He. cbn [g_entries guard_init] in He. apply lookup_replicate in He as [-> _]. done.
Qed.

(** *** Changing an entry in place *)

Lemma holds_update es i e e' j d n x :
  es !! i = Some e → in_use e' = in_use e → dev e' = dev e → ino e' = ino e →
  holds_inode (<[i := e']> es) j d n x →
  (j = i ∧ x = e' ∧ holds_inode es i d n e) ∨ (j ≠ i ∧ holds_inode es j d n x).
Proof.
  intros He Hu Hd Hn (Hx & Hux & Hdx & Hnx). destruct (decide (j = i)) as [->|Hne].
  - rewrite list_lookup_insert_eq in Hx by (by eapply lookup_lt_Some). apply (inj Some) in Hx as <-.
    left. split_and!; [done..|]. unfold holds_inode. rewrite He. split_and!; congruence.
  - rewrite list_lookup_insert_ne in Hx by done. by right.
Qed.

Lemma holds_update_inv es i e e' d n j x :
  es !! i = Some e → in_use e' = in_use e → dev e' = dev e → ino e' = ino e →
  holds_inode es j d n x → holds_inode (<[i := e']> es) j d n (if decide (j = i) then e' else x).
Proof.
  intros He Hu Hd Hn (Hx & Hux & Hdx & Hnx). case_decide as Hj.
  - subst j. rewrite He in Hx. apply (inj Some) in Hx as <-. unfold holds_inode.
    rewrite list_lookup_insert_eq by (by eapply lookup_lt_Some). split_and!; congruence.
  - unfold holds_inode. by rewrite list_lookup_insert_ne.
Qed.

Lemma update_ok g i e e' :
  guard_ok g → g_entries g !! i = Some e → in_use e' = in_use e → dev e' = dev e → ino e' = ino e →
  (in_use e = true → entry_good e') → len (path e') = PADLOCK_GUARD_PATH_MAX →
  guard_ok (Guard (<[i := e']> (g_entries g)) (g_table g)).
Proof.
  intros Hok He Hu Hd Hn Hgood Hp. split; cbn [g_entries].
  - rewrite length_insert. apply Hok.
  - intros b j. change (bucket (Guard _ (g_table g)) b) with (bucket g b). rewrite (go_bucket g Hok). split.
    + intros (d & n & x & Hh & Hb). exists d, n. eexists. split; [by eapply holds_update_inv|done].
    + intros (d & n & x & Hh & Hb). apply (holds_update _ _ e) in Hh; [|done..].
      destruct Hh as [(-> & -> & Hh)|(_ & Hh)]; by exists d, n; eauto.
  - intros j k d n x x' Hj Hk. apply (holds_update _ _ e) in Hj, Hk; try done.
    assert (∃ y, holds_inode (g_entries g) j d n y) as [y Hy] by (destruct Hj as [(-> & _ & ?)|(_ & ?)]; eauto).
    assert (∃ y, holds_inode (g_entries g) k d n y) as [y' Hy'] by (destruct Hk as [(-> & _ & ?)|(_ & ?)]; eauto).
    by eapply go_unique.
  - intros j d n x Hj. apply (holds_update _ _ e) in Hj; [|done..].
    destruct Hj as [(-> & -> & (He' & Hu' & _))|(_ & Hj)]; [|by eapply go_good].
    apply Hgood. congruence.
  - intros j x Hx. destruct (decide (j = i)) as [->|].
    + rewrite list_lookup_insert_eq in Hx by (by eapply lookup_lt_Some). by apply (inj Some) in Hx as <-.
    + rewrite list_lookup_insert_ne in Hx by done. by eapply go_paths.
Qed.

Lemma option_ext {A} (o o' : option A) : (∀ x, o = Some x ↔ o' = Some x) → o = o'.
Proof.
  intros H. destruct o as [x|].
  - symmetry. by apply H.
  - destruct o' as [y|]; [|done]. by apply H.
Qed.

Lemma update_view g i e e' id :
  guard_ok g → guard_ok (Guard (<[i := e']> (g_entries g)) (g_table g)) →
  g_entries g !! i = Some e → in_use e = true → in_use e' = in_use e → dev e' = dev e → ino e' = ino e →
  view (Guard (<[i := e']> (g_entries g)) (g_table g)) id = if decide (id = (dev e, ino e)) then Some e' else view g id.
Proof.
  intros Hok Hok' He Hiu Hu Hd Hn. destruct id as [d n]. apply option_ext. intros x.
  rewrite view_some by done. cbn [g_entries]. case_decide as Hid.
  - simplify_eq. split.
    + intros (j & Hj). apply (holds_update _ _ e) in Hj; [|done..].
      destruct Hj as [(-> & -> & _)|(Hne & Hj)]; [done|]. destruct Hne.
      eapply go_unique; [exact Hok|exact Hj|]. by split_and!.
    + intros [= <-]. exists i. unfold holds_inode.
      rewrite list_lookup_insert_eq by (by eapply lookup_lt_Some). split_and!; congruence.
  - rewrite view_some by done. split.
    + intros (j & Hj). apply (holds_update _ _ e) in Hj; [|done..].
      destruct Hj as [(-> & -> & (_ & _ & <- & <-))|(_ & Hj)]; [by destruct Hid|by exists j].
    + intros (j & Hj). exists j. pose proof Hj as (Hx & _ & <- & <-).
      pose proof (holds_update_inv _ i e e' _ _ j x He Hu Hd Hn Hj) as Hh. case_decide as Hji; [|done].
      subst j. rewrite He in Hx. apply (inj Some) in Hx as <-. by destruct Hid.
Qed.

(** *** Claiming a slot *)

Lemma free_slot_some es : ∀ k i, free_slot k es = Some i →
  ∃ e, (k ≤ i)%nat ∧ es !! (i - k)%nat = Some e ∧ in_use e = false.
Proof.
  induction es as [|e es IH]; intros k i H; cbn in H; [done|]. destruct (in_use e) eqn:Hu; cbn in H.
  - apply IH in H as (e' & Hk & He' & Hu'). exists e'. split_and!; [lia| |done].
    by replace (i - k)%nat with (S (i - S k)) by lia.
  - simplify_eq. exists e. rewrite Nat.sub_diag. by split_and!.
Qed.

Lemma free_slot_none es : ∀ k, free_slot k es = None → Forall (λ e, in_use e = true) es.
Proof.
  induction es as [|e es IH]; intros k H; cbn in H; [done|]. destruct (in_use e) eqn:Hu; cbn in H; [|done].
  constructor; [done|]. by eapply IH.
Qed.

Lemma bucket_add g es i key b :
  bucket (Guard es (hash_add hash_min i key (g_table g))) b =
    if decide (b = hash_min key) then i :: bucket g b else bucket g b.
Proof.
  unfold bucket, hash_add. cbn [g_table]. case_decide as Hb.
  - subst b. by rewrite lookup_insert_eq.
  - by rewrite lookup_insert_ne by done.
Qed.

Lemma holds_claim es i e e' j d n x :
  es !! i = Some e → in_use e = false → in_use e' = true →
  holds_inode (<[i := e']> es) j d n x ↔
    (j = i ∧ x = e' ∧ dev e' = d ∧ ino e' = n) ∨ holds_inode es j d n x.
Proof.
  intros He Hu Hu'. unfold holds_inode. destruct (decide (j = i)) as [->|Hne].
  - rewrite list_lookup_insert_eq by (by eapply lookup_lt_Some). rewrite He. split.
    + intros ([= <-] & _ & ? & ?). by left.
    + intros [(_ & -> & ? & ?)|([= <-] & ? & _)]; [done|congruence].
  - rewrite list_lookup_insert_ne by done. split; [by right|]. intros [(? & _)|?]; done.
Qed.

Lemma claim_ok g i e e' :
  guard_ok g → g_entries g !! i = Some e → in_use e = false → in_use e' = true →
  (∀ j x, ¬ holds_inode (g_entries g) j (dev e') (ino e') x) → entry_good e' →
  guard_ok (Guard (<[i := e']> (g_entries g)) (hash_add hash_min i (padlock_guard_key (dev e') (ino e')) (g_table g))).
Proof.
  intros Hok He Hu Hu' Hno Hgood. split; cbn [g_entries].
  - rewrite length_insert. apply Hok.
  - intros b j. rewrite bucket_add. split.
    + intros Hj. assert (j ∈ bucket g b ∨ (j = i ∧ b = hash_min (padlock_guard_key (dev e') (ino e')))) as [Hj'|[-> ->]].
      { case_decide; [|by left]. apply elem_of_cons in Hj as [->|]; [by right|by left]. }
      * apply go_bucket in Hj' as (d & n & x & Hh & Hb); [|done]. exists d, n, x. split; [|done].
        by apply (holds_claim _ _ e); [..|right].
      * exists (dev e'), (ino e'), e'. split; [|done]. by apply (holds_claim _ _ e); [..|left].
    + intros (d & n & x & Hh & Hb). apply (holds_claim _ _ e) in Hh; [|done..].
      destruct Hh as [(-> & -> & <- & <-)|Hh].
      * rewrite decide_True by done. left.
      * assert (j ∈ bucket g b) as Hj by (apply go_bucket; [done|]; by exists d, n, x).
        case_decide; [by right|done].
  - intros j k d n x x' Hj Hk. apply (holds_claim _ _ e) in Hj, Hk; try done.
    destruct Hj as [(-> & -> & <- & <-)|Hj], Hk as [(-> & -> & ? & ?)|Hk]; [done| | |by eapply go_unique].
    + by destruct (Hno k x').
    + subst d n. by destruct (Hno j x).
  - intros j d n x Hj. apply (holds_claim _ _ e) in Hj; [|done..].
    destruct Hj as [(_ & -> & _)|Hj]; [done|by eapply go_good].
  - intros j x Hx. destruct (decide (j = i)) as [->|].
    + rewrite list_lookup_insert_eq in Hx by (by eapply lookup_lt_Some). apply (inj Some) in Hx as <-. by apply Hgood.
    + rewrite list_lookup_insert_ne in Hx by done. by eapply go_paths.
Qed.

Lemma claim_view g i e e' t id :
  let g' := Guard (<[i := e']> (g_entries g)) t in
  guard_ok g → guard_ok g' → g_entries g !! i = Some e → in_use e = false → in_use e' = true →
  (∀ j x, ¬ holds_inode (g_entries g) j (dev e') (ino e') x) →
  view g' id = if decide (id = (dev e', ino e')) then Some e' else view g id.
Proof.
  intros g' Hok Hok' He Hu Hu' Hno. destruct id as [d n]. apply option_ext. intros x.
  rewrite view_some by done. unfold g'. cbn [g_entries]. case_decide as Hid.
  - simplify_eq. split.
    + intros (j & Hj). apply (holds_claim _ _ e) in Hj; [|done..]. destruct Hj as [(_ & -> & _)|Hj]; [done|].
      by destruct (Hno j x).
    + intros [= <-]. exists i. by apply (holds_claim _ _ e); [..|left].
  - rewrite view_some by done. split.
    + intros (j & Hj). apply (holds_claim _ _ e) in Hj; [|done..].
      destruct Hj as [(_ & _ & <- & <-)|Hj]; [by destruct Hid|by exists j].
    + intros (j & Hj). exists j. by apply (holds_claim _ _ e); [..|right].
Qed.

(** *** Giving a slot up *)

Lemma bucket_del g es i b :
  bucket (Guard es (hash_del i (g_table g))) b = filter (λ j, j ≠ i) (bucket g b).
Proof. unfold bucket, hash_del. cbn [g_table]. rewrite lookup_fmap. by destruct (g_table g !! b). Qed.

Lemma holds_clear es i j d n x :
  holds_inode (alter clear_in_use i es) j d n x ↔ j ≠ i ∧ holds_inode es j d n x.
Proof.
  unfold holds_inode. destruct (decide (j = i)) as [->|Hne].
  - rewrite list_lookup_alter_eq. split; [|by intros [? _]]. intros (He & Hu & _).
    destruct (es !! i); [|done]. cbn in He. apply (inj Some) in He as <-. done.
  - rewrite list_lookup_alter_ne by done. tauto.
Qed.

Lemma clear_ok g i :
  guard_ok g → guard_ok (Guard (alter clear_in_use i (g_entries g)) (hash_del i (g_table g))).
Proof.
  intros Hok. split; cbn [g_entries].
  - rewrite length_alter. apply Hok.
  - intros b j. rewrite bucket_del, list_elem_of_filter, (go_bucket g Hok). split.
    + intros (Hne & d & n & e & Hh & Hb). exists d, n, e. split; [by apply holds_clear|done].
    + intros (d & n & e & Hh & Hb). apply holds_clear in Hh as [Hne Hh]. split; [done|]. by exists d, n, e.
  - intros j k d n x x' [_ Hj]%holds_clear [_ Hk]%holds_clear. by eapply go_unique.
  - intros j d n x [_ Hj]%holds_clear. by eapply go_good.
  - intros j x Hx. destruct (decide (j = i)) as [->|].
    + rewrite list_lookup_alter_eq in Hx. destruct (g_entries g !! i) as [e|] eqn:E; [|done]. cbn in Hx.
      apply (inj Some) in Hx as <-. by eapply (go_paths g Hok i e).
    + rewrite list_lookup_alter_ne in Hx by done. by eapply go_paths.
Qed.

Lemma clear_view g i d n e id :
  guard_ok g → holds_inode (g_entries g) i d n e →
  view (Guard (alter clear_in_use i (g_entries g)) (hash_del i (g_table g))) id =
    if decide (id = (d, n)) then None else view g id.
Proof.
  intros Hok Hi. destruct id as [d' n']. apply option_ext. intros x.
  rewrite view_some by (by apply clear_ok). cbn [g_entries]. case_decide as Hid.
  - simplify_eq. split; [|done]. intros (j & Hj). apply holds_clear in Hj as [Hne Hj]. destruct Hne.
    by eapply go_unique.
  - rewrite view_some by done. split.
    + intros (j & Hj). apply holds_clear in Hj as [_ Hj]. by exists j.
    + intros (j & Hj). exists j. apply holds_clear. split; [|done]. intros ->.
      destruct Hi as (E1 & _ & <- & <-), Hj as (E2 & _ & <- & <-). rewrite E1 in E2.
      apply (inj Some) in E2 as <-. by destruct Hid.
Qed.
End Invariant.

(** ** Copying a path *)

Lemma c_str_split src : Byte.x00 ∈ src → ∃ rest, src = c_str src ++ Byte.x00 :: rest.
Proof.
  induction src as [|b src IH]; [by intros ?%elem_of_nil|]. cbn [c_str]. case_decide as Hb.
  - subst b. by exists src.
  - intros [?|Hin]%elem_of_cons; [congruence|]. destruct (IH Hin) as [rest Hr]. exists rest.
    cbn. by rewrite <- Hr.
Qed.

Lemma c_str_app s rest : no_nul s → c_str (s ++ Byte.x00 :: rest) = s.
Proof.
  unfold no_nul. induction s as [|b s IH]; intros Hs; cbn; [done|].
  rewrite decide_False by set_solver. f_equal. apply IH. set_solver.
Qed.

Lemma copy_length_spec s rest dst_len : ∀ fuel l,
  no_nul s → 0 ≤ l ≤ len s → len s + 1 ≤ dst_len → len s - l < Z.of_nat fuel →
  copy_length fuel l dst_len (s ++ Byte.x00 :: rest) = Some (len s).
Proof.
  induction fuel as [|fuel IH]; intros l Hs Hl Hd Hf; [lia|]. cbn [copy_length].
  destruct (Z.ltb_spec (l + 1) dst_len) as [Hlt|Hge]; [|f_equal; lia].
  unfold byte_at. rewrite (proj2 (Z.leb_le _ _)) by lia. destruct (decide (l = len s)) as [->|Hne].
  - by rewrite Nat2Z.id, list_lookup_middle.
  - rewrite lookup_app_l by lia. destruct (s !! Z.to_nat l) as [b|] eqn:Hb; [|apply lookup_ge_None in Hb; lia].
    cbn [mbind option_bind]. rewrite decide_False.
    + apply IH; [done|lia..].
    + intros ->. apply Hs. by eapply list_elem_of_lookup_2.
Qed.

(** The copy keeps the string and stays in its array. *)
Lemma copy_path_spec dst src :
  Byte.x00 ∈ src → len src = PADLOCK_GUARD_PATH_MAX → len dst = PADLOCK_GUARD_PATH_MAX →
  ∃ d, padlock_guard_copy_path dst PADLOCK_GUARD_PATH_MAX (Some src) = Some d ∧
    len d = PADLOCK_GUARD_PATH_MAX ∧ c_str d = c_str src.
Proof.
  intros Hin Hls Hld. destruct (c_str_split src Hin) as [rest Hr]. pose proof (c_str_no_nul src) as Hn.
  set (s := c_str src) in *. clearbody s. subst src. rewrite length_app in Hls. cbn in Hls.
  unfold PADLOCK_GUARD_PATH_MAX in *. unfold padlock_guard_copy_path. cbn [Z.eqb].
  rewrite copy_length_spec by (done || lia). cbn [mbind option_bind].
  rewrite load_some by (rewrite ?length_app; cbn; lia). cbn [mbind option_bind].
  assert (sub 0 (len s) (s ++ Byte.x00 :: rest) = s) as ->.
  { unfold sub. change (drop (Z.to_nat 0) ?l) with l. rewrite Nat2Z.id. apply take_app_length. }
  destruct (store_update_final s [Byte.x00] dst) as [H1 H2]; [cbn; lia|].
  rewrite H1. cbn [mbind option_bind]. rewrite H2. eexists. split; [done|]. split.
  - rewrite len_splice; [done|lia|rewrite length_app; cbn; lia].
  - unfold splice. change (take (Z.to_nat 0) dst) with (@nil byte). cbn [app].
    rewrite <- app_assoc. by apply c_str_app.
Qed.

(** ** The abstract guard *)

Abbreviation aguard := (gmap inode_id protection).

Definition CAPACITY : nat := PADLOCK_GUARD_MAX_ENTRIES.

Definition a_register (A : aguard) (id : inode_id) (p : list byte) (st le : Z) : Z * aguard :=
  if bool_decide (is_Some (A !! id) ∨ (size A < CAPACITY)%nat)
  then (0, <[id := Protection p st le None]> A) else (- ENOSPC, A).

(** A session can be opened by the process that holds one, or when nobody does. *)
Definition a_begin (A : aguard) (id : inode_id) (tgid : Z) (words : list Z) : option (Z * Z * aguard) :=
  match A !! id with
  | None => Some (- ENOENT, 0, A)
  | Some p =>
      if match p_session p with Some (t, _) => negb (t =? tgid) | None => false end
      then Some (- EBUSY, 0, A)
      else tok ← nonzero_word words;
           Some (0, tok, <[id := Protection (p_path p) (p_start p) (p_length p) (Some (tgid, tok))]> A)
  end.

(** It is closed by its process and its token together. *)
Definition a_end (A : aguard) (id : inode_id) (tgid tok : Z) : Z * aguard :=
  match A !! id with
  | None => (- ENOENT, A)
  | Some p =>
      if bool_decide (p_session p = Some (tgid, tok))
      then (0, <[id := Protection (p_path p) (p_start p) (p_length p) None]> A)
      else (- EPERM, A)
  end.

(** The writer of a protected file is the process with the session. *)
Definition a_deny (A : aguard) (tgid : Z) (id : inode_id) : bool :=
  match A !! id with
  | None => false
  | Some p => match p_session p with Some (t, _) => negb (t =? tgid) | None => true end
  end.

(** The inode a request's path names. *)
Definition resolve (fs : lookup_fn) (r : padlock_guard_request) : option (option inode_id) :=
  p ← c_path (rq_path r); Some (match fs p with Some (Some id) => Some id | _ => None end).

Definition a_flags (p : protection) : Z :=
  Z.lor PADLOCK_GUARD_FLAG_LOCKED (match p_session p with Some _ => PADLOCK_GUARD_FLAG_SESSION | None => 0 end).

(** The five commands: result, request and state afterwards. *)
Definition a_cmd_register (fs : lookup_fn) (A : aguard) (r : padlock_guard_request) :
    option (Z * padlock_guard_request * aguard) :=
  last_byte ← byte_at (PADLOCK_GUARD_PATH_MAX - 1) (rq_path r);
  if negb (bool_decide (last_byte = Byte.x00)) then Some (- ENAMETOOLONG, r, A) else
  id ← resolve fs r;
  let '(res, A) := match id with
                   | None => (- ENOENT, A)
                   | Some id => a_register A id (c_str (rq_path r)) (rq_start r) (rq_length r)
                   end in
  Some (res, set_rq_flags (if res =? 0 then PADLOCK_GUARD_FLAG_LOCKED else 0) r, A).

Definition a_cmd_unregister (fs : lookup_fn) (A : aguard) (r : padlock_guard_request) :
    option (Z * padlock_guard_request * aguard) :=
  id ← resolve fs r;
  Some (0, r, match id with None => A | Some id => delete id A end).

Definition a_cmd_begin (fs : lookup_fn) (tgid : Z) (words : list Z) (A : aguard) (r : padlock_guard_request) :
    option (Z * padlock_guard_request * aguard) :=
  if empty_path r then Some (- EINVAL, r, A) else
  id ← resolve fs r;
  match id with
  | None => Some (- ENOENT, r, A)
  | Some id =>
      '(res, tok, A) ← a_begin A id tgid words;
      Some (res, if res =? 0 then
                   GuardRequest (rq_path r) (rq_start r) (rq_length r) tok
                     (Z.lor PADLOCK_GUARD_FLAG_LOCKED PADLOCK_GUARD_FLAG_SESSION) (rq_reserved r)
                 else r, A)
  end.

Definition a_cmd_end (fs : lookup_fn) (tgid : Z) (A : aguard) (r : padlock_guard_request) :
    option (Z * padlock_guard_request * aguard) :=
  if empty_path r then Some (- EINVAL, r, A) else
  id ← resolve fs r;
  match id with
  | None => Some (- ENOENT, r, A)
  | Some id =>
      let '(res, A) := a_end A id tgid (rq_token r) in
      Some (res, if res =? 0 then set_rq_flags PADLOCK_GUARD_FLAG_LOCKED r else r, A)
  end.

Definition a_cmd_query (fs : lookup_fn) (A : aguard) (r : padlock_guard_request) :
    option (Z * padlock_guard_request * aguard) :=
  if empty_path r then Some (- EINVAL, r, A) else
  id ← resolve fs r;
  match id ≫= λ id, A !! id with
  | None => Some (- ENOENT, r, A)
  | Some p =>
      Some (0, GuardRequest (rq_path r) (p_start p) (p_length p)
                 (match p_session p with Some (_, t) => t | None => 0 end) (a_flags p) (rq_reserved r), A)
  end.

Definition a_switch (fs : lookup_fn) (tgid : Z) (words : list Z) (cmd : Z) (A : aguard)
    (r : padlock_guard_request) : option (Z * padlock_guard_request * aguard) :=
  if cmd =? PADLOCK_GUARD_IOCTL_REGISTER then a_cmd_register fs A r
  else if cmd =? PADLOCK_GUARD_IOCTL_UNREGISTER then a_cmd_unregister fs A r
  else if cmd =? PADLOCK_GUARD_IOCTL_BEGIN_WRITE then a_cmd_begin fs tgid words A r
  else if cmd =? PADLOCK_GUARD_IOCTL_END_WRITE then a_cmd_end fs tgid A r
  else if cmd =? PADLOCK_GUARD_IOCTL_QUERY then a_cmd_query fs A r
  else Some (- ENOTTY, r, A).

Lemma bool_decide_ext_bool (P : Prop) `{Decision P} (b : bool) : (P ↔ b = true) → bool_decide P = b.
Proof. intros HP. apply eq_bool_prop_intro. rewrite bool_decide_spec, HP. by destruct b. Qed.

Section Refinement.
Context (hash_min : Z → Z).
Local Abbreviation view := (view hash_min).
Local Abbreviation guard_ok := (guard_ok hash_min).

Definition refines (g : guard) (A : aguard) : Prop :=
  guard_ok g ∧ ∀ id, A !! id = protection_of <$> view g id.

Lemma refines_init : refines guard_init ∅.
Proof.
  split; [apply guard_init_ok|]. intros [d n]. rewrite lookup_empty.
  destruct (view guard_init (d, n)) as [e|] eqn:E; [|done].
  apply view_some in E as (i & He & Hu & _); [|apply guard_init_ok].
  cbn [g_entries guard_init] in He. apply lookup_replicate in He as [-> _]. done.
Qed.

(** The entries in use are as many as the protected inodes. *)
Definition used (g : guard) : list inode_id :=
  (λ e, (dev e, ino e)) <$> filter (λ e, in_use e = true) (g_entries g).

Lemma elem_of_used g d n : (d, n) ∈ used g ↔ ∃ i e, holds_inode (g_entries g) i d n e.
Proof.
  unfold used. rewrite list_elem_of_fmap. split.
  - intros (e & [= -> ->] & He). apply list_elem_of_filter in He as [Hu He].
    apply list_elem_of_lookup in He as [i Hi]. by exists i, e.
  - intros (i & e & He & Hu & <- & <-). exists e. split; [done|]. apply list_elem_of_filter.
    split; [done|]. by eapply list_elem_of_lookup_2.
Qed.

Lemma NoDup_used_aux es :
  (∀ i j d n e e', holds_inode es i d n e → holds_inode es j d n e' → i = j) →
  NoDup ((λ e, (dev e, ino e)) <$> filter (λ e, in_use e = true) es).
Proof.
  induction es as [|e es IH]; intros Huniq; [constructor|].
  assert (NoDup ((λ e, (dev e, ino e)) <$> filter (λ e, in_use e = true) es)) as HND.
  { apply IH. intros i j d n x x' Hi Hj. assert (S i = S j); [|lia].
    by apply (Huniq (S i) (S j) d n x x'). }
  rewrite filter_cons. case_decide as Hu; [|done]. rewrite fmap_cons. constructor; [|done].
  intros Hin. apply list_elem_of_fmap in Hin as (x & [= Hd Hn] & Hx). apply list_elem_of_filter in Hx as [Hux Hx].
  apply list_elem_of_lookup in Hx as [j Hj].
  assert (0%nat = S j); [|done]. by apply (Huniq 0%nat (S j) (dev e) (ino e) e x).
Qed.

Lemma refines_size g A : refines g A → size A = length (filter (λ e, in_use e = true) (g_entries g)).
Proof.
  intros [Hok HA]. rewrite <- (length_fmap (λ e, (dev e, ino e))). fold (used g).
  rewrite <- (size_list_to_set (C := gset inode_id)) by (apply NoDup_used_aux, Hok).
  rewrite <- (size_dom A). f_equal. apply leibniz_equiv. intros [d n].
  rewrite elem_of_dom, elem_of_list_to_set, elem_of_used, HA, fmap_is_Some. split.
  - intros [e He]. apply view_some in He as [i Hi]; [|done]. by exists i, e.
  - intros (i & e & Hi). exists e. apply view_some; [done|]. by exists i.
Qed.

Lemma refines_full g A : refines g A → free_slot 0 (g_entries g) = None → size A = CAPACITY.
Proof.
  intros Hr Hf. rewrite (refines_size g A Hr). apply free_slot_none in Hf.
  assert (filter (λ e, in_use e = true) (g_entries g) = g_entries g) as ->.
  { induction Hf as [|e es Hu _ IH]; [done|]. by rewrite filter_cons, decide_True, IH. }
  destruct Hr as [Hok _]. apply Hok.
Qed.

Lemma filter_shorter {B} (P : B → Prop) `{∀ x, Decision (P x)} (l : list B) (i : nat) x :
  l !! i = Some x → ¬ P x → (length (filter P l) < length l)%nat.
Proof.
  revert i. induction l as [|y l IH]; intros i Hi Hx; [done|]. rewrite filter_cons.
  destruct i as [|i]; cbn in Hi.
  - simplify_eq. rewrite decide_False by done. cbn. pose proof (length_filter P l). lia.
  - specialize (IH i Hi Hx). case_decide; cbn; lia.
Qed.

Lemma refines_room g A i : refines g A → free_slot 0 (g_entries g) = Some i → (size A < CAPACITY)%nat.
Proof.
  intros Hr Hf. rewrite (refines_size g A Hr). apply free_slot_some in Hf as (e & _ & He & Hu).
  destruct Hr as [Hok _]. unfold CAPACITY. rewrite <- (go_length _ g Hok).
  eapply filter_shorter; [exact He|]. by rewrite Hu.
Qed.

Local Abbreviation find := (padlock_guard_find_locked hash_min).

Lemma refines_find_none g A d n : refines g A → find g d n = None → A !! (d, n) = None.
Proof. intros [_ HA] Hf. rewrite HA. unfold GuardSpec.view. cbn. by rewrite Hf. Qed.

Lemma refines_find_some g A d n i :
  refines g A → find g d n = Some i →
  ∃ e, holds_inode (g_entries g) i d n e ∧ A !! (d, n) = Some (protection_of e) ∧ entry_good e.
Proof.
  intros [Hok HA] Hf. pose proof Hf as Hf'. apply find_some in Hf' as (e & Hh); [|done].
  exists e. split; [done|]. split; [|by eapply go_good].
  rewrite HA. unfold GuardSpec.view. cbn. rewrite Hf. cbn. by destruct Hh as (-> & _).
Qed.

(** An entry changed in place is a changed protection. *)
Lemma refines_update g A d n i e e' :
  refines g A → holds_inode (g_entries g) i d n e → in_use e' = true → dev e' = d → ino e' = n →
  entry_good e' →
  refines (Guard (<[i := e']> (g_entries g)) (g_table g)) (<[(d, n) := protection_of e']> A).
Proof.
  intros [Hok HA] (He & Hu & Hd & Hn) Hu' Hd' Hn' Hgood.
  assert (guard_ok (Guard (<[i := e']> (g_entries g)) (g_table g))) as Hok'.
  { apply (update_ok _ g i e e'); try done; [congruence..|apply Hgood]. }
  split; [done|]. intros id. rewrite (update_view _ g i e e') by (done || congruence).
  rewrite Hd, Hn. case_decide as Hid.
  - subst id. by rewrite lookup_insert_eq.
  - by rewrite lookup_insert_ne.
Qed.

Lemma register_refines fs g A bytes p d n st le :
  refines g A → len bytes = PADLOCK_GUARD_PATH_MAX → c_path bytes = Some p → fs p = Some (Some (d, n)) →
  ∃ g', padlock_guard_register_entry hash_min fs g bytes st le = Some ((a_register A (d, n) p st le).1, g') ∧
        refines g' (a_register A (d, n) p st le).2.
Proof.
  intros Hr Hlen Hp Hfs. unfold padlock_guard_register_entry. rewrite Hp. cbn [mbind option_bind]. rewrite Hfs.
  unfold c_path in Hp. case_decide as Hin; [|done]. apply (inj Some) in Hp as <-.
  unfold find_or_claim, padlock_guard_find_inode_locked, a_register.
  destruct (find g d n) as [i|] eqn:Hf.
  - destruct (refines_find_some g A d n i Hr Hf) as (e & Hh & HA & (Hlk & Hlp & _)). pose proof Hh as (He & Hu & Hd & Hn).
    rewrite bool_decide_eq_true_2 by (rewrite HA; left; by eexists). cbn [fst snd].
    destruct (copy_path_spec (path e) bytes Hin Hlen Hlp) as (buf & Hb & Hlb & Hcb).
    rewrite He. cbn [mbind option_bind]. rewrite Hb. cbn [mbind option_bind].
    eexists. split; [done|]. rewrite <- Hcb.
    by apply (refines_update g A d n i e (GuardEntry _ _ _ buf st le 0 0 true false false)).
  - pose proof (refines_find_none g A d n Hr Hf) as HA. pose proof Hr as [Hok HAll].
    destruct (free_slot 0 (g_entries g)) as [i|] eqn:Hs; cbn [mbind option_bind].
    2: { rewrite bool_decide_eq_false_2; [by exists g|]. rewrite HA, (refines_full g A Hr Hs).
         intros [[? ?]|?]; [done|lia]. }
    rewrite bool_decide_eq_true_2 by (right; by eapply refines_room). cbn [fst snd].
    apply free_slot_some in Hs as (e & _ & He & Hu). rewrite Nat.sub_0_r in He.
    assert (∀ j x, ¬ holds_inode (g_entries g) j d n x) as Hno.
    { intros j x Hj. assert (find g d n = Some j) as E by (apply find_some; [done|]; by exists x). congruence. }
    unfold claim_slot. cbn [g_entries g_table].
    rewrite list_lookup_insert_eq by (by eapply lookup_lt_Some). cbn [mbind option_bind path zero_entry in_use dev ino].
    destruct (copy_path_spec (zeros PADLOCK_GUARD_PATH_MAX) bytes Hin Hlen ltac:(by apply len_zeros))
      as (buf & Hb & Hlb & Hcb).
    rewrite Hb. cbn [mbind option_bind]. eexists. split; [done|]. rewrite list_insert_insert_eq.
    set (e' := GuardEntry true d n buf st le 0 0 true false false).
    assert (guard_ok (Guard (<[i := e']> (g_entries g)) (hash_add hash_min i (padlock_guard_key d n) (g_table g)))) as Hok'.
    { by apply (claim_ok _ g i e e'). }
    split; [done|]. intros id. rewrite (claim_view _ g i e e' _ id) by done. cbn [dev ino e'].
    case_decide as Hid.
    + subst id. rewrite lookup_insert_eq, <- Hcb. done.
    + by rewrite lookup_insert_ne.
Qed.

Lemma unregister_refines fs g A r :
  refines g A →
  match padlock_guard_unregister_entry hash_min fs g (rq_path r), resolve fs r with
  | Some g', Some id => refines g' (match id with None => A | Some id => delete id A end)
  | None, None => True
  | _, _ => False
  end.
Proof.
  intros Hr. unfold padlock_guard_unregister_entry, resolve.
  destruct (c_path (rq_path r)) as [p|]; cbn [mbind option_bind]; [|done].
  destruct (fs p) as [[[d n]|]|]; [|done..]. cbn [padlock_guard_find_inode_locked].
  destruct (find g d n) as [i|] eqn:Hf.
  - destruct (refines_find_some g A d n i Hr Hf) as (e & Hh & _). destruct Hr as [Hok HA].
    split; [by apply clear_ok|]. intros id. rewrite (clear_view _ g i d n e) by done.
    case_decide as Hid; [subst id; by rewrite lookup_delete_eq|by rewrite lookup_delete_ne].
  - rewrite delete_id by (by eapply refines_find_none). done.
Qed.

Lemma find_path_resolve fs g r :
  padlock_guard_find_path_locked hash_min fs g (rq_path r) =
    (id ← resolve fs r; Some (id ≫= λ id, find g id.1 id.2)).
Proof.
  unfold padlock_guard_find_path_locked, resolve. destruct (c_path (rq_path r)) as [p|]; cbn [mbind option_bind]; [|done].
  by destruct (fs p) as [[[d n]|]|].
Qed.

(** Same result, same request, related states; or both undefined. *)
Definition step_refines (o : option (Z * padlock_guard_request * guard))
    (a : option (Z * padlock_guard_request * aguard)) : Prop :=
  match o, a with
  | Some (res, r, g), Some (res', r', A) => res = res' ∧ r = r' ∧ refines g A
  | None, None => True
  | _, _ => False
  end.

Lemma cmd_register_refines fs g A r :
  refines g A → len (rq_path r) = PADLOCK_GUARD_PATH_MAX →
  step_refines
    (last_byte ← byte_at (PADLOCK_GUARD_PATH_MAX - 1) (rq_path r);
     if negb (bool_decide (last_byte = Byte.x00)) then Some (- ENAMETOOLONG, r, g) else
     '(res, g) ← padlock_guard_register_entry hash_min fs g (rq_path r) (rq_start r) (rq_length r);
     Some (res, set_rq_flags (if res =? 0 then PADLOCK_GUARD_FLAG_LOCKED else 0) r, g))
    (a_cmd_register fs A r).
Proof.
  intros Hr Hlen. unfold a_cmd_register.
  destruct (byte_at _ (rq_path r)) as [b|]; cbn [mbind option_bind]; [|done].
  case_bool_decide; cbn [negb]; [|done]. unfold resolve.
  destruct (c_path (rq_path r)) as [p|] eqn:Hp; cbn [mbind option_bind];
    [|unfold padlock_guard_register_entry; by rewrite Hp].
  destruct (fs p) as [[[d n]|]|] eqn:Hfs.
  - destruct (register_refines fs g A (rq_path r) p d n (rq_start r) (rq_length r) Hr Hlen Hp Hfs)
      as (g' & -> & Hr'). cbn [mbind option_bind].
    assert (c_str (rq_path r) = p) as -> by (unfold c_path in Hp; case_decide; by simplify_eq).
    by destruct (a_register A (d, n) p (rq_start r) (rq_length r)).
  - unfold padlock_guard_register_entry. rewrite Hp. cbn [mbind option_bind]. by rewrite Hfs.
  - unfold padlock_guard_register_entry. rewrite Hp. cbn [mbind option_bind]. by rewrite Hfs.
Qed.

Lemma cmd_unregister_refines fs g A r :
  refines g A →
  step_refines (g ← padlock_guard_unregister_entry hash_min fs g (rq_path r); Some (0, r, g))
    (a_cmd_unregister fs A r).
Proof.
  intros Hr. unfold a_cmd_unregister.
  pose proof (unregister_refines fs g A r Hr) as H.
  destruct (padlock_guard_unregister_entry _ _ _ _), (resolve fs r); cbn [mbind option_bind]; done.
Qed.

Lemma cmd_begin_refines fs tgid words g A r :
  refines g A →
  step_refines (padlock_guard_begin_session hash_min fs tgid words g r) (a_cmd_begin fs tgid words A r).
Proof.
  intros Hr.
  unfold padlock_guard_begin_session, a_cmd_begin, a_begin. destruct (empty_path r); [done|]. rewrite find_path_resolve.
  destruct (resolve fs r) as [[[d n]|]|]; cbn [mbind option_bind fst snd]; [|done..].
  destruct (find g d n) as [i|] eqn:Hf; [|by rewrite (refines_find_none g A d n Hr Hf)].
  destruct (refines_find_some g A d n i Hr Hf) as (e & Hh & -> & Hgood). pose proof Hh as (He & Hu & Hd & Hn).
  rewrite He. cbn [mbind option_bind]. unfold protection_of at 1. cbn [p_session].
  replace (match (if session_active e then Some (writer_tgid e, token e) else None) with
           | Some (t, _) => negb (t =? tgid) | None => false end)
    with (session_active e && negb (writer_tgid e =? tgid)) by by destruct (session_active e).
  destruct (session_active e && negb (writer_tgid e =? tgid)); [done|].
  destruct (nonzero_word words) as [tok|] eqn:Ht; cbn [mbind option_bind]; [|done].
  split_and!; [done..|]. apply (refines_update g A d n i e (with_session e true true tgid tok)); try done.
  destruct Hgood as (? & ? & _). split_and!; [done..|]. cbn. split; [|done].
  clear -Ht. induction words as [|w ws IH]; cbn in Ht; [done|].
  destruct (Z.eqb_spec w 0); [by apply IH|by simplify_eq].
Qed.

Lemma cmd_end_refines fs tgid g A r :
  refines g A → step_refines (padlock_guard_end_session hash_min fs tgid g r) (a_cmd_end fs tgid A r).
Proof.
  intros Hr.
  unfold padlock_guard_end_session, a_cmd_end, a_end. destruct (empty_path r); [done|]. rewrite find_path_resolve.
  destruct (resolve fs r) as [[[d n]|]|]; cbn [mbind option_bind fst snd]; [|done..].
  destruct (find g d n) as [i|] eqn:Hf; [|by rewrite (refines_find_none g A d n Hr Hf)].
  destruct (refines_find_some g A d n i Hr Hf) as (e & Hh & -> & Hgood). pose proof Hh as (He & Hu & Hd & Hn).
  rewrite He. cbn [mbind option_bind].
  assert (bool_decide (p_session (protection_of e) = Some (tgid, rq_token r)) =
    negb (negb (session_active e) || negb (writer_tgid e =? tgid) || negb (token e =? rq_token r))) as ->.
  { unfold protection_of. apply bool_decide_ext_bool. cbn [p_session].
    destruct (session_active e), (Z.eqb_spec (writer_tgid e) tgid), (Z.eqb_spec (token e) (rq_token r));
      cbn; split; intros; simplify_eq; congruence. }
  destruct (_ || _); [done|]. cbn [negb]. split_and!; [done..|].
  apply (refines_update g A d n i e (with_session e false false 0 0)); try done.
  destruct Hgood as (? & ? & _). by split_and!.
Qed.

Lemma cmd_query_refines fs g A r :
  refines g A →
  step_refines ('(res, r) ← padlock_guard_query hash_min fs g r; Some (res, r, g)) (a_cmd_query fs A r).
Proof.
  intros Hr.
  unfold padlock_guard_query, a_cmd_query. destruct (empty_path r); [done|]. rewrite find_path_resolve.
  destruct (resolve fs r) as [[[d n]|]|]; cbn [mbind option_bind fst snd]; [|done..].
  destruct (find g d n) as [i|] eqn:Hf; [|by rewrite (refines_find_none g A d n Hr Hf)].
  destruct (refines_find_some g A d n i Hr Hf) as (e & Hh & -> & (Hlk & _ & Hses)). pose proof Hh as (He & _).
  rewrite He. cbn [mbind option_bind]. unfold protection_of, a_flags. cbn [p_session p_start p_length].
  rewrite Hlk. destruct (session_active e); [done|]. destruct Hses as (-> & _). done.
Qed.

Lemma switch_refines fs tgid words cmd g A r :
  refines g A → len (rq_path r) = PADLOCK_GUARD_PATH_MAX →
  step_refines (ioctl_switch hash_min fs tgid words cmd g r) (a_switch fs tgid words cmd A r).
Proof.
  intros Hr Hlen. unfold ioctl_switch, a_switch.
  destruct (cmd =? PADLOCK_GUARD_IOCTL_REGISTER); [by apply cmd_register_refines|].
  destruct (cmd =? PADLOCK_GUARD_IOCTL_UNREGISTER); [by apply cmd_unregister_refines|].
  destruct (cmd =? PADLOCK_GUARD_IOCTL_BEGIN_WRITE); [by apply cmd_begin_refines|].
  destruct (cmd =? PADLOCK_GUARD_IOCTL_END_WRITE); [by apply cmd_end_refines|].
  destruct (cmd =? PADLOCK_GUARD_IOCTL_QUERY); [by apply cmd_query_refines|done].
Qed.
End Refinement.
