(* ===== verification/GuardTheorems.v ===== *)
(** * What the guard guarantees

    An execution of the module is a sequence of ioctl calls from any processes
    ([guard_step], [reachable]).  The theorems hold in every reachable state. *)

From S2P Require Import Prelude World Libc Codec Guard GuardSpec.

Section Theorems.
Context (hash_min : Z → Z).

(** One call on the device, by any process with any request. *)
Inductive guard_step : guard → guard → Prop :=
  | step_ioctl fs tgid words cmd user writable g res out g' :
      (∀ r, user = Some r → len (rq_path r) = PADLOCK_GUARD_PATH_MAX) →
      padlock_guard_ioctl hash_min fs tgid words cmd user writable g = Some (res, out, g') →
      guard_step g g'.

Definition reachable (g : guard) : Prop := rtc guard_step guard_init g.

Lemma ioctl_preserves fs tgid words cmd user writable g A res out g' :
  refines hash_min g A → (∀ r, user = Some r → len (rq_path r) = PADLOCK_GUARD_PATH_MAX) →
  padlock_guard_ioctl hash_min fs tgid words cmd user writable g = Some (res, out, g') →
  ∃ A', refines hash_min g' A'.
Proof.
  intros Hr Hlen. unfold padlock_guard_ioctl.
  destruct (negb (_IOC_TYPE cmd =? PADLOCK_GUARD_IOCTL_MAGIC)); [intros [= <- <- <-]; eauto|].
  destruct user as [r|]; [|intros [= <- <- <-]; eauto].
  pose proof (switch_refines hash_min fs tgid words cmd g A r Hr (Hlen r eq_refl)) as Hs.
  unfold step_refines in Hs. destruct (ioctl_switch _ _ _ _ _ _ _) as [[[res1 r1] g1]|]; [|done].
  cbn [mbind option_bind]. destruct (a_switch _ _ _ _ _ _) as [[[res2 r2] A2]|]; [|done].
  destruct Hs as (_ & _ & Hr'). intros H. exists A2.
  repeat case_match; simplify_eq; done.
Qed.

Lemma reachable_refines g : reachable g → ∃ A, refines hash_min g A.
Proof.
  unfold reachable. apply (rtc_ind_r (λ g, ∃ A, refines hash_min g A)).
  - exists ∅. apply refines_init.
  - intros g1 g2 _ Hstep [A HA]. destruct Hstep. by eapply ioctl_preserves.
Qed.

Lemma deny_refines g A tgid id :
  refines hash_min g A → deny_inode hash_min g tgid (Some id) = a_deny A tgid id.
Proof.
  intros Hr. destruct id as [d n]. unfold deny_inode, a_deny. cbn [padlock_guard_find_inode_locked].
  destruct (padlock_guard_find_locked hash_min g d n) as [i|] eqn:Hf.
  - destruct (refines_find_some hash_min g A d n i Hr Hf) as (e & (He & _) & -> & (Hlk & _)).
    rewrite He, Hlk. cbn [negb orb]. unfold padlock_guard_is_authorized, protection_of. cbn [p_session].
    by destruct (session_active e).
  - by rewrite (refines_find_none hash_min g A d n Hr Hf).
Qed.

(** C20: in every reachable state the hash table lists exactly the entries in use, each
    under the bucket of its inode, no inode twice, at most 64; an entry in use is
    locked, its path is inside its array, and outside a session it has no token
    and no writer. *)
Theorem guard_invariant g :
  reachable g → guard_ok hash_min g ∧ ∃ A, refines hash_min g A ∧ (size A ≤ CAPACITY)%nat.
Proof.
  intros [A HA]%reachable_refines. split; [apply HA|]. exists A. split; [done|].
  rewrite (refines_size hash_min g A HA). unfold CAPACITY. destruct HA as [Hok _].
  rewrite <- (go_length _ g Hok). apply length_filter.
Qed.

(** C21: refinement.  On a request with a whole path array, each command has the result,
    the answer and the effect of the abstract guard, a map from inodes to
    protections; the code is undefined exactly where the abstract command is
    (a path without terminator, or random words that are all zero). *)
Theorem guard_refines g A fs tgid words cmd r :
  refines hash_min g A → len (rq_path r) = PADLOCK_GUARD_PATH_MAX →
  match ioctl_switch hash_min fs tgid words cmd g r, a_switch fs tgid words cmd A r with
  | Some (res, r1, g'), Some (res', r2, A') => res = res' ∧ r1 = r2 ∧ refines hash_min g' A'
  | None, None => True
  | _, _ => False
  end.
Proof. apply switch_refines. Qed.

(** C22: the probes.  In every reachable state, for a caller whose return address is known:
    a write, truncation, unlink or rename of an inode is made to return [-EPERM],
    with the probed function skipped, exactly when the inode is protected and the
    caller does not hold its session; reads are never touched. *)
Theorem probes_enforce g tgid id mask regs :
  reachable g → return_address regs ≠ 0 →
  ∃ A, refines hash_min g A ∧
    let file := Some (Some id) in
    let denied := (1, Regs (return_address regs) (- EPERM) (return_address regs)) in
    let verdict := if a_deny A tgid id then denied else (0, regs) in
    padlock_guard_kprobe_file_permission hash_min g tgid file mask regs =
      (if Z.land mask MAY_WRITE =? 0 then (0, regs) else verdict) ∧
    padlock_guard_kprobe_file_truncate hash_min g tgid file regs = verdict ∧
    padlock_guard_kprobe_path_unlink hash_min g tgid file regs = verdict ∧
    (∀ target, padlock_guard_kprobe_path_rename hash_min g tgid file target regs = verdict) ∧
    padlock_guard_kprobe_path_truncate hash_min g tgid (Some file) regs = verdict.
Proof.
  intros [A HA]%reachable_refines Hret. exists A. split; [done|]. cbv zeta.
  unfold padlock_guard_kprobe_file_permission, padlock_guard_kprobe_file_truncate,
    padlock_guard_kprobe_path_unlink, padlock_guard_kprobe_path_rename, padlock_guard_kprobe_path_truncate,
    padlock_guard_deny_file, padlock_guard_deny_dentry, padlock_guard_kprobe_deny.
  rewrite (deny_refines g A tgid id HA), (proj2 (Z.eqb_neq (return_address regs) 0)) by done.
  by destruct (a_deny A tgid id).
Qed.

(** C23: mutual exclusion.  In every reachable state at most one process can write to a
    protected inode, and none can while no session is open. *)
Theorem one_writer g id e t1 t2 :
  reachable g → view hash_min g id = Some e →
  padlock_guard_deny_file hash_min g t1 (Some (Some id)) = false →
  padlock_guard_deny_file hash_min g t2 (Some (Some id)) = false →
  t1 = t2 ∧ session_active e = true ∧ writer_tgid e = t1.
Proof.
  intros [A HA]%reachable_refines Hv. unfold padlock_guard_deny_file. rewrite !(deny_refines g A) by done.
  unfold a_deny. destruct HA as [Hok HA]. rewrite HA, Hv. cbn [fmap option_fmap option_map].
  unfold protection_of. cbn [p_session]. destruct (session_active e); [|done].
  intros ?%negb_false_iff%Z.eqb_eq ?%negb_false_iff%Z.eqb_eq. split_and!; congruence.
Qed.

(** *** Sessions *)

Definition begin_cmd (fs : lookup_fn) (tgid : Z) (words : list Z) (r : padlock_guard_request) (g : guard) :=
  padlock_guard_ioctl hash_min fs tgid words PADLOCK_GUARD_IOCTL_BEGIN_WRITE (Some r) true g.

Definition end_cmd (fs : lookup_fn) (tgid : Z) (r : padlock_guard_request) (g : guard) :=
  padlock_guard_ioctl hash_min fs tgid [] PADLOCK_GUARD_IOCTL_END_WRITE (Some r) true g.

(** The device's answer for a command of the abstract guard. *)
Lemma ioctl_of_switch fs tgid words cmd r g A :
  refines hash_min g A → len (rq_path r) = PADLOCK_GUARD_PATH_MAX → _IOC_TYPE cmd = PADLOCK_GUARD_IOCTL_MAGIC →
  ∀ res r' A', a_switch fs tgid words cmd A r = Some (res, r', A') →
  ∃ g', refines hash_min g' A' ∧
    padlock_guard_ioctl hash_min fs tgid words cmd (Some r) true g =
      Some (res, if negb (res =? 0) then None
                 else if negb (Z.land (_IOC_DIR cmd) _IOC_READ =? 0) then Some r' else None, g').
Proof.
  intros Hr Hlen Hty res r' A' Ha. unfold padlock_guard_ioctl. rewrite Hty, Z.eqb_refl. cbn [negb].
  pose proof (switch_refines hash_min fs tgid words cmd g A r Hr Hlen) as Hs.
  unfold step_refines in Hs. rewrite Ha in Hs.
  destruct (ioctl_switch _ _ _ _ _ _ _) as [[[res1 r1] g1]|]; [|done]. destruct Hs as (-> & -> & Hr').
  exists g1. split; [done|]. cbn [mbind option_bind]. destruct (Z.eqb_spec res 0) as [->|]; cbn [negb]; [|done].
  by case_match.
Qed.

Lemma a_switch_begin fs tgid words A r :
  a_switch fs tgid words PADLOCK_GUARD_IOCTL_BEGIN_WRITE A r = a_cmd_begin fs tgid words A r.
Proof. done. Qed.

Lemma a_switch_end fs tgid words A r :
  a_switch fs tgid words PADLOCK_GUARD_IOCTL_END_WRITE A r = a_cmd_end fs tgid A r.
Proof. done. Qed.

(** C24: a session.  If a process opens a session on a protected file that has none, the
    call returns 0 with a token that is not 0 and from then on that process and
    no other may write; a second process that tries to open one gets [-EBUSY], and one
    that tries to close it [-EPERM] whatever token it shows, and neither
    changes anything; closing it with the token brings back the state before. *)
Theorem session_lifecycle g A fs r id p tgid other words tok t' :
  refines hash_min g A → len (rq_path r) = PADLOCK_GUARD_PATH_MAX → empty_path r = false →
  resolve fs r = Some (Some id) → A !! id = Some p → p_session p = None →
  nonzero_word words = Some tok → other ≠ tgid →
  let r1 := GuardRequest (rq_path r) (rq_start r) (rq_length r) tok 3 (rq_reserved r) in
  let r2 := GuardRequest (rq_path r) (rq_start r) (rq_length r) t' 0 (rq_reserved r) in
  ∃ g1 g2 g3 g4 A1, begin_cmd fs tgid words r g = Some (0, Some r1, g1) ∧ refines hash_min g1 A1 ∧
    (∀ t, padlock_guard_deny_file hash_min g1 t (Some (Some id)) = negb (tgid =? t)) ∧
    begin_cmd fs other words r g1 = Some (- EBUSY, None, g2) ∧ refines hash_min g2 A1 ∧
    end_cmd fs other r2 g1 = Some (- EPERM, None, g3) ∧ refines hash_min g3 A1 ∧
    end_cmd fs tgid r1 g1 = Some (0, None, g4) ∧ refines hash_min g4 A.
Proof.
  intros Hr Hlen Hne Hres Hp Hses Htok Hother r1 r2.
  set (A1 := <[id := Protection (p_path p) (p_start p) (p_length p) (Some (tgid, tok))]> A).
  destruct (ioctl_of_switch fs tgid words PADLOCK_GUARD_IOCTL_BEGIN_WRITE r g A Hr Hlen eq_refl 0 r1 A1)
    as (g1 & Hr1 & E1).
  { rewrite a_switch_begin. unfold a_cmd_begin. rewrite Hne, Hres. cbn [mbind option_bind].
    unfold a_begin. rewrite Hp, Hses, Htok. done. }
  destruct (ioctl_of_switch fs other words PADLOCK_GUARD_IOCTL_BEGIN_WRITE r g1 A1 Hr1 Hlen eq_refl (- EBUSY) r A1)
    as (g2 & Hr2 & E2).
  { rewrite a_switch_begin. unfold a_cmd_begin. rewrite Hne, Hres. cbn [mbind option_bind].
    unfold a_begin, A1. rewrite lookup_insert_eq. cbn [p_session].
    by rewrite (proj2 (Z.eqb_neq tgid other)) by congruence. }
  destruct (ioctl_of_switch fs other [] PADLOCK_GUARD_IOCTL_END_WRITE r2 g1 A1 Hr1 Hlen eq_refl (- EPERM) r2 A1)
    as (g3 & Hr3 & E3).
  { rewrite a_switch_end. unfold a_cmd_end. change (empty_path r2) with (empty_path r).
    change (resolve fs r2) with (resolve fs r). rewrite Hne, Hres. cbn [mbind option_bind]. unfold a_end.
    unfold A1. rewrite lookup_insert_eq. rewrite bool_decide_eq_false_2 by (cbn; congruence). done. }
  destruct (ioctl_of_switch fs tgid [] PADLOCK_GUARD_IOCTL_END_WRITE r1 g1 A1 Hr1 Hlen eq_refl 0
              (set_rq_flags PADLOCK_GUARD_FLAG_LOCKED r1) A) as (g4 & Hr4 & E4).
  { rewrite a_switch_end. unfold a_cmd_end. change (empty_path r1) with (empty_path r).
    change (resolve fs r1) with (resolve fs r). rewrite Hne, Hres. cbn [mbind option_bind]. unfold a_end.
    unfold A1. rewrite lookup_insert_eq. rewrite bool_decide_eq_true_2 by done. cbn [p_path p_start p_length Z.eqb].
    rewrite insert_insert_eq, insert_id; [done|]. rewrite Hp, <- Hses. by destruct p. }
  exists g1, g2, g3, g4, A1. split_and!; [exact E1|done| |exact E2|done|exact E3|done|exact E4|done].
  intros t. unfold padlock_guard_deny_file. rewrite (deny_refines g1 A1) by done.
  unfold a_deny, A1. by rewrite lookup_insert_eq.
Qed.

(** *** What the guard does not enforce *)

(** C25: UNREGISTER checks neither process nor token: whoever calls it, the protection of
    the file is gone, an open session of another process included, and every
    process may write. *)
Theorem unregister_needs_no_session g A fs r id tgid :
  refines hash_min g A → len (rq_path r) = PADLOCK_GUARD_PATH_MAX → resolve fs r = Some (Some id) →
  ∃ g', padlock_guard_ioctl hash_min fs tgid [] PADLOCK_GUARD_IOCTL_UNREGISTER (Some r) true g = Some (0, None, g') ∧
    refines hash_min g' (delete id A) ∧
    ∀ t, padlock_guard_deny_file hash_min g' t (Some (Some id)) = false.
Proof.
  intros Hr Hlen Hres.
  destruct (ioctl_of_switch fs tgid [] PADLOCK_GUARD_IOCTL_UNREGISTER r g A Hr Hlen eq_refl 0 r (delete id A))
    as (g' & Hr' & E).
  { change (a_cmd_unregister fs A r = Some (0, r, delete id A)). unfold a_cmd_unregister. by rewrite Hres. }
  exists g'. split_and!; [exact E|done|]. intros t. unfold padlock_guard_deny_file.
  rewrite (deny_refines g' _ t id Hr'). unfold a_deny. by rewrite lookup_delete_eq.
Qed.

Lemma ioctl_undefined fs tgid words cmd r writable g :
  _IOC_TYPE cmd = PADLOCK_GUARD_IOCTL_MAGIC → ioctl_switch hash_min fs tgid words cmd g r = None →
  padlock_guard_ioctl hash_min fs tgid words cmd (Some r) writable g = None.
Proof. intros Ht Hs. unfold padlock_guard_ioctl. by rewrite Ht, Z.eqb_refl, Hs. Qed.

(** C26: only REGISTER checks that the path of a request is terminated: with a path array
    full of non-zero bytes it answers [-ENAMETOOLONG], and the other four commands
    read past the end of the array. *)
Theorem unterminated_path g fs tgid words r cmd writable :
  len (rq_path r) = PADLOCK_GUARD_PATH_MAX → Byte.x00 ∉ rq_path r →
  cmd ∈ [PADLOCK_GUARD_IOCTL_REGISTER; PADLOCK_GUARD_IOCTL_UNREGISTER; PADLOCK_GUARD_IOCTL_BEGIN_WRITE;
         PADLOCK_GUARD_IOCTL_END_WRITE; PADLOCK_GUARD_IOCTL_QUERY] →
  padlock_guard_ioctl hash_min fs tgid words cmd (Some r) writable g =
    if decide (cmd = PADLOCK_GUARD_IOCTL_REGISTER) then Some (- ENAMETOOLONG, None, g) else None.
Proof.
  intros Hlen Hno Hcmd.
  assert (c_path (rq_path r) = None) as Hc by (unfold c_path; by rewrite decide_False).
  assert (empty_path r = false) as He.
  { unfold empty_path. destruct (rq_path r) as [|b bs]; [done|]. apply bool_decide_eq_false_2. set_solver. }
  assert (∃ b, byte_at (PADLOCK_GUARD_PATH_MAX - 1) (rq_path r) = Some b ∧ b ≠ Byte.x00) as (b & Hb & Hb0).
  { unfold byte_at. cbn [Z.leb Z.compare PADLOCK_GUARD_PATH_MAX].
    destruct (lookup_lt_is_Some_2 (rq_path r) (Z.to_nat (4096 - 1))) as [b Hb];
      [unfold PADLOCK_GUARD_PATH_MAX in Hlen; lia|].
    exists b. split; [exact Hb|]. intros ->. apply Hno. by eapply list_elem_of_lookup_2. }
  repeat (apply elem_of_cons in Hcmd as [->|Hcmd]); [..|by apply elem_of_nil in Hcmd].
  - assert (ioctl_switch hash_min fs tgid words PADLOCK_GUARD_IOCTL_REGISTER g r = Some (- ENAMETOOLONG, r, g)) as E.
    { unfold ioctl_switch. rewrite Z.eqb_refl, Hb. cbn [mbind option_bind]. by rewrite bool_decide_eq_false_2. }
    unfold padlock_guard_ioctl. by rewrite E.
  - apply ioctl_undefined; [done|]. transitivity (g ← padlock_guard_unregister_entry hash_min fs g (rq_path r); Some (0, r, g)); [done|].
    unfold padlock_guard_unregister_entry. by rewrite Hc.
  - apply ioctl_undefined; [done|]. transitivity (padlock_guard_begin_session hash_min fs tgid words g r); [done|].
    unfold padlock_guard_begin_session, padlock_guard_find_path_locked. by rewrite He, Hc.
  - apply ioctl_undefined; [done|]. transitivity (padlock_guard_end_session hash_min fs tgid g r); [done|].
    unfold padlock_guard_end_session, padlock_guard_find_path_locked. by rewrite He, Hc.
  - apply ioctl_undefined; [done|].
    transitivity ('(res, r) ← padlock_guard_query hash_min fs g r; Some (res, r, g)); [done|].
    unfold padlock_guard_query, padlock_guard_find_path_locked. by rewrite He, Hc.
Qed.

End Theorems.

(** ** Loading and unloading *)

Module LifecycleTheorems.
Import Lifecycle.


End LifecycleTheorems.

(** ** Witnesses *)

Module GuardDemo.
Definition hash (k : Z) : Z := k mod 256.
Definition file : list byte := bstr "f".
Definition id : inode_id := (8, 42).
Definition fs : lookup_fn := λ p, if decide (p = file) then Some (Some id) else None.
Definition request : padlock_guard_request := GuardRequest (file ++ zeros 4095) 0 100 0 0 0.

(** The state after one file was registered. *)
Definition state : guard :=
  match padlock_guard_ioctl hash fs 7 [] PADLOCK_GUARD_IOCTL_REGISTER (Some request) true guard_init with
  | Some (_, _, g) => g
  | None => guard_init
  end.

Definition protected : protection := Protection file 0 100 None.
Definition abstract : aguard := {[id := protected]}.

Lemma request_len : len (rq_path request) = PADLOCK_GUARD_PATH_MAX.
Proof. vm_compute. reflexivity. Qed.

Lemma state_reachable : reachable hash state.
Proof.
  apply rtc_once. apply (step_ioctl hash fs 7 [] PADLOCK_GUARD_IOCTL_REGISTER (Some request) true guard_init 0 None).
  - intros r [= <-]. apply request_len.
  - vm_compute. reflexivity.
Qed.

Lemma state_refines : refines hash state abstract.
Proof.
  pose proof (switch_refines hash fs 7 [] PADLOCK_GUARD_IOCTL_REGISTER guard_init ∅ request
                (refines_init hash) request_len) as H.
  assert (ioctl_switch hash fs 7 [] PADLOCK_GUARD_IOCTL_REGISTER guard_init request =
          Some (0, set_rq_flags 1 request, state)) as E1 by (vm_compute; reflexivity).
  assert (a_switch fs 7 [] PADLOCK_GUARD_IOCTL_REGISTER ∅ request =
          Some (0, set_rq_flags 1 request, abstract)) as E2 by (vm_compute; reflexivity).
  unfold step_refines in H. rewrite E1, E2 in H. apply H.
Qed.
End GuardDemo.

Lemma guard_invariant_witness :
  guard_ok GuardDemo.hash GuardDemo.state ∧
  ∃ A, refines GuardDemo.hash GuardDemo.state A ∧ (size A ≤ CAPACITY)%nat.
Proof. apply guard_invariant, GuardDemo.state_reachable. Defined.

Lemma guard_refines_witness :
  match ioctl_switch GuardDemo.hash GuardDemo.fs 7 [] PADLOCK_GUARD_IOCTL_QUERY GuardDemo.state GuardDemo.request,
        a_switch GuardDemo.fs 7 [] PADLOCK_GUARD_IOCTL_QUERY GuardDemo.abstract GuardDemo.request with
  | Some (res, r1, g'), Some (res', r2, A') => res = res' ∧ r1 = r2 ∧ refines GuardDemo.hash g' A'
  | None, None => True
  | _, _ => False
  end.
Proof. apply guard_refines; [apply GuardDemo.state_refines|apply GuardDemo.request_len]. Defined.

Lemma probes_enforce_witness :
  ∃ A, refines GuardDemo.hash GuardDemo.state A ∧
    let regs := Regs 16 0 32 in
    let verdict := if a_deny A 7 GuardDemo.id then (1, Regs 16 (- EPERM) 16) else (0, regs) in
    padlock_guard_kprobe_file_permission GuardDemo.hash GuardDemo.state 7 (Some (Some GuardDemo.id)) 2 regs = verdict ∧
    padlock_guard_kprobe_file_truncate GuardDemo.hash GuardDemo.state 7 (Some (Some GuardDemo.id)) regs = verdict ∧
    padlock_guard_kprobe_path_unlink GuardDemo.hash GuardDemo.state 7 (Some (Some GuardDemo.id)) regs = verdict ∧
    (∀ target, padlock_guard_kprobe_path_rename GuardDemo.hash GuardDemo.state 7 (Some (Some GuardDemo.id)) target regs = verdict) ∧
    padlock_guard_kprobe_path_truncate GuardDemo.hash GuardDemo.state 7 (Some (Some (Some GuardDemo.id))) regs = verdict.
Proof. apply (probes_enforce GuardDemo.hash GuardDemo.state 7 GuardDemo.id 2 (Regs 16 0 32)); [apply GuardDemo.state_reachable|done]. Defined.

Definition guard_demo_open : guard :=
  match begin_cmd GuardDemo.hash GuardDemo.fs 7 [0; 5] GuardDemo.request GuardDemo.state with
  | Some (_, _, g) => g
  | None => GuardDemo.state
  end.

Lemma guard_demo_open_reachable : reachable GuardDemo.hash guard_demo_open.
Proof.
  apply (rtc_r _ GuardDemo.state); [apply GuardDemo.state_reachable|].
  apply (step_ioctl GuardDemo.hash GuardDemo.fs 7 [0; 5] PADLOCK_GUARD_IOCTL_BEGIN_WRITE (Some GuardDemo.request) true
           GuardDemo.state 0 (Some (GuardRequest (rq_path GuardDemo.request) 0 100 5 3 0))).
  - intros r [= <-]. apply GuardDemo.request_len.
  - vm_compute. reflexivity.
Qed.

Definition guard_demo_entry : padlock_guard_entry := default zero_entry (view GuardDemo.hash guard_demo_open GuardDemo.id).

Lemma one_writer_witness :
  7 = 7 ∧ session_active guard_demo_entry = true ∧ writer_tgid guard_demo_entry = 7.
Proof.
  apply (one_writer GuardDemo.hash guard_demo_open GuardDemo.id guard_demo_entry 7 7);
    [apply guard_demo_open_reachable|vm_compute; reflexivity..].
Defined.

Lemma session_lifecycle_witness :
  let r1 := GuardRequest (rq_path GuardDemo.request) 0 100 5 3 0 in
  let r2 := GuardRequest (rq_path GuardDemo.request) 0 100 9 0 0 in
  ∃ g1 g2 g3 g4 A1,
    begin_cmd GuardDemo.hash GuardDemo.fs 7 [0; 5] GuardDemo.request GuardDemo.state = Some (0, Some r1, g1) ∧
    refines GuardDemo.hash g1 A1 ∧
    (∀ t, padlock_guard_deny_file GuardDemo.hash g1 t (Some (Some GuardDemo.id)) = negb (7 =? t)) ∧
    begin_cmd GuardDemo.hash GuardDemo.fs 8 [0; 5] GuardDemo.request g1 = Some (- EBUSY, None, g2) ∧
    refines GuardDemo.hash g2 A1 ∧
    end_cmd GuardDemo.hash GuardDemo.fs 8 r2 g1 = Some (- EPERM, None, g3) ∧ refines GuardDemo.hash g3 A1 ∧
    end_cmd GuardDemo.hash GuardDemo.fs 7 r1 g1 = Some (0, None, g4) ∧ refines GuardDemo.hash g4 GuardDemo.abstract.
Proof.
  apply (session_lifecycle GuardDemo.hash GuardDemo.state GuardDemo.abstract GuardDemo.fs GuardDemo.request
           GuardDemo.id GuardDemo.protected 7 8 [0; 5] 5 9);
    [apply GuardDemo.state_refines|apply GuardDemo.request_len|vm_compute; reflexivity..|done].
Defined.

Lemma unregister_needs_no_session_witness :
  ∃ g', padlock_guard_ioctl GuardDemo.hash GuardDemo.fs 9 [] PADLOCK_GUARD_IOCTL_UNREGISTER
          (Some GuardDemo.request) true GuardDemo.state = Some (0, None, g') ∧
    refines GuardDemo.hash g' (delete GuardDemo.id GuardDemo.abstract) ∧
    ∀ t, padlock_guard_deny_file GuardDemo.hash g' t (Some (Some GuardDemo.id)) = false.
Proof.
  apply unregister_needs_no_session; [apply GuardDemo.state_refines|apply GuardDemo.request_len|vm_compute; reflexivity].
Defined.

Lemma unterminated_path_witness :
  padlock_guard_ioctl GuardDemo.hash GuardDemo.fs 9 [] PADLOCK_GUARD_IOCTL_QUERY
    (Some (GuardRequest (replicate 4096 Byte.x61) 0 0 0 0 0)) true GuardDemo.state = None.
Proof.
  apply (unterminated_path GuardDemo.hash GuardDemo.state GuardDemo.fs 9 []
           (GuardRequest (replicate 4096 Byte.x61) 0 0 0 0 0) PADLOCK_GUARD_IOCTL_QUERY true).
  - vm_compute. reflexivity.
  - intros H. apply elem_of_replicate_inv in H. done.
  - set_solver.
Defined.

