(* ===== verification/Config.v ===== *)
(** * Sizes and the default path ([src/src/padlock.c]: [padlock_parse_size],
    [padlock_default_store_path])

    [strtoull] and [strcasecmp] are the C library's, in the C locale; strings are the
    bytes of a C string without its terminator. *)

From S2P Require Import Prelude World Libc.

(** ** The C library *)

Definition is_digit (b : byte) : bool := (48 <=? bval b) && (bval b <=? 57).

Definition isspace (b : byte) : bool := (bval b =? 32) || ((9 <=? bval b) && (bval b <=? 13)).

Fixpoint skip_spaces (s : list byte) : list byte :=
  match s with
  | b :: s' => if isspace b then skip_spaces s' else s
  | [] => []
  end.

Definition digit_value (b : byte) : Z := bval b - 48.

(** The digits at the front, as a number after [acc], and what follows. *)
Fixpoint scan_digits (acc : Z) (s : list byte) : Z * list byte :=
  match s with
  | b :: s' => if is_digit b then scan_digits (acc * 10 + digit_value b) s' else (acc, s)
  | [] => (acc, [])
  end.

Definition ULLONG_MAX : Z := 2 ^ 64 - 1.

(** [strtoull] in base 10: number, error number and what follows; [None] when nothing
    was converted.  A minus sign negates modulo [2^64]. *)
Definition strtoull (s : list byte) : option (Z * Z * list byte) :=
  let s := skip_spaces s in
  let '(negative, s) := match s with
                        | b :: s' => if bval b =? 45 then (true, s')
                                     else if bval b =? 43 then (false, s') else (false, s)
                        | [] => (false, [])
                        end in
  match s with
  | b :: _ =>
      if is_digit b then
        let '(n, rest) := scan_digits 0 s in
        if n >? ULLONG_MAX then Some (ULLONG_MAX, ERANGE, rest)
        else Some (if negative : bool then u64 (- n) else n, 0, rest)
      else None
  | [] => None
  end.

Definition toupper (b : byte) : byte :=
  if (97 <=? bval b) && (bval b <=? 122) then zbyte (bval b - 32) else b.

(** [strcasecmp (s, t) == 0] *)
Definition strcasecmp_eq (s t : list byte) : bool := bool_decide ((toupper <$> s) = (toupper <$> t)).

(** ** [padlock_parse_size] *)

(** The chain of comparisons on the suffix. *)
Definition size_multiplier (rest : list byte) : option Z :=
  if strcasecmp_eq rest (bstr "KB") || strcasecmp_eq rest (bstr "K") then Some 1024
  else if strcasecmp_eq rest (bstr "MB") || strcasecmp_eq rest (bstr "M") then Some (1024 * 1024)
  else if strcasecmp_eq rest (bstr "GB") || strcasecmp_eq rest (bstr "G") then Some (1024 * 1024 * 1024)
  else if negb (strcasecmp_eq rest (bstr "B")) && negb (bool_decide (rest = [])) then None
  else Some 1.

(** The value stored in [*bytes], which is not null; [None] is the result -1. *)
Definition padlock_parse_size (value : option (list byte)) : M (option Z) :=
  match value with
  | None => set_errno EINVAL;; mret None
  | Some value =>
      if bool_decide (value = []) then set_errno EINVAL;; mret None else
      set_errno 0;;
      match strtoull value with
      | None => mret None
      | Some (number, err, rest) =>
          if negb (err =? 0) then set_errno err;; mret None else
          match size_multiplier rest with
          | None => mret None
          | Some multiplier =>
              if number >? ULLONG_MAX / multiplier then mret None else
              mret (Some (u64 (number * multiplier)))
          end
      end
  end.

(** ** [padlock_default_store_path] *)

(** The string fits a buffer of [n] bytes and is not empty. *)
Definition snprintf_fits (n : Z) (text : list byte) : bool := (0 <? len text) && (len text <? n).

(** The result and the string in the buffer ([None]: not written). *)
Definition padlock_default_store_path (buffer_length : Z) : M (Z * option (list byte)) :=
  home ← getenv (bstr "HOME");
  store_root ← getenv (bstr "PADLOCK_STORE_ROOT");
  if buffer_length =? 0 then set_errno EINVAL;; mret (-1, None) else
  let finish text := mret (if snprintf_fits buffer_length text then 0 else -1,
                           Some (snprintf_text buffer_length text)) in
  match store_root with
  | Some (b :: root) => finish ((b :: root) ++ bstr "/store.plk")
  | _ =>
      match home with
      | None => set_errno EINVAL;; mret (-1, None)
      | Some home => finish (home ++ bstr "/.padlock/store.plk")
      end
  end.

(** ** [padlock_version] *)

Definition PADLOCK_VERSION : list byte := bstr "0.1.0".
Definition padlock_version : list byte := PADLOCK_VERSION.

(** ** Decimal numbers *)

(** The decimal digits of a number, and the number digits stand for. *)
Fixpoint decimal_from (fuel : nat) (n : Z) (acc : list byte) : list byte :=
  match fuel with
  | O => acc
  | S fuel =>
      let acc := zbyte (48 + n mod 10) :: acc in
      if n / 10 =? 0 then acc else decimal_from fuel (n / 10) acc
  end.

Definition decimal (n : Z) : list byte := decimal_from (S (Z.to_nat (Z.log2 n))) n [].

Lemma digit_spec d : 0 ≤ d < 10 → is_digit (zbyte (48 + d)) = true ∧ digit_value (zbyte (48 + d)) = d.
Proof.
  intros Hd. unfold is_digit, digit_value. rewrite bval_zbyte_small by lia. split; [|lia].
  by rewrite (proj2 (Z.leb_le _ _)), (proj2 (Z.leb_le _ 57)) by lia.
Qed.

(** Reading what [decimal_from] wrote in front of [acc]. *)
Lemma scan_decimal fuel : ∀ n acc, 0 ≤ n < 2 ^ Z.of_nat fuel → (0 < fuel)%nat →
  ∃ p, 0 ≤ p ∧ ∀ a, scan_digits a (decimal_from fuel n acc) = scan_digits (a * 10 ^ p + n) acc.
Proof.
  induction fuel as [|fuel IH]; intros n acc Hn Hf; [lia|]. cbn [decimal_from].
  pose proof (Z.mod_pos_bound n 10 ltac:(lia)) as Hm. pose proof (Z.div_mod n 10 ltac:(lia)) as Hd.
  destruct (digit_spec (n mod 10) Hm) as [D1 D2]. destruct (Z.eqb_spec (n / 10) 0) as [E|E].
  - exists 1. split; [lia|]. intros a. cbn [scan_digits]. rewrite D1, D2. f_equal. lia.
  - rewrite Nat2Z.inj_succ, Z.pow_succ_r in Hn by lia.
    destruct (IH (n / 10) (zbyte (48 + n mod 10) :: acc)) as (p & Hp & Hs); [lia| |].
    { destruct fuel; [cbn in Hn; lia|lia]. }
    exists (p + 1). rewrite Z.pow_add_r by lia. split; [lia|]. intros a. rewrite Hs. cbn [scan_digits].
    rewrite D1, D2. f_equal. lia.
Qed.

Lemma decimal_starts fuel : ∀ n acc, 0 ≤ n → (0 < fuel)%nat →
  ∃ b l, decimal_from fuel n acc = b :: l ∧ is_digit b = true.
Proof.
  induction fuel as [|fuel IH]; intros n acc Hn Hf; [lia|]. cbn [decimal_from].
  pose proof (Z.mod_pos_bound n 10 ltac:(lia)) as Hm. destruct (digit_spec (n mod 10) Hm) as [D1 _].
  destruct (n / 10 =? 0); [by eexists _, _|]. destruct fuel; [by eexists _, _|].
  apply IH; [apply Z.div_pos; lia|lia].
Qed.

Lemma decimal_from_app fuel : ∀ n acc rest, decimal_from fuel n acc ++ rest = decimal_from fuel n (acc ++ rest).
Proof. induction fuel as [|fuel IH]; intros n acc rest; cbn [decimal_from]; [done|]. case_match; [done|]. by rewrite IH. Qed.

(** A number in decimal is what [strtoull] reads back, up to the first other byte. *)
Lemma strtoull_decimal n rest :
  0 ≤ n → match rest with b :: _ => is_digit b = false | [] => True end →
  strtoull (decimal n ++ rest) =
    Some (if n >? ULLONG_MAX then (ULLONG_MAX, ERANGE, rest) else (n, 0, rest)).
Proof.
  intros Hn Hrest. unfold decimal. rewrite decimal_from_app. cbn [app]. set (fuel := S _).
  assert (n < 2 ^ Z.of_nat fuel) as Hfuel.
  { unfold fuel. rewrite Nat2Z.inj_succ, Z2Nat.id by apply Z.log2_nonneg.
    destruct (decide (n = 0)) as [->|]; [done|]. apply Z.log2_spec. lia. }
  destruct (scan_decimal fuel n rest) as (p & Hp & Hs); [lia|lia|].
  destruct (decimal_starts fuel n rest) as (b & l & Hb & Hd); [done|lia|].
  specialize (Hs 0). rewrite Z.mul_0_l, Z.add_0_l in Hs. rewrite Hb in *.
  assert (scan_digits n rest = (n, rest)) as Er by (destruct rest as [|c rest]; cbn; [done|by rewrite Hrest]).
  pose proof Hd as Hd'. unfold is_digit in Hd'. apply andb_true_iff in Hd' as [D1%Z.leb_le D2%Z.leb_le].
  unfold strtoull. cbn [skip_spaces]. unfold isspace.
  rewrite (proj2 (Z.eqb_neq _ 32)), (proj2 (Z.leb_gt _ 13)), andb_false_r by lia. cbn [orb].
  rewrite (proj2 (Z.eqb_neq _ 45)), (proj2 (Z.eqb_neq _ 43)) by lia. rewrite Hd, Hs, Er.
  by destruct (n >? ULLONG_MAX).
Qed.

(** ** Properties *)

(** The suffixes and what they stand for. *)
Definition size_units : list (list byte * Z) :=
  [(bstr "KB", 2 ^ 10); (bstr "kb", 2 ^ 10); (bstr "K", 2 ^ 10); (bstr "k", 2 ^ 10);
   (bstr "MB", 2 ^ 20); (bstr "mb", 2 ^ 20); (bstr "M", 2 ^ 20); (bstr "m", 2 ^ 20);
   (bstr "GB", 2 ^ 30); (bstr "gb", 2 ^ 30); (bstr "G", 2 ^ 30); (bstr "g", 2 ^ 30);
   (bstr "B", 1); (bstr "b", 1); ([], 1)].

(** C29: a decimal number with a unit is parsed to exactly the number of bytes it stands
    for, and refused exactly when that does not fit 64 bits: no overflow is ever
    stored.  [errno] is [ERANGE] when the number alone does not fit, 0 otherwise. *)
Theorem parse_size_exact n unit m s c :
  0 ≤ n → (unit, m) ∈ size_units →
  padlock_parse_size (Some (decimal n ++ unit)) s c =
    Ret (if n * m <? 2 ^ 64 then Some (n * m) else None)
        (set_errno_s (if n <? 2 ^ 64 then 0 else ERANGE) s) c.
Proof.
  intros Hn Hu. unfold padlock_parse_size.
  assert (0 < m ∧ size_multiplier unit = Some m ∧ match unit with b :: _ => is_digit b = false | [] => True end) as (Hm & Hmul & Hd).
  { unfold size_units in Hu.
    repeat (apply elem_of_cons in Hu as [[= -> ->]|Hu]; [split_and!; by vm_compute|]). by apply elem_of_nil in Hu. }
  rewrite bool_decide_eq_false_2.
  2: { destruct (decimal_starts (S (Z.to_nat (Z.log2 n))) n []) as (b & l & E & _); [done|lia|].
       unfold decimal. by rewrite E. }
  rewrite strtoull_decimal by done. rewrite Z.gtb_ltb. unfold ULLONG_MAX.
  destruct (Z.ltb_spec (2 ^ 64 - 1) n) as [Hbig|Hsmall].
  - cbn [ERANGE Z.eqb negb]. rewrite (proj2 (Z.ltb_ge _ _)), (proj2 (Z.ltb_ge n _)); [done|lia|nia].
  - cbn [Z.eqb negb]. rewrite Hmul, (proj2 (Z.ltb_lt n _)) by lia. rewrite Z.gtb_ltb.
    destruct (Z.ltb_spec ((2 ^ 64 - 1) / m) n) as [Hgt|Hle].
    + rewrite (proj2 (Z.ltb_ge _ _)); [done|].
      pose proof (Z.mul_succ_div_gt (2 ^ 64 - 1) m Hm). nia.
    + pose proof (Z.mul_div_le (2 ^ 64 - 1) m Hm). rewrite (proj2 (Z.ltb_lt _ _)) by nia.
      rewrite u64_small by nia. done.
Qed.

Lemma parse_size_exact_witness :
  let s := Sys ∅ ∅ ∅ ∅ ∅ [] [] 0 ∅ no_io in let c := Ctl [] (λ _, Byte.x00) 0 in
  padlock_parse_size (Some (bstr "10MB")) s c = Ret (Some 10485760) (set_errno_s 0 s) c.
Proof. apply (parse_size_exact 10 (bstr "MB") (2 ^ 20)); [lia|]. unfold size_units. set_solver. Defined.



