(* ===== verification/Tss.v ===== *)
(** * The TPM software stack

    [src/src/padlock.c] reaches the TPM through tpm2-tss: the ESYS calls, the TCTI
    loader and the marshalling functions.  The structures below are those of
    [src/third_party/tpm2-tss/include/tss2/tss2_tpm2_types.h], with the fields the
    code sets; a [TPM2B] byte string is the list of its [size] bytes.  The library and
    the TPM are the class [Tss], what the code relies on [TssLaws]; [ToyTpm] is an
    instance with the laws proved, for evaluation.

    A context or an output block is a live block of the heap; an [ESYS_TR] handle is a
    transient object in the TPM, recorded in [io_tpm].  A handle carries its object
    the way a pointer carries its block.  Authorisation values are empty
    throughout, so [Esys_TR_SetAuth] has no effect but its result. *)

From S2P Require Import Prelude World Posix Codec Openssl.

Definition TPM2_ALG_RSA : Z := 0x0001.
Definition TPM2_ALG_AES : Z := 0x0006.
Definition TPM2_ALG_KEYEDHASH : Z := 0x0008.
Definition TPM2_ALG_SHA256 : Z := 0x000B.
Definition TPM2_ALG_NULL : Z := 0x0010.
Definition TPM2_ALG_CFB : Z := 0x0043.

Definition TPMA_OBJECT_FIXEDTPM : Z := 0x00000002.
Definition TPMA_OBJECT_FIXEDPARENT : Z := 0x00000010.
Definition TPMA_OBJECT_SENSITIVEDATAORIGIN : Z := 0x00000020.
Definition TPMA_OBJECT_USERWITHAUTH : Z := 0x00000040.
Definition TPMA_OBJECT_RESTRICTED : Z := 0x00010000.
Definition TPMA_OBJECT_DECRYPT : Z := 0x00020000.
Definition TPMA_OBJECT_SIGN_ENCRYPT : Z := 0x00040000.

(** The members of the union the code uses. *)
Inductive TPMU_PUBLIC_PARMS :=
  | rsaDetail (sym_algorithm sym_keyBits sym_mode scheme keyBits exponent : Z)
  | keyedHashDetail (scheme : Z).

Record TPMT_PUBLIC := TpmtPublic {
  pa_type : Z;
  pa_nameAlg : Z;
  pa_objectAttributes : Z;
  pa_authPolicy : list byte;
  pa_parameters : TPMU_PUBLIC_PARMS;
  pa_unique : list byte
}.

Record TPM2B_PUBLIC := Tpm2bPublic { pb_size : Z; pb_publicArea : TPMT_PUBLIC }.
Record TPM2B_PRIVATE := Tpm2bPrivate { pv_buffer : list byte }.
Record TPM2B_SENSITIVE_CREATE := Tpm2bSensitiveCreate { sc_userAuth : list byte; sc_data : list byte }.

Definition no_sensitive : TPM2B_SENSITIVE_CREATE := Tpm2bSensitiveCreate [] [].

Class Tss := {
  sizeof_TPM2B_PUBLIC : Z;
  sizeof_TPM2B_PRIVATE : Z;
  (** the bytes written to a buffer of the given size *)
  Tss2_MU_TPM2B_PUBLIC_Marshal : TPM2B_PUBLIC → Z → option (list byte);
  Tss2_MU_TPM2B_PRIVATE_Marshal : TPM2B_PRIVATE → Z → option (list byte);
  (** the structure and the number of bytes it took *)
  Tss2_MU_TPM2B_PUBLIC_Unmarshal : list byte → option (TPM2B_PUBLIC * Z);
  Tss2_MU_TPM2B_PRIVATE_Unmarshal : list byte → option (TPM2B_PRIVATE * Z);
  tpm_primary : Type;
  tpm_object : Type;
  (** a primary object under the owner's seed *)
  TPM2_CreatePrimary : TPM2B_SENSITIVE_CREATE → TPM2B_PUBLIC → option tpm_primary;
  (** an object under a primary; the last argument is the TPM's randomness *)
  TPM2_Create : tpm_primary → TPM2B_SENSITIVE_CREATE → TPM2B_PUBLIC → list byte →
    option (TPM2B_PRIVATE * TPM2B_PUBLIC);
  TPM2_Load : tpm_primary → TPM2B_PRIVATE → TPM2B_PUBLIC → option tpm_object;
  TPM2_Unseal : tpm_object → option (list byte)
}.

Definition has_bits (attributes bits : Z) : bool := Z.land attributes bits =? bits.
Definition lacks_bits (attributes bits : Z) : bool := Z.land attributes bits =? 0.

(** A template of a storage key: a restricted decryption key with a symmetric cipher,
    used with an authorisation value, whose secret the TPM makes. *)
Definition storage_template (p : TPM2B_PUBLIC) : bool :=
  let a := pb_publicArea p in
  (pa_type a =? TPM2_ALG_RSA) && (pa_nameAlg a =? TPM2_ALG_SHA256) &&
  has_bits (pa_objectAttributes a)
    (Z.lor TPMA_OBJECT_RESTRICTED (Z.lor TPMA_OBJECT_DECRYPT
       (Z.lor TPMA_OBJECT_USERWITHAUTH TPMA_OBJECT_SENSITIVEDATAORIGIN))) &&
  lacks_bits (pa_objectAttributes a) TPMA_OBJECT_SIGN_ENCRYPT &&
  bool_decide (pa_authPolicy a = []) && bool_decide (pa_unique a = []) &&
  match pa_parameters a with
  | rsaDetail alg bits mode scheme keyBits exponent =>
      (alg =? TPM2_ALG_AES) && (bits =? 128) && (mode =? TPM2_ALG_CFB) && (scheme =? TPM2_ALG_NULL) &&
      (keyBits =? 2048) && (exponent =? 0)
  | keyedHashDetail _ => false
  end.

(** A template of a sealed data object: neither a key nor made by the TPM, used with an
    authorisation value. *)
Definition seal_template (p : TPM2B_PUBLIC) : bool :=
  let a := pb_publicArea p in
  (pa_type a =? TPM2_ALG_KEYEDHASH) && (pa_nameAlg a =? TPM2_ALG_SHA256) &&
  has_bits (pa_objectAttributes a) TPMA_OBJECT_USERWITHAUTH &&
  lacks_bits (pa_objectAttributes a)
    (Z.lor TPMA_OBJECT_RESTRICTED (Z.lor TPMA_OBJECT_DECRYPT
       (Z.lor TPMA_OBJECT_SIGN_ENCRYPT TPMA_OBJECT_SENSITIVEDATAORIGIN))) &&
  bool_decide (pa_authPolicy a = []) && bool_decide (pa_unique a = []) &&
  match pa_parameters a with
  | keyedHashDetail scheme => scheme =? TPM2_ALG_NULL
  | rsaDetail _ _ _ _ _ _ => false
  end.

Class TssLaws (T : Tss) := {
  sizeof_public_pos : 0 < sizeof_TPM2B_PUBLIC;
  sizeof_private_pos : 0 < sizeof_TPM2B_PRIVATE;
  public_marshal_fits p n b : Tss2_MU_TPM2B_PUBLIC_Marshal p n = Some b → 0 < len b ≤ n;
  private_marshal_fits p n b : Tss2_MU_TPM2B_PRIVATE_Marshal p n = Some b → 0 < len b ≤ n;
  create_primary_ok p : storage_template p = true → is_Some (TPM2_CreatePrimary no_sensitive p);
  create_ok p tmpl auth data r :
    seal_template tmpl = true → 0 < len data ≤ 128 →
    is_Some (TPM2_Create p (Tpm2bSensitiveCreate auth data) tmpl r);
  (** what was created can be marshalled and read back, and under the same primary it
      opens to the data *)
  created_public_marshal p sens tmpl r prv pub :
    TPM2_Create p sens tmpl r = Some (prv, pub) →
    ∃ b, Tss2_MU_TPM2B_PUBLIC_Marshal pub sizeof_TPM2B_PUBLIC = Some b ∧
      Tss2_MU_TPM2B_PUBLIC_Unmarshal b = Some (pub, len b);
  created_private_marshal p sens tmpl r prv pub :
    TPM2_Create p sens tmpl r = Some (prv, pub) →
    ∃ b, Tss2_MU_TPM2B_PRIVATE_Marshal prv sizeof_TPM2B_PRIVATE = Some b ∧
      Tss2_MU_TPM2B_PRIVATE_Unmarshal b = Some (prv, len b);
  created_unseals p sens tmpl r prv pub :
    seal_template tmpl = true → TPM2_Create p sens tmpl r = Some (prv, pub) →
    ∃ o, TPM2_Load p prv pub = Some o ∧ TPM2_Unseal o = Some (sc_data sens)
}.

(** ** The calls as C functions *)

(** Contexts and blocks of the library: an allocation, and a release of something live. *)
Definition context_new : M (option nat) := fallible None (i ← new_id; mret (Some i)).

Definition context_drop (i : nat) : M unit :=
  s ← get_sys;
  if decide (i ∈ s_live s) then modify (λ s, set_live (s_live s ∖ {[i]}) s) else undef.

Definition Tss2_TctiLdr_Initialize (conf : list byte) : M (option nat) := context_new.
Definition Tss2_TctiLdr_Finalize (tcti : nat) : M unit := context_drop tcti.
Definition Esys_Initialize (tcti : nat) : M (option nat) := context_new.
Definition Esys_Finalize (esys : nat) : M unit := context_drop esys.

(** An ESYS call on a context that must be live; [err] when the library or the TPM
    fails. *)
Definition esys_call {A} (esys : nat) (err : A) (run : M A) : M A :=
  s ← get_sys;
  if decide (esys ∈ s_live s) then fallible err run else undef.

Record handle (A : Type) := Handle { h_id : nat; h_obj : A }.
Arguments Handle {A} h_id h_obj.
Arguments h_id {A} h.
Arguments h_obj {A} h.

Definition set_tpm (x : gset nat) (s : sys) : sys :=
  set_io (Io x (io_stdin (s_io s)) (io_stdout (s_io s)) (io_stderr (s_io s)) (io_echo (s_io s))) s.

Definition new_handle {A} (o : A) : M (handle A) :=
  s ← get_sys;
  let i := fresh (io_tpm (s_io s)) in
  modify (set_tpm ({[i]} ∪ io_tpm (s_io s)));; mret (Handle i o).

(** [n] output blocks; what they hold is public or encrypted, and is not traced. *)
Fixpoint output_blocks (n : nat) : M (list buf) :=
  match n with
  | O => mret []
  | S n => i ← new_id; l ← output_blocks n; mret (Buf i [] :: l)
  end.

Definition Esys_Free (p : option buf) : M unit := free p.

Section Calls.
Context {T : Tss}.

(** [false]: not [TSS2_RC_SUCCESS]. *)
Definition Esys_TR_SetAuth (esys : nat) : M bool := esys_call esys false (mret true).

(** The handle, and the blocks for the public area, the creation data, hash and
    ticket. *)
Definition Esys_CreatePrimary (esys : nat) (sens : TPM2B_SENSITIVE_CREATE) (tmpl : TPM2B_PUBLIC) :
    M (option (handle tpm_primary * list buf)) :=
  esys_call esys None
    match TPM2_CreatePrimary sens tmpl with
    | None => mret None
    | Some p => h ← new_handle p; l ← output_blocks 4; mret (Some (h, l))
    end.

(** The private and the public part, and the blocks for both, the creation data, hash and
    ticket. *)
Definition Esys_Create (esys : nat) (primary : handle tpm_primary) (sens : TPM2B_SENSITIVE_CREATE)
    (tmpl : TPM2B_PUBLIC) : M (option (TPM2B_PRIVATE * TPM2B_PUBLIC * list buf)) :=
  esys_call esys None
    (r ← draw 16;
     match TPM2_Create (h_obj primary) sens tmpl r with
     | None => mret None
     | Some (prv, pub) => l ← output_blocks 5; mret (Some (prv, pub, l))
     end).

Definition Esys_Load (esys : nat) (primary : handle tpm_primary) (prv : TPM2B_PRIVATE) (pub : TPM2B_PUBLIC) :
    M (option (handle tpm_object)) :=
  esys_call esys None
    match TPM2_Load (h_obj primary) prv pub with
    | None => mret None
    | Some o => h ← new_handle o; mret (Some h)
    end.

(** The block with the unsealed data. *)
Definition Esys_Unseal (esys : nat) (item : handle tpm_object) : M (option buf) :=
  esys_call esys None
    match TPM2_Unseal (h_obj item) with
    | None => mret None
    | Some d => new_block d
    end.

(** The object leaves the TPM, unless the call fails. *)
Definition Esys_FlushContext {A} (esys : nat) (h : handle A) : M Z :=
  esys_call esys (-1)
    (modify (λ s, set_tpm (io_tpm (s_io s) ∖ {[h_id h]}) s);; mret 0).
End Calls.

(** ** A toy TPM

    An instance to evaluate the code on: sealing flips bits, the public part is a constant. *)

Module ToyTpm.
Definition flip (d : list byte) : list byte := Toy.mask Byte.x5a d.

Definition public : TPM2B_PUBLIC :=
  Tpm2bPublic 0 (TpmtPublic TPM2_ALG_KEYEDHASH TPM2_ALG_SHA256 0 [] (keyedHashDetail TPM2_ALG_NULL) []).

Definition private_bytes (p : TPM2B_PRIVATE) : list byte := zbyte (len (pv_buffer p)) :: pv_buffer p.

Definition toy : Tss := {|
  sizeof_TPM2B_PUBLIC := 8;
  sizeof_TPM2B_PRIVATE := 256;
  Tss2_MU_TPM2B_PUBLIC_Marshal p n := if 1 <=? n then Some [Byte.x01] else None;
  Tss2_MU_TPM2B_PRIVATE_Marshal p n := if len (private_bytes p) <=? n then Some (private_bytes p) else None;
  Tss2_MU_TPM2B_PUBLIC_Unmarshal b := match b with Byte.x01 :: _ => Some (public, 1) | _ => None end;
  Tss2_MU_TPM2B_PRIVATE_Unmarshal b :=
    match b with
    | n :: d => if bval n <=? len d then Some (Tpm2bPrivate (sub 0 (bval n) d), 1 + bval n) else None
    | [] => None
    end;
  tpm_primary := unit;
  tpm_object := list byte;
  TPM2_CreatePrimary sens tmpl := if storage_template tmpl then Some tt else None;
  TPM2_Create p sens tmpl r :=
    if seal_template tmpl && (0 <? len (sc_data sens)) && (len (sc_data sens) <=? 128)
    then Some (Tpm2bPrivate (flip (sc_data sens)), public) else None;
  TPM2_Load p prv pub := Some (pv_buffer prv);
  TPM2_Unseal o := Some (flip o)
|}.

Lemma flip_flip d : flip (flip d) = d.
Proof. apply Toy.mask_mask. Qed.

Lemma create_inv p sens tmpl r prv pub :
  @TPM2_Create toy p sens tmpl r = Some (prv, pub) →
  0 < len (sc_data sens) ≤ 128 ∧ prv = Tpm2bPrivate (flip (sc_data sens)) ∧ pub = public.
Proof.
  cbn [TPM2_Create toy]. destruct (seal_template tmpl); [|done]. cbn [andb].
  destruct (Z.ltb_spec 0 (len (sc_data sens))); [|done]. destruct (Z.leb_spec (len (sc_data sens)) 128); [|done].
  cbn [andb]. intros [= <- <-]. split_and!; [lia..|done|done].
Qed.

Definition toy_laws : TssLaws toy.
Proof.
  split.
  - done.
  - done.
  - cbn. intros p n b. destruct (Z.leb_spec 1 n); [|done]. intros [= <-]. cbn. lia.
  - cbn [Tss2_MU_TPM2B_PRIVATE_Marshal toy]. intros p n b. destruct (Z.leb_spec (len (private_bytes p)) n); [|done].
    intros [= <-]. split; [unfold private_bytes; cbn [length]; lia|done].
  - intros p Hp. cbn [TPM2_CreatePrimary toy]. rewrite Hp. eauto.
  - intros p tmpl auth data r Ht [H1 H2]. cbn [TPM2_Create toy sc_data]. rewrite Ht.
    rewrite (proj2 (Z.ltb_lt _ _) H1), (proj2 (Z.leb_le _ _) H2). eauto.
  - intros p sens tmpl r prv pub (_ & _ & ->)%create_inv. by exists [Byte.x01].
  - intros p sens tmpl r prv pub ([_ Hl] & -> & _)%create_inv. cbn [Tss2_MU_TPM2B_PRIVATE_Marshal Tss2_MU_TPM2B_PRIVATE_Unmarshal toy].
    set (d := flip (sc_data sens)). assert (len d ≤ 128) as Hd by (unfold d, flip, Toy.mask; by rewrite length_fmap).
    exists (private_bytes (Tpm2bPrivate d)). unfold private_bytes. cbn [pv_buffer sizeof_TPM2B_PRIVATE toy].
    assert (len (zbyte (len d) :: d) = 1 + len d) as Hl' by (cbn [length]; lia).
    rewrite (proj2 (Z.leb_le _ _)) by lia. split; [done|]. rewrite bval_zbyte_small by lia.
    rewrite Z.leb_refl. rewrite sub_all by lia. by rewrite Hl'.
  - intros p sens tmpl r prv pub _ (_ & -> & ->)%create_inv. cbn [TPM2_Load TPM2_Unseal toy pv_buffer].
    eexists. split; [done|]. by rewrite flip_flip.
Qed.
End ToyTpm.
