(* ===== verification/Core.v ===== *)
(** * Weakest preconditions up to what does not matter

    The code around the TPM uses several streams, blocks and handles at a time, and
    its contracts say nothing about [errno], the residue, the write log or the modes of
    files.  [core s] forgets these four; [cwp nf U m Q t] is the weakest precondition of [m]
    in the states whose core is [t], with the postcondition on cores.  The rules have the
    shape of those of [wp], and the states stay small. *)

From S2P Require Import Prelude World Posix Codec Openssl Header Secret Tss.

Definition forget_mode (n : inode) : inode := Inode (i_dir n) 0 (i_data n).

Definition core (s : sys) : sys :=
  Sys (s_names s) (forget_mode <$> s_inodes s) (s_fds s) (s_streams s) (s_live s) [] [] 0 (s_env s) (s_io s).

Definition cwp {A} (nf : bool) (U : Prop) (m : M A) (Q : A → sys → Prop) (t : sys) : Prop :=
  ∀ s, core s = t → wp nf U m (λ a s', Q a (core s')) s.

Lemma core_inode s i : s_inodes (core s) !! i = forget_mode <$> s_inodes s !! i.
Proof. apply lookup_fmap. Qed.

Lemma core_data s i : i_data <$> s_inodes (core s) !! i = i_data <$> s_inodes s !! i.
Proof. rewrite core_inode. by destruct (s_inodes s !! i). Qed.

Lemma core_is_dir s p : is_dir (core s) p = is_dir s p.
Proof.
  unfold is_dir. cbn [core s_names]. destruct (s_names s !! p) as [i|]; [|done]. rewrite core_inode.
  by destruct (s_inodes s !! i).
Qed.

Lemma core_parent_ok s p : parent_ok (core s) p = parent_ok s p.
Proof. unfold parent_ok. destruct (strrchr_slash p) as [[]|]; [done| |done]. apply core_is_dir. Qed.

(** A regular file [i] with bytes [d]. *)
Definition put_file (i : nat) (d : list byte) (t : sys) : sys :=
  set_inodes (<[i := Inode false 0 d]> (s_inodes t)) t.

Lemma core_file s i d : s_inodes (core s) !! i = Some (Inode false 0 d) → ∃ m, s_inodes s !! i = Some (Inode false m d).
Proof.
  rewrite core_inode. destruct (s_inodes s !! i) as [[dir m d']|]; [|done]. cbn. intros [= -> ->]. by exists m.
Qed.

Lemma core_set_file s i m d :
  core (set_inodes (<[i := Inode false m d]> (s_inodes s)) s) = put_file i d (core s).
Proof. unfold core, put_file, set_inodes. cbn. by rewrite fmap_insert. Qed.

Lemma core_add_name s p i n : core (add_name p i n s) = add_name p i (forget_mode n) (core s).
Proof. unfold core, add_name, set_names, set_inodes. cbn. by rewrite fmap_insert. Qed.

Lemma core_set_mode s i m : core (set_mode i m s) = core s.
Proof.
  unfold set_mode. destruct (s_inodes s !! i) as [n|] eqn:Hi; [|done].
  unfold core, set_inodes. cbn. f_equal. rewrite fmap_insert. apply insert_id. by rewrite lookup_fmap, Hi.
Qed.

Lemma put_file_id t i d : s_inodes t !! i = Some (Inode false 0 d) → put_file i d t = t.
Proof. intros. unfold put_file, set_inodes. rewrite insert_id by done. by destruct t. Qed.

Lemma upd_stream_id f st t : s_streams t !! f = Some st → upd_stream f st t = t.
Proof. intros. unfold upd_stream, set_streams. rewrite insert_id by done. by destruct t. Qed.

Lemma upd_stream_twice f st st' t : upd_stream f st' (upd_stream f st t) = upd_stream f st' t.
Proof. unfold upd_stream, set_streams. cbn. by rewrite insert_insert_eq. Qed.

Lemma upd_stream_comm f st f' st' t :
  f ≠ f' → upd_stream f st (upd_stream f' st' t) = upd_stream f' st' (upd_stream f st t).
Proof. intros. unfold upd_stream, set_streams. cbn. by rewrite insert_insert_ne by done. Qed.

Lemma upd_stream_same f st t : s_streams (upd_stream f st t) !! f = Some st.
Proof. apply lookup_insert_eq. Qed.

Section Rules.
Context (nf : bool) (U : Prop).

Lemma cwp_wp {A} (m : M A) Q s : cwp nf U m Q (core s) → wp nf U m (λ a s', Q a (core s')) s.
Proof. intros H. by apply H. Qed.

Lemma cwp_ret {A} (a : A) Q t : Q a t → cwp nf U (mret a) Q t.
Proof. intros H s <-. by apply wp_ret. Qed.

Lemma cwp_bind {A B} (m : M A) (k : A → M B) Q t :
  cwp nf U m (λ a t', cwp nf U (k a) Q t') t → cwp nf U (m ≫= k) Q t.
Proof.
  intros H s Hs. apply wp_bind. eapply wp_mono; [by apply H|]. intros a s' Hk. by apply Hk.
Qed.

Lemma cwp_mono {A} (m : M A) (Q Q' : A → sys → Prop) t :
  cwp nf U m Q t → (∀ a t', Q a t' → Q' a t') → cwp nf U m Q' t.
Proof. intros H HQ s Hs. eapply wp_mono; [by apply H|]. auto. Qed.

Lemma cwp_set_errno e Q t : Q tt t → cwp nf U (set_errno e) Q t.
Proof. intros H s <-. by apply wp_set_errno. Qed.

Lemma cwp_fail_with {A} e (r : A) Q t : Q r t → cwp nf U (fail_with e r) Q t.
Proof. intros H. by apply cwp_bind, cwp_set_errno, cwp_ret. Qed.

Lemma cwp_leave d Q t : Q tt t → cwp nf U (leave d) Q t.
Proof. intros H s <-. by apply wp_leave. Qed.

Lemma cwp_getenv x Q t : Q (s_env t !! x) t → cwp nf U (getenv x) Q t.
Proof. intros H s <-. by apply wp_getenv. Qed.

Lemma cwp_draw n Q t : 0 ≤ n → (∀ d, len d = n → Q d t) → cwp nf U (draw n) Q t.
Proof. intros Hn H s <-. apply wp_draw; [auto|lia]. Qed.

Lemma cwp_checked_some {A} (o : option A) a Q t : o = Some a → Q a t → cwp nf U (checked o) Q t.
Proof. intros -> H. by apply cwp_ret. Qed.

Lemma cwp_fallible {A} err (run : M A) Q t :
  (nf = false → Q err t) → cwp nf U run Q t → cwp nf U (fallible err run) Q t.
Proof. intros HF HR s Hs. apply wp_fallible; [intros ? e; rewrite <- Hs in HF; by apply HF|by apply HR]. Qed.

Lemma cwp_lib {A} (o : option A) Q t : (nf = false → Q None t) → Q o t → cwp nf U (lib o) Q t.
Proof. intros. apply cwp_fallible; [done|]. by apply cwp_ret. Qed.

(** *** Memory *)

Lemma cwp_new_id Q t : (∀ i, i ∉ s_live t → Q i (alloc_s i t)) → cwp nf U new_id Q t.
Proof. intros H s <-. apply wp_new_id. intros i Hi. by apply H. Qed.

Lemma cwp_new_block d Q t :
  (∀ i, i ∉ s_live t → Q (Some (Buf i d)) (alloc_s i t)) → cwp nf U (new_block d) Q t.
Proof. intros H. apply cwp_bind, cwp_new_id. intros i Hi. apply cwp_ret. by apply H. Qed.

Lemma cwp_malloc n Q t :
  0 ≤ n → (nf = false → Q None t) →
  (∀ i d, i ∉ s_live t → len d = n → Q (Some (Buf i d)) (alloc_s i t)) → cwp nf U (malloc n) Q t.
Proof.
  intros Hn HF H. apply cwp_fallible; [done|]. apply cwp_bind, cwp_draw; [done|]. intros d Hd.
  apply cwp_new_block. auto.
Qed.

Lemma cwp_calloc n Q t :
  (nf = false → Q None t) →
  (∀ i, i ∉ s_live t → Q (Some (Buf i (zeros n))) (alloc_s i t)) → cwp nf U (calloc n) Q t.
Proof. intros HF H. apply cwp_fallible; [done|]. by apply cwp_new_block. Qed.

Lemma cwp_free p Q t :
  b_id p ∈ s_live t → Q tt (set_live (s_live t ∖ {[b_id p]}) t) → cwp nf U (free (Some p)) Q t.
Proof. intros Hl H s <-. by apply wp_free. Qed.

Lemma cwp_bstore off x p Q t :
  0 ≤ off → off + len x ≤ len (b_data p) →
  Q (Buf (b_id p) (splice off x (b_data p))) t → cwp nf U (bstore off x p) Q t.
Proof. intros ? ? H s <-. by apply wp_bstore. Qed.

Lemma cwp_bload off n p Q t :
  0 ≤ off → 0 ≤ n → off + n ≤ len (b_data p) → Q (sub off n (b_data p)) t → cwp nf U (bload off n p) Q t.
Proof. intros ? ? ? H s <-. by apply wp_bload. Qed.

Lemma cwp_wipe_and_leave d n Q t : len d = n → Q tt t → cwp nf U (wipe_and_leave d n) Q t.
Proof. intros Hd H s <-. by apply wp_wipe_and_leave. Qed.

Lemma cwp_context_new Q t :
  (nf = false → Q None t) → (∀ i, i ∉ s_live t → Q (Some i) (alloc_s i t)) → cwp nf U context_new Q t.
Proof. intros HF H. apply cwp_fallible; [done|]. apply cwp_bind, cwp_new_id. intros i Hi. apply cwp_ret. by apply H. Qed.

Lemma cwp_context_drop i Q t :
  i ∈ s_live t → Q tt (set_live (s_live t ∖ {[i]}) t) → cwp nf U (context_drop i) Q t.
Proof. intros Hi H s <-. apply wp_bind, wp_get_sys. rewrite decide_True by done. by apply wp_modify. Qed.

Lemma cwp_RAND_bytes n Q t :
  0 ≤ n → (nf = false → Q None t) → (∀ d, len d = n → Q (Some d) t) → cwp nf U (RAND_bytes n) Q t.
Proof.
  intros Hn HF H. apply cwp_fallible; [done|]. apply cwp_bind, cwp_draw; [done|]. intros d Hd. apply cwp_ret. auto.
Qed.
End Rules.

(** ** Streams *)

(** What a file holds after the write buffer of a stream reached it. *)
Definition flush_data (st : stream) (d : list byte) : list byte :=
  match st_pending st with [] => d | p => file_write (st_pos st - len p) p d end.

Section Streams.
Context (nf : bool) (U : Prop).

Lemma cwp_fopen_existing path wr Q t :
  (nf = false ∨ (∀ i d, s_names t !! path = Some i → s_inodes t !! i ≠ Some (Inode false 0 d)) → Q None t) →
  (∀ i d f, s_names t !! path = Some i → s_inodes t !! i = Some (Inode false 0 d) → s_streams t !! f = None →
     Q (Some f) (upd_stream f (Stream i wr 0 Idle []) t)) →
  cwp nf U (fopen_existing path wr) Q t.
Proof.
  intros HF HQ s <-. apply wp_fallible; [intros ? e; apply HF; by left|]. apply wp_bind, wp_get_sys.
  assert (∀ m, s_names s !! path = m → (∀ i d, m = Some i → s_inodes (core s) !! i ≠ Some (Inode false 0 d)) →
    ∀ e, wp nf U (set_errno e;; mret None) (λ a s', Q a (core s')) s) as Hno.
  { intros m <- Hm e. apply wp_bind, wp_set_errno, wp_ret. apply HF. right. intros i d. apply Hm. }
  destruct (s_names s !! path) as [i|] eqn:Hn; [|by apply (Hno None)].
  destruct (s_inodes s !! i) as [[[] m d]|] eqn:Hi.
  - apply (Hno (Some i)); [done|]. intros j d' [= <-]. by rewrite core_inode, Hi.
  - apply wp_bind, wp_modify, wp_ret. apply (HQ i d); [done|by rewrite core_inode, Hi|]. apply not_elem_of_dom, is_fresh.
  - apply (Hno (Some i)); [done|]. intros j d' [= <-]. by rewrite core_inode, Hi.
Qed.

(** The inode a file has, or gets, under a name. *)
Definition inode_for (t : sys) (p : list byte) (i : nat) : Prop :=
  (∃ d, s_names t !! p = Some i ∧ s_inodes t !! i = Some (Inode false 0 d)) ∨
  (s_names t !! p = None ∧ s_inodes t !! i = None).

Definition creatable (t : sys) (p : list byte) : Prop :=
  p ≠ [] ∧ (s_names t !! p = None → parent_ok t p = true) ∧
  (∀ i, s_names t !! p = Some i → ∃ d, s_inodes t !! i = Some (Inode false 0 d)).

Lemma wp_open_stream i wr Q s :
  (∀ f, s_streams s !! f = None → Q f (upd_stream f (Stream i wr 0 Idle []) s)) → wp nf U (open_stream i wr) Q s.
Proof. intros H. apply wp_bind, wp_get_sys, wp_bind, wp_modify, wp_ret, H. apply not_elem_of_dom, is_fresh. Qed.

Lemma cwp_fopen_write path Q t :
  (nf = false ∨ ¬ creatable t path → Q None t) →
  (∀ i f, inode_for t path i → s_streams t !! f = None →
     Q (Some f) (upd_stream f (Stream i true 0 Idle []) (add_name path i (Inode false 0 []) t))) →
  cwp nf U (fopen_write path) Q t.
Proof.
  intros HF HQ s <-. apply wp_fallible; [intros ? e; apply HF; by left|]. apply wp_bind, wp_get_sys.
  destruct (s_names s !! path) as [i|] eqn:Hn.
  - destruct (s_inodes s !! i) as [[[] m d]|] eqn:Hi.
    + apply wp_fail_with, HF. right. intros (_ & _ & Hc). destruct (Hc i Hn) as [d' Hd'].
      by rewrite core_inode, Hi in Hd'.
    + apply wp_bind, wp_modify, wp_bind, wp_open_stream. intros f Hf. apply wp_ret.
      unfold set_data in *. rewrite Hi in *. cbn [i_dir i_mode] in *.
      assert (s_streams s !! f = None) as Hf' by done. specialize (HQ i f).
      replace (core (upd_stream f (Stream i true 0 Idle []) (set_inodes (<[i:=Inode false m []]> (s_inodes s)) s)))
        with (upd_stream f (Stream i true 0 Idle []) (add_name path i (Inode false 0 []) (core s))).
      2: { unfold core, upd_stream, add_name, set_names, set_streams, set_inodes. cbn. rewrite fmap_insert. cbn.
           by rewrite (insert_id (s_names s)). }
      apply HQ; [|done]. left. exists d. by rewrite core_inode, Hi.
    + apply wp_fail_with, HF. right. intros (_ & _ & Hc). destruct (Hc i Hn) as [d' Hd'].
      by rewrite core_inode, Hi in Hd'.
  - destruct (decide (path = [])) as [->|Hp].
    { apply wp_fail_with, HF. right. by intros (? & _). }
    rewrite bool_decide_eq_false_2 by done. cbn [orb].
    destruct (parent_ok s path) eqn:Hpar; cbn [negb].
    2: { apply wp_fail_with, HF. right. intros (_ & Hc & _). specialize (Hc Hn). rewrite core_parent_ok in Hc. congruence. }
    apply wp_bind, wp_modify, wp_bind, wp_open_stream. intros f Hf. apply wp_ret. specialize (HQ (new_inode s) f).
    change (Q (Some f) (upd_stream f (Stream (new_inode s) true 0 Idle [])
      (core (add_name path (new_inode s) (Inode false 420 []) s)))).
    rewrite core_add_name. apply HQ; [|done]. right. split; [done|]. by rewrite core_inode, new_inode_fresh.
Qed.

Lemma cwp_fwrite x f st Q t :
  s_streams t !! f = Some st → st_writable st = true → st_dir st ≠ Reading →
  (nf = false → ∀ k, Q (len (take k x)) (upd_stream f (written st (take k x)) t)) →
  Q (len x) (upd_stream f (written st x) t) → cwp nf U (fwrite x f) Q t.
Proof. intros Hs Hw Hd HF HQ s <-. eapply wp_fwrite; [done..| |done]. intros. by apply HF. Qed.

Lemma cwp_fseeko_zero f st Q t :
  s_streams t !! f = Some st → st_pending st = [] →
  (nf = false → Q (-1) t) → Q 0 (upd_stream f (at_pos st 0 Idle) t) → cwp nf U (fseeko f 0) Q t.
Proof. intros Hs Hp HF HQ s <-. eapply wp_fseeko_clean; [done..| |done]. intros [?|?] e; [by apply HF|lia]. Qed.

Lemma cwp_fseek_end f st d Q t :
  s_streams t !! f = Some st → st_pending st = [] → i_data <$> s_inodes t !! st_ino st = Some d →
  (nf = false → Q (-1) t) → Q 0 (upd_stream f (at_pos st (len d) Idle) t) → cwp nf U (fseek_end f) Q t.
Proof.
  intros Hs Hp Hd HF HQ s <-. apply wp_bind. eapply wp_flush_clean; [done..|]. cbn [Z.eqb negb].
  apply wp_bind, (wp_get_stream _ _ _ st); [done|]. apply wp_bind, wp_bind, wp_get_sys.
  rewrite core_data in Hd. eapply wp_checked_some; [exact Hd|]. apply wp_fallible; [intros ? e; by apply HF|].
  apply wp_bind, wp_modify, wp_ret. rewrite Hp. exact HQ.
Qed.

Lemma cwp_ftell f st Q t :
  s_streams t !! f = Some st → (nf = false → Q (-1) t) → Q (st_pos st) t → cwp nf U (ftell f) Q t.
Proof.
  intros Hs HF HQ s <-. apply wp_bind, (wp_get_stream _ _ _ st); [done|]. apply wp_fallible; [intros ? e; by apply HF|].
  by apply wp_ret.
Qed.

Lemma cwp_fread f st n d Q t :
  s_streams t !! f = Some st → st_pending st = [] → st_dir st ≠ Writing →
  i_data <$> s_inodes t !! st_ino st = Some d →
  (nf = false → ∀ k, let x := take k (sub (st_pos st) n d) in
     Q x (upd_stream f (at_pos st (st_pos st + len x) Reading) t)) →
  (let x := sub (st_pos st) n d in Q x (upd_stream f (at_pos st (st_pos st + len x) Reading) t)) →
  cwp nf U (fread f n) Q t.
Proof.
  intros Hs Hp Hd Hi HF HQ s <-. rewrite core_data in Hi.
  eapply wp_fread; [done..|exact Hi| |exact HQ]. intros Hnf e k. by apply HF.
Qed.

(** Closing: the file holds what it held and what was in the buffer, or, after a failure,
    a part of it. *)
Lemma cwp_fclose f st d Q B :
  s_streams B !! f = None → s_inodes B !! st_ino st = Some (Inode false 0 d) →
  (∀ r d', (nf = true ∨ st_pending st = [] → d' = flush_data st d) → Q r (put_file (st_ino st) d' B)) →
  cwp nf U (fclose f) Q (upd_stream f st B).
Proof.
  intros Hf Hd HQ s Hs.
  assert (s_streams s !! f = Some st) as Hst.
  { apply (f_equal (λ t, s_streams t !! f)) in Hs. cbn in Hs. by rewrite lookup_insert_eq in Hs. }
  destruct (core_file s (st_ino st) d) as [m Hm]; [by rewrite Hs|].
  assert (core (set_streams (delete f (s_streams s)) s) = B) as HB.
  { change (set_streams (delete f (s_streams (core s))) (core s) = B). rewrite Hs.
    unfold upd_stream, set_streams. cbn. rewrite delete_insert_eq, delete_id by done. by destruct B. }
  assert (∀ (x : list byte) off e, core (set_errno_s e (set_streams (delete f (s_streams (upd_stream f (drained st)
     (disk_write (st_ino st) off x s)))) (upd_stream f (drained st) (disk_write (st_ino st) off x s))))
     = put_file (st_ino st) (file_write off x d) B) as HW.
  { intros x off e. unfold disk_write. rewrite Hm. cbn [i_dir i_mode i_data]. rewrite <- HB.
    unfold core, put_file, upd_stream, set_streams, set_errno_s, set_log, set_inodes. cbn.
    by rewrite delete_insert_eq, fmap_insert. }
  assert (put_file (st_ino st) d B = B) as Hid by (by apply put_file_id).
  unfold fclose. apply wp_bind. destruct (st_pending st) as [|b p] eqn:Ep.
  - eapply wp_flush_clean; [done..|]. apply wp_bind, wp_modify. cbn [Z.eqb negb].
    assert (∀ r, Q r B) as HQ'.
    { intros r. rewrite <- Hid. apply HQ. intros _. unfold flush_data. by rewrite Ep. }
    apply wp_fallible; [intros ? e|apply wp_ret].
    + change (Q (-1) (core (set_streams (delete f (s_streams s)) s))). rewrite HB. apply HQ'.
    + rewrite HB. apply HQ'.
  - eapply wp_flush_dirty; [done|by rewrite Ep| | |].
    + apply wp_bind, wp_modify. cbn [Z.eqb negb]. unfold flushed. rewrite Ep.
      apply wp_fallible; [intros Hnf e|apply wp_ret].
      * rewrite HW. apply HQ. intros _. unfold flush_data. by rewrite Ep.
      * specialize (HW (b :: p) (st_pos st - len (b :: p)) (s_errno s)). unfold disk_write in *. rewrite Hm in *.
        match goal with |- Q 0 (core ?x) => replace (core x) with (put_file (st_ino st) (file_write (st_pos st - len (b :: p)) (b :: p) d) B) end.
        apply HQ. intros _. unfold flush_data. by rewrite Ep.
    + intros Hnf e. apply wp_bind, wp_modify, wp_ret.
      assert (core (set_streams (delete f (s_streams (set_errno_s e (upd_stream f (drained st) s))))
        (set_errno_s e (upd_stream f (drained st) s))) = B) as ->.
      { rewrite <- HB. unfold core, upd_stream, set_streams, set_errno_s. cbn. by rewrite delete_insert_eq. }
      rewrite <- Hid. apply HQ. rewrite Hnf. intros [?|?]; done.
    + intros Hnf e k. apply wp_bind, wp_modify, wp_ret. unfold flushed. rewrite Ep.
      specialize (HW (take k (b :: p)) (st_pos st - len (b :: p)) e).
      match goal with |- Q _ (core ?x) => replace (core x) with (put_file (st_ino st) (file_write (st_pos st - len (b :: p)) (take k (b :: p)) d) B) end.
      apply HQ. rewrite Hnf. intros [?|?]; done.
Qed.
End Streams.

Lemma cwp_intro {A} nf U (m : M A) Q t :
  (∀ s, core s = t → wp nf U m (λ a s', Q a (core s')) s) → cwp nf U m Q t.
Proof. done. Qed.

Global Opaque cwp.

(** The end of a branch: reduce the test and return. *)
Ltac cret := cbv beta; cbn [negb Z.eqb Z.leb Z.gtb Z.compare orb andb]; apply cwp_ret.
