(* ===== verification/Tpm.v ===== *)
(** * The key sealed in the TPM ([src/src/padlock.c]: [padlock_tpm_*])

    The header password is an HMAC under a key that only this machine's TPM can
    open.  The key is made once and kept, sealed, in two files below the user's home
    directory; every later use loads and unseals it.  [padlock_derive_header_password] and
    [padlock_derive_user_header_password] turn a login password or a user name into the
    64 hexadecimal digits the store is opened with.

    [create_exit] and [unseal_exit] are the local variables that the code after the label
    [done] releases. *)

From S2P Require Import Prelude World Posix Libc Codec Openssl Header Secret Allocate Tss.

Definition PADLOCK_TPM_DIR : list byte := bstr ".padlock/tpm".
Definition PADLOCK_TPM_SECRET_PUBLIC : list byte := bstr "header-hmac.pub".
Definition PADLOCK_TPM_SECRET_PRIVATE : list byte := bstr "header-hmac.priv".

(** ** Directories and paths *)

(** [mkdir] of a directory that may exist, then [chmod]; [false] is [return -1]. *)
Definition make_directory (copy : list byte) : M bool :=
  r ← mkdir copy 0x1c0;
  e ← get_errno;
  if negb (r =? 0) && negb (e =? EEXIST) then mret false else
  chmod copy 0x1c0;; mret true.

(** The loop of [ensure_directory_tree]: the cursor is between [before] and [rest]. *)
Fixpoint tree_loop (before rest : list byte) : M bool :=
  match rest with
  | [] => mret true
  | b :: rest =>
      if negb (bool_decide (b = SLASH)) then tree_loop (before ++ [b]) rest else
      ok ← make_directory before;
      if negb ok then mret false else tree_loop (before ++ [b]) rest
  end.

Definition ensure_directory_tree (path : option (list byte)) : M Z :=
  match path with
  | None => mret (-1)
  | Some path =>
      let length := len path in
      if (length =? 0) || (length >=? PATH_MAX) then mret (-1) else
      ok ← tree_loop (take 1 path) (drop 1 path);
      if negb ok then mret (-1) else
      ok ← make_directory path;
      mret (if ok : bool then 0 else -1)
  end.

(** The directory and the two paths; [None] is the result -1. *)
Definition padlock_tpm_paths (directory_length public_length private_length : Z) :
    M (option (list byte * list byte * list byte)) :=
  home ← getenv (bstr "HOME");
  match home with None => mret None | Some home =>
  let text := home ++ [SLASH] ++ PADLOCK_TPM_DIR in
  let directory := snprintf_text directory_length text in
  if len text >=? int_of directory_length then mret None else
  let text := directory ++ [SLASH] ++ PADLOCK_TPM_SECRET_PUBLIC in
  let public_path := snprintf_text public_length text in
  if len text >=? int_of public_length then mret None else
  let text := directory ++ [SLASH] ++ PADLOCK_TPM_SECRET_PRIVATE in
  let private_path := snprintf_text private_length text in
  if len text >=? int_of private_length then mret None else
  mret (Some (directory, public_path, private_path))
  end.

(** ** Blobs in files *)

(** [marshal] is applied to the blob already. *)
Definition padlock_tpm_write_blob (file : nat) (blob_size : Z) (marshal : Z → option (list byte)) : M Z :=
  buffer ← calloc blob_size;
  match buffer with None => mret (-1) | Some buffer =>
  m ← lib (marshal blob_size);
  '(result, buffer) ←
    match m with
    | None => mret (-1, buffer)
    | Some bytes =>
        let offset := len bytes in
        buffer ← bstore 0 bytes buffer;
        out ← bload 0 offset buffer;
        written ← fwrite out file;
        mret (if written =? offset then 0 else -1, buffer)
    end;
  d ← checked (padlock_secure_zero (b_data buffer) blob_size);
  free (Some (Buf (b_id buffer) d));;
  mret result
  end.

(** The blob, or [None] for the result -1. *)
Definition padlock_tpm_read_blob {A} (file : nat) (blob_size : Z) (unmarshal : list byte → option (A * Z)) :
    M (option A) :=
  r ← fseek_end file;
  if negb (r =? 0) then mret None else
  file_size ← ftell file;
  if (file_size <=? 0) || (file_size >? blob_size) then mret None else
  r ← fseeko file 0;
  if negb (r =? 0) then mret None else
  buffer ← malloc file_size;
  match buffer with None => mret None | Some buffer =>
  got ← fread file file_size;
  buffer ← bstore 0 got buffer;
  result ←
    (if negb (len got =? file_size) then mret None else
     u ← lib (unmarshal (b_data buffer));
     match u with
     | None => mret None
     | Some (blob, offset) => mret (if offset =? file_size then Some blob else None)
     end);
  d ← checked (padlock_secure_zero (b_data buffer) (if file_size >? 0 then file_size else 0));
  free (Some (Buf (b_id buffer) d));;
  mret result
  end.

(** ** Templates *)

Definition padlock_tpm_build_primary_template : TPM2B_PUBLIC :=
  Tpm2bPublic 0
    (TpmtPublic TPM2_ALG_RSA TPM2_ALG_SHA256
       (Z.lor (Z.lor (Z.lor (Z.lor (Z.lor TPMA_OBJECT_USERWITHAUTH TPMA_OBJECT_RESTRICTED)
          TPMA_OBJECT_DECRYPT) TPMA_OBJECT_FIXEDTPM) TPMA_OBJECT_FIXEDPARENT)
          TPMA_OBJECT_SENSITIVEDATAORIGIN)
       [] (rsaDetail TPM2_ALG_AES 128 TPM2_ALG_CFB TPM2_ALG_NULL 2048 0) []).

Definition padlock_tpm_build_seal_template (secret : list byte) :
    option (TPM2B_SENSITIVE_CREATE * TPM2B_PUBLIC) :=
  data ← load 0 PADLOCK_TPM_KEY_SIZE secret;
  Some (Tpm2bSensitiveCreate [] data,
        Tpm2bPublic 0
          (TpmtPublic TPM2_ALG_KEYEDHASH TPM2_ALG_SHA256
             (Z.lor (Z.lor TPMA_OBJECT_USERWITHAUTH TPMA_OBJECT_FIXEDTPM) TPMA_OBJECT_FIXEDPARENT)
             [] (keyedHashDetail TPM2_ALG_NULL) [])).

(** What a stream leaves to the label [done]. *)
Definition close_stream (file : option nat) : M unit :=
  match file with Some f => fclose f;; mret tt | None => mret tt end.

Fixpoint free_all (l : list buf) : M unit :=
  match l with [] => mret tt | p :: l => Esys_Free (Some p);; free_all l end.

Section Code.
Context {OSSL : Openssl} {T : Tss}.

(** *** Connecting *)

Definition padlock_tpm_free_tcti (tcti : option nat) : M unit :=
  match tcti with Some i => Tss2_TctiLdr_Finalize i | None => mret tt end.

(** The two contexts; [None] is the result -1, with both pointers null. *)
Definition padlock_tpm_connect : M (option (nat * nat)) :=
  t ← Tss2_TctiLdr_Initialize (bstr "device:/dev/tpmrm0");
  t ← match t with
      | None => Tss2_TctiLdr_Initialize (bstr "device:/dev/tpm0")
      | Some t => mret (Some t)
      end;
  match t with
  | None => set_errno EIO;; padlock_tpm_free_tcti None;; mret None
  | Some tcti =>
      e ← Esys_Initialize tcti;
      match e with
      | None => set_errno EIO;; padlock_tpm_free_tcti (Some tcti);; mret None
      | Some esys => mret (Some (esys, tcti))
      end
  end.

Definition padlock_tpm_disconnect (esys tcti : nat) : M unit :=
  Esys_Finalize esys;; padlock_tpm_free_tcti (Some tcti).

Definition flush {A} (esys : nat) (h : option (handle A)) : M unit :=
  match h with Some h => Esys_FlushContext esys h;; mret tt | None => mret tt end.

(** *** Blobs of the two types *)

Definition padlock_tpm_write_public_blob (file : nat) (blob : TPM2B_PUBLIC) : M Z :=
  padlock_tpm_write_blob file sizeof_TPM2B_PUBLIC (Tss2_MU_TPM2B_PUBLIC_Marshal blob).
Definition padlock_tpm_write_private_blob (file : nat) (blob : TPM2B_PRIVATE) : M Z :=
  padlock_tpm_write_blob file sizeof_TPM2B_PRIVATE (Tss2_MU_TPM2B_PRIVATE_Marshal blob).
Definition padlock_tpm_read_public_blob (file : nat) : M (option TPM2B_PUBLIC) :=
  padlock_tpm_read_blob file sizeof_TPM2B_PUBLIC Tss2_MU_TPM2B_PUBLIC_Unmarshal.
Definition padlock_tpm_read_private_blob (file : nat) : M (option TPM2B_PRIVATE) :=
  padlock_tpm_read_blob file sizeof_TPM2B_PRIVATE Tss2_MU_TPM2B_PRIVATE_Unmarshal.

(** *** Sealing a new key *)

Record create_exit := CreateExit {
  ce_result : Z;
  ce_public_file : option nat;
  ce_private_file : option nat;
  ce_primary : option (handle tpm_primary);
  ce_blocks : list buf
}.

(** From the created object to the label [done]: the two files. *)
Definition create_files (public_path private_path : list byte) (primary : handle tpm_primary)
    (out_private : TPM2B_PRIVATE) (out_public : TPM2B_PUBLIC) (blocks : list buf) : M create_exit :=
  public_file ← fopen_write public_path;
  private_file ← fopen_write private_path;
  let exit r := CreateExit r public_file private_file (Some primary) blocks in
  match public_file, private_file with
  | Some f, Some g =>
      r ← padlock_tpm_write_public_blob f out_public;
      if negb (r =? 0) then mret (exit (-1)) else
      r ← padlock_tpm_write_private_blob g out_private;
      if negb (r =? 0) then mret (exit (-1)) else
      mret (exit 0)
  | _, _ => mret (exit (-1))
  end.

(** From the authorised owner to the label [done]. *)
Definition create_body (esys : nat) (public_path private_path : list byte)
    (sens : TPM2B_SENSITIVE_CREATE) (seal_public : TPM2B_PUBLIC) : M create_exit :=
  p ← Esys_CreatePrimary esys no_sensitive padlock_tpm_build_primary_template;
  match p with None => mret (CreateExit (-1) None None None []) | Some (primary, blocks) =>
  ok ← Esys_TR_SetAuth esys;
  if negb ok then mret (CreateExit (-1) None None (Some primary) blocks) else
  c ← Esys_Create esys primary sens seal_public;
  match c with None => mret (CreateExit (-1) None None (Some primary) blocks) | Some (prv, pub, blocks') =>
  create_files public_path private_path primary prv pub (blocks ++ blocks')
  end end.

(** The label [done]. *)
Definition create_done (esys : nat) (x : create_exit) : M Z :=
  close_stream (ce_public_file x);;
  close_stream (ce_private_file x);;
  flush esys (ce_primary x);;
  free_all (ce_blocks x);;
  mret (ce_result x).

(** [seal_sensitive], which holds the secret, is never cleared: [leave] is the end of its
    life. *)
Definition padlock_tpm_create_sealed_secret (esys : nat) (public_path private_path secret : list byte) : M Z :=
  '(sens, seal_public) ← checked (padlock_tpm_build_seal_template secret);
  ok ← Esys_TR_SetAuth esys;
  if negb ok then leave (sc_data sens);; mret (-1) else
  x ← create_body esys public_path private_path sens seal_public;
  r ← create_done esys x;
  leave (sc_data sens);; mret r.

(** *** Opening the key *)

Record unseal_exit := UnsealExit {
  ue_key : option (list byte);
  ue_public_file : option nat;
  ue_private_file : option nat;
  ue_primary : option (handle tpm_primary);
  ue_loaded : option (handle tpm_object);
  ue_blocks : list buf;
  ue_unsealed : option buf;
  ue_seal_public : option buf;
  ue_seal_private : option buf
}.

(** From the blobs to the label [done]. *)
Definition unseal_load (esys : nat) (seal_private : TPM2B_PRIVATE) (seal_public : TPM2B_PUBLIC)
    (exit : option (list byte) → option (handle tpm_primary) → option (handle tpm_object) → list buf →
            option buf → unseal_exit) : M unseal_exit :=
  ok ← Esys_TR_SetAuth esys;
  if negb ok then mret (exit None None None [] None) else
  p ← Esys_CreatePrimary esys no_sensitive padlock_tpm_build_primary_template;
  match p with None => mret (exit None None None [] None) | Some (primary, blocks) =>
  ok ← Esys_TR_SetAuth esys;
  if negb ok then mret (exit None (Some primary) None blocks None) else
  l ← Esys_Load esys primary seal_private seal_public;
  match l with None => mret (exit None (Some primary) None blocks None) | Some loaded =>
  ok ← Esys_TR_SetAuth esys;
  if negb ok then mret (exit None (Some primary) (Some loaded) blocks None) else
  u ← Esys_Unseal esys loaded;
  match u with None => mret (exit None (Some primary) (Some loaded) blocks None) | Some unsealed =>
  if len (b_data unsealed) <? PADLOCK_TPM_KEY_SIZE
  then mret (exit None (Some primary) (Some loaded) blocks (Some unsealed)) else
  key ← bload 0 PADLOCK_TPM_KEY_SIZE unsealed;
  mret (exit (Some key) (Some primary) (Some loaded) blocks (Some unsealed))
  end end end.

(** From the opened files to the label [done]. *)
Definition unseal_read (esys f g : nat) : M unseal_exit :=
  let exit0 sp sv := UnsealExit None (Some f) (Some g) None None [] None sp sv in
  sp ← calloc sizeof_TPM2B_PUBLIC;
  sv ← calloc sizeof_TPM2B_PRIVATE;
  match sp, sv with
  | Some _, Some _ =>
      pub ← padlock_tpm_read_public_blob f;
      match pub with None => mret (exit0 sp sv) | Some pub =>
      prv ← padlock_tpm_read_private_blob g;
      match prv with None => mret (exit0 sp sv) | Some prv =>
      unseal_load esys prv pub (λ k p l b u, UnsealExit k (Some f) (Some g) p l b u sp sv)
      end end
  | _, _ => mret (exit0 sp sv)
  end.

(** The label [done]: the key, or [None] for the result -1. *)
Definition unseal_done (esys : nat) (x : unseal_exit) : M (option (list byte)) :=
  close_stream (ue_public_file x);;
  close_stream (ue_private_file x);;
  flush esys (ue_primary x);;
  flush esys (ue_loaded x);;
  free_all (ue_blocks x);;
  Esys_Free (ue_unsealed x);;
  free (ue_seal_public x);;
  free (ue_seal_private x);;
  mret (ue_key x).

Definition padlock_tpm_unseal_secret (esys : nat) (public_path private_path : list byte) :
    M (option (list byte)) :=
  public_file ← fopen_existing public_path false;
  private_file ← fopen_existing private_path false;
  x ← match public_file, private_file with
      | Some f, Some g => unseal_read esys f g
      | _, _ => mret (UnsealExit None public_file private_file None None [] None None None)
      end;
  unseal_done esys x.

(** *** The key *)

(** The branch that makes a key when one of the files is missing; [false] is [return -1]. *)
Definition make_sealed_key (public_path private_path : list byte) : M bool :=
  k ← RAND_bytes 32;
  match k with None => mret false | Some random_key =>
  c ← padlock_tpm_connect;
  match c with None => wipe_and_leave random_key 32;; mret false | Some (esys, tcti) =>
  result ← padlock_tpm_create_sealed_secret esys public_path private_path random_key;
  wipe_and_leave random_key 32;;
  padlock_tpm_disconnect esys tcti;;
  mret (result =? 0)
  end end.

Definition padlock_tpm_ensure_sealed_key : M (option (list byte)) :=
  paths ← padlock_tpm_paths PATH_MAX PATH_MAX PATH_MAX;
  match paths with
  | None => set_errno ENAMETOOLONG;; mret None
  | Some (directory, public_path, private_path) =>
      r ← ensure_directory_tree (Some directory);
      if negb (r =? 0) then mret None else
      a ← access public_path;
      missing ← (if negb (a =? 0) then mret true else a ← access private_path; mret (negb (a =? 0)));
      ok ← (if missing : bool then make_sealed_key public_path private_path else mret true);
      if negb ok then mret None else
      c ← padlock_tpm_connect;
      match c with None => mret None | Some (esys, tcti) =>
      result ← padlock_tpm_unseal_secret esys public_path private_path;
      padlock_tpm_disconnect esys tcti;;
      mret result
      end
  end.

(** *** Header passwords *)

(** [hex[n]] *)
Definition hex_digit (n : Z) : option byte := byte_at n (bstr "0123456789abcdef").

(** The loop that writes the digits of [digest] to [output] from [index] on. *)
Fixpoint hex_loop (digest : list byte) (index : Z) (output : list byte) : option (list byte) :=
  match digest with
  | [] => Some output
  | b :: digest =>
      h ← hex_digit (Z.land (Z.shiftr (bval b) 4) 0x0f);
      output ← store (index * 2) [h] output;
      l ← hex_digit (Z.land (bval b) 0x0f);
      output ← store (index * 2 + 1) [l] output;
      hex_loop digest (index + 1) output
  end.

(** [digest] is an array of [EVP_MAX_MD_SIZE] bytes, of which HMAC writes 32.  The result and the
    bytes of [output]; both functions of the source have this body. *)
Definition derive_password (text : option (list byte)) (output : option (list byte)) (output_length : Z) :
    M (Z * option (list byte)) :=
  match text, output with
  | Some text, Some out =>
      if bool_decide (c_str text = []) || (output_length <? 65) then set_errno EINVAL;; mret (-1, output) else
      k ← padlock_tpm_ensure_sealed_key;
      match k with None => mret (-1, output) | Some hmac_key =>
      d ← lib (HMAC_SHA256 hmac_key (c_str text));
      match d with
      | None => wipe_and_leave hmac_key 32;; mret (-1, output)
      | Some digest =>
          if negb (len digest =? 32) then wipe_and_leave hmac_key 32;; leave digest;; mret (-1, output) else
          out ← checked (hex_loop digest 0 out);
          out ← checked (store (len digest * 2) [Byte.x00] out);
          wipe_and_leave digest (len digest);;
          wipe_and_leave hmac_key 32;;
          mret (0, Some out)
      end end
  | _, _ => set_errno EINVAL;; mret (-1, output)
  end.

Definition padlock_derive_header_password (login_password : option (list byte)) (output : option (list byte))
    (output_length : Z) : M (Z * option (list byte)) :=
  derive_password login_password output output_length.

Definition padlock_derive_user_header_password (username : option (list byte)) (output : option (list byte))
    (output_length : Z) : M (Z * option (list byte)) :=
  derive_password username output output_length.
End Code.
