(* ===== verification/TpmSpec.v ===== *)
(** * Rules for the TPM code

    Contracts of the functions of [Tpm], up to [core]: what they leave open, loaded or
    allocated (nothing, whatever fails, except an object whose flush failed), which files they
    change, and what they return.  [hp L X B] is the state [B] with live blocks [L] and TPM
    objects [X]. *)

From S2P Require Import Prelude World Posix Libc Codec Openssl Header Secret Allocate Tss Core Tpm.

Definition hp (L X : gset nat) (B : sys) : sys := set_live L (set_tpm X B).

Lemma hp_intro t : t = hp (s_live t) (io_tpm (s_io t)) t.
Proof. by destruct t as [? ? ? ? ? ? ? ? ? []]. Qed.

Lemma upd_stream_hp f st L X B : upd_stream f st (hp L X B) = hp L X (upd_stream f st B).
Proof. done. Qed.

Section Esys.
Context (nf : bool) (U : Prop) (B : sys).

Lemma cwp_esys_call {A} esys (err : A) run Q L X :
  esys ∈ L → (nf = false → Q err (hp L X B)) → cwp nf U run Q (hp L X B) →
  cwp nf U (esys_call esys err run) Q (hp L X B).
Proof.
  intros He HF HR. apply cwp_intro. intros s Hs. apply wp_bind, wp_get_sys.
  assert (s_live s = L) as -> by (by apply (f_equal s_live) in Hs).
  rewrite decide_True by done. rewrite <- Hs in *. apply cwp_wp. by apply cwp_fallible.
Qed.

Lemma cwp_new_handle {A} (o : A) Q L X :
  (∀ i, i ∉ X → Q (Handle i o) (hp L ({[i]} ∪ X) B)) → cwp nf U (new_handle o) Q (hp L X B).
Proof.
  intros HQ. apply cwp_intro. intros s Hs. apply wp_bind, wp_get_sys, wp_bind, wp_modify, wp_ret.
  assert (io_tpm (s_io s) = X) as -> by (by apply (f_equal (λ t, io_tpm (s_io t))) in Hs).
  change (core (set_tpm ({[fresh X]} ∪ X) s)) with (set_tpm ({[fresh X]} ∪ X) (core s)). rewrite Hs.
  apply HQ, is_fresh.
Qed.

Lemma cwp_output_blocks n : ∀ Q L X,
  (∀ l, NoDup (b_id <$> l) → (∀ i, i ∈ b_id <$> l → i ∉ L) → Q l (hp (list_to_set (b_id <$> l) ∪ L) X B)) →
  cwp nf U (output_blocks n) Q (hp L X B).
Proof.
  induction n as [|n IH]; intros Q L X HQ; cbn [output_blocks].
  - apply cwp_ret. replace L with (list_to_set (b_id <$> []) ∪ L) at 1 by set_solver. apply HQ; [constructor|set_solver].
  - apply cwp_bind, cwp_new_id. intros i Hi. change (s_live (hp L X B)) with L in Hi.
    change (alloc_s i (hp L X B)) with (hp ({[i]} ∪ L) X B). apply cwp_bind, IH. intros l Hnd Hl. apply cwp_ret.
    replace (list_to_set (b_id <$> l) ∪ ({[i]} ∪ L)) with (list_to_set (b_id <$> Buf i [] :: l) ∪ L) by set_solver.
    apply HQ; [cbn; constructor; [set_solver|done]|set_solver].
Qed.

Lemma cwp_free_all l : ∀ Q L X,
  NoDup (b_id <$> l) → (∀ i, i ∈ b_id <$> l → i ∉ L) → Q tt (hp L X B) →
  cwp nf U (free_all l) Q (hp (list_to_set (b_id <$> l) ∪ L) X B).
Proof.
  induction l as [|p l IH]; intros Q L X Hnd Hl HQ; cbn [free_all].
  - apply cwp_ret. by replace (list_to_set (b_id <$> []) ∪ L) with L by set_solver.
  - cbn in Hnd. apply NoDup_cons in Hnd as [Hp Hnd]. apply cwp_bind, cwp_free; [set_solver|].
    change (cwp nf U (free_all l) Q (hp ((list_to_set (b_id <$> p :: l) ∪ L) ∖ {[b_id p]}) X B)).
    replace ((list_to_set (b_id <$> p :: l) ∪ L) ∖ {[b_id p]}) with (list_to_set (b_id <$> l) ∪ L).
    { apply IH; [done|set_solver|done]. }
    apply leibniz_equiv. specialize (Hl (b_id p)). cbn. set_solver.
Qed.

Lemma cwp_flush {A} esys (h : option (handle A)) Q L X :
  esys ∈ L →
  (∀ X', (nf = true → X' = match h with Some h => X ∖ {[h_id h]} | None => X end) → Q tt (hp L X' B)) →
  cwp nf U (flush esys h) Q (hp L X B).
Proof.
  intros He HQ. destruct h as [h|]; cbn [flush]; [|by apply cwp_ret, HQ].
  apply cwp_bind, cwp_esys_call; [done|..].
  - intros Hnf. apply cwp_ret, HQ. rewrite Hnf. done.
  - apply cwp_bind, cwp_intro. intros s Hs. apply wp_modify.
    assert (io_tpm (s_io s) = X) as -> by (by apply (f_equal (λ t, io_tpm (s_io t))) in Hs).
    change (core (set_tpm (X ∖ {[h_id h]}) s)) with (set_tpm (X ∖ {[h_id h]}) (core s)). rewrite Hs.
    apply cwp_ret, cwp_ret. by apply (HQ (X ∖ {[h_id h]})).
Qed.
End Esys.

Lemma alloc_free_set (i : nat) (L : gset nat) : i ∉ L → ({[i]} ∪ L) ∖ {[i]} = L.
Proof. intros. apply leibniz_equiv. set_solver. Qed.

(** ** Blobs *)

Section Blobs.
Context (nf : bool) (U : Prop) (B : sys) (L X : gset nat).

(** Clearing and freeing the block [i], the last one allocated. *)
Lemma cwp_wipe_free (i : nat) (d : list byte) n {A} (a : A) Q :
  i ∉ L → len d = n → Q a (hp L X B) →
  cwp nf U (d ← checked (padlock_secure_zero d n); free (Some (Buf i d));; mret a) Q (hp ({[i]} ∪ L) X B).
Proof.
  intros Hi <- HQ. apply cwp_bind. eapply cwp_checked_some; [apply secure_zero_all|].
  apply cwp_bind, cwp_free; [cbn; set_solver|]. apply cwp_ret.
  change (Q a (hp (({[i]} ∪ L) ∖ {[i]}) X B)). by rewrite alloc_free_set.
Qed.
End Blobs.

Section Blobs.
Context (nf : bool) (U : Prop) (B : sys) (L X : gset nat).

Lemma cwp_write_blob f st size marshal Q :
  st_writable st = true → st_dir st ≠ Reading → 0 ≤ size →
  (∀ b, marshal size = Some b → len b ≤ size) →
  (∀ r st', st_ino st' = st_ino st → (r = 0 → ∃ b, marshal size = Some b ∧ st' = written st b) →
     (nf = true → is_Some (marshal size) → r = 0) → Q r (hp L X (upd_stream f st' B))) →
  cwp nf U (padlock_tpm_write_blob f size marshal) Q (hp L X (upd_stream f st B)).
Proof.
  intros Hw Hd Hsz Hm HQ. unfold padlock_tpm_write_blob.
  assert (nf = false ∨ marshal size = None → Q (-1) (hp L X (upd_stream f st B))) as Hfail.
  { intros Hor. apply HQ; [done|done|]. intros -> [b Hb]. destruct Hor; congruence. }
  apply cwp_bind, cwp_calloc; [intros; cret; auto|]. intros i Hi.
  change (i ∉ L) in Hi. change (alloc_s i _) with (hp ({[i]} ∪ L) X (upd_stream f st B)).
  assert (nf = false ∨ marshal size = None → cwp nf U (d ← checked (padlock_secure_zero (zeros size) size);
      free (Some (Buf i d));; mret (-1)) Q (hp ({[i]} ∪ L) X (upd_stream f st B))) as Hfail'.
  { intros Hor. apply cwp_wipe_free; [done|by rewrite len_zeros|auto]. }
  apply cwp_bind, cwp_lib; [intros; apply cwp_bind, cwp_ret; auto|].
  destruct (marshal size) as [b|] eqn:Eb; [|apply cwp_bind, cwp_ret; auto]. specialize (Hm b eq_refl).
  apply cwp_bind, cwp_bind, cwp_bstore; [lia|cbn; rewrite len_zeros; lia|].
  cbn [b_data b_id]. assert (len (splice 0 b (zeros size)) = size) as Hl by (rewrite len_splice; rewrite ?len_zeros; lia).
  apply cwp_bind, cwp_bload; [lia|lia|cbn [b_data]; lia|]. cbn [b_data].
  rewrite sub_splice_same by (rewrite ?len_zeros; lia).
  assert (∀ x, (nf = true → x = b) → (len x = len b → x = b) →
    cwp nf U (d ← checked (padlock_secure_zero (splice 0 b (zeros size)) size); free (Some (Buf i d));;
      mret (if len x =? len b then 0 else -1)) Q (hp ({[i]} ∪ L) X (upd_stream f (written st x) B))) as Hend.
  { intros x Hnf Hall. apply cwp_wipe_free; [done..|]. apply HQ; [done|..].
    - destruct (Z.eqb_spec (len x) (len b)); [|done]. intros _. exists b. split; [done|]. by rewrite Hall.
    - intros Hn _. by rewrite (Hnf Hn), Z.eqb_refl. }
  apply cwp_bind. eapply cwp_fwrite; [apply upd_stream_same|done..| |].
  - intros Hnf k. apply cwp_ret. rewrite upd_stream_hp, upd_stream_twice. apply Hend; [congruence|].
    intros Hk. apply take_ge. rewrite length_take in Hk. lia.
  - apply cwp_ret. rewrite upd_stream_hp, upd_stream_twice. by apply Hend.
Qed.

Lemma cwp_read_blob {A} f st x size (unmarshal : list byte → option (A * Z)) Q p0 d0 :
  i_data <$> s_inodes B !! st_ino st = Some x →
  (∀ r p d, (∀ a, r = Some a → 0 < len x ∧ unmarshal x = Some (a, len x)) →
     (nf = true → ∀ a, 0 < len x ≤ size → unmarshal x = Some (a, len x) → r = Some a) →
     Q r (hp L X (upd_stream f (at_pos st p d) B))) →
  cwp nf U (padlock_tpm_read_blob f size unmarshal) Q (hp L X (upd_stream f (at_pos st p0 d0) B)).
Proof.
  intros Hx HQ. unfold padlock_tpm_read_blob.
  assert (∀ p d, nf = false ∨ ¬ 0 < len x ≤ size → Q None (hp L X (upd_stream f (at_pos st p d) B))) as Hfail.
  { intros p d Hor. apply HQ; [done|]. intros Hnf a ? ?. destruct Hor; [congruence|done]. }
  apply cwp_bind. eapply cwp_fseek_end; [apply upd_stream_same|done|exact Hx|intros; cret; apply Hfail; by left|].
  cbn [Z.eqb negb]. rewrite upd_stream_hp, upd_stream_twice.
  apply cwp_bind. eapply cwp_ftell; [apply upd_stream_same|intros; cret; apply Hfail; by left|]. cbn [at_pos st_pos].
  destruct (Z.leb_spec (len x) 0); cbn [orb]; [cret; apply Hfail; lia|]. rewrite Z.gtb_ltb.
  destruct (Z.ltb_spec size (len x)); [cret; apply Hfail; lia|].
  apply cwp_bind. eapply cwp_fseeko_zero; [apply upd_stream_same|done|intros; cret; apply Hfail; by left|].
  cbn [Z.eqb negb]. rewrite upd_stream_hp, upd_stream_twice.
  apply cwp_bind, cwp_malloc; [lia|intros; cret; apply Hfail; by left|]. intros i b Hi Hb.
  change (i ∉ L) in Hi. change (alloc_s i _) with (hp ({[i]} ∪ L) X (upd_stream f (at_pos st 0 Idle) B)).
  assert (∀ r d p, len d = len x → (∀ a, r = Some a → unmarshal x = Some (a, len x)) →
     (nf = true → ∀ a, unmarshal x = Some (a, len x) → r = Some a) →
     cwp nf U (d ← checked (padlock_secure_zero d (if 0 <? len x then len x else 0)); free (Some (Buf i d));; mret r) Q
       (hp ({[i]} ∪ L) X (upd_stream f (at_pos st p Reading) B))) as Hend.
  { intros r d p Hd H1 H2. rewrite (proj2 (Z.ltb_lt _ _)) by lia. apply cwp_wipe_free; [done..|].
    apply HQ; [split; auto|auto]. }
  assert (∀ y, len y ≤ len x → len (splice 0 y b) = len x) as Hl by (intros; rewrite len_splice; lia).
  apply cwp_bind. eapply cwp_fread; [apply upd_stream_same|done..|exact Hx| |]; cbn [at_pos st_pos].
  - intros Hnf k. rewrite sub_all by lia. set (y := take k x). rewrite upd_stream_hp, upd_stream_twice.
    assert (len y ≤ len x) by (unfold y; rewrite length_take; lia).
    apply cwp_bind, cwp_bstore; [lia|cbn [b_data]; lia|]. cbn [b_data b_id]. rewrite Z.gtb_ltb.
    destruct (Z.eqb_spec (len y) (len x)) as [Ey|]; cbn [negb].
    2: { apply cwp_bind, cwp_ret. apply Hend; [by apply Hl|done|congruence]. }
    assert (y = x) as ->.
    { unfold y in *. apply take_ge. rewrite length_take in Ey. lia. }
    rewrite splice_all by lia. apply cwp_bind, cwp_bind, cwp_lib; [intros; apply cwp_ret, Hend; [lia|done|congruence]|].
    destruct (unmarshal x) as [[a o]|] eqn:Eu; apply cwp_ret, Hend; try (lia || congruence).
    destruct (Z.eqb_spec o (len x)); [|done]. intros a'. congruence.
  - rewrite upd_stream_hp, upd_stream_twice, sub_all by lia. rewrite Z.gtb_ltb.
    apply cwp_bind, cwp_bstore; [lia|cbn [b_data]; lia|]. cbn [b_data b_id]. rewrite Z.eqb_refl. cbn [negb].
    rewrite splice_all by lia. apply cwp_bind, cwp_bind, cwp_lib; [intros; apply cwp_ret, Hend; [lia|done|congruence]|].
    destruct (unmarshal x) as [[a o]|] eqn:Eu; apply cwp_ret, Hend; try (lia || done).
    + destruct (Z.eqb_spec o (len x)); [|done]. intros a'. congruence.
    + intros _ a' [= -> ->]. by rewrite Z.eqb_refl.
Qed.
End Blobs.

(** ** Sealing a key *)

(** A file with bytes [d] under inode [i] at the path, or nothing. *)
Definition put_blob (p : list byte) (o : option (nat * list byte)) (t : sys) : sys :=
  match o with Some (i, d) => add_name p i (Inode false 0 d) t | None => t end.

Definition blob_inode (t : sys) (p : list byte) (o : option (nat * list byte)) : Prop :=
  match o with Some (i, _) => inode_for t p i | None => True end.

(** The two paths lead to different files. *)
Definition blob_paths_ok (t : sys) (pub priv : list byte) : Prop :=
  pub ≠ priv ∧ names_ok t ∧ (∀ i, s_names t !! pub = Some i → s_names t !! priv ≠ Some i).

(** An open stream, its file just emptied, or none. *)
Definition opened_file (o : option (nat * stream)) (t : sys) : sys :=
  match o with Some (f, st) => upd_stream f st t | None => t end.

Definition emptied (o : option (nat * stream)) : option (nat * list byte) :=
  (λ x, (st_ino x.2, [])) <$> o.

Definition filled (o : option (nat * stream)) (d : list byte) : option (nat * list byte) :=
  (λ x, (st_ino x.2, d)) <$> o.

Lemma blob_inodes_differ t pub priv i d j :
  blob_paths_ok t pub priv → inode_for t pub i → inode_for (add_name pub i (Inode false 0 d) t) priv j → i ≠ j.
Proof.
  intros (Hne & Hok & Hdiff) Hi [(d' & Hn & Hj)|[Hn Hj]] ->; cbn in Hn, Hj.
  - rewrite lookup_insert_ne in Hn by done. destruct Hi as [(d0 & Hp & _)|[_ Hi]]; [by apply (Hdiff j)|].
    destruct (Hok _ _ Hn) as [n Hs]. congruence.
  - by rewrite lookup_insert_eq in Hj.
Qed.

Lemma fill_blobs pub priv i j d1 d2 t :
  i ≠ j →
  put_file j d2 (put_file i d1 (add_name priv j (Inode false 0 []) (add_name pub i (Inode false 0 []) t))) =
  add_name priv j (Inode false 0 d2) (add_name pub i (Inode false 0 d1) t).
Proof.
  intros. unfold put_file, add_name, set_names, set_inodes. cbn. f_equal.
  rewrite (insert_insert_ne _ i j) by done. by rewrite !insert_insert_eq.
Qed.

Section Create.
Context {OSSL : Openssl} {T : Tss} {TL : TssLaws T}.
Context (nf : bool) (U : Prop).

Definition storage_key : option tpm_primary := TPM2_CreatePrimary no_sensitive padlock_tpm_build_primary_template.

Lemma cwp_create_primary esys Q L X B :
  esys ∈ L → (nf = false → Q None (hp L X B)) →
  (∀ p h l, storage_key = Some p → h ∉ X → NoDup (b_id <$> l) → (∀ i, i ∈ b_id <$> l → i ∉ L) →
     Q (Some (Handle h p, l)) (hp (list_to_set (b_id <$> l) ∪ L) ({[h]} ∪ X) B)) →
  cwp nf U (Esys_CreatePrimary esys no_sensitive padlock_tpm_build_primary_template) Q (hp L X B).
Proof.
  intros He HF HQ. apply cwp_esys_call; [done..|].
  destruct (create_primary_ok padlock_tpm_build_primary_template) as [p Hp]; [by vm_compute|]. rewrite Hp.
  apply cwp_bind, cwp_new_handle. intros h Hh. apply cwp_bind, cwp_output_blocks. intros l Hnd Hl. apply cwp_ret. by apply HQ.
Qed.

Lemma cwp_set_auth esys Q L X B :
  esys ∈ L → (nf = false → Q false (hp L X B)) → Q true (hp L X B) → cwp nf U (Esys_TR_SetAuth esys) Q (hp L X B).
Proof. intros He HF HQ. apply cwp_esys_call; [done..|]. by apply cwp_ret. Qed.

(** Closing a file that was opened on a blob path. *)
Lemma cwp_close_opened o Q t :
  match o with Some (f, st) => s_streams t !! f = None ∧ ∃ d, s_inodes t !! st_ino st = Some (Inode false 0 d) | None => True end →
  (∀ d', (nf = true → ∀ f st d, o = Some (f, st) → s_inodes t !! st_ino st = Some (Inode false 0 d) → d' = flush_data st d) →
     Q tt (match o with Some (f, st) => put_file (st_ino st) d' t | None => t end)) →
  cwp nf U (close_stream (fst <$> o)) Q (opened_file o t).
Proof.
  intros Ho HQ. destruct o as [[f st]|]; cbn [close_stream opened_file fmap option_fmap option_map fst].
  - destruct Ho as [Hf [d Hd]]. apply cwp_bind. eapply cwp_fclose; [done..|]. intros r d' Hd'. apply cwp_ret, HQ.
    intros Hnf f' st' d0 [= <- <-] Hd0. rewrite Hd in Hd0. apply (inj Some) in Hd0. injection Hd0 as <-. apply Hd'. by left.
  - apply cwp_ret. apply (HQ []). intros. done.
Qed.

(** The streams at the label [done]: each is on the file just made or emptied at its
    path. *)
Definition done_streams (t : sys) (pub priv : list byte) (o1 o2 : option (nat * stream)) : Prop :=
  (∀ f st, o1 = Some (f, st) → s_streams t !! f = None ∧ inode_for t pub (st_ino st)) ∧
  (∀ f st, o2 = Some (f, st) →
     s_streams t !! f = None ∧ inode_for (put_blob pub (emptied o1) t) priv (st_ino st) ∧ f ∉ fst <$> option_list o1).

Definition done_state (t : sys) (pub priv : list byte) (o1 o2 : option (nat * stream)) : sys :=
  opened_file o2 (opened_file o1 (put_blob priv (emptied o2) (put_blob pub (emptied o1) t))).

Lemma hp_done L X B pub priv o1 o2 : hp L X (done_state B pub priv o1 o2) = done_state (hp L X B) pub priv o1 o2.
Proof. by destruct o1 as [[]|], o2 as [[]|]. Qed.

Lemma hp_put_blob L X p o B : hp L X (put_blob p o B) = put_blob p o (hp L X B).
Proof. by destruct o as [[]|]. Qed.

Lemma opened_file_comm o1 o2 t :
  (∀ f st, o2 = Some (f, st) → f ∉ fst <$> option_list o1) →
  opened_file o2 (opened_file o1 t) = opened_file o1 (opened_file o2 t).
Proof.
  intros H. destruct o1 as [[f1 st1]|], o2 as [[f2 st2]|]; try done. cbn. apply upd_stream_comm.
  specialize (H f2 st2 eq_refl). cbn in H. set_solver.
Qed.

Lemma cwp_close_both t pub priv o1 o2 Q :
  blob_paths_ok t pub priv → done_streams t pub priv o1 o2 →
  (∀ d1 d2, (nf = true → ∀ f st, o1 = Some (f, st) → d1 = flush_data st []) →
     (nf = true → ∀ f st, o2 = Some (f, st) → d2 = flush_data st []) →
     Q tt (put_blob priv (filled o2 d2) (put_blob pub (filled o1 d1) t))) →
  cwp nf U (close_stream (fst <$> o1)) (λ _ t', cwp nf U (close_stream (fst <$> o2)) Q t')
    (done_state t pub priv o1 o2).
Proof.
  intros Hok [H1 H2] HQ. unfold done_state. rewrite opened_file_comm by (intros f st E; by destruct (H2 f st E) as (_ & _ & ?)).
  assert (∀ f1 st1 f2 st2, o1 = Some (f1, st1) → o2 = Some (f2, st2) → st_ino st1 ≠ st_ino st2) as Hne.
  { intros f1 st1 f2 st2 E1 E2. destruct (H1 f1 st1 E1) as [_ Hi1]. destruct (H2 f2 st2 E2) as (_ & Hi2 & _).
    rewrite E1 in Hi2. cbn in Hi2. by eapply blob_inodes_differ. }
  apply cwp_close_opened.
  { destruct o1 as [[f1 st1]|]; [|done]. destruct (H1 f1 st1 eq_refl) as [Hf1 Hi1].
    destruct o2 as [[f2 st2]|]; cbn.
    - specialize (Hne f1 st1 f2 st2 eq_refl eq_refl). destruct (H2 f2 st2 eq_refl) as (Hf2 & _ & Hf).
      split; [rewrite lookup_insert_ne; [done|cbn in Hf; set_solver]|].
      exists []. rewrite lookup_insert_ne by done. apply lookup_insert_eq.
    - rewrite lookup_insert_eq. eauto. }
  intros d1 Hd1.
  assert (∀ st2, match o1 with
     | Some (f, st) => put_file (st_ino st) d1 (opened_file o2 st2) | None => opened_file o2 st2 end
     = opened_file o2 (match o1 with Some (f, st) => put_file (st_ino st) d1 st2 | None => st2 end)) as ->.
  { intros. by destruct o1 as [[]|], o2 as [[]|]. }
  apply cwp_close_opened.
  { destruct o2 as [[f2 st2]|]; [|done]. destruct (H2 f2 st2 eq_refl) as (Hf2 & Hi2 & _).
    destruct o1 as [[f1 st1]|]; cbn.
    - specialize (Hne f1 st1 f2 st2 eq_refl eq_refl). rewrite lookup_insert_ne by done. rewrite lookup_insert_eq. eauto.
    - rewrite lookup_insert_eq. eauto. }
  intros d2 Hd2.
  assert (∀ x y, x = y → Q tt x → Q tt y) as Hq by (by intros ? ? ->). eapply Hq; [|apply (HQ d1 d2)].
  - destruct o1 as [[f1 st1]|], o2 as [[f2 st2]|]; cbn; [symmetry; apply fill_blobs; by eapply Hne| | |done];
      unfold put_file, add_name, set_names, set_inodes; cbn; by rewrite insert_insert_eq.
  - intros Hnf f st ->. apply (Hd1 Hnf f st); [done|]. destruct o2 as [[f2 st2]|]; cbn.
    + rewrite lookup_insert_ne by (symmetry; by eapply Hne). apply lookup_insert_eq.
    + apply lookup_insert_eq.
  - intros Hnf f st ->. apply (Hd2 Hnf f st); [done|]. destruct o1 as [[f1 st1]|]; cbn.
    + rewrite lookup_insert_ne by (by eapply Hne). apply lookup_insert_eq.
    + apply lookup_insert_eq.
Qed.

Lemma is_dir_put t pub i d p :
  inode_for t pub i → is_dir t p = true → is_dir (add_name pub i (Inode false 0 d) t) p = true.
Proof.
  unfold is_dir. cbn. intros Hi Hd. destruct (s_names t !! p) as [j|] eqn:Hp; [|done].
  destruct (s_inodes t !! j) as [n|] eqn:Hj; [|done].
  assert (p ≠ pub) by (intros ->; destruct Hi as [(d' & Hn & Hi)|[Hn Hi]]; [|congruence];
    rewrite Hp in Hn; apply (inj Some) in Hn as <-; rewrite Hj in Hi; apply (inj Some) in Hi as ->; done).
  assert (j ≠ i) by (intros ->; destruct Hi as [(d' & Hn & Hi)|[Hn Hi]]; rewrite Hj in Hi; [|done];
    apply (inj Some) in Hi as ->; done).
  rewrite lookup_insert_ne, Hp by done. by rewrite lookup_insert_ne, Hj by done.
Qed.

Lemma creatable_after t pub priv i d :
  blob_paths_ok t pub priv → inode_for t pub i → creatable t priv →
  creatable (add_name pub i (Inode false 0 d) t) priv.
Proof.
  intros (Hne & Hok & Hdiff) Hi (Hp & Hpar & Hreg). split; [done|]. cbn. rewrite lookup_insert_ne by done. split.
  - intros Hn. specialize (Hpar Hn). unfold parent_ok in *. destruct (strrchr_slash priv) as [[]|]; [done| |done].
    by apply is_dir_put.
  - intros j Hj. destruct (decide (i = j)) as [->|]; [exists d; apply lookup_insert_eq|].
    rewrite lookup_insert_ne by done. by apply Hreg.
Qed.

(** Both blobs are written, as [written] streams. *)
Definition blobs_written (prv : TPM2B_PRIVATE) (pb : TPM2B_PUBLIC) (o1 o2 : option (nat * stream)) : Prop :=
  ∃ f i b g j c, o1 = Some (f, written (Stream i true 0 Idle []) b) ∧ o2 = Some (g, written (Stream j true 0 Idle []) c) ∧
    Tss2_MU_TPM2B_PUBLIC_Marshal pb sizeof_TPM2B_PUBLIC = Some b ∧
    Tss2_MU_TPM2B_PRIVATE_Marshal prv sizeof_TPM2B_PRIVATE = Some c.

Definition marshallable (prv : TPM2B_PRIVATE) (pb : TPM2B_PUBLIC) : Prop :=
  is_Some (Tss2_MU_TPM2B_PUBLIC_Marshal pb sizeof_TPM2B_PUBLIC) ∧
  is_Some (Tss2_MU_TPM2B_PRIVATE_Marshal prv sizeof_TPM2B_PRIVATE).

(** Writing both blobs to the open files. *)
Lemma cwp_write_blobs L X B f g i j prv pb (exit : Z → create_exit) Q :
  f ≠ g →
  (∀ r st1 st2, st_ino st1 = i → st_ino st2 = j →
     (r = 0 → blobs_written prv pb (Some (f, st1)) (Some (g, st2))) → (nf = true → marshallable prv pb → r = 0) →
     Q (exit r) (hp L X (upd_stream f st1 (upd_stream g st2 B)))) →
  cwp nf U
    (r ← padlock_tpm_write_public_blob f pb;
     if negb (r =? 0) then mret (exit (-1)) else
     r ← padlock_tpm_write_private_blob g prv;
     if negb (r =? 0) then mret (exit (-1)) else
     mret (exit 0)) Q
    (hp L X (upd_stream g (Stream j true 0 Idle []) (upd_stream f (Stream i true 0 Idle []) B))).
Proof.
  intros Hfg HQ. pose proof sizeof_public_pos. pose proof sizeof_private_pos.
  rewrite upd_stream_comm by done. apply cwp_bind, cwp_write_blob; [done|done|lia|by intros b [_ ?]%public_marshal_fits|].
  intros r st1 Hi1 Hr Hnf. cbn in Hi1. destruct (Z.eqb_spec r 0) as [->|Hr0]; cbn [negb].
  2: { apply cwp_ret, HQ; [done|done|done|]. intros Hn [Hm _]. destruct Hr0. auto. }
  destruct (Hr eq_refl) as (b & Hb & ->). rewrite upd_stream_comm by done.
  apply cwp_bind, cwp_write_blob; [done|done|lia|by intros c [_ ?]%private_marshal_fits|].
  intros r st2 Hi2 Hr2 Hnf2. cbn in Hi2. rewrite upd_stream_comm by done.
  destruct (Z.eqb_spec r 0) as [->|Hr0]; cbn [negb].
  2: { apply cwp_ret, HQ; [done|done|done|]. intros Hn [_ Hm]. destruct Hr0. auto. }
  destruct (Hr2 eq_refl) as (c & Hc & ->). apply cwp_ret, HQ; [done|done| |done]. intros _. by exists f, i, b, g, j, c.
Qed.

Lemma cwp_create_files L X B pub priv primary prv pb blocks Q :
  blob_paths_ok (hp L X B) pub priv →
  (∀ r o1 o2, done_streams (hp L X B) pub priv o1 o2 → (r = 0 → blobs_written prv pb o1 o2) →
     (nf = true → creatable (hp L X B) pub → creatable (hp L X B) priv → marshallable prv pb → r = 0) →
     Q (CreateExit r (fst <$> o1) (fst <$> o2) (Some primary) blocks) (hp L X (done_state B pub priv o1 o2))) →
  cwp nf U (create_files pub priv primary prv pb blocks) Q (hp L X B).
Proof.
  intros Hok HQ. unfold create_files.
  assert (∀ o1 o2, done_streams (hp L X B) pub priv o1 o2 →
    nf = false ∨ ¬ (creatable (hp L X B) pub ∧ creatable (hp L X B) priv) →
    Q (CreateExit (-1) (fst <$> o1) (fst <$> o2) (Some primary) blocks) (hp L X (done_state B pub priv o1 o2))) as Hfail.
  { intros o1 o2 Hd Hor. apply HQ; [done|done|]. intros Hnf C1 C2 _. destruct Hor as [|Hor]; [congruence|tauto]. }
  apply cwp_bind, cwp_fopen_write.
  - intros Hor. apply cwp_bind, cwp_fopen_write.
    + intros Hor2. apply cwp_ret. apply (Hfail None None); [split; done|]. destruct Hor; [by left|right; tauto].
    + intros j g Hj Hg. apply cwp_ret. apply (Hfail None (Some (g, Stream j true 0 Idle []))).
      * split; [done|]. intros f st [= <- <-]. split_and!; [done..|set_solver].
      * destruct Hor; [by left|right; tauto].
  - intros i f Hi Hf. apply cwp_bind, cwp_fopen_write.
    + intros Hor. apply cwp_ret. apply (Hfail (Some (f, Stream i true 0 Idle [])) None).
      * split; [|done]. by intros f' st [= <- <-].
      * destruct Hor as [|Hor]; [by left|right]. intros [_ C2]. apply Hor. by apply (creatable_after (hp L X B)).
    + intros j g Hj Hg. cbn in Hg. destruct (decide (f = g)) as [->|Hfg]; [by rewrite lookup_insert_eq in Hg|].
      rewrite lookup_insert_ne in Hg by done.
      change (upd_stream g _ _) with (hp L X (upd_stream g (Stream j true 0 Idle []) (upd_stream f (Stream i true 0 Idle [])
        (add_name priv j (Inode false 0 []) (add_name pub i (Inode false 0 []) B))))).
      apply (cwp_write_blobs _ _ _ _ _ _ _ _ _ (λ r, CreateExit r (Some f) (Some g) (Some primary) blocks)); [done|]. intros r st1 st2 <- <- Hr Hnf. rewrite upd_stream_comm by done.
      apply (HQ r (Some (f, st1)) (Some (g, st2))); [|done|auto]. split; intros f' st' [= <- <-]; [done|].
      split_and!; [done|exact Hj|set_solver].
Qed.

Lemma flush_written i b : flush_data (written (Stream i true 0 Idle []) b) [] = b.
Proof.
  unfold flush_data, written. cbn [st_pending st_pos app]. destruct b as [|x b]; [done|].
  unfold file_write. rewrite app_nil_l. rewrite Z.add_0_l, Z.sub_diag, Z.add_0_l.
  apply splice_all. rewrite len_zeros; cbn; lia.
Qed.

(** The blobs [b] and [c] hold [secret], sealed under the storage key of this TPM. *)
Definition sealed (secret b c : list byte) : Prop :=
  ∃ p r prv pb, storage_key = Some p ∧
    (sp ← padlock_tpm_build_seal_template secret; TPM2_Create p sp.1 sp.2 r) = Some (prv, pb) ∧
    Tss2_MU_TPM2B_PUBLIC_Marshal pb sizeof_TPM2B_PUBLIC = Some b ∧
    Tss2_MU_TPM2B_PRIVATE_Marshal prv sizeof_TPM2B_PRIVATE = Some c.

Definition create_post (pub priv secret : list byte) (L X : gset nat) (B : sys) (Q : Z → sys → Prop) : Prop :=
  ∀ r o1 o2 X', blob_inode B pub o1 → blob_inode (put_blob pub o1 B) priv o2 → (nf = true → X' = X) →
    (nf = true → creatable B pub → creatable B priv →
       r = 0 ∧ ∃ i j b c, o1 = Some (i, b) ∧ o2 = Some (j, c) ∧ sealed secret b c) →
    Q r (hp L X' (put_blob priv o2 (put_blob pub o1 B))).

(** The label [done], with the blocks [l] and the primary object [h] to release. *)
Lemma cwp_create_done esys pub priv secret L X B h p l r o1 o2 Q :
  esys ∈ L → blob_paths_ok B pub priv → h ∉ X → NoDup (b_id <$> l) → (∀ i, i ∈ b_id <$> l → i ∉ L) →
  done_streams B pub priv o1 o2 →
  (nf = true → creatable B pub → creatable B priv →
     r = 0 ∧ ∃ prv pb, blobs_written prv pb o1 o2 ∧ ∀ b c, Tss2_MU_TPM2B_PUBLIC_Marshal pb sizeof_TPM2B_PUBLIC = Some b →
       Tss2_MU_TPM2B_PRIVATE_Marshal prv sizeof_TPM2B_PRIVATE = Some c → sealed secret b c) →
  create_post pub priv secret L X B Q →
  cwp nf U (create_done esys (CreateExit r (fst <$> o1) (fst <$> o2) (Some (Handle h p)) l)) Q
    (hp (list_to_set (b_id <$> l) ∪ L) ({[h]} ∪ X) (done_state B pub priv o1 o2)).
Proof.
  intros He Hok Hh Hnd Hl Hds Hnf HQ. unfold create_done. cbn [ce_result ce_public_file ce_private_file ce_primary ce_blocks].
  assert (done_streams (hp (list_to_set (b_id <$> l) ∪ L) ({[h]} ∪ X) B) pub priv o1 o2) as Hds'.
  { destruct Hds as [D1 D2]. split; [exact D1|]. intros f st E. destruct (D2 f st E) as (? & Hi & ?).
    split_and!; [done| |done]. by destruct o1 as [[]|]. }
  rewrite hp_done. apply cwp_bind. eapply cwp_mono; [|intros a t' H; apply cwp_bind; exact H].
  apply cwp_close_both; [exact Hok|exact Hds'|]. cbv beta.
  intros d1 d2 H1 H2. rewrite <- !hp_put_blob. apply cwp_bind, cwp_flush; [set_solver|]. intros X' HX'.
  apply cwp_bind, cwp_free_all; [done..|]. apply cwp_ret. apply HQ.
  - destruct o1 as [[f st]|]; [|done]. by destruct (proj1 Hds f st eq_refl).
  - destruct o2 as [[f st]|]; [|done]. destruct (proj2 Hds f st eq_refl) as (_ & Hi & _). cbn.
    destruct o1 as [[f1 st1]|]; [|done]. cbn in *. destruct Hi as [(d & Hn & Hi)|[Hn Hi]]; cbn in *.
    + left. destruct (decide (st_ino st1 = st_ino st)) as [E|E].
      * exists d1. split; [done|]. cbn. rewrite E. apply lookup_insert_eq.
      * exists d. split; [done|]. rewrite lookup_insert_ne in Hi by done. cbn. by rewrite lookup_insert_ne by done.
    + right. split; [done|]. apply lookup_insert_None in Hi as [? ?]. cbn. by rewrite lookup_insert_ne.
  - intros Hn. rewrite (HX' Hn). apply leibniz_equiv. cbn. set_solver.
  - intros Hn C1 C2. destruct (Hnf Hn C1 C2) as (-> & prv & pb & (f & i & b & g & j & c & -> & -> & Hb & Hc) & Hs).
    split; [done|]. exists i, j, b, c.
    assert (d1 = b) as -> by (by rewrite (H1 Hn _ _ eq_refl), flush_written).
    assert (d2 = c) as -> by (by rewrite (H2 Hn _ _ eq_refl), flush_written). split_and!; [done..|by apply Hs].
Qed.

Lemma list_to_set_app_assoc (l l' : list buf) (L : gset nat) :
  list_to_set (b_id <$> l') ∪ (list_to_set (b_id <$> l) ∪ L) = list_to_set (b_id <$> l ++ l') ∪ L.
Proof. apply leibniz_equiv. rewrite fmap_app, list_to_set_app. set_solver. Qed.

(** Giving up before the files are opened. *)
Lemma create_post_none pub priv secret L X X' B Q :
  create_post pub priv secret L X B Q → nf = false → Q (-1) (hp L X' B).
Proof. intros HQ Hnf. apply (HQ (-1) None None X'); [done|done|congruence..]. Qed.

Lemma cwp_create_body esys pub priv secret sens tmpl L X B Q :
  esys ∈ L → blob_paths_ok B pub priv → padlock_tpm_build_seal_template secret = Some (sens, tmpl) →
  create_post pub priv secret L X B Q →
  cwp nf U (create_body esys pub priv sens tmpl) (λ x t', cwp nf U (create_done esys x) Q t') (hp L X B).
Proof.
  intros He Hok Ht HQ.
  assert (sens = Tpm2bSensitiveCreate [] (sc_data sens) ∧ 0 < len (sc_data sens) ≤ 128 ∧ seal_template tmpl = true) as (Es & Hd & Htm).
  { unfold padlock_tpm_build_seal_template in Ht. destruct (load 0 PADLOCK_TPM_KEY_SIZE secret) as [d|] eqn:El; [|done].
    cbn in Ht. apply load_inv in El as (_ & _ & ? & ->). injection Ht as <- <-. unfold PADLOCK_TPM_KEY_SIZE in *.
    split_and!; [done|cbn [sc_data]; rewrite len_sub by lia; lia..|by vm_compute]. }
  unfold create_body. apply cwp_bind, cwp_create_primary; [done|..].
  { intros Hnf. apply cwp_ret. unfold create_done. cbn [ce_result ce_public_file ce_private_file ce_primary ce_blocks].
    do 4 (apply cwp_bind; cbn [close_stream flush free_all]; apply cwp_ret). apply cwp_ret. by eapply create_post_none. }
  intros p h l Hp Hh Hnd Hl.
  assert (nf = false → cwp nf U (create_done esys (CreateExit (-1) None None (Some (Handle h p)) l)) Q
    (hp (list_to_set (b_id <$> l) ∪ L) ({[h]} ∪ X) B)) as Hfail.
  { intros Hnf. apply (cwp_create_done esys pub priv secret L X B h p l (-1) None None); try done. congruence. }
  apply cwp_bind, cwp_set_auth; [set_solver|intros; cret; by apply Hfail|]. cbn [negb].
  apply cwp_bind, cwp_esys_call; [set_solver|intros; cret; by apply Hfail|].
  apply cwp_bind, cwp_draw; [lia|]. intros r _. cbn [h_obj].
  destruct (create_ok p tmpl [] (sc_data sens) r Htm Hd) as [[prv pb] Hc]. rewrite <- Es in Hc. rewrite Hc.
  apply cwp_bind, cwp_output_blocks. intros l' Hnd' Hl'. apply cwp_ret. rewrite list_to_set_app_assoc.
  apply cwp_create_files; [exact Hok|]. intros res o1 o2 Hds Hr Hnf.
  apply (cwp_create_done esys pub priv secret); try done.
  - rewrite fmap_app. apply NoDup_app. split_and!; [done| |done]. intros i Hi Hi'. apply (Hl' i Hi'). set_solver.
  - rewrite fmap_app. intros i [Hi|Hi]%elem_of_app; [by apply Hl|]. specialize (Hl' i Hi). set_solver.
  - destruct Hds as [D1 D2]. split; [exact D1|]. intros f st E. destruct (D2 f st E) as (? & Hi & ?).
    split_and!; [done| |done]. by destruct o1 as [[]|].
  - intros Hn C1 C2. destruct (created_public_marshal _ _ _ _ _ _ Hc) as (b & Hb & _).
    destruct (created_private_marshal _ _ _ _ _ _ Hc) as (c & Hc' & _).
    assert (res = 0) as -> by (apply Hnf; [done|done|done|by split; eexists]).
    split; [done|]. exists prv, pb. split; [by apply Hr|]. intros b' c' Hb' Hc''.
    exists p, r, prv, pb. rewrite Ht. done.
Qed.

Lemma cwp_create_sealed esys pub priv secret L X B Q :
  esys ∈ L → len secret = 32 → blob_paths_ok B pub priv → create_post pub priv secret L X B Q →
  cwp nf U (padlock_tpm_create_sealed_secret esys pub priv secret) Q (hp L X B).
Proof.
  intros He Hlen Hok HQ. unfold padlock_tpm_create_sealed_secret.
  destruct (padlock_tpm_build_seal_template secret) as [[sens tmpl]|] eqn:Ht.
  2: { unfold padlock_tpm_build_seal_template in Ht. unfold PADLOCK_TPM_KEY_SIZE in Ht. by rewrite load_some in Ht by lia. }
  apply cwp_bind, cwp_ret. apply cwp_bind, cwp_set_auth; [done|..].
  - intros Hnf. cbn [negb]. apply cwp_bind, cwp_leave, cwp_ret. by eapply create_post_none.
  - cbn [negb]. apply cwp_bind. eapply cwp_mono.
    + apply (cwp_create_body esys pub priv secret sens tmpl L X B (λ r t', Q r t')); done.
    + intros x t' H. apply cwp_bind. eapply cwp_mono; [exact H|]. intros r t'' HQ'. by apply cwp_bind, cwp_leave, cwp_ret.
Qed.
End Create.
