(* ===== verification/TpmKeySpec.v ===== *)
(** * Rules for opening the sealed key

    [padlock_tpm_unseal_secret] and the connection to the TPM, in the style of [TpmSpec]. *)

From S2P Require Import Prelude World Posix Libc Codec Openssl Header Secret Allocate Tss Core Tpm TpmSpec.

(** A regular file with bytes [d] at the path. *)
Definition holds_file (t : sys) (p d : list byte) : Prop :=
  ∃ i, s_names t !! p = Some i ∧ s_inodes t !! i = Some (Inode false 0 d).

Lemma holds_file_inj t p d d' : holds_file t p d → holds_file t p d' → d = d'.
Proof. intros (i & Hn & Hi) (i' & Hn' & Hi'). congruence. Qed.

(** Both files are there and hold something. *)
Definition blobs_there (t : sys) (pub priv : list byte) : Prop :=
  ∃ b c, holds_file t pub b ∧ holds_file t priv c ∧ 0 < len b ∧ 0 < len c.

(** A stream opened for reading on the file at [p]. *)
Definition reading (t : sys) (p : list byte) (o : option (nat * stream)) : Prop :=
  match o with
  | Some (f, st) => s_streams t !! f = None ∧ st_pending st = [] ∧
      s_names t !! p = Some (st_ino st) ∧ ∃ d, s_inodes t !! st_ino st = Some (Inode false 0 d)
  | None => True
  end.

Section Unseal.
Context {OSSL : Openssl} {T : Tss} {TL : TssLaws T}.
Context (nf : bool) (U : Prop).

Lemma cwp_close_read o p Q t :
  reading t p o → Q tt t → cwp nf U (close_stream (fst <$> o)) Q (opened_file o t).
Proof.
  intros Ho HQ. destruct o as [[f st]|]; [|by apply cwp_ret]. destruct Ho as (Hf & Hp & _ & d & Hd).
  cbn [close_stream opened_file fmap option_fmap option_map fst]. apply cwp_bind. eapply cwp_fclose; [done..|].
  intros r d' Hd'. apply cwp_ret. rewrite Hd', put_file_id; [done| |by right]. unfold flush_data. by rewrite Hp.
Qed.

(** Freeing the blocks [l] among others. *)
Lemma cwp_free_front l l' L X B Q :
  NoDup (b_id <$> l ++ l') → (∀ i, i ∈ b_id <$> l ++ l' → i ∉ L) →
  Q tt (hp (list_to_set (b_id <$> l') ∪ L) X B) →
  cwp nf U (free_all l) Q (hp (list_to_set (b_id <$> l ++ l') ∪ L) X B).
Proof.
  rewrite fmap_app. intros (Hnd & Hdis & Hnd')%NoDup_app Hl HQ.
  replace (list_to_set ((b_id <$> l) ++ (b_id <$> l')) ∪ L)
    with (list_to_set (b_id <$> l) ∪ (list_to_set (b_id <$> l') ∪ L) : gset nat)
    by (apply leibniz_equiv; rewrite list_to_set_app; set_solver).
  apply cwp_free_all; [done| |done]. intros i Hi. specialize (Hl i). specialize (Hdis i Hi). set_solver.
Qed.

Lemma cwp_free_front_opt o l' L X B Q :
  NoDup (b_id <$> option_list o ++ l') → (∀ i, i ∈ b_id <$> option_list o ++ l' → i ∉ L) →
  Q tt (hp (list_to_set (b_id <$> l') ∪ L) X B) →
  cwp nf U (free o) Q (hp (list_to_set (b_id <$> option_list o ++ l') ∪ L) X B).
Proof.
  intros Hnd Hl HQ. destruct o as [p|]; [|by apply cwp_ret].
  cbn in Hnd. apply NoDup_cons in Hnd as [Hp Hnd]. apply cwp_free; [cbn; set_solver|].
  change (Q tt (hp ((list_to_set (b_id <$> option_list (Some p) ++ l') ∪ L) ∖ {[b_id p]}) X B)).
  replace ((list_to_set (b_id <$> option_list (Some p) ++ l') ∪ L) ∖ {[b_id p]})
    with (list_to_set (b_id <$> l') ∪ L : gset nat); [done|].
  apply leibniz_equiv. specialize (Hl (b_id p)). cbn in *. set_solver.
Qed.

Definition unseal_post (pub priv : list byte) (L X : gset nat) (B : sys) (Q : option (list byte) → sys → Prop) : Prop :=
  ∀ r X', (nf = true → X' = X) → (∀ k, r = Some k → len k = 32 ∧ blobs_there B pub priv) →
    (∀ secret b c, holds_file B pub b → holds_file B priv c → sealed secret b c → len secret = 32 →
       r = Some secret ∨ nf = false ∧ r = None) →
    Q r (hp L X' B).

(** The key, if any, is the one the files seal. *)
Definition key_right (pub priv : list byte) (B : sys) (r : option (list byte)) : Prop :=
  (∀ k, r = Some k → len k = 32 ∧ blobs_there B pub priv) ∧
  (∀ secret b c, holds_file B pub b → holds_file B priv c → sealed secret b c → len secret = 32 →
     r = Some secret ∨ nf = false ∧ r = None).

Lemma key_right_none pub priv B : nf = false → key_right pub priv B None.
Proof. intros. split; [done|]. intros. by right. Qed.

(** The variables at the label [done] account for what is live and loaded beyond [L] and [X]. *)
Record exit_ok (L X LL XX : gset nat) (ph : option (handle tpm_primary)) (lh : option (handle tpm_object))
    (blocks : list buf) : Prop := {
  eo_nodup : NoDup (b_id <$> blocks);
  eo_fresh i : i ∈ b_id <$> blocks → i ∉ L;
  eo_live : LL = list_to_set (b_id <$> blocks) ∪ L;
  eo_tpm : XX ∖ list_to_set (h_id <$> option_list ph) ∖ list_to_set (h_id <$> option_list lh) = X
}.

Lemma exit_ok_nil L X : exit_ok L X L X None None [].
Proof. split; [constructor|set_solver|set_solver|]. cbn. apply leibniz_equiv. set_solver. Qed.

Lemma exit_ok_blocks L X LL XX ph lh l l' :
  exit_ok L X LL XX ph lh l → NoDup (b_id <$> l') → (∀ i, i ∈ b_id <$> l' → i ∉ LL) →
  exit_ok L X (list_to_set (b_id <$> l') ∪ LL) XX ph lh (l' ++ l).
Proof.
  intros [Hnd Hf -> Ht] Hnd' Hf'. split; [| | |done].
  - rewrite fmap_app. apply NoDup_app. split_and!; [done| |done]. intros i Hi Hi'. specialize (Hf' i Hi). set_solver.
  - intros i Hi. rewrite fmap_app in Hi. apply elem_of_app in Hi as [Hi|Hi]; [specialize (Hf' i Hi); set_solver|auto].
  - apply leibniz_equiv. rewrite fmap_app, list_to_set_app. set_solver.
Qed.

Lemma exit_ok_cons L X LL XX ph lh l i d :
  exit_ok L X LL XX ph lh l → i ∉ LL → exit_ok L X ({[i]} ∪ LL) XX ph lh (Buf i d :: l).
Proof.
  intros Hok Hi. pose proof (exit_ok_blocks _ _ _ _ _ _ _ [Buf i d] Hok) as H. cbn in H.
  rewrite (right_id_L ∅ (∪) {[i]}) in H. apply H; [apply NoDup_singleton|]. by intros j ->%list_elem_of_singleton.
Qed.

Lemma exit_ok_perm L X LL XX ph lh l l' : exit_ok L X LL XX ph lh l → l ≡ₚ l' → exit_ok L X LL XX ph lh l'.
Proof.
  intros [Hnd Hf -> Ht] Hp. split; [by rewrite <- Hp| |apply leibniz_equiv; by rewrite Hp|done].
  intros i. rewrite <- Hp. apply Hf.
Qed.

Lemma exit_ok_primary L X LL XX l (h : handle tpm_primary) :
  exit_ok L X LL XX None None l → h_id h ∉ XX → exit_ok L X LL ({[h_id h]} ∪ XX) (Some h) None l.
Proof.
  intros [Hnd Hf He Ht] Hh. split; [done..|]. rewrite <- Ht. cbn. apply leibniz_equiv. set_solver.
Qed.

Lemma exit_ok_loaded L X LL XX l ph (h : handle tpm_object) :
  exit_ok L X LL XX ph None l → h_id h ∉ XX → exit_ok L X LL ({[h_id h]} ∪ XX) ph (Some h) l.
Proof.
  intros [Hnd Hf He Ht] Hh. split; [done..|]. rewrite <- Ht. cbn. apply leibniz_equiv. set_solver.
Qed.

Lemma set_minus_opt {A} (h : option (handle A)) (X : gset nat) :
  X ∖ list_to_set (h_id <$> option_list h) = match h with Some h => X ∖ {[h_id h]} | None => X end.
Proof. destruct h; cbn; apply leibniz_equiv; set_solver. Qed.

Lemma cwp_unseal_done esys pub priv key o1 o2 ph lh l u sp sv L X LL XX B Q :
  esys ∈ L → exit_ok L X LL XX ph lh (l ++ option_list u ++ option_list sp ++ option_list sv) →
  reading B pub o1 → reading (opened_file o1 B) priv o2 → key_right pub priv B key →
  unseal_post pub priv L X B Q →
  cwp nf U (unseal_done esys (UnsealExit key (fst <$> o1) (fst <$> o2) ph lh l u sp sv)) Q
    (hp LL XX (opened_file o2 (opened_file o1 B))).
Proof.
  intros He [Hnd Hl -> HX] R1 R2 [Hk Hs] HQ. unfold unseal_done. rewrite !set_minus_opt in HX.
  cbn [ue_key ue_public_file ue_private_file ue_primary ue_loaded ue_blocks ue_unsealed ue_seal_public ue_seal_private].
  set (LL := list_to_set _ ∪ L).
  replace (hp LL XX (opened_file o2 (opened_file o1 B)))
    with (opened_file o1 (opened_file o2 (hp LL XX B))).
  2: { destruct o1 as [[f1 st1]|], o2 as [[f2 st2]|]; try done. cbn. apply upd_stream_comm. intros <-.
       destruct R2 as [R2 _]. cbn in R2. by rewrite lookup_insert_eq in R2. }
  apply cwp_bind, (cwp_close_read o1 pub).
  { destruct o1 as [[f1 st1]|]; [|done]. destruct R1 as (Hf & ?). split; [|by destruct o2 as [[]|]].
    destruct o2 as [[f2 st2]|]; [|done]. destruct R2 as [R2 _]. cbn in *. rewrite lookup_insert_ne; [done|].
    intros ->. by rewrite lookup_insert_eq in R2. }
  apply cwp_bind, (cwp_close_read o2 priv).
  { destruct o2 as [[f2 st2]|]; [|done]. destruct R2 as (Hf & ?). split; [|by destruct o1 as [[]|]].
    destruct o1 as [[f1 st1]|]; [|done]. cbn in *. by apply lookup_insert_None in Hf as [? _]. }
  apply cwp_bind, cwp_flush; [set_solver|]. intros X1 HX1.
  apply cwp_bind, cwp_flush; [set_solver|]. intros X2 HX2. unfold LL.
  apply cwp_bind, cwp_free_front; [done..|].
  rewrite fmap_app in Hnd, Hl. apply NoDup_app in Hnd as (_ & _ & Hnd).
  assert (∀ i, i ∈ b_id <$> option_list u ++ option_list sp ++ option_list sv → i ∉ L) as Hl1 by (intros; apply Hl; set_solver).
  apply cwp_bind, cwp_free_front_opt; [done..|].
  rewrite fmap_app in Hnd, Hl1. apply NoDup_app in Hnd as (_ & _ & Hnd).
  assert (∀ i, i ∈ b_id <$> option_list sp ++ option_list sv → i ∉ L) as Hl2 by (intros; apply Hl1; set_solver).
  apply cwp_bind, cwp_free_front_opt; [done..|].
  rewrite fmap_app in Hnd, Hl2. apply NoDup_app in Hnd as (_ & _ & Hnd).
  rewrite <- (app_nil_r (option_list sv)) in *. apply cwp_bind, cwp_free_front_opt; [done|set_solver|].
  apply cwp_ret. replace (list_to_set (b_id <$> []) ∪ L) with L by set_solver.
  apply HQ; [|done|done]. intros Hn. by rewrite (HX2 Hn), (HX1 Hn).
Qed.

(** From the blobs to the label [done]. *)
Lemma cwp_unseal_load esys pub priv prv pb o1 o2 sp sv L X LL B Q :
  let exit k p l b u := UnsealExit k (fst <$> o1) (fst <$> o2) p l b u sp sv in
  esys ∈ L → exit_ok L X LL X None None (option_list sp ++ option_list sv) →
  reading B pub o1 → reading (opened_file o1 B) priv o2 → blobs_there B pub priv →
  (∀ secret b c, holds_file B pub b → holds_file B priv c → sealed secret b c → len secret = 32 →
     ∃ p o, storage_key = Some p ∧ TPM2_Load p prv pb = Some o ∧ TPM2_Unseal o = Some secret) →
  unseal_post pub priv L X B Q →
  cwp nf U (unseal_load esys prv pb exit) (λ x t', cwp nf U (unseal_done esys x) Q t')
    (hp LL X (opened_file o2 (opened_file o1 B))).
Proof.
  intros exit He Hok R1 R2 Hth Hs HQ. unfold unseal_load, exit.
  assert (esys ∈ LL) as HeL by (rewrite (eo_live _ _ _ _ _ _ _ Hok); set_solver).
  assert (nf = false → ∀ ph lh l u LL' XX, exit_ok L X LL' XX ph lh (l ++ option_list u ++ option_list sp ++ option_list sv) →
    cwp nf U (unseal_done esys (exit None ph lh l u)) Q (hp LL' XX (opened_file o2 (opened_file o1 B)))) as Hfail.
  { intros Hnf ph lh l u LL' XX Hx. apply (cwp_unseal_done esys pub priv _ o1 o2 _ _ _ _ sp sv L X); [done..|by apply key_right_none|done]. }
  apply cwp_bind, cwp_set_auth; [done|intros; cret; by apply Hfail|]. cbn [negb].
  apply cwp_bind, cwp_create_primary; [done|intros; apply cwp_ret; by apply Hfail|].
  intros p h l Hp Hh Hnd Hl.
  assert (exit_ok L X (list_to_set (b_id <$> l) ∪ LL) ({[h]} ∪ X) (Some (Handle h p)) None
    (l ++ option_list sp ++ option_list sv)) as Hok1 by (apply (exit_ok_primary _ _ _ X _ (Handle h p)); [by apply exit_ok_blocks|done]).
  apply cwp_bind, cwp_set_auth; [set_solver|intros; cret; by apply Hfail|]. cbn [negb].
  apply cwp_bind, cwp_esys_call; [set_solver|intros; cret; by apply Hfail|]. cbn [h_obj].
  assert (∀ ph lh l u LL' XX, (∀ o, TPM2_Load p prv pb = Some o → TPM2_Unseal o = None ∨ ∃ d, TPM2_Unseal o = Some d ∧ len d < 32) →
    exit_ok L X LL' XX ph lh (l ++ option_list u ++ option_list sp ++ option_list sv) →
    cwp nf U (unseal_done esys (exit None ph lh l u)) Q (hp LL' XX (opened_file o2 (opened_file o1 B)))) as Hbad.
  { intros ph lh l' u LL' XX Hno Hx. apply (cwp_unseal_done esys pub priv _ o1 o2 _ _ _ _ sp sv L X); [done..| |done]. split; [done|]. intros secret b c Hb Hc Hse Hlen.
    destruct (Hs secret b c Hb Hc Hse Hlen) as (p' & o & Hp' & Hlo & Hu). rewrite Hp in Hp'. apply (inj Some) in Hp' as <-.
    destruct (Hno o Hlo) as [|(d & ? & ?)]; [congruence|]. rewrite Hu in *. simplify_eq. lia. }
  destruct (TPM2_Load p prv pb) as [o|] eqn:Hlo; [|do 2 apply cwp_ret; by apply Hbad].
  apply cwp_bind, cwp_new_handle. intros h' Hh'. apply cwp_ret.
  pose proof (exit_ok_loaded _ _ _ _ _ _ (Handle h' o) Hok1 Hh') as Hok2. cbn [h_id] in Hok2.
  apply cwp_bind, cwp_set_auth; [set_solver|intros; cret; by apply Hfail|]. cbn [negb].
  apply cwp_bind, cwp_esys_call; [set_solver|intros; cret; by apply Hfail|]. cbn [h_obj].
  destruct (TPM2_Unseal o) as [d|] eqn:Hun; [|do 2 apply cwp_ret; apply Hbad; [intros o' [= <-]; by left|done]].
  apply cwp_new_block. intros i Hi. change (alloc_s i (hp ?L ?X ?B)) with (hp ({[i]} ∪ L) X B).
  assert (exit_ok L X ({[i]} ∪ (list_to_set (b_id <$> l) ∪ LL)) ({[h']} ∪ ({[h]} ∪ X)) (Some (Handle h p)) (Some (Handle h' o))
    (l ++ option_list (Some (Buf i d)) ++ option_list sp ++ option_list sv)) as Hok3.
  { eapply exit_ok_perm; [|apply (Permutation_middle l _ (Buf i d))]. by apply exit_ok_cons. }
  cbn [b_data]. unfold PADLOCK_TPM_KEY_SIZE. destruct (Z.ltb_spec (len d) 32) as [Hlt|Hge].
  { apply cwp_ret. apply Hbad; [|done]. intros o' [= <-]. right. by exists d. }
  apply cwp_bind, cwp_bload; [lia|lia|cbn [b_data]; lia|]. apply cwp_ret. cbn [b_data].
  apply (cwp_unseal_done esys pub priv _ o1 o2 _ _ _ _ sp sv L X); [done..| |done]. split.
  - intros k [= <-]. split; [rewrite len_sub; lia|done].
  - intros secret b c Hb Hc Hse Hlen. left. destruct (Hs secret b c Hb Hc Hse Hlen) as (p' & o' & Hp' & Hlo' & Hu').
    rewrite Hp in Hp'. apply (inj Some) in Hp' as <-. rewrite Hlo in Hlo'. apply (inj Some) in Hlo' as <-.
    rewrite Hun in Hu'. apply (inj Some) in Hu' as ->. f_equal. apply sub_all. lia.
Qed.

(** What a sealed pair of blobs reads as. *)
Lemma sealed_reads secret b c :
  sealed secret b c → len secret = 32 →
  0 < len b ≤ sizeof_TPM2B_PUBLIC ∧ 0 < len c ≤ sizeof_TPM2B_PRIVATE ∧
  ∃ p prv pb o, storage_key = Some p ∧ Tss2_MU_TPM2B_PUBLIC_Unmarshal b = Some (pb, len b) ∧
    Tss2_MU_TPM2B_PRIVATE_Unmarshal c = Some (prv, len c) ∧ TPM2_Load p prv pb = Some o ∧ TPM2_Unseal o = Some secret.
Proof.
  intros (p & r & prv & pb & Hp & Hc & Hb & Hv) Hlen. split; [by eapply public_marshal_fits|]. split; [by eapply private_marshal_fits|].
  unfold padlock_tpm_build_seal_template, PADLOCK_TPM_KEY_SIZE in Hc. rewrite load_some in Hc by lia.
  cbn [mbind option_bind fst snd] in Hc. rewrite sub_all in Hc by lia.
  destruct (created_public_marshal _ _ _ _ _ _ Hc) as (b' & Hb' & Hub). rewrite Hb in Hb'. apply (inj Some) in Hb' as <-.
  destruct (created_private_marshal _ _ _ _ _ _ Hc) as (c' & Hc' & Huc). rewrite Hv in Hc'. apply (inj Some) in Hc' as <-.
  edestruct created_unseals as (o & Hl & Hu); [|exact Hc|by exists p, prv, pb, o]. by vm_compute.
Qed.

(** One of the files does not hold a blob that can be read. *)
Lemma key_right_unread pub priv B x y :
  holds_file B pub x → holds_file B priv y →
  (nf = true → ∀ pb, 0 < len x ≤ sizeof_TPM2B_PUBLIC → Tss2_MU_TPM2B_PUBLIC_Unmarshal x ≠ Some (pb, len x)) ∨
  (nf = true → ∀ prv, 0 < len y ≤ sizeof_TPM2B_PRIVATE → Tss2_MU_TPM2B_PRIVATE_Unmarshal y ≠ Some (prv, len y)) →
  key_right pub priv B None.
Proof.
  intros Hx Hy Hno. split; [done|]. intros secret b c Hb Hc Hs Hlen. destruct nf; [|by right].
  rewrite (holds_file_inj _ _ _ _ Hb Hx), (holds_file_inj _ _ _ _ Hc Hy) in Hs.
  destruct (sealed_reads _ _ _ Hs Hlen) as (Hlb & Hlc & p & prv & pb & o & _ & Hub & Huc & _).
  destruct Hno as [Hno|Hno]; [destruct (Hno eq_refl pb Hlb Hub)|destruct (Hno eq_refl prv Hlc Huc)].
Qed.

Lemma reading_at B p f st q d : reading B p (Some (f, st)) → reading B p (Some (f, at_pos st q d)).
Proof. intros (? & ? & ? & ?). by split_and!. Qed.

Lemma cwp_unseal_read esys pub priv f g st1 st2 L X B Q :
  esys ∈ L → reading B pub (Some (f, at_pos st1 0 Idle)) →
  reading (opened_file (Some (f, at_pos st1 0 Idle)) B) priv (Some (g, at_pos st2 0 Idle)) →
  unseal_post pub priv L X B Q →
  cwp nf U (unseal_read esys f g) (λ x t', cwp nf U (unseal_done esys x) Q t')
    (hp L X (upd_stream g (at_pos st2 0 Idle) (upd_stream f (at_pos st1 0 Idle) B))).
Proof.
  intros He R1 R2 HQ. unfold unseal_read.
  assert (f ≠ g) as Hfg by (intros ->; destruct R2 as [R2 _]; cbn in R2; by rewrite lookup_insert_eq in R2).
  assert (∀ p1 d1 p2 d2, reading (opened_file (Some (f, at_pos st1 p1 d1)) B) priv (Some (g, at_pos st2 p2 d2))) as R2'.
  { intros p1 d1 p2 d2. destruct R2 as (Hg & ? & ? & ?). split_and!; [|done..]. cbn in *.
    apply lookup_insert_None in Hg as [? ?]. by rewrite lookup_insert_ne. }
  assert (∀ sp sv p1 d1 p2 d2 LL, exit_ok L X LL X None None (option_list sp ++ option_list sv) → key_right pub priv B None →
    cwp nf U (unseal_done esys (UnsealExit None (Some f) (Some g) None None [] None sp sv)) Q
      (hp LL X (upd_stream g (at_pos st2 p2 d2) (upd_stream f (at_pos st1 p1 d1) B)))) as Hexit.
  { intros sp sv p1 d1 p2 d2 LL Hx Hkey.
    apply (cwp_unseal_done esys pub priv None (Some (f, at_pos st1 p1 d1)) (Some (g, at_pos st2 p2 d2)) None None [] None sp sv L X);
      [done|done|by apply (reading_at _ _ _ (at_pos st1 0 Idle))|done|done|done]. }
  pose proof (exit_ok_nil L X) as Hok0.
  apply cwp_bind, cwp_calloc.
  { intros Hnf. apply cwp_bind, cwp_calloc; [intros _; apply cwp_ret; by apply Hexit, key_right_none|].
    intros j Hj. change (alloc_s j (hp ?L ?X ?B)) with (hp ({[j]} ∪ L) X B). apply cwp_ret.
    apply Hexit; [by apply exit_ok_cons|by apply key_right_none]. }
  intros i Hi. change (alloc_s i (hp ?L ?X ?B)) with (hp ({[i]} ∪ L) X B). apply cwp_bind, cwp_calloc.
  { intros Hnf. apply cwp_ret. apply Hexit; [by apply exit_ok_cons|by apply key_right_none]. }
  intros j Hj. change (alloc_s j (hp ?L ?X ?B)) with (hp ({[j]} ∪ L) X B).
  set (sp := Buf i _). set (sv := Buf j _). set (LL := {[j]} ∪ ({[i]} ∪ L)).
  assert (exit_ok L X LL X None None (option_list (Some sp) ++ option_list (Some sv))) as Hok.
  { apply (exit_ok_perm _ _ _ _ _ _ [sv; sp]); [|apply Permutation_swap]. apply exit_ok_cons; [by apply exit_ok_cons|exact Hj]. }
  destruct R1 as (Hf & Hp1 & Hn1 & x & Hx). destruct R2 as (Hg & Hp2 & Hn2 & y & Hy). cbn in Hn1, Hx, Hn2, Hy.
  rewrite upd_stream_comm by done. apply cwp_bind. eapply (cwp_read_blob _ _ _ _ _ f st1 x); [cbn; by rewrite Hx|].
  intros r p1 d1 Hr1 Hr2. rewrite upd_stream_comm by done. destruct r as [pb|].
  2: { apply cwp_ret. apply Hexit; [done|]. apply (key_right_unread pub priv B x y); [by exists (st_ino st1)|by exists (st_ino st2)|].
       left. intros Hn pb Hl Hu. by specialize (Hr2 Hn pb Hl Hu). }
  apply cwp_bind. eapply (cwp_read_blob _ _ _ _ _ g st2 y); [cbn; by rewrite Hy|].
  intros r p2 d2 Hs1 Hs2. destruct r as [prv|].
  2: { apply cwp_ret. apply Hexit; [done|]. apply (key_right_unread pub priv B x y); [by exists (st_ino st1)|by exists (st_ino st2)|].
       right. intros Hn prv Hl Hu. by specialize (Hs2 Hn prv Hl Hu). }
  apply (cwp_unseal_load esys pub priv prv pb (Some (f, at_pos st1 p1 d1)) (Some (g, at_pos st2 p2 d2)) (Some sp) (Some sv) L X);
    [done|done|by split_and!; eauto|done| | |done].
  { exists x, y. split_and!; [by exists (st_ino st1)|by exists (st_ino st2)|by eapply Hr1|by eapply Hs1]. }
  intros secret b c Hb Hc Hs Hlen. destruct (sealed_reads _ _ _ Hs Hlen) as (_ & _ & p & prv' & pb' & o & Hp & Hub & Huc & Hlo & Hu).
  assert (b = x) as -> by (apply (holds_file_inj B pub); [done|by exists (st_ino st1)]).
  assert (c = y) as -> by (apply (holds_file_inj B priv); [done|by exists (st_ino st2)]).
  destruct (Hr1 pb eq_refl) as [_ Hr1']. destruct (Hs1 prv eq_refl) as [_ Hs1']. rewrite Hub in Hr1'. rewrite Huc in Hs1'. simplify_eq. eauto.
Qed.

Lemma key_right_missing pub priv B :
  nf = false ∨ (∀ i d, s_names B !! pub = Some i → s_inodes B !! i ≠ Some (Inode false 0 d)) ∨
  (∀ i d, s_names B !! priv = Some i → s_inodes B !! i ≠ Some (Inode false 0 d)) →
  key_right pub priv B None.
Proof.
  intros Hor. split; [done|]. intros secret b c (i & Hi & Hb) (j & Hj & Hc) _ _. destruct nf; [|by right].
  destruct Hor as [|[H|H]]; [done|by destruct (H i b)|by destruct (H j c)].
Qed.

Lemma cwp_unseal_secret esys pub priv L X B Q :
  esys ∈ L → unseal_post pub priv L X B Q →
  cwp nf U (padlock_tpm_unseal_secret esys pub priv) Q (hp L X B).
Proof.
  intros He HQ. unfold padlock_tpm_unseal_secret.
  assert (∀ o1 o2, reading B pub o1 → reading (opened_file o1 B) priv o2 → key_right pub priv B None →
    cwp nf U (unseal_done esys (UnsealExit None (fst <$> o1) (fst <$> o2) None None [] None None None)) Q
      (hp L X (opened_file o2 (opened_file o1 B)))) as Hexit.
  { intros o1 o2 R1 R2 Hk. apply (cwp_unseal_done esys pub priv None o1 o2 None None [] None None None L X); try done.
    apply exit_ok_nil. }
  apply cwp_bind, cwp_fopen_existing.
  - intros Hno. apply cwp_bind, cwp_fopen_existing.
    + intros _. apply cwp_bind, cwp_ret. apply (Hexit None None); [done|done|]. apply key_right_missing. tauto.
    + intros j d g Hn Hd Hg. apply cwp_bind, cwp_ret.
      apply (Hexit None (Some (g, Stream j false 0 Idle []))); [done|split_and!; eauto|]. apply key_right_missing. tauto.
  - intros i d f Hn Hd Hf. apply cwp_bind, cwp_fopen_existing.
    + intros Hno. apply cwp_bind, cwp_ret.
      apply (Hexit (Some (f, Stream i false 0 Idle [])) None); [split_and!; eauto|done|]. apply key_right_missing. tauto.
    + intros j d' g Hn' Hd' Hg. apply cwp_bind.
      apply (cwp_unseal_read esys pub priv f g (Stream i false 0 Idle []) (Stream j false 0 Idle []) L X B);
        [done|split_and!; eauto|split_and!; eauto|done].
Qed.

(** ** The connection *)

Lemma cwp_connect L X B Q :
  (nf = false → Q None (hp L X B)) →
  (∀ e c, e ∉ L → c ∉ L → e ≠ c → Q (Some (e, c)) (hp ({[e]} ∪ ({[c]} ∪ L)) X B)) →
  cwp nf U padlock_tpm_connect Q (hp L X B).
Proof.
  intros HF HQ. unfold padlock_tpm_connect.
  assert (∀ c, c ∉ L → cwp nf U (e ← Esys_Initialize c; match e with
     | Some esys => mret (Some (esys, c))
     | None => set_errno EIO;; padlock_tpm_free_tcti (Some c);; mret None end) Q (hp ({[c]} ∪ L) X B)) as Hesys.
  { intros c Hc. apply cwp_bind, cwp_context_new.
    - intros Hnf. apply cwp_bind, cwp_set_errno, cwp_bind, cwp_context_drop; [cbn; set_solver|]. apply cwp_ret.
      change (Q None (hp (({[c]} ∪ L) ∖ {[c]}) X B)). rewrite alloc_free_set; auto.
    - intros e Hne. cbn in Hne. apply cwp_ret. apply HQ; set_solver. }
  assert (nf = false → cwp nf U (set_errno EIO;; padlock_tpm_free_tcti None;; mret None) Q (hp L X B)) as Hno.
  { intros Hnf. apply cwp_bind, cwp_set_errno, cwp_bind, cwp_ret, cwp_ret. auto. }
  apply cwp_bind, cwp_context_new.
  - intros Hnf. apply cwp_bind, cwp_context_new; [auto|]. intros c Hc. by apply Hesys.
  - intros c Hc. apply cwp_bind, cwp_ret. by apply Hesys.
Qed.

Lemma cwp_disconnect e c L X B Q :
  e ∉ L → c ∉ L → e ≠ c → Q tt (hp L X B) →
  cwp nf U (padlock_tpm_disconnect e c) Q (hp ({[e]} ∪ ({[c]} ∪ L)) X B).
Proof.
  intros He Hc Hne HQ. apply cwp_bind, cwp_context_drop; [cbn; set_solver|].
  change (cwp nf U (padlock_tpm_free_tcti (Some c)) Q (hp (({[e]} ∪ ({[c]} ∪ L)) ∖ {[e]}) X B)).
  rewrite alloc_free_set by set_solver. apply cwp_context_drop; [cbn; set_solver|].
  change (Q tt (hp (({[c]} ∪ L) ∖ {[c]}) X B)). by rewrite alloc_free_set.
Qed.
End Unseal.
