(* ===== verification/TreeSpec.v ===== *)
(** * The directory tree

    [ensure_directory_tree]: every missing directory on the way is made, nothing else
    changes (the modes apart, which [core] forgets), and when nothing fails and no name on the
    way is a file, the whole path exists afterwards. *)

From S2P Require Import Prelude World Posix Libc Codec Openssl Header Secret Allocate Tss Core Tpm.

(** [t'] is [t] with directories made on the way to [path], under names that were free. *)
Inductive grown (path : list byte) (t : sys) : sys → Prop :=
  | grown_refl : grown path t t
  | grown_mkdir t1 p i :
      grown path t t1 → p `prefix_of` path → p ≠ [] → s_names t1 !! p = None → s_inodes t1 !! i = None →
      grown path t (add_name p i (Inode true 0 []) t1).

Lemma grown_name path t t' p i : grown path t t' → s_names t !! p = Some i → s_names t' !! p = Some i.
Proof. induction 1; [done|]. intros. cbn. rewrite lookup_insert_ne; [auto|]. intros ->. rewrite IHgrown in *; done. Qed.

Lemma grown_inode path t t' i n : grown path t t' → s_inodes t !! i = Some n → s_inodes t' !! i = Some n.
Proof. induction 1; [done|]. intros. cbn. rewrite lookup_insert_ne; [auto|]. intros ->. rewrite IHgrown in *; done. Qed.

Lemma grown_dir path t t' p : grown path t t' → is_dir t p = true → is_dir t' p = true.
Proof.
  unfold is_dir. intros Hg. destruct (s_names t !! p) as [i|] eqn:Hp; [|done]. rewrite (grown_name _ _ _ _ _ Hg Hp).
  destruct (s_inodes t !! i) as [n|] eqn:Hi; [|done]. by rewrite (grown_inode _ _ _ _ _ Hg Hi).
Qed.

(** Everything but names and inodes. *)
Lemma grown_rest path t t' :
  grown path t t' → s_live t' = s_live t ∧ s_streams t' = s_streams t ∧ s_fds t' = s_fds t ∧ s_env t' = s_env t ∧ s_io t' = s_io t.
Proof. by induction 1. Qed.

Lemma grown_names_ok path t t' : grown path t t' → names_ok t → names_ok t'.
Proof.
  induction 1; [done|]. intros Hok q j. cbn. intros [[-> ->]|[Hq Hj]]%lookup_insert_Some; [rewrite lookup_insert_eq; eauto|].
  destruct (decide (i = j)) as [->|]; [rewrite lookup_insert_eq; eauto|]. rewrite lookup_insert_ne by done. by eapply IHgrown.
Qed.

(** A name that is new is a directory. *)
Lemma grown_new path t t' p i :
  grown path t t' → s_names t' !! p = Some i → s_names t !! p = Some i ∨ s_names t !! p = None ∧ is_dir t' p = true ∧ p `prefix_of` path.
Proof.
  induction 1 as [|t1 q j Hg IH Hpre Hq Hn Hi]; [by left|]. cbn. intros [[-> ->]|[Hne Hp]]%lookup_insert_Some.
  - right. split_and!; [| |done].
    + destruct (s_names t !! p) as [k|] eqn:Hk; [|done]. by rewrite (grown_name _ _ _ _ _ Hg Hk) in Hn.
    + unfold is_dir, add_name. cbn. by rewrite !lookup_insert_eq.
  - destruct (IH Hp) as [|(? & Hd & ?)]; [by left|right]. split_and!; [done| |done]. unfold is_dir, add_name in *. cbn.
    rewrite lookup_insert_ne by done. rewrite Hp in *. rewrite lookup_insert_ne; [done|]. intros ->. by rewrite Hi in Hd.
Qed.

Section Rules.
Context (nf : bool) (U : Prop).

Lemma cwp_chmod p m Q t : (∀ r, Q r t) → cwp nf U (chmod p m) Q t.
Proof.
  intros HQ. apply cwp_fallible; [auto|]. apply cwp_intro. intros s <-. apply wp_bind, wp_get_sys.
  destruct (s_names s !! p) as [i|]; [|by apply wp_fail_with]. apply wp_bind, wp_modify, wp_ret.
  rewrite core_set_mode. apply HQ.
Qed.

Lemma cwp_make_directory p Q t :
  p ≠ [] →
  (nf = false ∨ s_names t !! p = None ∧ parent_ok t p = false → Q false t) →
  (nf = false ∨ is_Some (s_names t !! p) → Q true t) →
  (∀ i, s_names t !! p = None → s_inodes t !! i = None → Q true (add_name p i (Inode true 0 []) t)) →
  cwp nf U (make_directory p) Q t.
Proof.
  intros Hp HF HT HN.
  assert (∀ t', Q true t' → cwp nf U (chmod p 0x1c0;; mret true) Q t') as Hch.
  { intros t' H. apply cwp_bind, cwp_chmod. intros r. by apply cwp_ret. }
  apply cwp_intro. intros s Hs. unfold make_directory. apply wp_bind, wp_fallible.
  - intros Hnf e. apply wp_bind, wp_get_errno. cbn [Z.eqb negb andb]. destruct (negb _); [apply wp_ret|].
    + change (core (set_errno_s e s)) with (core s). rewrite Hs. auto.
    + apply (cwp_wp nf U _ _ (set_errno_s e s)). change (core (set_errno_s e s)) with (core s). rewrite Hs. auto.
  - apply wp_bind, wp_get_sys. rewrite bool_decide_eq_false_2 by done.
    assert (s_names s = s_names t) as Hn by (by rewrite <- Hs).
    case_bool_decide as He.
    { apply wp_fail_with, wp_bind, wp_get_errno. cbn [s_errno set_errno_s Z.eqb negb andb EEXIST Pos.eqb].
      apply (cwp_wp nf U _ _ (set_errno_s EEXIST s)). change (core (set_errno_s EEXIST s)) with (core s). rewrite Hs.
      apply Hch, HT. right. by rewrite <- Hn. }
    assert (s_names s !! p = None) as Hnone by (destruct (s_names s !! p); [by destruct He|done]).
    rewrite <- (core_parent_ok s), Hs. destruct (parent_ok t p) eqn:Hpar; cbn [negb].
    + apply wp_bind, wp_modify, wp_ret, wp_bind, wp_get_errno. cbn [Z.eqb negb andb].
      apply (cwp_wp nf U). rewrite core_add_name, Hs. apply Hch, HN; [by rewrite <- Hn|].
      rewrite <- Hs, core_inode, new_inode_fresh. done.
    + apply wp_fail_with, wp_bind, wp_get_errno. cbn [s_errno set_errno_s Z.eqb negb andb EEXIST ENOENT Pos.eqb].
      apply wp_ret. change (core (set_errno_s ENOENT s)) with (core s). rewrite Hs. apply HF. right. by rewrite <- Hn.
Qed.

(** No name on the way to [path] is something else than a directory. *)
Definition tree_clear (t : sys) (path : list byte) : Prop :=
  ∀ p i, p `prefix_of` path → s_names t !! p = Some i → is_dir t p = true.

Lemma grown_clear t t' path : grown path t t' → tree_clear t path → tree_clear t' path.
Proof.
  intros Hg Hc p i Hp Hn. destruct (grown_new _ _ _ _ _ Hg Hn) as [Hn'|(_ & ? & _)]; [|done].
  eapply grown_dir; [done|]. by eapply Hc.
Qed.

Lemma grown_trans path t1 t2 t3 : grown path t1 t2 → grown path t2 t3 → grown path t1 t3.
Proof. intros H1. induction 1; [done|by constructor]. Qed.

(** A step of the loop; [C] says that nothing fails and the way is clear. *)
Lemma cwp_make_prefix (C : Prop) p path Q t :
  p ≠ [] → p `prefix_of` path → (C → nf = true ∧ tree_clear t path ∧ parent_ok t p = true) →
  (¬ C → Q false t) → (∀ t', grown path t t' → (C → is_dir t' p = true) → Q true t') →
  cwp nf U (make_directory p) Q t.
Proof.
  intros Hp Hpre HC HF HT. apply cwp_make_directory; [done|..].
  - intros Hor. apply HF. intros (? & _ & ?)%HC. destruct Hor as [|[_ ?]]; congruence.
  - intros Hor. apply HT; [constructor|]. intros (? & Hc & _)%HC. destruct Hor as [|[i Hi]]; [congruence|]. by eapply Hc.
  - intros i Hn Hi. apply HT; [by repeat constructor|]. intros _. unfold is_dir, add_name. cbn. by rewrite !lookup_insert_eq.
Qed.

Lemma cwp_tree_loop (C : Prop) path rest : ∀ before Q t,
  before ≠ [] → path = before ++ rest → (C → nf = true ∧ tree_clear t path ∧ parent_ok t before = true) →
  (∀ r t', grown path t t' → (C → r = true ∧ tree_clear t' path ∧ parent_ok t' path = true) → Q r t') →
  cwp nf U (tree_loop before rest) Q t.
Proof.
  induction rest as [|b rest IH]; intros before Q t Hb Hpath HC HQ; cbn [tree_loop].
  - apply cwp_ret, HQ; [constructor|]. rewrite app_nil_r in Hpath. subst. tauto.
  - assert (path = (before ++ [b]) ++ rest) as Hpath' by (by rewrite <- app_assoc).
    assert (before ++ [b] ≠ []) by (by destruct before). case_bool_decide as Hs; cbn [negb].
    + subst b. apply cwp_bind, (cwp_make_prefix C before path); [done|by exists (SLASH :: rest)|done|..].
      * intros Hf. cret. apply HQ; [constructor|done].
      * intros t' Hg Hd. cbn [negb]. apply IH; [done|done|..].
        -- intros HC'. destruct (HC HC') as (? & ? & ?). split_and!; [done|by eapply grown_clear|].
           rewrite parent_ok_snoc. destruct before; [done|auto].
        -- intros r t'' Hg' Hr. apply HQ; [by eapply grown_trans|done].
    + apply IH; [done|done| |done]. intros (? & ? & ?)%HC. split_and!; [done..|]. rewrite parent_ok_app; [done|set_solver].
Qed.

Lemma cwp_ensure_directory_tree path Q t :
  (∀ r t', grown path t t' →
     (nf = true → tree_clear t path → 0 < len path < PATH_MAX → r = 0 ∧ is_dir t' path = true) → Q r t') →
  cwp nf U (ensure_directory_tree (Some path)) Q t.
Proof.
  intros HQ. unfold ensure_directory_tree. destruct (Z.eqb_spec (len path) 0); cbn [orb].
  { apply cwp_ret, HQ; [constructor|lia]. }
  rewrite Z.geb_leb. destruct (Z.leb_spec PATH_MAX (len path)).
  { apply cwp_ret, HQ; [constructor|lia]. }
  assert (take 1 path ≠ [] ∧ path = take 1 path ++ drop 1 path) as [H1 H2] by (split; [by destruct path|by rewrite take_drop]).
  apply cwp_bind, (cwp_tree_loop (nf = true ∧ tree_clear t path) path); [done|done|..].
  { intros [? ?]. split_and!; [done..|]. destruct path as [|b path]; [done|]. cbn. unfold parent_ok. cbn.
    by destruct (decide (b = SLASH)). }
  intros r t1 Hg1 Hr. destruct r; cbn [negb].
  2: { apply cwp_ret, HQ; [done|]. intros ? ? ?. destruct Hr; done. }
  apply cwp_bind, (cwp_make_prefix (nf = true ∧ tree_clear t path) path path); [by destruct path|done|..].
  - intros HC. destruct (Hr HC) as (_ & ? & ?). by destruct HC.
  - intros HC. apply cwp_ret, HQ; [done|]. intros ? ? ?. destruct HC; done.
  - intros t2 Hg2 Hd. apply cwp_ret, HQ; [by eapply grown_trans|]. auto.
Qed.
End Rules.
