(* ===== verification/KeySpec.v ===== *)
(** * Rules for the sealed key

    [padlock_tpm_ensure_sealed_key] in the style of [TpmSpec]: [ensured] collects what a call
    leaves behind, whatever fails, and what it returns when nothing does. *)

From S2P Require Import Prelude World Posix Libc Codec Openssl Header Secret Allocate Tss Core Tpm TpmSpec TpmKeySpec TreeSpec.

(** ** The files of the key *)

Definition key_dir (home : list byte) : list byte := home ++ [SLASH] ++ PADLOCK_TPM_DIR.
Definition key_pub (home : list byte) : list byte := key_dir home ++ [SLASH] ++ PADLOCK_TPM_SECRET_PUBLIC.
Definition key_priv (home : list byte) : list byte := key_dir home ++ [SLASH] ++ PADLOCK_TPM_SECRET_PRIVATE.

(** No other name leads to the file at [p]. *)
Definition unshared (t : sys) (p : list byte) : Prop :=
  ∀ q i, s_names t !! p = Some i → s_names t !! q = Some i → q = p.

(** Names that [P] does not hold of keep their files and directories. *)
Definition keeps (P : list byte → Prop) (t t' : sys) : Prop :=
  ∀ p i n, ¬ P p → s_names t !! p = Some i → s_inodes t !! i = Some n → s_names t' !! p = Some i ∧ s_inodes t' !! i = Some n.

Lemma keeps_grown P path t t' : grown path t t' → keeps P t t'.
Proof. intros Hg p i n _ Hp Hi. split; [by eapply grown_name|by eapply grown_inode]. Qed.

Lemma keeps_trans P t1 t2 t3 : keeps P t1 t2 → keeps P t2 t3 → keeps P t1 t3.
Proof. intros H1 H2 p i n HP Hp Hi. destruct (H1 p i n HP Hp Hi). by apply H2. Qed.

Lemma keeps_put_blob (P : list byte → Prop) p o t :
  P p → unshared t p → blob_inode t p o → keeps P t (put_blob p o t).
Proof.
  intros HP Hun Ho q i n Hq Hn Hi. destruct o as [[j d]|]; [|done]. cbn.
  assert (q ≠ p) by (by intros ->). rewrite lookup_insert_ne by done. split; [done|].
  rewrite lookup_insert_ne; [done|]. intros E. subst j. destruct Ho as [(d' & Hp & _)|[_ Hj]]; [|congruence].
  by destruct (Hun q i Hp Hn).
Qed.

Lemma grown_unshared path t t' p : grown path t t' → names_ok t → unshared t p → unshared t' p.
Proof.
  intros Hg. induction Hg as [|t1 q i Hg IH Hpre Hq Hn Hi]; [done|]. intros Hok Hun. specialize (IH Hok Hun).
  pose proof (grown_names_ok _ _ _ Hg Hok) as Hok1. intros r j. cbn.
  intros [[E1 E2]|[Hp1 Hp2]]%lookup_insert_Some [[E3 E4]|[Hr1 Hr2]]%lookup_insert_Some; subst; [done|..].
  - destruct (Hok1 _ _ Hr2). congruence.
  - destruct (Hok1 _ _ Hp2). congruence.
  - by apply IH with j.
Qed.

Lemma unshared_put_blob t p q o :
  p ≠ q → names_ok t → unshared t p → unshared t q → blob_inode t p o → unshared (put_blob p o t) q.
Proof.
  intros Hne Hok Hp Hq Ho. destruct o as [[i d]|]; [|done]. intros r j. cbn. rewrite lookup_insert_ne by done.
  intros Hj [[E1 E2]|[Hr1 Hr2]]%lookup_insert_Some; [|by apply Hq with j]. subst r j.
  destruct Ho as [(d' & Hn & _)|[_ Hi]]; [by destruct Hne; rewrite (Hp q i Hn Hj)|]. destruct (Hok _ _ Hj). congruence.
Qed.

Lemma names_ok_put_blob t p o : names_ok t → names_ok (put_blob p o t).
Proof.
  intros Hok. destruct o as [[i d]|]; [|done]. intros q j. cbn.
  intros [[E1 E2]|[Hq Hj]]%lookup_insert_Some; [subst; rewrite lookup_insert_eq; eauto|].
  destruct (decide (i = j)) as [->|]; [rewrite lookup_insert_eq; eauto|]. rewrite lookup_insert_ne by done. by eapply Hok.
Qed.

Lemma key_paths_differ home : key_pub home ≠ key_priv home.
Proof. intros H. apply app_inj_1 in H as [_ H]; done. Qed.

Lemma blob_paths_unshared t home :
  names_ok t → unshared t (key_pub home) → blob_paths_ok t (key_pub home) (key_priv home).
Proof.
  intros Hok Hun. split_and!; [apply key_paths_differ|done|]. intros i Hi Hj.
  symmetry in Hi. destruct (key_paths_differ home). symmetry. by apply (Hun _ i).
Qed.

(** ** Rules *)

Section Rules.
Context {OSSL : Openssl} {T : Tss} {TL : TssLaws T}.
Context (nf : bool) (U : Prop).

Lemma cwp_access p Q t :
  (nf = false ∨ s_names t !! p = None → Q (-1) t) → (is_Some (s_names t !! p) → Q 0 t) → cwp nf U (access p) Q t.
Proof.
  intros HF HQ. apply cwp_fallible; [auto|]. apply cwp_intro. intros s <-. apply wp_bind, wp_get_sys.
  case_bool_decide as Hp; [by apply wp_ret, HQ|]. apply wp_fail_with, HF. right. cbn.
  destruct (s_names s !! p); [by destruct Hp|done].
Qed.

(** The paths, when they fit. *)
Lemma cwp_tpm_paths Q t :
  ((∀ home, s_env t !! bstr "HOME" = Some home → ¬ len (key_priv home) < PATH_MAX) → Q None t) →
  (∀ home, s_env t !! bstr "HOME" = Some home → len (key_priv home) < PATH_MAX →
     Q (Some (key_dir home, key_pub home, key_priv home)) t) →
  cwp nf U (padlock_tpm_paths PATH_MAX PATH_MAX PATH_MAX) Q t.
Proof.
  intros HF HQ. unfold padlock_tpm_paths. apply cwp_bind, cwp_getenv.
  destruct (s_env t !! bstr "HOME") as [home|] eqn:Hh; [|by apply cwp_ret, HF].
  assert (len (key_pub home) = len (key_dir home) + 16 ∧ len (key_priv home) = len (key_dir home) + 17) as [Lpub Lpriv]
    by (unfold key_pub, key_priv; rewrite !length_app; cbn; lia).
  assert (PATH_MAX ≤ len (key_priv home) → Q None t) as HF'.
  { intros. apply HF. intros h [= <-]. lia. }
  change (int_of PATH_MAX) with PATH_MAX. fold (key_dir home). rewrite !Z.geb_leb.
  destruct (Z.leb_spec PATH_MAX (len (key_dir home))); [apply cwp_ret, HF'; lia|].
  rewrite !(snprintf_fits_text _ (key_dir home)) by done. fold (key_pub home) (key_priv home).
  destruct (Z.leb_spec PATH_MAX (len (key_pub home))); [apply cwp_ret, HF'; lia|].
  destruct (Z.leb_spec PATH_MAX (len (key_priv home))); [apply cwp_ret, HF'; lia|].
  rewrite !snprintf_fits_text by done. by apply cwp_ret, HQ.
Qed.

(** What sealing a new key leaves in the two files. *)
Definition make_post (pub priv : list byte) (L X : gset nat) (B : sys) (Q : bool → sys → Prop) : Prop :=
  ∀ ok o1 o2 X', blob_inode B pub o1 → blob_inode (put_blob pub o1 B) priv o2 → (nf = true → X' = X) →
    (nf = true → creatable B pub → creatable B priv →
       ok = true ∧ ∃ secret i j b c, len secret = 32 ∧ o1 = Some (i, b) ∧ o2 = Some (j, c) ∧ sealed secret b c) →
    Q ok (hp L X' (put_blob priv o2 (put_blob pub o1 B))).

Lemma cwp_make_sealed_key pub priv L X B Q :
  blob_paths_ok B pub priv → make_post pub priv L X B Q →
  cwp nf U (make_sealed_key pub priv) Q (hp L X B).
Proof.
  intros Hok HQ. unfold make_sealed_key.
  assert (nf = false → Q false (hp L X B)) as Hno.
  { intros Hnf. apply (HQ false None None X); [done..|congruence]. }
  apply cwp_bind, cwp_RAND_bytes; [lia|intros; apply cwp_ret; auto|]. intros key Hkey.
  apply cwp_bind, cwp_connect.
  { intros Hnf. apply cwp_bind, cwp_wipe_and_leave, cwp_ret; auto. }
  intros e c He Hc Hne. apply cwp_bind, cwp_create_sealed; [set_solver|done|done|].
  intros r o1 o2 X' H1 H2 HX Hr. apply cwp_bind, cwp_wipe_and_leave; [done|].
  apply cwp_bind, cwp_disconnect; [done..|]. apply cwp_ret. apply HQ; [done..|].
  intros Hn C1 C2. destruct (Hr Hn C1 C2) as (-> & i & j & b & d & -> & -> & Hs). split; [done|].
  by exists key, i, j, b, d.
Qed.

(** ** The key *)

Definition key_files (home : list byte) (p : list byte) : Prop := p = key_pub home ∨ p = key_priv home.

(** Nothing is where the key's directory or files should be that is not such. *)
Definition key_clear (t : sys) (home : list byte) : Prop :=
  tree_clear t (key_dir home) ∧
  ∀ p i, key_files home p → s_names t !! p = Some i → ∃ d, s_inodes t !! i = Some (Inode false 0 d).

Definition key_own (t : sys) (home : list byte) : Prop :=
  names_ok t ∧ unshared t (key_pub home) ∧ unshared t (key_priv home).

(** The files hold [k]. *)
Definition key_at (t : sys) (home k : list byte) : Prop :=
  len k = 32 ∧ ∃ b c, holds_file t (key_pub home) b ∧ holds_file t (key_priv home) c ∧ sealed k b c.

(** Everything but files and what a failed flush leaves in the TPM. *)
Definition same_process (t t' : sys) : Prop :=
  s_live t' = s_live t ∧ s_streams t' = s_streams t ∧ s_fds t' = s_fds t ∧ s_env t' = s_env t ∧
  set_tpm ∅ (set_io (s_io t') t) = set_tpm ∅ t ∧ (nf = true → s_io t' = s_io t).

Record ensured (t : sys) (home : list byte) (r : option (list byte)) (t' : sys) : Prop := {
  en_process : same_process t t';
  en_own : key_own t' home;
  en_keeps : keeps (key_files home) t t';
  en_clear : key_clear t home → key_clear t' home;
  en_len k : r = Some k → len k = 32;
  en_found k : nf = true → key_clear t home → key_at t home k → r = Some k ∧ grown (key_dir home) t t';
  en_there : nf = true → is_Some (s_names t !! key_pub home) → is_Some (s_names t !! key_priv home) →
    grown (key_dir home) t t' ∧ ∀ k, r = Some k → blobs_there t' (key_pub home) (key_priv home);
  en_made : nf = true → key_clear t home →
    s_names t !! key_pub home = None ∨ s_names t !! key_priv home = None → ∃ k, r = Some k ∧ key_at t' home k
}.

Lemma same_process_grown path t t' : grown path t t' → same_process t t'.
Proof. intros (? & ? & ? & ? & Hio)%grown_rest. split_and!; try done. by rewrite Hio. Qed.

Lemma same_process_trans t1 t2 t3 : same_process t1 t2 → same_process t2 t3 → same_process t1 t3.
Proof.
  intros (? & ? & ? & ? & Hi1 & Hn1) (? & ? & ? & ? & Hi2 & Hn2). split_and!; try congruence.
  - apply (f_equal s_io) in Hi1, Hi2. unfold set_tpm, set_io in *. cbn in *. f_equal. congruence.
  - intros Hn. rewrite Hn2, Hn1 by done. done.
Qed.

Lemma same_process_hp t X' t' :
  s_streams t' = s_streams t → s_fds t' = s_fds t → s_env t' = s_env t → s_io t' = s_io t →
  (nf = true → X' = io_tpm (s_io t)) → same_process t (hp (s_live t) X' t').
Proof.
  intros ? ? ? Hio HX. split_and!; try done; cbn; rewrite Hio; [done|]. intros Hn. rewrite HX by done. by destruct (s_io t).
Qed.

Lemma key_path_parent t home p : key_files home p → is_dir t (key_dir home) = true → parent_ok t p = true.
Proof.
  intros Hp Hd. assert (∃ q, p = (key_dir home ++ [SLASH]) ++ q ∧ SLASH ∉ q) as (q & -> & Hq).
  { destruct Hp as [->| ->]; [exists PADLOCK_TPM_SECRET_PUBLIC|exists PADLOCK_TPM_SECRET_PRIVATE];
      (split; [unfold key_pub, key_priv; by rewrite <- app_assoc|by vm_compute; set_solver]). }
  rewrite parent_ok_app, parent_ok_snoc by done. by destruct (key_dir home).
Qed.

Lemma key_files_outside home p : key_files home p → ¬ p `prefix_of` key_dir home.
Proof.
  intros Hp Hpre%prefix_length. assert (length (key_dir home) < length p)%nat; [|lia].
  destruct Hp as [->| ->]; unfold key_pub, key_priv; rewrite !length_app; cbn; lia.
Qed.

Lemma grown_key_file t t' home p : grown (key_dir home) t t' → key_files home p → s_names t' !! p = s_names t !! p.
Proof.
  intros Hg Hp. destruct (s_names t' !! p) as [i|] eqn:H.
  - destruct (grown_new _ _ _ _ _ Hg H) as [|(_ & _ & Hpre)]; [done|]. by destruct (key_files_outside home p).
  - destruct (s_names t !! p) as [i|] eqn:H'; [|done]. by rewrite (grown_name _ _ _ _ _ Hg H') in H.
Qed.

Lemma grown_holds_file path t t' p d : grown path t t' → holds_file t p d → holds_file t' p d.
Proof. intros Hg (i & Hn & Hi). exists i. split; [by eapply grown_name|by eapply grown_inode]. Qed.

Lemma key_creatable t t' home p :
  grown (key_dir home) t t' → key_clear t home → is_dir t' (key_dir home) = true → key_files home p → creatable t' p.
Proof.
  intros Hg [_ Hc] Hd Hp. split_and!.
  - destruct Hp as [->| ->]; unfold key_pub, key_priv, key_dir; by destruct home.
  - intros _. by eapply key_path_parent.
  - intros i Hi. rewrite (grown_key_file _ _ _ _ Hg Hp) in Hi. destruct (Hc p i Hp Hi) as [d Hd'].
    exists d. by eapply grown_inode.
Qed.

Lemma unshared_put_blob_same t p o : names_ok t → unshared t p → blob_inode t p o → unshared (put_blob p o t) p.
Proof.
  intros Hok Hun Ho. destruct o as [[i d]|]; [|done]. intros q j. cbn. rewrite lookup_insert_eq.
  intros [= <-] [[E _]|[_ Hq]]%lookup_insert_Some; [done|].
  destruct Ho as [(d' & Hn & _)|[_ Hi]]; [by apply (Hun q i)|]. destruct (Hok _ _ Hq). congruence.
Qed.

Lemma key_own_blobs t home o1 o2 :
  key_own t home → blob_inode t (key_pub home) o1 → blob_inode (put_blob (key_pub home) o1 t) (key_priv home) o2 →
  key_own (put_blob (key_priv home) o2 (put_blob (key_pub home) o1 t)) home ∧
  keeps (key_files home) t (put_blob (key_priv home) o2 (put_blob (key_pub home) o1 t)).
Proof.
  intros (Hok & H1 & H2) Ho1 Ho2. pose proof (key_paths_differ home) as Hne.
  pose proof (names_ok_put_blob t (key_pub home) o1 Hok) as Hok1.
  pose proof (unshared_put_blob_same _ _ _ Hok H1 Ho1) as H1'.
  pose proof (unshared_put_blob _ _ (key_priv home) _ Hne Hok H1 H2 Ho1) as H2'.
  split; [split_and!|].
  - by apply names_ok_put_blob.
  - by apply unshared_put_blob.
  - by apply unshared_put_blob_same.
  - eapply keeps_trans; apply keeps_put_blob; try done; [by left|by right].
Qed.

Lemma blobs_hold t home i j b c :
  key_own t home → inode_for t (key_pub home) i → inode_for (add_name (key_pub home) i (Inode false 0 b) t) (key_priv home) j →
  let t' := add_name (key_priv home) j (Inode false 0 c) (add_name (key_pub home) i (Inode false 0 b) t) in
  holds_file t' (key_pub home) b ∧ holds_file t' (key_priv home) c.
Proof.
  intros (Hok & H1 & _) Hi Hj t'. pose proof (key_paths_differ home) as Hne.
  pose proof (blob_inodes_differ _ _ _ _ _ _ (blob_paths_unshared _ _ Hok H1) Hi Hj) as Hij.
  split; [exists i|exists j]; unfold t'; cbn.
  - by rewrite lookup_insert_ne, lookup_insert_eq, lookup_insert_ne, lookup_insert_eq.
  - by rewrite !lookup_insert_eq.
Qed.

(** The test whether a file is missing. *)
Lemma cwp_missing {A} pub priv (k : bool → M A) Q t :
  (nf = false ∨ s_names t !! pub = None ∨ s_names t !! priv = None → cwp nf U (k true) Q t) →
  (is_Some (s_names t !! pub) → is_Some (s_names t !! priv) → cwp nf U (k false) Q t) →
  cwp nf U (a ← access pub;
            missing ← (if negb (a =? 0) then mret true else a ← access priv; mret (negb (a =? 0))); k missing) Q t.
Proof.
  intros HT HF. apply cwp_bind, cwp_access; cbn [Z.eqb negb].
  - intros Hor. apply cwp_bind, cwp_ret, HT. tauto.
  - intros H1. apply cwp_bind, cwp_bind, cwp_access; intros H2; apply cwp_ret; cbn [Z.eqb negb]; [apply HT; tauto|auto].
Qed.

Lemma cwp_open_key pub priv L X B Q :
  unseal_post nf pub priv L X B Q →
  cwp nf U (c ← padlock_tpm_connect;
            match c with None => mret None | Some (esys, tcti) =>
            result ← padlock_tpm_unseal_secret esys pub priv;
            padlock_tpm_disconnect esys tcti;; mret result end) Q (hp L X B).
Proof.
  intros HQ. apply cwp_bind, cwp_connect.
  - intros Hnf. apply cwp_ret, HQ; [done..|]. intros. by right.
  - intros e c He Hc Hne. apply cwp_bind, cwp_unseal_secret; [set_solver|]. intros r X' HX Hlen Hr.
    apply cwp_bind, cwp_disconnect; [done..|]. by apply cwp_ret, HQ.
Qed.

Lemma key_clear_grown t t' home : grown (key_dir home) t t' → key_clear t home → key_clear t' home.
Proof.
  intros Hg [Ht Hf]. split; [by eapply grown_clear|]. intros p i Hp Hn. rewrite (grown_key_file _ _ _ _ Hg Hp) in Hn.
  destruct (Hf p i Hp Hn) as [d Hd]. exists d. by eapply grown_inode.
Qed.

Lemma key_clear_put t home p o :
  key_files home p → blob_inode t p o → key_clear t home → key_clear (put_blob p o t) home.
Proof.
  intros Hp Ho [Ht Hf]. destruct o as [[i d]|]; [|done]. split.
  - intros q j Hq. cbn. intros [[-> _]|[_ Hn]]%lookup_insert_Some; [by destruct (key_files_outside home q)|].
    apply is_dir_put; [done|]. by eapply Ht.
  - intros q j Hq. cbn. intros [[-> ->]|[_ Hn]]%lookup_insert_Some; [exists d; apply lookup_insert_eq|].
    destruct (decide (i = j)) as [->|]; [exists d; apply lookup_insert_eq|]. rewrite lookup_insert_ne by done. by eapply Hf.
Qed.

(** Giving up once directories were made. *)
Lemma ensured_none t home t' :
  key_own t home → grown (key_dir home) t t' → (nf = true → ¬ key_clear t home) → ensured t home None t'.
Proof.
  intros (Hok & H1 & H2) Hg Hno. split; [by eapply same_process_grown| |by eapply keeps_grown|by apply key_clear_grown|done| |done|].
  - split_and!; [by eapply grown_names_ok|by eapply grown_unshared..].
  - intros k Hn Hc _. by destruct (Hno Hn).
  - intros Hn Hc _. by destruct (Hno Hn).
Qed.

(** Both files were there. *)
Lemma ensured_found t home t1 r X' :
  key_own t home → grown (key_dir home) t t1 →
  is_Some (s_names t1 !! key_pub home) → is_Some (s_names t1 !! key_priv home) →
  (nf = true → X' = io_tpm (s_io t1)) →
  (∀ k, r = Some k → len k = 32 ∧ blobs_there t1 (key_pub home) (key_priv home)) →
  (∀ k b c, holds_file t1 (key_pub home) b → holds_file t1 (key_priv home) c → sealed k b c → len k = 32 →
     r = Some k ∨ nf = false ∧ r = None) →
  ensured t home r (hp (s_live t1) X' t1).
Proof.
  intros (Hok & H1 & H2) Hg [i Hi] [j Hj] HX Hlen Hr.
  rewrite (grown_key_file _ _ _ _ Hg) in Hi by (by left). rewrite (grown_key_file _ _ _ _ Hg) in Hj by (by right).
  split.
  - eapply same_process_trans; [by eapply same_process_grown|]. by apply same_process_hp.
  - split_and!; [by eapply (grown_names_ok _ _ _ Hg)|by eapply (grown_unshared _ _ _ _ Hg)..].
  - exact (keeps_grown _ _ _ _ Hg).
  - exact (key_clear_grown _ _ _ Hg).
  - intros k Hk. by apply Hlen.
  - intros k Hn _ (Hk & b & c & Hb & Hc & Hs). split.
    + destruct (Hr k b c) as [|[? _]]; try done; [by eapply grown_holds_file..|congruence].
    + by rewrite HX, <- hp_intro.
  - intros Hn _ _. rewrite HX, <- hp_intro by done. split; [done|]. intros k Hk. by apply (Hlen k).
  - intros _ _ [?|?]; congruence.
Qed.

(** One was missing and the key was made. *)
Lemma ensured_made t home t1 r o1 o2 X' :
  key_own t home → grown (key_dir home) t t1 →
  nf = false ∨ s_names t1 !! key_pub home = None ∨ s_names t1 !! key_priv home = None →
  (nf = true → X' = io_tpm (s_io t1)) → (∀ k, r = Some k → len k = 32) →
  blob_inode t1 (key_pub home) o1 → blob_inode (put_blob (key_pub home) o1 t1) (key_priv home) o2 →
  (nf = true → key_clear t home → ∃ k i j b c, r = Some k ∧ len k = 32 ∧ o1 = Some (i, b) ∧ o2 = Some (j, c) ∧ sealed k b c) →
  ensured t home r (hp (s_live t1) X' (put_blob (key_priv home) o2 (put_blob (key_pub home) o1 t1))).
Proof.
  intros (Hok & H1 & H2) Hg Hmiss HX Hlen Ho1 Ho2 Hr.
  assert (key_own t1 home) as Hown1 by (split_and!; [by eapply grown_names_ok|by eapply grown_unshared..]).
  destruct (key_own_blobs _ _ _ _ Hown1 Ho1 Ho2) as [Hown Hk]. split.
  - eapply same_process_trans; [by eapply same_process_grown|].
    apply same_process_hp; try done; by destruct o1 as [[]|], o2 as [[]|].
  - exact Hown.
  - eapply keeps_trans; [by eapply keeps_grown|exact Hk].
  - intros Hc. apply (key_clear_put _ _ _ o2); [by right|done|]. apply key_clear_put; [by left|done|]. by eapply key_clear_grown.
  - done.
  - intros k Hn _ (_ & b & c & (i & Hi & _) & (j & Hj & _) & _).
    rewrite (grown_key_file _ _ _ _ Hg (or_introl eq_refl)), (grown_key_file _ _ _ _ Hg (or_intror eq_refl)) in Hmiss.
    destruct Hmiss as [|[?|?]]; congruence.
  - intros Hn [i Hi] [j Hj].
    rewrite (grown_key_file _ _ _ _ Hg (or_introl eq_refl)), (grown_key_file _ _ _ _ Hg (or_intror eq_refl)) in Hmiss.
    destruct Hmiss as [|[?|?]]; congruence.
  - intros Hn Hc _. destruct (Hr Hn Hc) as (k & i & j & b & c & -> & Hl & -> & -> & Hs). exists k. split; [done|].
    split; [done|]. exists b, c. destruct (blobs_hold t1 home i j b c Hown1 Ho1 Ho2). done.
Qed.

Lemma cwp_ensure_sealed_key home t Q :
  s_env t !! bstr "HOME" = Some home → len (key_priv home) < PATH_MAX → key_own t home →
  (∀ r t', ensured t home r t' → Q r t') → cwp nf U padlock_tpm_ensure_sealed_key Q t.
Proof.
  intros Hh Hlen Hown HQ. unfold padlock_tpm_ensure_sealed_key. apply cwp_bind, cwp_tpm_paths.
  { intros Hno. by destruct (Hno home). }
  intros h Hh' _. rewrite Hh in Hh'. apply (inj Some) in Hh' as <-.
  assert (0 < len (key_dir home) < PATH_MAX) as Hdl.
  { unfold key_priv in Hlen. rewrite length_app in Hlen. split; [unfold key_dir; rewrite !length_app; cbn; lia|lia]. }
  apply cwp_bind, cwp_ensure_directory_tree. intros r t1 Hg Hr.
  destruct (Z.eqb_spec r 0) as [->|Hr0]; cbn [negb].
  2: { apply cwp_ret, HQ, ensured_none; [done..|]. intros Hn [Hc _]. by destruct Hr0, Hr. }
  assert (nf = true → key_clear t home → creatable t1 (key_pub home) ∧ creatable t1 (key_priv home)) as Hcr.
  { intros Hn Hc. destruct (Hr Hn (proj1 Hc) Hdl) as [_ Hd].
    split; eapply key_creatable; try done; [by left|by right]. }
  apply cwp_missing.
  - intros Hmiss. rewrite (hp_intro t1).
    assert (names_ok t1 ∧ unshared t1 (key_pub home)) as [Hok1 Hun1].
    { destruct Hown as (? & ? & ?). split; [by eapply grown_names_ok|by eapply grown_unshared]. }
    apply cwp_bind, cwp_make_sealed_key; [by apply blob_paths_unshared|].
    intros ok o1 o2 X' Ho1 Ho2 HX Hok. destruct ok; cbn [negb].
    + apply cwp_open_key. intros k X'' HX' Hl Hk. apply HQ, ensured_made; try done.
      { intros Hn. by rewrite HX', HX. }
      { intros k' Hk'. by apply Hl. }
      intros Hn Hc. destruct (Hcr Hn Hc) as [C1 C2].
      destruct (Hok Hn C1 C2) as (_ & secret & i & j & b & c & Hs32 & -> & -> & Hs).
      destruct (blobs_hold t1 home i j b c) as [Hb Hc']; [split_and!; [done..|]|done|done|].
      { destruct Hown as (? & ? & ?). by eapply grown_unshared. }
      exists secret, i, j, b, c. split_and!; try done. destruct (Hk secret b c Hb Hc' Hs Hs32) as [|[? _]]; [done|congruence].
    + apply cwp_ret, HQ, ensured_made; try done. intros Hn Hc. destruct (Hcr Hn Hc) as [C1 C2].
      by destruct (Hok Hn C1 C2) as [? _].
  - intros H1 H2. apply cwp_bind, cwp_ret. cbn [negb]. rewrite (hp_intro t1). apply cwp_open_key.
    intros k X' HX Hl Hk. apply HQ. by apply ensured_found.
Qed.
End Rules.
