(* ===== verification/TpmTheorems.v ===== *)
(** * The sealed key as its callers see it

    [padlock_tpm_ensure_sealed_key] makes a key once and finds it again ever after; whatever
    fails it leaves nothing open or allocated and touches no file but its two.  A header
    password is the hexadecimal HMAC of the login password or the user name under that key.
    [TpmDemo] is a home directory under the toy TPM. *)

From S2P Require Import Prelude World Posix Libc Codec Openssl Header Secret Allocate StoreTheorems Tss Core Tpm TpmSpec TpmKeySpec TreeSpec KeySpec.

(** ** States *)

Section States.
Context {T : Tss}.

(** [home] is the home directory, the paths below it fit, and no other name leads to
    the two files of the key. *)
Record home_ok (s : sys) (home : list byte) : Prop := {
  ho_env : s_env s !! bstr "HOME" = Some home;
  ho_len : len (key_priv home) < PATH_MAX;
  ho_names : names_ok s;
  ho_pub : unshared s (key_pub home);
  ho_priv : unshared s (key_priv home)
}.

(** What is on the way to the key's directory is a directory, and its files are no
    directories. *)
Definition home_clear (s : sys) (home : list byte) : Prop :=
  tree_clear s (key_dir home) ∧ is_dir s (key_pub home) = false ∧ is_dir s (key_priv home) = false.

(** The two files hold the key [k], sealed. *)
Definition sealed_key (s : sys) (home k : list byte) : Prop :=
  len k = 32 ∧ ∃ b c, file_at s (key_pub home) b ∧ file_at s (key_priv home) c ∧ sealed k b c.

(** Every file and directory but those two is as before. *)
Definition others_kept (s s' : sys) (home : list byte) : Prop :=
  (∀ p d, p ≠ key_pub home → p ≠ key_priv home → file_at s p d → file_at s' p d) ∧
  (∀ p, p ≠ key_pub home → p ≠ key_priv home → is_dir s p = true → is_dir s' p = true).

(** Nothing is left open or allocated, and the standard streams were not used. *)
Definition nothing_held (s s' : sys) : Prop :=
  s_live s' = s_live s ∧ s_streams s' = s_streams s ∧ s_fds s' = s_fds s ∧ s_env s' = s_env s ∧
  set_tpm ∅ (set_io (s_io s') s) = set_tpm ∅ s.

Lemma core_holds_file s p d : holds_file (core s) p d ↔ file_at s p d.
Proof.
  split.
  - intros (i & Hn & Hi). destruct (core_file _ _ _ Hi) as [m Hm]. by exists i, m.
  - intros (i & m & Hn & Hi). exists i. split; [done|]. by rewrite core_inode, Hi.
Qed.

Lemma core_key_at s home k : key_at (core s) home k ↔ sealed_key s home k.
Proof. unfold key_at, sealed_key. by setoid_rewrite core_holds_file. Qed.

Lemma core_names_ok s : names_ok (core s) ↔ names_ok s.
Proof.
  split; intros H p j Hp; destruct (H p j Hp) as [n Hn]; [|rewrite core_inode, Hn; eauto].
  rewrite core_inode in Hn. destruct (s_inodes s !! j); [eauto|done].
Qed.

Lemma core_key_own s home : home_ok s home → key_own (core s) home.
Proof. intros []. split_and!; [by apply core_names_ok|done..]. Qed.

Lemma core_tree_clear s path : tree_clear (core s) path ↔ tree_clear s path.
Proof. split; intros H p i Hp Hn; specialize (H p i Hp Hn); by rewrite core_is_dir in *. Qed.

Lemma core_key_clear s home : names_ok s → key_clear (core s) home ↔ home_clear s home.
Proof.
  intros Hok.
  assert (∀ p, (∀ i, s_names (core s) !! p = Some i → ∃ d, s_inodes (core s) !! i = Some (Inode false 0 d)) ↔ is_dir s p = false) as Hp.
  { intros p. unfold is_dir. cbn [core s_names]. destruct (s_names s !! p) as [i|] eqn:Hn; [|split; [done|intros; done]].
    destruct (Hok p i Hn) as [n Hi]. rewrite Hi. split.
    - intros H. destruct (H i eq_refl) as [d Hd]. rewrite core_inode, Hi in Hd. by destruct n as [[]].
    - intros Hd j [= <-]. rewrite core_inode, Hi. destruct n as [[] m d]; [done|]. by exists d. }
  unfold key_clear, home_clear. rewrite core_tree_clear, <- !Hp. split.
  - intros [? H]. split_and!; [done|by intros i; apply H; left|by intros i; apply H; right].
  - intros (? & H1 & H2). split; [done|]. intros p i [->| ->]; auto.
Qed.
End States.

(** ** Rules *)

Section Rules.
Context {OSSL : Openssl} {T : Tss} {TL : TssLaws T}.

(** The outcome of a call in terms of the states. *)
Record key_outcome (nf : bool) (s : sys) (home : list byte) (r : option (list byte)) (s' : sys) : Prop := {
  ko_held : nothing_held s s';
  ko_tpm : nf = true → s_io s' = s_io s;
  ko_ok : home_ok s' home;
  ko_others : others_kept s s' home;
  ko_clear : home_clear s home → home_clear s' home;
  ko_len k : r = Some k → len k = 32;
  ko_found k : nf = true → home_clear s home → sealed_key s home k → r = Some k ∧ sealed_key s' home k;
  ko_there b c : nf = true → file_at s (key_pub home) b → file_at s (key_priv home) c →
    file_at s' (key_pub home) b ∧ file_at s' (key_priv home) c ∧ ∀ k, r = Some k → 0 < len b ∧ 0 < len c;
  ko_made : nf = true → home_clear s home →
    s_names s !! key_pub home = None ∨ s_names s !! key_priv home = None → ∃ k, r = Some k ∧ sealed_key s' home k
}.

Lemma ensured_outcome nf s home r s' :
  home_ok s home → ensured nf (core s) home r (core s') → key_outcome nf s home r s'.
Proof.
  intros Hok [(Hl & Hs & Hf & He & Hio & Hnf) Hown Hk Hcl Hlen Hfound Hthere Hmade]. pose proof Hown as (Hn & H1 & H2).
  assert (names_ok s') as Hn' by (by apply core_names_ok). pose proof (ho_names _ _ Hok) as Hn0.
  assert (s_env s' = s_env s) as He' by exact He.
  assert (set_tpm ∅ (set_io (s_io s') s) = set_tpm ∅ s) as Hio'.
  { apply (f_equal s_io) in Hio. unfold set_tpm, set_io in *. cbn in *. f_equal. congruence. }
  split; [done|done| | |by rewrite <- !core_key_clear by done|done|..].
  - destruct Hok. split; [congruence|done..].
  - split.
    + intros p d Hp1 Hp2 (i & Hni & Hi)%core_holds_file. apply core_holds_file. exists i. apply (Hk p i); [|done..].
      intros [?|?]; done.
    + intros p Hp1 Hp2 Hd. rewrite <- core_is_dir in *. unfold is_dir in *.
      destruct (s_names (core s) !! p) as [i|] eqn:Hni; [|done]. destruct (s_inodes (core s) !! i) as [n|] eqn:Hi; [|done].
      destruct (Hk p i n) as [-> ->]; [by intros [?|?]|done..].
  - intros k Hn1 Hc%core_key_clear Hat%core_key_at; [|done]. destruct (Hfound k Hn1 Hc Hat) as [-> Hg]. split; [done|].
    apply core_key_at. destruct Hat as (? & b & c & Hb & Hc' & ?). split; [done|]. exists b, c.
    split_and!; [by eapply grown_holds_file..|done].
  - intros b c Hn1 Hb%core_holds_file Hc%core_holds_file.
    destruct (Hthere Hn1) as [Hg Hr]; [destruct Hb as (i & ? & _); by exists i|destruct Hc as (i & ? & _); by exists i|].
    pose proof (grown_holds_file _ _ _ _ _ Hg Hb) as Hb'. pose proof (grown_holds_file _ _ _ _ _ Hg Hc) as Hc'.
    split_and!; [by apply core_holds_file..|]. intros k Ek. destruct (Hr k Ek) as (b' & c' & Hb1 & Hc1 & ? & ?).
    by rewrite (holds_file_inj _ _ _ _ Hb' Hb1), (holds_file_inj _ _ _ _ Hc' Hc1).
  - intros Hn1 Hc%core_key_clear Hm; [|done]. destruct (Hmade Hn1 Hc Hm) as (k & -> & Hat). exists k.
    split; [done|]. by apply core_key_at.
Qed.

Lemma wp_ensure_sealed_key nf U s home Q :
  home_ok s home → (∀ r s', key_outcome nf s home r s' → Q r s') → wp nf U padlock_tpm_ensure_sealed_key Q s.
Proof.
  intros Hok HQ. eapply wp_mono.
  - apply (cwp_wp nf U _ (ensured nf (core s) home)).
    apply (cwp_ensure_sealed_key nf U home); [by apply Hok|by apply Hok|by apply core_key_own|done].
  - intros r s' He. apply HQ. by apply ensured_outcome.
Qed.
End Rules.

(** ** Hexadecimal digits *)

Definition hex (n : Z) : byte := zbyte (if n <? 10 then 48 + n else 87 + n).

(** The specification of the digits: two per byte, high half first. *)
Definition hex_of (d : list byte) : list byte := d ≫= λ b, [hex (bval b / 16); hex (bval b mod 16)].

Lemma hex_digit_spec n : 0 ≤ n < 16 → hex_digit n = Some (hex n).
Proof.
  intros Hn. assert (∀ m : nat, (m < 16)%nat → hex_digit (Z.of_nat m) = Some (hex (Z.of_nat m))) as H.
  { intros m Hm. do 16 (destruct m as [|m]; [by vm_compute|]). lia. }
  specialize (H (Z.to_nat n)). rewrite Z2Nat.id in H by lia. apply H. lia.
Qed.

Lemma hex_inj m n : 0 ≤ m < 16 → 0 ≤ n < 16 → hex m = hex n → m = n.
Proof.
  intros Hm Hn H. apply (f_equal bval) in H. unfold hex in H.
  rewrite !bval_zbyte_small in H; destruct (Z.ltb_spec m 10), (Z.ltb_spec n 10); lia.
Qed.

Lemma len_hex_of d : len (hex_of d) = 2 * len d.
Proof. induction d as [|b d IH]; [done|]. cbn [hex_of mbind list_bind]. rewrite length_app. fold (hex_of d). cbn [length]. lia. Qed.

Lemma halves b : 0 ≤ bval b / 16 < 16 ∧ 0 ≤ bval b mod 16 < 16.
Proof.
  pose proof (bval_range b). split; [|apply Z.mod_pos_bound; lia].
  split; [apply Z.div_pos; lia|apply Z.div_lt_upper_bound; lia].
Qed.

Lemma hex_of_inj d d' : hex_of d = hex_of d' → d = d'.
Proof.
  revert d'. induction d as [|b d IH]; intros [|b' d'] H; try done.
  cbn in H. injection H as Hh Hl H. f_equal; [|by apply IH].
  apply hex_inj in Hh; [|apply halves..]. apply hex_inj in Hl; [|apply halves..].
  apply (inj bval). rewrite (Z.div_mod (bval b) 16), (Z.div_mod (bval b') 16) by lia. by rewrite Hh, Hl.
Qed.

(** A lower-case hexadecimal digit. *)
Definition is_hex (b : byte) : bool := (48 <=? bval b) && (bval b <=? 57) || (97 <=? bval b) && (bval b <=? 102).

Lemma hex_of_digits d : Forall (λ b, is_hex b = true) (hex_of d).
Proof.
  assert (∀ n, 0 ≤ n < 16 → is_hex (hex n) = true) as Hh.
  { intros n Hn. unfold is_hex, hex. destruct (Z.ltb_spec n 10); rewrite bval_zbyte_small by lia;
      rewrite orb_true_iff, !andb_true_iff, !Z.leb_le; lia. }
  induction d as [|b d IH]; [constructor|]. cbn. constructor; [|constructor; [|done]]; apply Hh, halves.
Qed.

Lemma hex_loop_spec d : ∀ i out, 0 ≤ i → 2 * (i + len d) ≤ len out →
  hex_loop d i out = Some (splice (2 * i) (hex_of d) out).
Proof.
  induction d as [|b d IH]; intros i out Hi Hl; cbn [hex_loop].
  - cbn [hex_of mbind list_bind]. by rewrite splice_nil.
  - pose proof (bval_range b) as Hb. cbn [length] in Hl.
    rewrite Z.shiftr_div_pow2 by lia. change 15 with (Z.ones 4). rewrite !Z.land_ones by lia. change (2 ^ 4) with 16.
    rewrite (Z.mod_small (bval b / 16)) by apply halves. rewrite !hex_digit_spec by apply halves. cbn [mbind option_bind].
    rewrite store_some by (cbn; lia). cbn [mbind option_bind].
    assert (len (splice (i * 2) [hex (bval b / 16)] out) = len out) as Hl1 by (apply len_splice; cbn; lia).
    rewrite store_some by (rewrite ?Hl1; cbn; lia). cbn [mbind option_bind].
    assert (len (splice (i * 2 + 1) [hex (bval b mod 16)] (splice (i * 2) [hex (bval b / 16)] out)) = len out) as Hl2
      by (rewrite len_splice; rewrite ?Hl1; cbn; lia).
    rewrite IH by lia. f_equal. rewrite (Z.mul_comm i 2).
    replace (2 * (i + 1)) with (2 * i + 1 + len [hex (bval b mod 16)]) by (cbn; lia).
    rewrite splice_splice_end by (rewrite ?len_hex_of, ?len_splice; cbn; lia).
    replace (2 * i + 1) with (2 * i + len [hex (bval b / 16)]) by (cbn; lia).
    rewrite splice_splice_end by (rewrite ?length_app, ?Nat2Z.inj_add, ?len_hex_of; cbn; lia). done.
Qed.

(** ** Theorems *)

Section Theorems.
Context {OSSL : Openssl} {Laws : OpensslLaws OSSL} {T : Tss} {TL : TssLaws T}.

Lemma nothing_held_trans s1 s2 s3 : nothing_held s1 s2 → nothing_held s2 s3 → nothing_held s1 s3.
Proof.
  intros (? & ? & ? & ? & Hio1) (? & ? & ? & ? & Hio2). split_and!; try congruence.
  apply (f_equal s_io) in Hio1, Hio2. unfold set_tpm, set_io in *. cbn in *. f_equal. congruence.
Qed.

Lemma others_kept_trans s1 s2 s3 home : others_kept s1 s2 home → others_kept s2 s3 home → others_kept s1 s3 home.
Proof. intros [F1 D1] [F2 D2]. split; auto. Qed.

(** A run of [n] calls. *)
Fixpoint repeat_key (n : nat) : M (list (option (list byte))) :=
  match n with
  | O => mret []
  | S n => r ← padlock_tpm_ensure_sealed_key; l ← repeat_key n; mret (r :: l)
  end.

Lemma repeat_found n : ∀ s home k,
  home_ok s home → home_clear s home → sealed_key s home k →
  returns (repeat_key n) s (λ rs s', rs = replicate n (Some k) ∧ sealed_key s' home k ∧
    nothing_held s s' ∧ s_io s' = s_io s ∧ others_kept s s' home).
Proof.
  induction n as [|n IH]; intros s home k Hok Hc Hk; cbn [repeat_key].
  - by apply wp_ret.
  - apply wp_bind, (wp_ensure_sealed_key true False s home); [done|]. intros r s1 Ho.
    destruct (ko_found _ _ _ _ _ Ho k eq_refl Hc Hk) as [-> Hk1].
    apply wp_bind. eapply wp_mono; [apply (IH s1 home k); [by apply Ho|by apply Ho|done]|].
    intros rs s2 (-> & Hk2 & Hh & Hio & Hot). apply wp_ret. split_and!; [done|done|..].
    + by eapply nothing_held_trans; [apply Ho|].
    + rewrite Hio. by apply Ho.
    + by eapply others_kept_trans; [apply Ho|].
Qed.

(** C32: in a home directory without a key (one of the two files is missing, and nothing
    else is in the way) the first call of [padlock_tpm_ensure_sealed_key] makes a key of 32 bytes and
    seals it in the two files, and every later call returns that same key; no call holds anything
    afterwards, loads anything into the TPM for good, or changes any other file. *)
Theorem key_persists s home n :
  home_ok s home → home_clear s home →
  s_names s !! key_pub home = None ∨ s_names s !! key_priv home = None →
  returns (repeat_key (S n)) s (λ rs s', ∃ k, len k = 32 ∧ rs = replicate (S n) (Some k) ∧
    sealed_key s' home k ∧ nothing_held s s' ∧ s_io s' = s_io s ∧ others_kept s s' home).
Proof.
  intros Hok Hc Hm. apply wp_bind, (wp_ensure_sealed_key true False s home); [done|]. intros r s1 Ho.
  destruct (ko_made _ _ _ _ _ Ho eq_refl Hc Hm) as (k & -> & Hk).
  apply wp_bind. eapply wp_mono; [apply (repeat_found n s1 home k); [by apply Ho|by apply Ho|done]|].
  intros rs s2 (-> & Hk2 & Hh & Hio & Hot). apply wp_ret. exists k. split_and!; [by apply Ho|done|done|..].
  - by eapply nothing_held_trans; [apply Ho|].
  - rewrite Hio. by apply Ho.
  - by eapply others_kept_trans; [apply Ho|].
Qed.

(** C33: whatever calls fail and however, [padlock_tpm_ensure_sealed_key] runs into no undefined
    behaviour, comes to an end, and leaves no block, context, stream or descriptor behind; the
    standard streams are not used, every file and directory but its two is as it was, and a key it returns
    has 32 bytes.  When nothing fails no object stays in the TPM either. *)
Theorem key_releases nf s home :
  home_ok s home →
  wp nf False padlock_tpm_ensure_sealed_key (λ r s', nothing_held s s' ∧ others_kept s s' home ∧
    (nf = true → s_io s' = s_io s) ∧ (∀ k, r = Some k → len k = 32)) s.
Proof.
  intros Hok. apply (wp_ensure_sealed_key nf False s home); [done|]. intros r s' Ho. split_and!; apply Ho.
Qed.

Lemma wp_derive_password nf U s home text out n Q :
  home_ok s home → c_str text ≠ [] → 65 ≤ n ≤ len out →
  (∀ k s', key_outcome nf s home k s' → (nf = false ∨ k = None → ∀ s'', core s'' = core s' → Q (-1, Some out) s'')) →
  (∀ k s' s'', key_outcome nf s home (Some k) s' → core s'' = core s' →
     Q (match HMAC_SHA256 k (c_str text) with
        | Some d => (0, Some (splice 0 (hex_of d ++ [Byte.x00]) out))
        | None => (-1, Some out)
        end) s'') →
  wp nf U (derive_password (Some text) (Some out) n) Q s.
Proof.
  intros Hok Ht Hn HF HQ. unfold derive_password.
  rewrite bool_decide_eq_false_2 by done. rewrite (proj2 (Z.ltb_ge _ _)) by lia. cbn [orb].
  apply wp_bind, (wp_ensure_sealed_key nf U s home); [done|]. intros [k|] s' Ho.
  2: { apply wp_ret. apply (HF None s'); [done|by right|done]. }
  pose proof (ko_len _ _ _ _ _ Ho k eq_refl) as Hk.
  apply wp_bind, wp_lib.
  { intros Hnf e. apply wp_bind, wp_wipe_and_leave, wp_ret; [done|]. apply (HF _ s' Ho); [by left|done]. }
  specialize (HQ k s').
  destruct (HMAC_SHA256 k (c_str text)) as [d|] eqn:Ed.
  2: { apply wp_bind, wp_wipe_and_leave, wp_ret; [done|]. by apply HQ. }
  pose proof (hmac_len _ _ _ Ed) as Hd. rewrite Hd. cbn [Z.eqb Pos.eqb negb].
  apply wp_bind. eapply wp_checked_some; [apply hex_loop_spec; lia|].
  assert (len (hex_of d) = 64) as Hh by (rewrite len_hex_of; lia).
  assert (len (splice (2 * 0) (hex_of d) out) = len out) as Hl by (apply len_splice; lia).
  apply wp_bind. eapply wp_checked_some; [apply store_some; [lia|rewrite Hl; cbn; lia]|].
  apply wp_bind, wp_wipe_and_leave; [done|]. apply wp_bind, wp_wipe_and_leave; [done|]. apply wp_ret.
  replace (32 * 2) with (2 * 0 + len (hex_of d)) by lia. rewrite splice_splice_end by (rewrite ?Hh; cbn; lia).
  by apply HQ.
Qed.

(** What these say of a state only depends on its core. *)
Lemma core_outcome nf s home r s' s'' :
  core s'' = core s' → key_outcome nf s home r s' →
  nothing_held s s'' ∧ (nf = true → s_io s'' = s_io s) ∧ others_kept s s'' home ∧
  (∀ k, sealed_key s' home k → sealed_key s'' home k).
Proof.
  intros E Ho. assert (∀ f : sys → Prop, f (core s') → f (core s'')) as Hc by (by rewrite E).
  assert (s_io s'' = s_io s') as Eio by exact (f_equal s_io E).
  split_and!.
  - pose proof (ko_held _ _ _ _ _ Ho) as (? & ? & ? & ? & Hio). split_and!.
    + by rewrite (f_equal s_live E : s_live s'' = s_live s').
    + by rewrite (f_equal s_streams E : s_streams s'' = s_streams s').
    + by rewrite (f_equal s_fds E : s_fds s'' = s_fds s').
    + by rewrite (f_equal s_env E : s_env s'' = s_env s').
    + by rewrite Eio.
  - rewrite Eio. apply Ho.
  - destruct (ko_others _ _ _ _ _ Ho) as [HF HD]. split.
    + intros p d ? ? Hf. apply core_holds_file, (Hc (λ t, holds_file t p d)), core_holds_file. auto.
    + intros p ? ? Hd. rewrite <- core_is_dir. apply (Hc (λ t, is_dir t p = true)). rewrite core_is_dir. auto.
  - intros k. rewrite <- !core_key_at. apply (Hc (λ t, key_at t home k)).
Qed.

(** C34: under a sealed key [k] both password functions write the hexadecimal digits of the
    HMAC-SHA256, under [k], of the login password or the user name, with a terminator, and change
    nothing else in the output; they fail just when HMAC does.  The key stays where it is, and
    nothing is held afterwards. *)
Theorem header_password_correct derive s home k text out n :
  derive = padlock_derive_header_password ∨ derive = padlock_derive_user_header_password →
  home_ok s home → home_clear s home → sealed_key s home k → c_str text ≠ [] → 65 ≤ n ≤ len out →
  returns (derive (Some text) (Some out) n) s (λ res s',
    res = match HMAC_SHA256 k (c_str text) with
          | Some d => (0, Some (splice 0 (hex_of d ++ [Byte.x00]) out))
          | None => (-1, Some out)
          end ∧ sealed_key s' home k ∧ nothing_held s s' ∧ s_io s' = s_io s ∧ others_kept s s' home).
Proof.
  intros Hder Hok Hc Hk Ht Hn. assert (derive (Some text) (Some out) n = derive_password (Some text) (Some out) n) as ->
    by (by destruct Hder as [->| ->]).
  apply (wp_derive_password true False s home); [done..| |].
  - intros r s' Ho Hor. destruct (ko_found _ _ _ _ _ Ho k eq_refl Hc Hk) as [-> _]. by destruct Hor.
  - intros k' s' s'' Ho E. destruct (ko_found _ _ _ _ _ Ho k eq_refl Hc Hk) as [[= <-] Hk'].
    destruct (core_outcome _ _ _ _ _ _ E Ho) as (? & ? & ? & ?). split_and!; auto.
Qed.

Lemma hex_no_nul d : no_nul (hex_of d).
Proof. intros Hin. pose proof (hex_of_digits d) as H. rewrite Forall_forall in H. by specialize (H _ Hin). Qed.

(** C35: whatever fails, a header password that is handed out is a string of exactly 64
    lower-case hexadecimal digits, and when none is, the output buffer is untouched. *)
Theorem header_password_shape derive nf s home text out n :
  derive = padlock_derive_header_password ∨ derive = padlock_derive_user_header_password →
  home_ok s home → c_str text ≠ [] → 65 ≤ n ≤ len out →
  wp nf False (derive (Some text) (Some out) n) (λ res s',
    (res = (-1, Some out) ∨
     ∃ o, res = (0, Some o) ∧ len o = len out ∧ strlen o = 64 ∧ Forall (λ b, is_hex b = true) (c_str o)) ∧
    nothing_held s s') s.
Proof.
  intros Hder Hok Ht Hn. assert (derive (Some text) (Some out) n = derive_password (Some text) (Some out) n) as ->
    by (by destruct Hder as [->| ->]).
  apply (wp_derive_password nf False s home); [done..| |].
  - intros r s' Ho _ s'' E. split; [by left|]. by destruct (core_outcome _ _ _ _ _ _ E Ho) as (? & _).
  - intros k s' s'' Ho E. split; [|by destruct (core_outcome _ _ _ _ _ _ E Ho) as (? & _)].
    destruct (HMAC_SHA256 k (c_str text)) as [d|] eqn:Ed; [right|by left]. eexists. split; [done|].
    pose proof (hmac_len _ _ _ Ed) as Hd. assert (len (hex_of d ++ [Byte.x00]) = 65) as Hl.
    { rewrite length_app, Nat2Z.inj_add, len_hex_of, Hd. done. }
    split; [by rewrite len_splice; lia|]. unfold strlen.
    assert (c_str (splice 0 (hex_of d ++ [Byte.x00]) out) = hex_of d) as ->.
    { unfold splice. cbn [Z.to_nat take app]. rewrite <- app_assoc. cbn [app]. etransitivity; [apply c_str_app_nul|apply c_str_id, hex_no_nul]. }
    split; [by rewrite len_hex_of, Hd|apply hex_of_digits].
Qed.

(** C36: once both files exist and one of them is empty, as a creation that failed half way
    leaves them ([fopen] for writing came first, and [access] only asks whether the files exist), no later
    call succeeds or repairs anything: every one of them fails and the files stay as they are. *)
Theorem failed_creation_sticks s home b c n :
  home_ok s home → file_at s (key_pub home) b → file_at s (key_priv home) c → b = [] ∨ c = [] →
  returns (repeat_key n) s (λ rs s', rs = replicate n None ∧
    file_at s' (key_pub home) b ∧ file_at s' (key_priv home) c).
Proof.
  revert s. induction n as [|n IH]; intros s Hok Hb Hc He; cbn [repeat_key]; [by apply wp_ret|].
  apply wp_bind, (wp_ensure_sealed_key true False s home); [done|]. intros r s1 Ho.
  destruct (ko_there _ _ _ _ _ Ho b c eq_refl Hb Hc) as (Hb1 & Hc1 & Hr).
  assert (r = None) as ->.
  { destruct r as [k|]; [|done]. destruct (Hr k eq_refl). destruct He; subst; cbn in *; lia. }
  apply wp_bind. eapply wp_mono; [apply (IH s1); [by apply Ho|done..]|].
  intros rs s2 (-> & ? & ?). by apply wp_ret.
Qed.


End Theorems.

(** ** A home directory, and witnesses *)

Module TpmDemo.
#[export] Existing Instance Toy.toy.
#[export] Existing Instance Toy.toy_laws.
#[export] Existing Instance ToyTpm.toy.
#[export] Existing Instance ToyTpm.toy_laws.

Definition home : list byte := bstr "/h".

Definition world : sys :=
  Sys {[home := 0%nat]} {[0%nat := Inode true 0x1ed []]} ∅ ∅ ∅ [] [] 0 {[bstr "HOME" := home]} no_io.

(** The state a run of [n] calls leaves, with the given failures. *)
Definition after (n : nat) (faults : list (option fault)) (s : sys) : sys :=
  match repeat_key n s (Ctl faults (λ i, zbyte (Z.of_nat i)) 0) with Ret _ s' _ => s' | _ => s end.

(** Decided by evaluation. *)
Definition home_okb (s : sys) : bool :=
  bool_decide (s_env s !! bstr "HOME" = Some home) &&
  bool_decide (map_Forall (λ _ j, is_Some (s_inodes s !! j)) (s_names s)) &&
  bool_decide (map_Forall (λ q i, s_names s !! key_pub home = Some i → q = key_pub home) (s_names s)) &&
  bool_decide (map_Forall (λ q i, s_names s !! key_priv home = Some i → q = key_priv home) (s_names s)).

Lemma home_okb_ok s : home_okb s = true → home_ok s home.
Proof.
  unfold home_okb. rewrite !andb_true_iff, !bool_decide_eq_true. intros [[[He Hn] H1] H2].
  split; [done|done|exact Hn|..]; intros q i Hp Hq; [by apply (H1 q i)|by apply (H2 q i)].
Qed.

Definition home_clearb (s : sys) : bool :=
  bool_decide (map_Forall (λ p _, p `prefix_of` key_dir home → is_dir s p = true) (s_names s)) &&
  negb (is_dir s (key_pub home)) && negb (is_dir s (key_priv home)).

Lemma home_clearb_ok s : home_clearb s = true → home_clear s home.
Proof.
  unfold home_clearb. rewrite !andb_true_iff, bool_decide_eq_true, !negb_true_iff. intros [[Ht H1] H2].
  split_and!; [|done..]. intros p i Hp Hn. by apply (Ht p i).
Qed.

Definition key : list byte := zbyte <$> seqZ 0 32.
Definition used : sys := after 1 [] world.

Lemma used_key : sealed_key used home key.
Proof.
  split; [done|]. exists [Byte.x01], (Byte.x20 :: ToyTpm.flip key). split_and!.
  - eexists _, _. split; vm_compute; reflexivity.
  - eexists _, _. split; vm_compute; reflexivity.
  - exists tt, [], (Tpm2bPrivate (ToyTpm.flip key)), ToyTpm.public. split_and!; vm_compute; reflexivity.
Qed.

(** The 23rd fallible call is the flush of the public blob when its stream is closed. *)
Definition broken : sys := after 1 (replicate 22 None ++ [Some (FErr ENOSPC)]) world.
End TpmDemo.

Section Witnesses.
#[local] Existing Instance Toy.toy.
#[local] Existing Instance Toy.toy_laws.
#[local] Existing Instance ToyTpm.toy.
#[local] Existing Instance ToyTpm.toy_laws.
Import TpmDemo.

Lemma key_persists_witness :
  returns (repeat_key 3) world (λ rs s', ∃ k, len k = 32 ∧ rs = replicate 3 (Some k) ∧
    sealed_key s' home k ∧ nothing_held world s' ∧ s_io s' = s_io world ∧ others_kept world s' home).
Proof.
  apply (key_persists world home 2); [by apply home_okb_ok; vm_compute|by apply home_clearb_ok; vm_compute|left; by vm_compute].
Defined.

Lemma key_releases_witness :
  wp false False padlock_tpm_ensure_sealed_key (λ r s', nothing_held world s' ∧ others_kept world s' home ∧
    (false = true → s_io s' = s_io world) ∧ (∀ k, r = Some k → len k = 32)) world.
Proof. apply (key_releases false world home). by apply home_okb_ok; vm_compute. Defined.

Lemma header_password_correct_witness :
  returns (padlock_derive_header_password (Some (bstr "pw")) (Some (zeros 65)) 65) used (λ res s',
    res = match HMAC_SHA256 key (bstr "pw") with
          | Some d => (0, Some (splice 0 (hex_of d ++ [Byte.x00]) (zeros 65)))
          | None => (-1, Some (zeros 65))
          end ∧ sealed_key s' home key ∧ nothing_held used s' ∧ s_io s' = s_io used ∧ others_kept used s' home).
Proof.
  apply (header_password_correct padlock_derive_header_password used home key (bstr "pw") (zeros 65) 65);
    [by left|by apply home_okb_ok; vm_compute|by apply home_clearb_ok; vm_compute|apply used_key|done|vm_compute; done].
Defined.

Lemma header_password_shape_witness :
  wp false False (padlock_derive_user_header_password (Some (bstr "me")) (Some (zeros 65)) 65) (λ res s',
    (res = (-1, Some (zeros 65)) ∨
     ∃ o, res = (0, Some o) ∧ len o = len (zeros 65) ∧ strlen o = 64 ∧ Forall (λ b, is_hex b = true) (c_str o)) ∧
    nothing_held used s') used.
Proof.
  apply (header_password_shape padlock_derive_user_header_password false used home (bstr "me") (zeros 65) 65);
    [by right|by apply home_okb_ok; vm_compute|done|vm_compute; done].
Defined.

Lemma failed_creation_sticks_witness :
  returns (repeat_key 5) broken (λ rs s', rs = replicate 5 None ∧
    file_at s' (key_pub home) [] ∧ file_at s' (key_priv home) (Byte.x20 :: ToyTpm.flip key)).
Proof.
  apply (failed_creation_sticks broken home [] (Byte.x20 :: ToyTpm.flip key) 5); [by apply home_okb_ok; vm_compute|..|by left];
    eexists _, _; split; vm_compute; reflexivity.
Defined.



(** A failing [access] is taken for a missing key.  In this run the first call makes
    a key; in the second call [access] fails on the file that is there, so a new key is sealed over it, and the
    old one is lost for all later calls. *)
Lemma access_failure_replaces_key :
  ∃ faults k k' s c, k ≠ k' ∧
    repeat_key 3 world (Ctl faults (λ i, zbyte (Z.of_nat i)) 0) = Ret [Some k; Some k'; Some k'] s c.
Proof.
  exists (replicate 61 None ++ [Some (FErr EACCES)]). eexists _, _, _, _. split; [|vm_compute; reflexivity]. by vm_compute.
Qed.
End Witnesses.
