(* ===== verification/Cli.v ===== *)
(** * The command line ([src/src/padlock_cli.c])

    [main] with its three commands, the prompt, PAM and the derivation of the header
    password.  The C library's name service and messages and the PAM library are the class
    [Host]: what PAM asks of the conversation function is a [pam_dialog], a tree of requests
    and answers.  Standard input is what the process can still read of it, a terminal its
    ECHO flag; [TCSAFLUSH] drops only what was typed before the call, which standard input here
    does not contain.  A [char] array that holds text is the text up to its terminator, unless
    the code clears it. *)

From S2P Require Import Prelude World Posix Libc Codec Openssl Header Secret Store Allocate Config Tss Tpm.

(** ** The C library and PAM *)

Definition PAM_SUCCESS : Z := 0.
Definition PAM_SYSTEM_ERR : Z := 4.
Definition PAM_BUF_ERR : Z := 5.
Definition PAM_CONV_ERR : Z := 19.
Definition PAM_PROMPT_ECHO_OFF : Z := 1.
Definition PAM_PROMPT_ECHO_ON : Z := 2.
Definition PAM_ERROR_MSG : Z := 3.
Definition PAM_TEXT_INFO : Z := 4.

(** What a stack of PAM modules does: it ends with a result, or sends messages of these
    styles to the conversation function and goes on with its result and replies. *)
Inductive pam_dialog :=
  | PamDone (rc : Z)
  | PamConv (styles : list Z) (next : Z → list (option (list byte)) → pam_dialog).

Class Host := {
  (** the name of the user who runs the program *)
  host_user : option (list byte);
  strerror : Z → list byte;
  (** the result of [pam_start] for a service and a user *)
  pam_start_result : list byte → list byte → Z;
  pam_modules : list byte → list byte → pam_dialog;
  pam_strerror : Z → option (list byte)
}.

Definition NEWLINE : byte := Byte.x0a.

(** What [fgets] takes of [s] when it may take [n] bytes. *)
Fixpoint first_line (n : nat) (s : list byte) : list byte :=
  match n, s with
  | S n, b :: s => if decide (b = NEWLINE) then [b] else b :: first_line n s
  | _, _ => []
  end.

(** [fopen (path, "r")]: a directory can be opened, but not read. *)
Definition fopen_r (path : list byte) : M (option nat) :=
  fallible None
    (s ← get_sys;
     match s_names s !! path with
     | None => fail_with ENOENT None
     | Some i => f ← open_stream i false; mret (Some f)
     end).

(** [fgets]; [None] at the end of the file and on an error. *)
Definition fgets (n : Z) (f : nat) : M (option (list byte)) :=
  st ← get_stream f;
  s ← get_sys;
  i ← checked (s_inodes s !! st_ino st);
  fallible None
    (if i_dir i then fail_with EISDIR None else
     match first_line (Z.to_nat (n - 1)) (drop (Z.to_nat (st_pos st)) (i_data i)) with
     | [] => mret None
     | line => set_stream f (Stream (st_ino st) (st_writable st) (st_pos st + len line) Reading (st_pending st));;
               mret (Some line)
     end).

Definition set_std (stdin stdout stderr : list byte) (echo : option bool) (s : sys) : sys :=
  set_io (Io (io_tpm (s_io s)) stdin stdout stderr echo) s.

Definition fgets_stdin (n : Z) : M (option (list byte)) :=
  fallible None
    (s ← get_sys;
     let io := s_io s in
     match first_line (Z.to_nat (n - 1)) (io_stdin io) with
     | [] => mret None
     | line => modify (set_std (drop (length line) (io_stdin io)) (io_stdout io) (io_stderr io) (io_echo io));;
               mret (Some line)
     end).

(** Output to the standard streams, whose results the code ignores. *)
Definition put_err (text : list byte) : M unit :=
  fallible tt
    (modify (λ s, let io := s_io s in
       set_std (io_stdin io) (io_stdout io) (io_stderr io ++ text) (io_echo io) s)).

Definition put_out (text : list byte) : M unit :=
  fallible tt
    (modify (λ s, let io := s_io s in
       set_std (io_stdin io) (io_stdout io ++ text) (io_stderr io) (io_echo io) s)).

(** [tcgetattr] of standard input: its ECHO flag. *)
Definition tcgetattr : M (option bool) :=
  fallible None
    (s ← get_sys;
     match io_echo (s_io s) with None => fail_with ENOTTY None | Some echo => mret (Some echo) end).

Definition tcsetattr (echo : bool) : M Z :=
  fallible (-1)
    (modify (λ s, let io := s_io s in
       set_std (io_stdin io) (io_stdout io) (io_stderr io)
         (match io_echo io with Some _ => Some echo | None => None end) s);; mret 0).

(** [%d] *)
Definition print_int (n : Z) : list byte := if n <? 0 then bstr "-" ++ decimal (- n) else decimal n.

(** [strcmp (s, t) == 0] *)
Definition streq (s t : list byte) : bool := bool_decide (c_str s = c_str t).

(** ** Messages *)

Definition PADLOCK_PAM_SERVICE : list byte := bstr "padlock".

Definition line (text : string) : list byte := bstr text ++ [NEWLINE].

Definition usage : M unit :=
  put_err (line "Usage:");;
  put_err (line "  padlock allocate <size> [path]");;
  put_err (line "  padlock set <key> <value> [path]");;
  put_err (line "  padlock get <key> [path]").

(** The text in the buffer afterwards. *)
Definition copy_message (buffer : list byte) (length : Z) (message : option (list byte)) : list byte :=
  if length =? 0 then buffer else
  match message with
  | None => []
  | Some message => snprintf_text length message
  end.

(** The loop of [secure_zero]. *)
Definition secure_zero (buffer : list byte) (length : Z) : option (list byte) :=
  zero_loop (Z.to_nat length) 0 buffer.

(** An automatic array that is cleared at the end of its life. *)
Definition clear_and_leave (buffer : list byte) (length : Z) : M unit :=
  d ← checked (secure_zero buffer length); leave d.

(** The result and the text in [buffer]. *)
Definition resolve_path (argv : list (list byte)) (index : nat) (length : Z) : M (Z * list byte) :=
  match argv !! index with
  | Some arg =>
      let text := c_str arg in
      mret (if 0 <? len text then 0 else -1, snprintf_text length text)
  | None =>
      '(r, text) ← padlock_default_store_path length;
      mret (r, default [] text)
  end.

(** The result and the bytes of [password]. *)
Definition prompt_password (prompt password : list byte) (password_length : Z) : M (Z * list byte) :=
  if password_length =? 0 then mret (-1, password) else
  put_err prompt;;
  old_terminal ← tcgetattr;
  terminal_changed ←
    match old_terminal with
    | Some _ => r ← tcsetattr false; mret (r =? 0)
    | None => mret false
    end;
  let restore : M unit :=
    match old_terminal with
    | Some echo => if terminal_changed : bool then tcsetattr echo;; mret tt else mret tt
    | None => mret tt
    end in
  got ← fgets_stdin (int_of password_length);
  match got with
  | None =>
      restore;;
      put_err [NEWLINE];;
      mret (-1, password)
  | Some got =>
      password ← checked (store 0 (got ++ [Byte.x00]) password);
      restore;;
      put_err [NEWLINE];;
      let length := strlen password in
      last ← (if 0 <? length then b ← checked (byte_at (length - 1) password); mret (Some b) else mret None);
      password ← (if bool_decide (last = Some NEWLINE)
                  then checked (store (length - 1) [Byte.x00] password) else mret password);
      mret (if bool_decide (c_str password = []) then -1 else 0, password)
  end.

(** ** PAM *)

(** [Buf] of the array [responses], and the reply strings in it. *)
Record pam_replies := PamReplies { pr_array : buf; pr_resp : list (option buf) }.

Fixpoint free_replies (l : list (option buf)) : M unit :=
  match l with [] => mret tt | p :: l => free p;; free_replies l end.

Definition SIZEOF_PAM_RESPONSE : Z := 16.

Definition pam_no_prompt_conversation (styles : list Z) : M (Z * option pam_replies) :=
  mret (PAM_CONV_ERR, None).

(** The loop over the messages; [done] are the replies before [index]. *)
Fixpoint conversation_loop (password : list byte) (styles : list Z) (done : list (option buf)) :
    M (Z * list (option buf)) :=
  match styles with
  | [] => mret (PAM_SUCCESS, done)
  | style :: styles =>
      if (style =? PAM_PROMPT_ECHO_OFF) || (style =? PAM_PROMPT_ECHO_ON) then
        p ← malloc (strlen password + 1);
        match p with
        | None => free_replies done;; mret (PAM_BUF_ERR, [])
        | Some p =>
            d ← checked (load 0 (strlen password + 1) password);
            p ← bstore 0 d p;
            conversation_loop password styles (done ++ [Some p])
        end
      else if (style =? PAM_ERROR_MSG) || (style =? PAM_TEXT_INFO) then
        conversation_loop password styles (done ++ [None])
      else free_replies done;; mret (PAM_CONV_ERR, [])
  end.

Definition pam_password_conversation (password : option (list byte)) (styles : list Z) :
    M (Z * option pam_replies) :=
  match password with
  | None => mret (PAM_CONV_ERR, None)
  | Some password =>
      let num_msg := len styles in
      if num_msg <=? 0 then mret (PAM_CONV_ERR, None) else
      responses ← calloc (num_msg * SIZEOF_PAM_RESPONSE);
      match responses with
      | None => mret (PAM_BUF_ERR, None)
      | Some responses =>
          '(rc, resp) ← conversation_loop password styles [];
          if negb (rc =? PAM_SUCCESS) then free (Some responses);; mret (rc, None) else
          mret (PAM_SUCCESS, Some (PamReplies responses resp))
      end
  end.

Section Cli.
Context {OSSL : Openssl} {T : Tss} {HOST : Host}.

(** [getpwuid (getuid ())], or null. *)
Definition getpwuid : M (option (list byte)) := lib host_user.

(** The handle; [inl] is the result when it is not [PAM_SUCCESS]. *)
Definition pam_start (service user : list byte) : M (Z + nat) :=
  fallible (inl PAM_SYSTEM_ERR)
    (let rc := pam_start_result service user in
     if rc =? PAM_SUCCESS then i ← new_id; mret (inr i) else mret (inl rc)).

Definition pam_end (pamh : nat) : M unit := context_drop pamh.

Definition reply_text (p : option buf) : option (list byte) := (λ b, c_str (b_data b)) <$> p.

(** The replies of a conversation are PAM's to release. *)
Fixpoint run_dialog (conv : list Z → M (Z * option pam_replies)) (d : pam_dialog) : M Z :=
  match d with
  | PamDone rc => mret rc
  | PamConv styles next =>
      '(rc, replies) ← conv styles;
      match replies with
      | None => run_dialog conv (next rc [])
      | Some (PamReplies array resp) =>
          free_replies resp;;
          free (Some array);;
          run_dialog conv (next rc (reply_text <$> resp))
      end
  end.

Definition pam_authenticate (service user : list byte) (conv : list Z → M (Z * option pam_replies)) : M Z :=
  run_dialog conv (pam_modules service user).

Definition copy_pam_message (buffer : list byte) (length : Z) (pam_code : Z) : list byte :=
  if length =? 0 then buffer else
  match pam_strerror pam_code with
  | None | Some [] => snprintf_text length (bstr "PAM " ++ print_int pam_code)
  | Some message => snprintf_text length (bstr "PAM " ++ print_int pam_code ++ bstr ": " ++ message)
  end.

(** Blanks at the end of a string. *)
Definition trim_end (s : list byte) : list byte := reverse (skip_spaces (reverse s)).

(** The loop over the lines of the PAM file, with the result of the function.  Each round
    reads a byte at least, so that the length of the file is fuel enough. *)
Fixpoint service_loop (fuel : nat) (file : nat) (expected : list byte) : M Z :=
  match fuel with
  | O => diverge
  | S fuel =>
      got ← fgets 512 file;
      match got with
      | None => fclose file;; mret 1
      | Some got =>
          let start := trim_end (skip_spaces (c_str got)) in
          match start with
          | [] => service_loop fuel file expected
          | b :: _ =>
              if bool_decide (b = Byte.x23) then service_loop fuel file expected else
              if bool_decide (start ≠ expected) then fclose file;; mret 0 else
              service_loop fuel file expected
          end
      end
  end.

(** The size of the file a stream is on, for the fuel. *)
Definition stream_size (f : nat) : M nat :=
  st ← get_stream f; s ← get_sys; i ← checked (s_inodes s !! st_ino st); mret (length (i_data i)).

Definition PAM_FILE : list byte := bstr "/etc/pam.d/padlock".

Definition expected_line (username : list byte) : list byte :=
  bstr "auth required pam_succeed_if.so user = " ++ username.

Definition pam_service_is_passwordless_for_user (username : option (list byte)) : M Z :=
  match username with
  | None | Some [] => mret 0
  | Some username =>
      file ← fopen_r PAM_FILE;
      match file with
      | None => mret 0
      | Some file =>
          let text := expected_line (c_str username) in
          if (len text <=? 0) || (len text >=? 384) then fclose file;; mret 0 else
          n ← stream_size file;
          service_loop (S n) file (snprintf_text 384 text)
      end
  end.

(** The result and the text in [reason]. *)
Definition authenticate_with_pam (username password : option (list byte)) (no_prompt : bool)
    (reason : list byte) (reason_length : Z) : M (Z * list byte) :=
  let reason := if 0 <? reason_length then [] else reason in
  user ← match username with
         | None | Some [] => getpwuid
         | Some user => mret (Some user)
         end;
  match user with
  | None => mret (-1, copy_message reason reason_length (Some (bstr "could not resolve current user")))
  | Some username =>
      if negb no_prompt && bool_decide (c_str (default [] password) = [])
      then set_errno EINVAL;; mret (-1, copy_message reason reason_length (Some (bstr "empty password"))) else
      let conv := if no_prompt then pam_no_prompt_conversation else pam_password_conversation password in
      h ← pam_start PADLOCK_PAM_SERVICE username;
      match h with
      | inl result => set_errno EACCES;; mret (-1, copy_pam_message reason reason_length result)
      | inr pamh =>
          result ← pam_authenticate PADLOCK_PAM_SERVICE username conv;
          let reason := if negb (result =? PAM_SUCCESS)
                        then copy_pam_message reason reason_length result else reason in
          pam_end pamh;;
          if result =? PAM_SUCCESS then mret (0, reason) else
          set_errno EACCES;; mret (-1, reason)
      end
  end.

(** What the code says when the derivation failed: the text in [reason]. *)
Definition derivation_failed (reason : list byte) (reason_length : Z) : M (list byte) :=
  e ← get_errno;
  if e =? EACCES
  then mret (copy_message reason reason_length (Some (bstr "TPM access denied while deriving header password")))
  else if negb (e =? 0)
  then let detail := snprintf_text 128 (bstr "header password derivation failed: " ++ strerror e) in
       mret (copy_message reason reason_length (Some detail))
  else set_errno EIO;;
       mret (copy_message reason reason_length (Some (bstr "header password derivation failed"))).

(** The result, the bytes of [header_password] and the text in [reason].  Past the first
    test [no_prompt] is 0: the branches for the other case cannot be taken. *)
Definition derive_header_password (username : option (list byte)) (header_password : list byte)
    (header_password_length : Z) (reason : list byte) (reason_length : Z) : M (Z * list byte * list byte) :=
  let username := match username with None | Some [] => bstr "user" | Some username => username end in
  no_prompt ← pam_service_is_passwordless_for_user (Some username);
  if negb (no_prompt =? 0) then
    '(result, out) ← padlock_derive_user_header_password (Some username) (Some header_password) header_password_length;
    reason ← (if negb (result =? 0) then derivation_failed reason reason_length else mret reason);
    mret (result, default header_password out, reason)
  else
    login_password ← draw 512;
    let text := bstr "Enter the password for '" ++ username ++ bstr "': " in
    let prompt := snprintf_text 128 text in
    if len text <=? 0 then set_errno EINVAL;; mret (-1, header_password, reason) else
    '(r, login_password) ← prompt_password prompt login_password 512;
    if negb (r =? 0) then
      set_errno EIO;;
      leave login_password;;
      mret (-1, header_password, copy_message reason reason_length (Some (bstr "could not read password")))
    else
    '(r, reason) ← authenticate_with_pam (Some username) (Some login_password) false reason reason_length;
    if negb (r =? 0) then clear_and_leave login_password 512;; mret (-1, header_password, reason) else
    '(result, out) ← padlock_derive_header_password (Some login_password) (Some header_password) header_password_length;
    clear_and_leave login_password 512;;
    reason ← (if negb (result =? 0) then derivation_failed reason reason_length else mret reason);
    mret (result, default header_password out, reason).

(** ** [main] *)

Definition report_failure (action : list byte) : M unit :=
  e ← get_errno;
  if negb (e =? 0)
  then put_err (bstr "padlock: " ++ action ++ bstr ": " ++ strerror e ++ [NEWLINE])
  else put_err (bstr "padlock: " ++ action ++ bstr " failed" ++ [NEWLINE]).

Definition report_failure_with_detail (action detail : list byte) : M unit :=
  if negb (bool_decide (c_str detail = []))
  then put_err (bstr "padlock: " ++ action ++ bstr ": " ++ c_str detail ++ [NEWLINE])
  else report_failure action.

(** The part the commands share: the path and the header password, or the exit code. *)
Definition open_session (argv : list (list byte)) (index : nat) (username : list byte) :
    M (Z + list byte * list byte) :=
  '(r, path) ← resolve_path argv index 4096;
  if negb (r =? 0) then put_err (line "padlock: could not resolve store path");; mret (inl 1) else
  header_password ← draw 65;
  auth_error ← draw 256;
  '(r, header_password, auth_error) ← derive_header_password (Some username) header_password 65 auth_error 256;
  if negb (r =? 0) then
    clear_and_leave header_password 65;;
    report_failure_with_detail (bstr "authentication") auth_error;;
    mret (inl 1)
  else mret (inr (path, header_password)).

Definition main_allocate (argv : list (list byte)) (username : list byte) : M Z :=
  size ← (if (len argv <? 3) || (len argv >? 4) then mret None else padlock_parse_size (argv !! 2%nat));
  match size with
  | None => usage;; mret 2
  | Some size =>
      o ← open_session argv 3 username;
      match o with
      | inl code => mret code
      | inr (path, header_password) =>
          r ← padlock_allocate (Some path) size (Some header_password);
          if negb (r =? 0) then
            clear_and_leave header_password 65;; report_failure (bstr "allocation");; mret 1
          else
            clear_and_leave header_password 65;;
            put_out (bstr "allocated " ++ path ++ [NEWLINE]);; mret 0
      end
  end.

Definition main_set (argv : list (list byte)) (username : list byte) : M Z :=
  if (len argv <? 4) || (len argv >? 5) then usage;; mret 2 else
  o ← open_session argv 4 username;
  match o with
  | inl code => mret code
  | inr (path, header_password) =>
      let value := default [] (argv !! 3%nat) in
      r ← padlock_set (Some path) (Some header_password) (argv !! 2%nat) (Some value) (u32 (strlen value));
      if negb (r =? 0) then
        clear_and_leave header_password 65;; report_failure (bstr "set");; mret 1
      else clear_and_leave header_password 65;; mret 0
  end.

Definition main_get (argv : list (list byte)) (username : list byte) : M Z :=
  if (len argv <? 3) || (len argv >? 4) then usage;; mret 2 else
  o ← open_session argv 3 username;
  match o with
  | inl code => mret code
  | inr (path, header_password) =>
      '(r, value, value_length) ← padlock_get (Some path) (Some header_password) (argv !! 2%nat);
      if negb (r =? 0) then
        clear_and_leave header_password 65;; report_failure (bstr "lookup");; mret 1
      else
        clear_and_leave header_password 65;;
        value ← checked value;
        out ← bload 0 value_length value;
        put_out out;;
        put_out [NEWLINE];;
        padlock_free (Some value);;
        mret 0
  end.

Definition main (argv : list (list byte)) : M Z :=
  pwd ← getpwuid;
  match pwd with
  | None => put_err (line "padlock: could not resolve current user");; mret 1
  | Some username =>
      match argv !! 1%nat with
      | None => usage;; mret 2
      | Some command =>
          if streq command (bstr "allocate") then main_allocate argv username else
          if streq command (bstr "set") then main_set argv username else
          if streq command (bstr "get") then main_get argv username else
          usage;; mret 2
      end
  end.
End Cli.
