(* ===== verification/CliSpec.v ===== *)
(** * Rules for the command line

    The prompt, PAM and the login of [Cli], up to [core]: [tty i e x t] is the state [t] with
    [i] left of standard input, [e] written to standard error and the terminal at [x]. *)

From S2P Require Import Prelude World Posix Libc Codec Openssl Header Secret Store Allocate Config Tss Core Tpm TpmSpec TpmKeySpec Cli.

Definition tty (i e : list byte) (x : option bool) (t : sys) : sys := set_std i (io_stdout (s_io t)) e x t.

Lemma tty_intro t : t = tty (io_stdin (s_io t)) (io_stderr (s_io t)) (io_echo (s_io t)) t.
Proof. by destruct t as [? ? ? ? ? ? ? ? ? []]. Qed.

(** The lines [fgets] reads, of [n] bytes at most. *)
Lemma first_line_length n s : (length (first_line n s) ≤ n)%nat ∧ (length (first_line n s) ≤ length s)%nat.
Proof.
  revert s. induction n as [|n IH]; intros [|b s]; cbn; [lia..|].
  destruct (decide (b = NEWLINE)); cbn; [lia|]. destruct (IH s). lia.
Qed.

Lemma first_line_nil n s : first_line (S n) s = [] → s = [].
Proof. destruct s as [|b s]; cbn; [done|]. by destruct (decide (b = NEWLINE)). Qed.

Section Std.
Context (nf : bool) (U : Prop).

Lemma cwp_modify_std (f : sys → sys) Q t :
  (∀ s, core (f s) = f (core s)) → Q tt (f t) → cwp nf U (modify f) Q t.
Proof. intros Hf HQ. apply cwp_intro. intros s <-. apply wp_modify. by rewrite Hf. Qed.

Lemma cwp_get_errno Q t : (∀ e, Q e t) → cwp nf U get_errno Q t.
Proof. intros HQ. apply cwp_intro. intros s <-. apply wp_get_errno, HQ. Qed.

Lemma cwp_put_err text i e x Q t :
  (∀ e', Q tt (tty i e' x t)) → cwp nf U (put_err text) Q (tty i e x t).
Proof. intros HQ. apply cwp_fallible; [auto|]. apply cwp_modify_std; [done|]. apply (HQ (e ++ text)). Qed.

Lemma cwp_put_out text Q t :
  (nf = false → Q tt t) →
  Q tt (set_std (io_stdin (s_io t)) (io_stdout (s_io t) ++ text) (io_stderr (s_io t)) (io_echo (s_io t)) t) →
  cwp nf U (put_out text) Q t.
Proof. intros HF HQ. apply cwp_fallible; [done|]. by apply cwp_modify_std. Qed.

Lemma cwp_usage i e x Q t : (∀ e', Q tt (tty i e' x t)) → cwp nf U usage Q (tty i e x t).
Proof.
  intros HQ. unfold usage. do 3 (apply cwp_bind, cwp_put_err; intros ?). by apply cwp_put_err.
Qed.

Lemma cwp_tcgetattr i e x Q t :
  (nf = false ∨ x = None → Q None (tty i e x t)) → (∀ b, x = Some b → Q (Some b) (tty i e x t)) →
  cwp nf U tcgetattr Q (tty i e x t).
Proof.
  intros HF HQ. apply cwp_fallible; [auto|]. apply cwp_intro. intros s Hs. apply wp_bind, wp_get_sys.
  assert (io_echo (s_io s) = x) as -> by (by apply (f_equal (λ t, io_echo (s_io t))) in Hs).
  destruct x as [b|].
  - apply wp_ret. rewrite Hs. auto.
  - apply wp_fail_with. change (core (set_errno_s ENOTTY s)) with (core s). rewrite Hs. auto.
Qed.

Lemma cwp_tcsetattr b i e x Q t :
  (nf = false → Q (-1) (tty i e x t)) → Q 0 (tty i e (match x with Some _ => Some b | None => None end) t) →
  cwp nf U (tcsetattr b) Q (tty i e x t).
Proof.
  intros HF HQ. apply cwp_fallible; [auto|]. apply cwp_bind, cwp_modify_std; [done|]. by apply cwp_ret.
Qed.

Lemma cwp_fgets_stdin n i e x Q t :
  1 < n →
  (nf = false ∨ i = [] → Q None (tty i e x t)) →
  (let got := first_line (Z.to_nat (n - 1)) i in got ≠ [] → Q (Some got) (tty (drop (length got) i) e x t)) →
  cwp nf U (fgets_stdin n) Q (tty i e x t).
Proof.
  intros Hn HF HQ. apply cwp_fallible; [auto|]. apply cwp_intro. intros s Hs. apply wp_bind, wp_get_sys.
  assert (io_stdin (s_io s) = i) as Hi by (by apply (f_equal (λ t, io_stdin (s_io t))) in Hs).
  cbv zeta. rewrite Hi. replace (Z.to_nat (n - 1)) with (S (Z.to_nat (n - 2))) in * by lia.
  destruct (first_line (S (Z.to_nat (n - 2))) i) as [|b l] eqn:El.
  - apply wp_ret. rewrite Hs. apply HF. right. by eapply first_line_nil.
  - apply wp_bind, wp_modify, wp_ret.
    change (Q (Some (b :: l)) (set_std (drop (length (b :: l)) i) (io_stdout (s_io (core s))) (io_stderr (s_io (core s)))
      (io_echo (s_io (core s))) (core s))). rewrite Hs. by apply HQ.
Qed.
End Std.

Lemma sub_c_str s : strlen s < len s → sub 0 (strlen s + 1) s = c_str s ++ [Byte.x00].
Proof.
  intros H. destruct (c_str_terminated s H) as [t E]. rewrite E at 2. unfold sub, strlen. rewrite drop_0.
  rewrite take_app_ge by lia. f_equal. match goal with |- take ?n _ = _ => replace n with 1%nat by lia end. done.
Qed.

(** ** The prompt *)

(** The password a line of input is: up to a NUL or the newline. *)
Definition strip_newline (s : list byte) : list byte :=
  if bool_decide (last s = Some NEWLINE) then take (length s - 1) s else s.

Definition typed (i : list byte) : list byte := strip_newline (c_str (first_line 511 i)).

Section Prompt.
Context (nf : bool) (U : Prop).

(** Putting the terminal back. *)
Lemma cwp_restore (old : option bool) (changed : bool) i e x x0 (Q : unit → sys → Prop) t :
  (nf = true → x0 = old ∧ x = match old with Some _ => Some false | None => None end ∧ changed = bool_decide (is_Some old)) →
  (∀ x', (nf = true → x' = x0) → Q tt (tty i e x' t)) →
  cwp nf U (match old with
            | Some echo => if changed then tcsetattr echo;; mret tt else mret tt
            | None => mret tt
            end) Q (tty i e x t).
Proof.
  intros Hx HQ. destruct old as [b|]; [destruct changed|].
  - apply cwp_bind, cwp_tcsetattr.
    + intros Hnf. apply cwp_ret, HQ. congruence.
    + apply cwp_ret, HQ. intros Hn. by destruct (Hx Hn) as (-> & -> & _).
  - apply cwp_ret, HQ. intros Hn. by destruct (Hx Hn) as (_ & _ & ?).
  - apply cwp_ret, HQ. intros Hn. by destruct (Hx Hn) as (-> & -> & _).
Qed.

(** A line and its terminator in the buffer: what the code makes of it. *)
Lemma cwp_strip {A} (pw got : list byte) (k : list byte → M A) Q t :
  c_str pw = c_str got → strlen pw < len pw →
  (∀ pw', len pw' = len pw → strlen pw' < len pw' → c_str pw' = strip_newline (c_str got) → cwp nf U (k pw') Q t) →
  cwp nf U
    (last ← (if 0 <? strlen pw then b ← checked (byte_at (strlen pw - 1) pw); mret (Some b) else mret None);
     pw ← (if bool_decide (last = Some NEWLINE) then checked (store (strlen pw - 1) [Byte.x00] pw) else mret pw);
     k pw) Q t.
Proof.
  intros Hc Hl HQ. destruct (c_str_terminated pw Hl) as [z Hz]. set (c := c_str pw) in *.
  assert (no_nul c) as Hn by apply c_str_no_nul. change (strlen pw) with (len c) in *. rewrite <- Hc in HQ.
  destruct (Z.ltb_spec 0 (len c)) as [Hpos|Hzero].
  2: { assert (c = []) as E by (destruct c; [done|cbn in Hzero; lia]). apply cwp_bind, cwp_ret, cwp_bind, cwp_ret.
       apply HQ; [done|exact Hl|]. by rewrite E. }
  assert (∃ b, last c = Some b ∧ byte_at (len c - 1) pw = Some b) as (b & Hlast & Hb).
  { destruct (last c) as [b|] eqn:El; [|apply last_None in El; rewrite El in Hpos; cbn in Hpos; lia]. exists b.
    split; [done|]. unfold byte_at. rewrite (proj2 (Z.leb_le _ _)) by lia. rewrite Hz, lookup_app_l by lia.
    rewrite last_lookup in El. rewrite <- El. f_equal. lia. }
  apply cwp_bind, cwp_bind. eapply cwp_checked_some; [exact Hb|]. apply cwp_ret. apply cwp_bind.
  assert (strip_newline c = if bool_decide (Some b = Some NEWLINE) then take (length c - 1) c else c) as Hs
    by (unfold strip_newline; by rewrite Hlast).
  rewrite Hs in HQ. case_bool_decide.
  - eapply cwp_checked_some; [apply store_some; [lia|cbn [length]; lia]|].
    assert (splice (len c - 1) [Byte.x00] pw = take (length c - 1) c ++ Byte.x00 :: (Byte.x00 :: z)) as ->.
    { unfold splice. cbn [length]. rewrite Hz at 1 2. rewrite take_app_le by lia. replace (Z.to_nat (len c - 1)) with (length c - 1)%nat by lia.
      f_equal. cbn [app]. f_equal. rewrite drop_app_ge by lia.
      match goal with |- drop ?n _ = _ => replace n with 0%nat by lia end. done. }
    assert (c_str (take (length c - 1) c ++ Byte.x00 :: Byte.x00 :: z) = take (length c - 1) c) as Hc'.
    { rewrite c_str_app_nul. apply c_str_id, no_nul_take, Hn. }
    assert (length pw = length c + S (length z))%nat as Hlen by (rewrite Hz at 1; rewrite length_app; done).
    apply HQ; [| |done].
    + rewrite length_app, length_take. cbn [length]. lia.
    + unfold strlen. rewrite Hc', length_app, length_take. cbn [length]. lia.
  - apply cwp_ret, HQ; [done|exact Hl|done].
Qed.

Lemma cwp_prompt_password prompt password i e x Q t :
  len password = 512 →
  (∀ pw i' e' x', len pw = 512 → nf = false ∨ typed i = [] → (nf = true → x' = x) → Q (-1, pw) (tty i' e' x' t)) →
  (∀ pw e' x', len pw = 512 → strlen pw < 512 → c_str pw = typed i → typed i ≠ [] → (nf = true → x' = x) →
     Q (0, pw) (tty (drop (length (first_line 511 i)) i) e' x' t)) →
  cwp nf U (prompt_password prompt password 512) Q (tty i e x t).
Proof.
  intros Hpw HF HQ. unfold prompt_password. cbn [Z.eqb]. change (int_of 512) with 512.
  apply cwp_bind, cwp_put_err. intros e1.
  assert (∀ old changed x1,
    (nf = true → x = old ∧ x1 = match old with Some _ => Some false | None => None end ∧ changed = bool_decide (is_Some old)) →
    cwp nf U
      (let restore : M unit := match old with
         | Some echo => if changed then tcsetattr echo;; mret tt else mret tt
         | None => mret tt
         end in
       got ← fgets_stdin 512;
       match got with
       | None => restore;; put_err [NEWLINE];; mret (-1, password)
       | Some got =>
           password ← checked (store 0 (got ++ [Byte.x00]) password);
           restore;; put_err [NEWLINE];;
           let length := strlen password in
           last ← (if 0 <? length then b ← checked (byte_at (length - 1) password); mret (Some b) else mret None);
           password ← (if bool_decide (last = Some NEWLINE)
                       then checked (store (length - 1) [Byte.x00] password) else mret password);
           mret (if bool_decide (c_str password = []) then -1 else 0, password)
       end) Q (tty i e1 x1 t)) as Hread.
  { intros old changed x1 Hx. apply cwp_bind, cwp_fgets_stdin; [lia|..].
    - intros Hno. apply cwp_bind, (cwp_restore old changed i e1 x1 x); [done|]. intros x2 Hx2.
      apply cwp_bind, cwp_put_err. intros e2. apply cwp_ret, HF; [done| |done].
      destruct Hno as [|Hno]; [by left|right]. by rewrite Hno.
    - cbv zeta. intros Hgot. change (Z.to_nat (512 - 1)) with 511%nat. set (got := first_line 511 i) in *.
      destruct (first_line_length 511 i) as [Hgl _]. fold got in Hgl.
      apply cwp_bind. eapply cwp_checked_some; [apply store_some; [lia|rewrite length_app; cbn [length]; lia]|].
      apply cwp_bind, (cwp_restore old changed _ e1 x1 x); [done|]. intros x2 Hx2.
      apply cwp_bind, cwp_put_err. intros e2.
      assert (c_str (splice 0 (got ++ [Byte.x00]) password) = c_str got) as Hc.
      { unfold splice. cbn [Z.to_nat take app]. rewrite <- app_assoc. apply c_str_app_nul. }
      assert (len (splice 0 (got ++ [Byte.x00]) password) = 512) as Hl.
      { rewrite len_splice; [done|lia|]. rewrite length_app. cbn [length]. lia. }
      apply (cwp_strip _ got); [done|unfold strlen; rewrite Hc, Hl; pose proof (strlen_range got); unfold strlen in *; lia|].
      intros pw Hpl Hps Hpc. change (strip_newline (c_str got)) with (typed i) in Hpc. apply cwp_ret. rewrite Hpc.
      destruct (bool_decide_reflect (typed i = [])) as [Ht|Ht].
      + apply HF; [lia|by right|done].
      + apply HQ; [lia|lia|done..]. }
  apply cwp_bind, cwp_tcgetattr.
  - intros Hno. apply cwp_bind, cwp_ret. apply (Hread None false). intros Hn. destruct Hno; [congruence|]. by subst x.
  - intros b ->. apply cwp_bind, cwp_bind, cwp_tcsetattr.
    + intros Hnf. apply cwp_ret. cbn [Z.eqb]. apply (Hread (Some b) false). congruence.
    + apply cwp_ret. cbn [Z.eqb]. by apply (Hread (Some b) true).
Qed.
End Prompt.

(** ** PAM *)

Definition is_prompt (style : Z) : bool := (style =? PAM_PROMPT_ECHO_OFF) || (style =? PAM_PROMPT_ECHO_ON).
Definition style_ok (style : Z) : bool := is_prompt style || (style =? PAM_ERROR_MSG) || (style =? PAM_TEXT_INFO).

(** The replies to messages of these styles: the password to every prompt. *)
Definition replies (pw : list byte) (styles : list Z) : list (option (list byte)) :=
  (λ style, if is_prompt style then Some pw else None) <$> styles.

(** What the conversation function may answer. *)
Definition conv_answer (nf : bool) (pw : list byte) (styles : list Z) (rc : Z) (resp : list (option (list byte))) : Prop :=
  (rc = PAM_SUCCESS ∧ resp = replies pw styles ∧ styles ≠ [] ∧ forallb style_ok styles = true) ∨
  (rc = PAM_CONV_ERR ∧ resp = [] ∧ (styles = [] ∨ forallb style_ok styles = false)) ∨
  (rc = PAM_BUF_ERR ∧ resp = [] ∧ nf = false).

(** How a dialog may end when the user gives the password [pw]. *)
Inductive pam_ends (nf : bool) (pw : list byte) : pam_dialog → Z → Prop :=
  | ends_done rc : pam_ends nf pw (PamDone rc) rc
  | ends_conv styles next rc resp rc' :
      conv_answer nf pw styles rc resp → pam_ends nf pw (next rc resp) rc' → pam_ends nf pw (PamConv styles next) rc'.

Definition blocks (l : list (option buf)) : list nat := omap (λ p, b_id <$> p) l.

Lemma blocks_app l l' : blocks (l ++ l') = blocks l ++ blocks l'.
Proof. apply omap_app. Qed.

Section Pam.
Context (nf : bool) (U : Prop) (X : gset nat) (B : sys).

Lemma cwp_free_replies l : ∀ L Q,
  NoDup (blocks l) → (∀ i, i ∈ blocks l → i ∉ L) → Q tt (hp L X B) →
  cwp nf U (free_replies l) Q (hp (list_to_set (blocks l) ∪ L) X B).
Proof.
  induction l as [|[p|] l IH]; intros L Q Hnd Hl HQ; cbn [free_replies].
  - apply cwp_ret. by replace (list_to_set (blocks []) ∪ L) with L by set_solver.
  - change (blocks (Some p :: l)) with (b_id p :: blocks l) in *. apply NoDup_cons in Hnd as [Hp Hnd].
    apply cwp_bind, cwp_free; [set_solver|].
    change (cwp nf U (free_replies l) Q (hp ((list_to_set (b_id p :: blocks l) ∪ L) ∖ {[b_id p]}) X B)).
    replace ((list_to_set (b_id p :: blocks l) ∪ L) ∖ {[b_id p]}) with (list_to_set (blocks l) ∪ L).
    { apply IH; [done|set_solver|done]. }
    apply leibniz_equiv. specialize (Hl (b_id p)). cbn. set_solver.
  - apply cwp_bind, cwp_ret. by apply IH.
Qed.

Lemma cwp_conversation_loop password L styles : strlen password < len password → ∀ done Q,
  NoDup (blocks done) → (∀ i, i ∈ blocks done → i ∉ L) →
  (∀ resp, NoDup (blocks resp) → (∀ i, i ∈ blocks resp → i ∉ L) → forallb style_ok styles = true →
     reply_text <$> resp = (reply_text <$> done) ++ replies (c_str password) styles →
     Q (PAM_SUCCESS, resp) (hp (list_to_set (blocks resp) ∪ L) X B)) →
  (nf = false → Q (PAM_BUF_ERR, []) (hp L X B)) →
  (forallb style_ok styles = false → Q (PAM_CONV_ERR, []) (hp L X B)) →
  cwp nf U (conversation_loop password styles done) Q (hp (list_to_set (blocks done) ∪ L) X B).
Proof.
  intros Hpw. induction styles as [|style styles IH]; intros done Q Hnd Hfr HQ HB HC; cbn [conversation_loop].
  - apply cwp_ret, HQ; [done..|]. by rewrite app_nil_r.
  - fold (is_prompt style). cbn [forallb] in *.
    assert (style_ok style = is_prompt style || ((style =? PAM_ERROR_MSG) || (style =? PAM_TEXT_INFO))) as Hso
      by (unfold style_ok; by rewrite orb_assoc).
    rewrite Hso in HQ, HC.
    destruct (is_prompt style) eqn:Hst; cbn [orb andb] in HQ, HC |- *; [|destruct (_ || _) eqn:Hst2]; cbn [andb] in HQ, HC.
    + pose proof (strlen_range password). apply cwp_bind, cwp_malloc; [lia| |].
      { intros Hnf. apply cwp_bind, cwp_free_replies; [done..|]. apply cwp_ret. auto. }
      intros i d Hi Hd. change (i ∉ list_to_set (blocks done) ∪ L) in Hi.
      change (alloc_s i _) with (hp ({[i]} ∪ (list_to_set (blocks done) ∪ L)) X B).
      apply cwp_bind. eapply cwp_checked_some; [apply load_some; lia|].
      apply cwp_bind, cwp_bstore; [lia|cbn [b_data]; rewrite len_sub; lia|]. cbn [b_id b_data].
      assert (splice 0 (sub 0 (strlen password + 1) password) d = sub 0 (strlen password + 1) password) as ->.
      { apply splice_all. rewrite len_sub; lia. }
      set (p := Buf i (sub 0 (strlen password + 1) password)).
      replace ({[i]} ∪ (list_to_set (blocks done) ∪ L)) with (list_to_set (blocks (done ++ [Some p])) ∪ L : gset nat).
      2: { apply leibniz_equiv. rewrite blocks_app, list_to_set_app. cbn. set_solver. }
      apply IH; [rewrite blocks_app; apply NoDup_app; split_and!; [done| |apply NoDup_singleton]| | |done|].
      * intros j Hj Hj'. apply list_elem_of_singleton in Hj' as ->. set_solver.
      * rewrite blocks_app. intros j [Hj|Hj]%elem_of_app; [by apply Hfr|].
        apply list_elem_of_singleton in Hj as ->. set_solver.
      * intros resp Hn Hf Hok Hr. apply HQ; [done..|]. rewrite Hr, fmap_app, <- app_assoc. f_equal. cbn [fmap list_fmap app replies].
        rewrite Hst. f_equal. unfold reply_text, p. cbn [fmap option_fmap option_map b_data]. f_equal.
        by rewrite sub_c_str, c_str_app_nul, c_str_idemp.
      * intros. by apply HC.
    + replace (list_to_set (blocks done) ∪ L) with (list_to_set (blocks (done ++ [None])) ∪ L : gset nat).
      2: { by rewrite blocks_app, app_nil_r. }
      apply IH; [by rewrite blocks_app, app_nil_r|by rewrite blocks_app, app_nil_r| |done|done].
      intros resp Hn Hf Hok Hr. apply HQ; [done..|]. rewrite Hr, fmap_app, <- app_assoc. cbn. by rewrite Hst.
    + apply cwp_bind, cwp_free_replies; [done..|]. apply cwp_ret. by apply HC.
Qed.
End Pam.

Section Login.
Context {OSSL : Openssl} {T : Tss} {HOST : Host}.
Context (nf : bool) (U : Prop).

Lemma cwp_conversation password styles L X B Q :
  strlen password < len password →
  (∀ rc, conv_answer nf (c_str password) styles rc [] → Q (rc, None) (hp L X B)) →
  (∀ array resp, b_id array ∉ L → NoDup (blocks resp) → (∀ i, i ∈ blocks resp → i ∉ {[b_id array]} ∪ L) →
     conv_answer nf (c_str password) styles PAM_SUCCESS (reply_text <$> resp) →
     Q (PAM_SUCCESS, Some (PamReplies array resp)) (hp (list_to_set (blocks resp) ∪ ({[b_id array]} ∪ L)) X B)) →
  cwp nf U (pam_password_conversation (Some password) styles) Q (hp L X B).
Proof.
  intros Hpw HF HQ. unfold pam_password_conversation. destruct (Z.leb_spec (len styles) 0) as [Hs|Hs].
  { apply cwp_ret, HF. right; left. split_and!; [done..|left]. destruct styles; [done|cbn in Hs; lia]. }
  assert (styles ≠ []) as Hne by (intros ->; cbn in Hs; lia).
  apply cwp_bind, cwp_calloc.
  { intros Hnf. apply cwp_ret, HF. right; right. done. }
  intros i Hi. change (i ∉ L) in Hi. change (alloc_s i _) with (hp ({[i]} ∪ L) X B). set (array := Buf i _).
  assert (∀ rc, conv_answer nf (c_str password) styles rc [] →
    cwp nf U (free (Some array);; mret (rc, None)) Q (hp ({[i]} ∪ L) X B)) as Hfree.
  { intros rc H. apply cwp_bind, cwp_free; [cbn; set_solver|]. apply cwp_ret.
    change (Q (rc, None) (hp (({[i]} ∪ L) ∖ {[i]}) X B)). rewrite alloc_free_set by done. by apply HF. }
  replace ({[i]} ∪ L) with (list_to_set (blocks []) ∪ ({[i]} ∪ L)) by set_solver.
  apply cwp_bind, cwp_conversation_loop; [done|constructor|set_solver|..].
  - intros resp Hnd Hfr Hok Hr. cbn [Z.eqb negb PAM_SUCCESS]. apply cwp_ret.
    apply (HQ array resp); [done..|]. left. by rewrite Hr.
  - intros Hnf. apply (Hfree PAM_BUF_ERR). right; right. done.
  - intros Hbad. apply (Hfree PAM_CONV_ERR). right; left. auto.
Qed.

Lemma cwp_run_dialog password L X B d : strlen password < len password → ∀ Q,
  (∀ rc, pam_ends nf (c_str password) d rc → Q rc (hp L X B)) →
  cwp nf U (run_dialog (pam_password_conversation (Some password)) d) Q (hp L X B).
Proof.
  intros Hpw. induction d as [rc|styles next IH]; intros Q HQ; cbn [run_dialog].
  - apply cwp_ret, HQ. constructor.
  - assert (∀ rc resp, conv_answer nf (c_str password) styles rc resp →
      cwp nf U (run_dialog (pam_password_conversation (Some password)) (next rc resp)) Q (hp L X B)) as Hgo.
    { intros rc resp Ha. apply IH. intros rc' He. apply HQ. by econstructor. }
    apply cwp_bind, cwp_conversation; [done|intros; by apply Hgo|]. intros array resp Ha Hnd Hfr Hans.
    apply cwp_bind, cwp_free_replies; [done..|]. apply cwp_bind, cwp_free; [cbn; set_solver|].
    change (set_live _ _) with (hp (({[b_id array]} ∪ L) ∖ {[b_id array]}) X B). rewrite alloc_free_set by done. by apply Hgo.
Qed.

(** How authentication of [user] with [pw] may end. *)
Definition login_ends (user pw : list byte) (rc : Z) : Prop :=
  (rc = pam_start_result PADLOCK_PAM_SERVICE user ∧ rc ≠ PAM_SUCCESS) ∨ (nf = false ∧ rc = PAM_SYSTEM_ERR) ∨
  (pam_start_result PADLOCK_PAM_SERVICE user = PAM_SUCCESS ∧ pam_ends nf pw (pam_modules PADLOCK_PAM_SERVICE user) rc).

Lemma cwp_authenticate user password reason L X B Q :
  user ≠ [] → strlen password < len password → c_str password ≠ [] →
  (∀ rc reason, login_ends user (c_str password) rc → rc ≠ PAM_SUCCESS → Q (-1, reason) (hp L X B)) →
  (∀ reason, login_ends user (c_str password) PAM_SUCCESS → Q (0, reason) (hp L X B)) →
  cwp nf U (authenticate_with_pam (Some user) (Some password) false reason 256) Q (hp L X B).
Proof.
  intros Hu Hl Hp HF HQ. unfold authenticate_with_pam. cbn [negb andb default].
  destruct user as [|b user]; [done|]. apply cwp_bind, cwp_ret. change (default [] (Some password)) with password.
  rewrite bool_decide_eq_false_2 by done. cbn [negb andb].
  apply cwp_bind, cwp_fallible.
  { intros Hnf. apply cwp_bind, cwp_set_errno, cwp_ret. eapply HF; [right; left; done|done]. }
  cbv zeta. destruct (Z.eqb_spec (pam_start_result PADLOCK_PAM_SERVICE (b :: user)) PAM_SUCCESS) as [E|E].
  2: { apply cwp_ret, cwp_bind, cwp_set_errno, cwp_ret. eapply HF; [left; done|done]. }
  apply cwp_bind, cwp_new_id. intros h Hh. change (h ∉ L) in Hh. change (alloc_s h _) with (hp ({[h]} ∪ L) X B).
  apply cwp_ret, cwp_bind, cwp_run_dialog; [done|]. intros rc Hrc.
  apply cwp_bind, cwp_context_drop; [cbn; set_solver|]. change (set_live _ _) with (hp (({[h]} ∪ L) ∖ {[h]}) X B).
  rewrite alloc_free_set by done.
  destruct (Z.eqb_spec rc PAM_SUCCESS) as [->|Hne]; cbn [negb].
  - apply cwp_ret, HQ. right; right. done.
  - apply cwp_bind, cwp_set_errno, cwp_ret. eapply HF; [right; right; done|done].
Qed.
End Login.

(** ** The PAM file *)

(** The pieces [fgets] reads a file in. *)
Fixpoint chunks (fuel : nat) (s : list byte) : list (list byte) :=
  match fuel with
  | O => []
  | S fuel => match first_line 511 s with [] => [] | l => l :: chunks fuel (drop (length l) s) end
  end.

(** A line that does not call for a password: blank, a comment, or the expected one. *)
Definition line_allows (expected l : list byte) : bool :=
  match trim_end (skip_spaces (c_str l)) with
  | [] => true
  | b :: rest => bool_decide (b = Byte.x23) || bool_decide (b :: rest = expected)
  end.

Definition passwordless_file (user data : list byte) : bool :=
  forallb (line_allows (expected_line user)) (chunks (S (length data)) data).

Section File.
Context (U : Prop).

Lemma cwp_fgets f st x p d Q B :
  s_inodes B !! st_ino st = Some (Inode false 0 x) → 0 ≤ p →
  (let got := first_line 511 (drop (Z.to_nat p) x) in
   match got with
   | [] => Q None (upd_stream f (at_pos st p d) B)
   | _ => Q (Some got) (upd_stream f (at_pos st (p + len got) Reading) B)
   end) →
  cwp true U (fgets 512 f) Q (upd_stream f (at_pos st p d) B).
Proof.
  intros Hx Hp HQ. apply cwp_intro. intros s Hs.
  assert (s_streams s !! f = Some (at_pos st p d)) as Hst.
  { apply (f_equal (λ t, s_streams t !! f)) in Hs. cbn in Hs. by rewrite lookup_insert_eq in Hs. }
  destruct (core_file s (st_ino st) x) as [m Hm]; [by rewrite Hs|].
  apply wp_bind, (wp_get_stream _ _ _ (at_pos st p d)); [done|]. apply wp_bind, wp_get_sys, wp_bind.
  eapply wp_checked_some; [exact Hm|]. apply wp_fallible; [done|]. cbn [i_dir i_data at_pos st_pos st_ino].
  change (Z.to_nat (512 - 1)) with 511%nat. cbv zeta in HQ.
  destruct (first_line 511 (drop (Z.to_nat p) x)) as [|b l]; [apply wp_ret; by rewrite Hs|].
  apply wp_bind, wp_modify, wp_ret.
  change (Q (Some (b :: l)) (upd_stream f (at_pos st (p + len (b :: l)) Reading) (core s))).
  by rewrite Hs, upd_stream_twice.
Qed.

Lemma cwp_close_at nf f st x p d Q B :
  s_streams B !! f = None → s_inodes B !! st_ino st = Some (Inode false 0 x) → (∀ r, Q r B) →
  cwp nf U (fclose f) Q (upd_stream f (at_pos st p d) B).
Proof.
  intros Hf Hx HQ. eapply cwp_fclose; [done|done|]. intros r d' Hd. rewrite Hd by (by right).
  change (flush_data (at_pos st p d) x) with x. rewrite put_file_id; done.
Qed.

Lemma cwp_service_loop f st x expected B : s_streams B !! f = None → s_inodes B !! st_ino st = Some (Inode false 0 x) →
  ∀ fuel p d Q, 0 ≤ p → (length (drop (Z.to_nat p) x) < fuel)%nat →
  Q (if forallb (line_allows expected) (chunks fuel (drop (Z.to_nat p) x)) then 1 else 0) B →
  cwp true U (service_loop fuel f expected) Q (upd_stream f (at_pos st p d) B).
Proof.
  intros Hf Hx. induction fuel as [|fuel IH]; intros p d Q Hp Hl HQ; [lia|]. cbn [service_loop chunks] in *.
  apply cwp_bind. eapply cwp_fgets; [done..|]. cbv zeta.
  destruct (first_line_length 511 (drop (Z.to_nat p) x)) as [_ Hfl].
  destruct (first_line 511 (drop (Z.to_nat p) x)) as [|b l]; cbn [forallb] in HQ.
  { apply cwp_bind. eapply cwp_close_at; [done..|]. intros r. by apply cwp_ret. }
  set (got := b :: l) in *. assert (drop (Z.to_nat (p + len got)) x = drop (length got) (drop (Z.to_nat p) x)) as Hd.
  { rewrite drop_drop. f_equal. lia. }
  assert (line_allows expected got = true →
    cwp true U (service_loop fuel f expected) Q (upd_stream f (at_pos st (p + len got) Reading) B)) as Hgo.
  { intros Ha. apply IH; [lia| |]; rewrite Hd; [rewrite length_drop; cbn in *; lia|]. by rewrite Ha in HQ. }
  unfold line_allows in Hgo, HQ at 1. destruct (trim_end (skip_spaces (c_str got))) as [|h r]; [by apply Hgo|].
  destruct (bool_decide_reflect (h = Byte.x23)); [by apply Hgo|]. cbn [orb] in *.
  destruct (bool_decide_reflect (h :: r = expected)) as [->|Hne].
  - rewrite bool_decide_eq_false_2 by (by intros []). by apply Hgo.
  - rewrite bool_decide_eq_true_2 by done. apply cwp_bind. eapply cwp_close_at; [done..|]. intros ?. by apply cwp_ret.
Qed.
End File.

(** What the function makes of the PAM file [d]. *)
Definition excused (user d : list byte) : bool :=
  (len (expected_line (c_str user)) <? 384) && passwordless_file (c_str user) d.

(** [PAM_FILE] does not excuse the user from a password: it is missing, or (when nothing
    fails) it has a line that does not. *)
Definition pam_asks (nf : bool) (t : sys) (user : list byte) : Prop :=
  s_names t !! PAM_FILE = None ∨
  nf = true ∧ ∃ d, holds_file t PAM_FILE d ∧ excused user d = false.

Section Session.
Context {OSSL : Openssl} {T : Tss} {HOST : Host}.
Context (nf : bool) (U : Prop).

Lemma cwp_fopen_r path Q t :
  (nf = false ∨ s_names t !! path = None → Q None t) →
  (∀ i f, s_names t !! path = Some i → s_streams t !! f = None →
     Q (Some f) (upd_stream f (Stream i false 0 Idle []) t)) →
  cwp nf U (fopen_r path) Q t.
Proof.
  intros HF HQ. apply cwp_fallible; [auto|]. apply cwp_intro. intros s <-. apply wp_bind, wp_get_sys.
  destruct (s_names s !! path) as [i|] eqn:Hn; [|apply wp_fail_with, HF; by right].
  apply wp_bind, wp_open_stream. intros f Hf. apply wp_ret. by apply (HQ i f).
Qed.

Lemma cwp_stream_size f st n Q t :
  s_streams t !! f = Some st → s_inodes t !! st_ino st = Some n → Q (length (i_data n)) t → cwp nf U (stream_size f) Q t.
Proof.
  intros Hf Hn HQ. apply cwp_intro. intros s Hs.
  assert (s_streams s !! f = Some st) by (by rewrite <- Hs in Hf).
  rewrite <- Hs, core_inode in Hn. destruct (s_inodes s !! st_ino st) as [m|] eqn:Hm; [|done].
  apply wp_bind, (wp_get_stream _ _ _ st); [done|]. apply wp_bind, wp_get_sys, wp_bind.
  eapply wp_checked_some; [exact Hm|]. apply wp_ret. rewrite Hs. cbn in Hn. apply (inj Some) in Hn as <-. exact HQ.
Qed.

Lemma cwp_passwordless_file user d Q t :
  nf = true → user ≠ [] → holds_file t PAM_FILE d → Q (if excused user d then 1 else 0) t →
  cwp nf U (pam_service_is_passwordless_for_user (Some user)) Q t.
Proof.
  intros Hnf Hu (i & Hn & Hd) HQ. unfold pam_service_is_passwordless_for_user. destruct user as [|b user]; [done|].
  set (u := b :: user) in *. apply cwp_bind, cwp_fopen_r; [intros [?|?]; congruence|]. intros j f Hj Hf.
  rewrite Hn in Hj. apply (inj Some) in Hj as <-. unfold excused in HQ.
  cbv zeta. set (text := expected_line (c_str u)) in *.
  assert (0 < len text) as Hpos by (unfold text, expected_line; rewrite length_app; cbn; lia).
  rewrite (proj2 (Z.leb_gt _ _)) by done. cbn [orb]. rewrite Z.geb_leb.
  change (Stream i false 0 Idle []) with (at_pos (Stream i false 0 Idle []) 0 Idle).
  destruct (Z.leb_spec 384 (len text)) as [Hlong|Hshort].
  { apply cwp_bind. eapply cwp_close_at; [done..|]. intros r. apply cwp_ret.
    rewrite (proj2 (Z.ltb_ge _ _)) in HQ by done. exact HQ. }
  rewrite (proj2 (Z.ltb_lt _ _)) in HQ by done. apply cwp_bind. eapply cwp_stream_size; [apply upd_stream_same|exact Hd|].
  rewrite snprintf_fits_text by lia. rewrite Hnf.
  eapply cwp_service_loop; [done|exact Hd|lia|change (length d < S (length d))%nat; lia|exact HQ].
Qed.

Lemma cwp_passwordless user Q t :
  user ≠ [] → pam_asks nf t user → Q 0 t → cwp nf U (pam_service_is_passwordless_for_user (Some user)) Q t.
Proof.
  intros Hu [Hno|[Hnf (d & Hd & Hex)]] HQ.
  - unfold pam_service_is_passwordless_for_user. destruct user as [|b user]; [done|].
    apply cwp_bind, cwp_fopen_r; [intros; by apply cwp_ret|]. intros. congruence.
  - apply (cwp_passwordless_file user d); [done..|]. by rewrite Hex.
Qed.

Lemma cwp_parse_size v Q t : (∀ r, Q r t) → cwp nf U (padlock_parse_size v) Q t.
Proof.
  intros HQ. unfold padlock_parse_size. destruct v as [v|]; [|by apply cwp_bind, cwp_set_errno, cwp_ret].
  case_bool_decide; [by apply cwp_bind, cwp_set_errno, cwp_ret|]. apply cwp_bind, cwp_set_errno.
  repeat case_match; first [by apply cwp_ret|by apply cwp_bind, cwp_set_errno, cwp_ret|
    apply cwp_bind, cwp_set_errno; repeat case_match; first [by apply cwp_ret|by apply cwp_bind, cwp_set_errno, cwp_ret]].
Qed.

Lemma cwp_resolve_path argv index Q t :
  (∀ r text, (∀ arg, argv !! index = Some arg → c_str arg ≠ [] → r = 0 ∧ text = snprintf_text 4096 (c_str arg)) →
     Q (r, text) t) →
  cwp nf U (resolve_path argv index 4096) Q t.
Proof.
  intros HQ. unfold resolve_path. destruct (argv !! index) as [arg|].
  - apply cwp_ret, HQ. intros a [= <-] Hne. destruct (c_str arg) eqn:E; [done|]. by rewrite (proj2 (Z.ltb_lt _ _)) by (cbn; lia).
  - apply cwp_bind. unfold padlock_default_store_path. apply cwp_bind, cwp_getenv, cwp_bind, cwp_getenv. cbn [Z.eqb].
    repeat case_match; first [by apply cwp_ret, cwp_ret, HQ|by apply cwp_bind, cwp_set_errno, cwp_ret, cwp_ret, HQ].
Qed.

Lemma cwp_clear_and_leave d n Q t : len d = n → Q tt t → cwp nf U (clear_and_leave d n) Q t.
Proof. apply cwp_wipe_and_leave. Qed.

Lemma cwp_report_failure action i e x Q t :
  (∀ e', Q tt (tty i e' x t)) → cwp nf U (report_failure action) Q (tty i e x t).
Proof. intros HQ. apply cwp_bind, cwp_get_errno. intros n. destruct (negb (n =? 0)); by apply cwp_put_err. Qed.

Lemma cwp_report_detail action detail i e x Q t :
  (∀ e', Q tt (tty i e' x t)) → cwp nf U (report_failure_with_detail action detail) Q (tty i e x t).
Proof.
  intros HQ. unfold report_failure_with_detail. destruct (negb _); [by apply cwp_put_err|by apply cwp_report_failure].
Qed.

(** No way to log in as [user] with what is typed. *)
Definition login_refused (user i : list byte) : Prop :=
  ∀ rc, login_ends nf user (typed i) rc → rc ≠ PAM_SUCCESS.

Lemma cwp_derive_refused user hp reason i e x Q t :
  user ≠ [] → pam_asks nf t user → login_refused user i →
  (∀ reason' i' e' x', (nf = true → x' = x) → Q (-1, hp, reason') (tty i' e' x' t)) →
  cwp nf U (derive_header_password (Some user) hp 65 reason 256) Q (tty i e x t).
Proof.
  intros Hu Hask Hno HQ. unfold derive_header_password. destruct user as [|b user]; [done|].
  apply cwp_bind, cwp_passwordless; [done|exact Hask|]. cbn [Z.eqb negb].
  apply cwp_bind, cwp_draw; [lia|]. intros pw0 Hpw0.
  assert (∀ A (m : M A) m', (if len (bstr "Enter the password for '" ++ (b :: user) ++ bstr "': ") <=? 0 then m' else m) = m) as Hpos.
  { intros A m m'. rewrite (proj2 (Z.leb_gt _ _)); [done|]. rewrite length_app. cbn. lia. }
  cbv zeta. rewrite Hpos. apply cwp_bind, cwp_prompt_password; [done|..].
  - intros pw i' e' x' Hl _ Hx. cbn [Z.eqb negb]. apply cwp_bind, cwp_set_errno, cwp_bind, cwp_leave, cwp_ret. by apply HQ.
  - intros pw e' x' Hl Hs Hc Ht Hx. cbn [Z.eqb negb]. rewrite (hp_intro (tty _ _ _ _)).
    apply cwp_bind, cwp_authenticate; [done|lia|congruence|..].
    + intros rc reason' _ _. rewrite <- hp_intro. cbn [Z.eqb negb].
      apply cwp_bind, cwp_clear_and_leave; [done|]. apply cwp_ret. by apply HQ.
    + intros reason' He. rewrite Hc in He. by destruct (Hno PAM_SUCCESS).
Qed.

Lemma cwp_open_refused argv index user i e x Q t :
  user ≠ [] → pam_asks nf t user → login_refused user i →
  (∀ i' e' x', (nf = true → x' = x) → Q (inl 1) (tty i' e' x' t)) →
  cwp nf U (open_session argv index user) Q (tty i e x t).
Proof.
  intros Hu Hask Hno HQ. apply cwp_bind, cwp_resolve_path. intros r path _.
  destruct (negb (r =? 0)); [by apply cwp_bind, cwp_put_err; intros e'; apply cwp_ret, HQ|].
  apply cwp_bind, cwp_draw; [lia|]. intros hp Hhp. apply cwp_bind, cwp_draw; [lia|]. intros reason _.
  apply cwp_bind, cwp_derive_refused; [done..|]. intros reason' i' e' x' Hx. cbn [Z.eqb negb].
  apply cwp_bind, cwp_clear_and_leave; [done|]. apply cwp_bind, cwp_report_detail. intros e''. apply cwp_ret. by apply HQ.
Qed.

Lemma cwp_main_refused argv i e x Q t :
  (∀ user, host_user = Some user → user ≠ [] ∧ pam_asks nf t user ∧ login_refused user i) →
  (∀ code i' e' x', code = 1 ∨ code = 2 → (nf = true → x' = x) → Q code (tty i' e' x' t)) →
  cwp nf U (main argv) Q (tty i e x t).
Proof.
  intros Hno HQ. unfold main.
  assert (cwp nf U (usage;; mret 2) Q (tty i e x t)) as Husage.
  { apply cwp_bind, cwp_usage. intros e'. apply cwp_ret. by apply HQ; [right|]. }
  assert (cwp nf U (put_err (line "padlock: could not resolve current user");; mret 1) Q (tty i e x t)) as Hnone.
  { apply cwp_bind, cwp_put_err. intros e'. apply cwp_ret. by apply HQ; [left|]. }
  apply cwp_bind, cwp_lib; [done|]. destruct host_user as [user|]; [|done]. destruct (Hno user eq_refl) as (Hu & Hask & Hr).
  assert (∀ index k, (k (inl 1) = mret 1) → cwp nf U (o ← open_session argv index user; k o) Q (tty i e x t)) as Hopen.
  { intros index k Hk. apply cwp_bind, cwp_open_refused; [done..|]. intros i' e' x' Hx. rewrite Hk. apply cwp_ret.
    apply HQ; [by left|done]. }
  destruct (argv !! 1%nat) as [command|]; [|done].
  destruct (streq command (bstr "allocate")).
  { unfold main_allocate. apply cwp_bind. destruct (_ || _); [by apply cwp_ret|]. apply cwp_parse_size.
    intros [size|]; [|done]. by apply Hopen. }
  destruct (streq command (bstr "set")).
  { unfold main_set. destruct (_ || _); [done|]. by apply Hopen. }
  destruct (streq command (bstr "get")); [|done].
  unfold main_get. destruct (_ || _); [done|]. by apply Hopen.
Qed.
End Session.
