(* ===== verification/CliTheorems.v ===== *)
(** * The program as its user sees it

    Who cannot log in gets nothing and changes nothing; who can, gets back what was set.
    [CliDemo] is a machine with a user, a PAM stack, a sealed key and a store. *)

From S2P Require Import Prelude World Posix Libc Codec Openssl Header Secret Store StoreSpec StoreGet StoreSet Allocate AllocateSpec StoreTheorems Config Tss Core Tpm TpmSpec TpmKeySpec TreeSpec KeySpec TpmTheorems Cli CliSpec.

(** ** A refused login *)




Section Refused.
Context {OSSL : Openssl} {T : Tss} {HOST : Host}.

End Refused.

(** ** The PAM file *)

Section PamFile.
Context {OSSL : Openssl} {T : Tss} {HOST : Host}.

End PamFile.

(** ** A session *)

Section Session.
Context {OSSL : Openssl} {Laws : OpensslLaws OSSL} {T : Tss} {TL : TssLaws T} {HOST : Host}.
Context (home key user pam : list byte).

(** A key is sealed, and the PAM file [pam] asks for a password. *)
Record ready (s : sys) : Prop := {
  rd_home : home_ok s home;
  rd_clear : home_clear s home;
  rd_key : sealed_key s home key;
  rd_pam : file_at s PAM_FILE pam
}.

(** What a call keeps of the process: all but the files, standard input and error. *)
Definition process_kept (s s' : sys) : Prop :=
  s_live s' = s_live s ∧ s_streams s' = s_streams s ∧ s_fds s' = s_fds s ∧ s_env s' = s_env s ∧
  io_stdout (s_io s') = io_stdout (s_io s) ∧ io_tpm (s_io s') = io_tpm (s_io s) ∧ io_echo (s_io s') = io_echo (s_io s).

Definition next_input (s : sys) : list byte := drop (length (first_line 511 (io_stdin (s_io s)))) (io_stdin (s_io s)).

Definition login_accepted (pw : list byte) : Prop := ∀ rc, login_ends true user pw rc → rc = PAM_SUCCESS.

(** The state after the prompt. *)
Lemma ready_tty i e x s s' : core s' = tty i e x (core s) → ready s → ready s'.
Proof.
  intros E [Ho Hc Hk Hp].
  assert (∀ f : sys → Prop, (∀ i e x t, f t → f (tty i e x t)) → f (core s) → f (core s')) as Hf.
  { intros f Htty H. rewrite E. by apply Htty. }
  assert (names_ok s') as Hn'.
  { apply core_names_ok, (Hf names_ok); [done|]. apply core_names_ok, Ho. }
  split.
  - destruct Ho as [He Hl Hn H1 H2]. split; [|done|done|..].
    + by rewrite (f_equal s_env E : s_env s' = s_env s).
    + by apply (Hf (λ t, unshared t (key_pub home))).
    + by apply (Hf (λ t, unshared t (key_priv home))).
  - apply core_key_clear, (Hf (λ t, key_clear t home)); [done|done|]. apply core_key_clear; [apply Ho|done].
  - apply core_key_at, (Hf (λ t, key_at t home key)); [done|]. by apply core_key_at.
  - apply core_holds_file, (Hf (λ t, holds_file t PAM_FILE pam)); [done|]. by apply core_holds_file.
Qed.

Lemma others_kept_tty i e x s s' : core s' = tty i e x (core s) → others_kept s s' home.
Proof.
  intros E. split.
  - intros p d _ _ H%core_holds_file. apply core_holds_file. rewrite E. exact H.
  - intros p _ _ H. rewrite <- core_is_dir in *. rewrite E. exact H.
Qed.

Lemma process_kept_trans s1 s2 s3 : process_kept s1 s2 → process_kept s2 s3 → process_kept s1 s3.
Proof. intros (? & ? & ? & ? & ? & ? & ?) (? & ? & ? & ? & ? & ? & ?). split_and!; congruence. Qed.

Lemma process_kept_outcome s r s' : key_outcome true s home r s' → process_kept s s'.
Proof.
  intros Ho. pose proof (ko_held _ _ _ _ _ Ho) as (? & ? & ? & ? & _). pose proof (ko_tpm _ _ _ _ _ Ho eq_refl) as Hio.
  split_and!; congruence.
Qed.

Lemma core_same s s' : core s' = core s → core s' = tty (io_stdin (s_io s)) (io_stderr (s_io s)) (io_echo (s_io s)) (core s).
Proof. intros ->. exact (tty_intro (core s)). Qed.

Lemma process_kept_tty i e s s' : core s' = tty i e (io_echo (s_io s)) (core s) → process_kept s s'.
Proof.
  intros E. split_and!; [exact (f_equal s_live E)|exact (f_equal s_streams E)|exact (f_equal s_fds E)|exact (f_equal s_env E)|..].
  - exact (f_equal (λ t, io_stdout (s_io t)) E).
  - exact (f_equal (λ t, io_tpm (s_io t)) E).
  - exact (f_equal (λ t, io_echo (s_io t)) E).
Qed.

(** What is asked of the user, the password and the PAM file. *)
Record login_ok (pw d : list byte) : Prop := {
  lo_user : user ≠ [];
  lo_asks : excused user pam = false;
  lo_pam : ¬ key_files home PAM_FILE;
  lo_pw : pw ≠ [];
  lo_accepted : login_accepted pw;
  lo_hmac : HMAC_SHA256 key pw = Some d
}.

Definition logged_in (s s' : sys) : Prop :=
  ready s' ∧ process_kept s s' ∧ io_stdin (s_io s') = next_input s ∧ others_kept s s' home.

Lemma wp_prompt_typed prompt password s pw Q :
  pw ≠ [] → typed (io_stdin (s_io s)) = pw → len password = 512 →
  (∀ login e s', len login = 512 → strlen login < 512 → c_str login = pw →
     core s' = tty (next_input s) e (io_echo (s_io s)) (core s) → Q (0, login) s') →
  wp true False (prompt_password prompt password 512) Q s.
Proof.
  intros Hpw Ht Hl HQ. eapply wp_mono.
  { apply (cwp_wp _ _ _ (λ res t, ∃ login e, res = (0, login) ∧ len login = 512 ∧ strlen login < 512 ∧ c_str login = pw ∧
      t = tty (next_input s) e (io_echo (s_io s)) (core s))). rewrite (tty_intro (core s)) at 1.
    apply cwp_prompt_password; [done|..].
    - intros l i e x _ [?|Hno]; [done|]. exfalso. apply Hpw. rewrite <- Ht. exact Hno.
    - intros l e x Hl1 Hl2 Hc _ Hx. exists l, e. split_and!; [done..| |].
      + rewrite Hc. exact Ht.
      + by rewrite Hx. }
  intros res s1 (login & e & -> & ? & ? & ? & ?). by eapply HQ.
Qed.

Lemma wp_auth_accepted login reason s pw Q :
  user ≠ [] → login_accepted pw → pw ≠ [] → strlen login < len login → c_str login = pw →
  (∀ reason' s', core s' = core s → Q (0, reason') s') →
  wp true False (authenticate_with_pam (Some user) (Some login) false reason 256) Q s.
Proof.
  intros Hu Hacc Hpw Hl Hc HQ. eapply wp_mono.
  { apply (cwp_wp _ _ _ (λ res t, (∃ r, res = (0, r)) ∧ t = core s)). rewrite (hp_intro (core s)) at 1.
    apply cwp_authenticate; [done|lia|congruence|..].
    - intros rc r He Hne. rewrite Hc in He. by destruct Hne, (Hacc rc He).
    - intros r _. rewrite <- hp_intro. split; [by exists r|done]. }
  intros res s' [[r ->] E]. by apply HQ.
Qed.

(** After the prompt, the derivation, and what follows it. *)
Lemma logged_in_intro s s1 s2 s3 e :
  ¬ key_files home PAM_FILE → ready s → core s1 = tty (next_input s) e (io_echo (s_io s)) (core s) →
  key_outcome true s1 home (Some key) s2 → core s3 = core s2 → logged_in s s3.
Proof.
  intros Hpam Hrd E1 Ho E3. pose proof (ready_tty _ _ _ _ _ E1 Hrd) as Hrd1.
  pose proof (ko_others _ _ _ _ _ Ho) as Hoth. pose proof (core_same _ _ E3) as E3'.
  destruct (ko_found _ _ _ _ _ Ho key eq_refl (rd_clear _ Hrd1) (rd_key _ Hrd1)) as [_ Hk].
  assert (ready s2) as Hrd2.
  { split; [apply Ho|by apply Ho, Hrd1|done|]. destruct Hoth as [Hf _].
    apply Hf; [intros H; apply Hpam; by left|intros H; apply Hpam; by right|apply Hrd1]. }
  split_and!.
  - by eapply ready_tty.
  - eapply process_kept_trans; [by eapply process_kept_tty|]. eapply process_kept_trans; [by eapply process_kept_outcome|].
    by eapply process_kept_tty.
  - rewrite (f_equal s_io E3 : s_io s3 = s_io s2), (ko_tpm _ _ _ _ _ Ho eq_refl).
    exact (f_equal (λ t, io_stdin (s_io t)) E1).
  - eapply others_kept_trans; [by eapply others_kept_tty|]. eapply others_kept_trans; [done|]. by eapply others_kept_tty.
Qed.

Lemma wp_derive_accepted s hp reason pw d Q :
  login_ok pw d → ready s → typed (io_stdin (s_io s)) = pw → len hp = 65 →
  (∀ reason' s', logged_in s s' → Q (0, hex_of d ++ [Byte.x00], reason') s') →
  wp true False (derive_header_password (Some user) hp 65 reason 256) Q s.
Proof.
  intros [Hu Hask Hpam Hpw Hacc Hd] Hrd Ht Hhp HQ. unfold derive_header_password.
  destruct user as [|b us] eqn:Eu; [done|]. rewrite <- Eu in *. apply wp_bind. eapply wp_mono.
  { apply (cwp_wp _ _ _ (λ r t, r = 0 ∧ t = core s)). apply cwp_passwordless; [by rewrite Eu| |done].
    right. split; [done|]. exists pam. split; [apply core_holds_file, Hrd|done]. }
  intros r s1 [-> E1]. cbn [Z.eqb negb]. apply wp_bind, wp_draw; [|lia]. intros pw0 _ Hpw0.
  assert (∀ A (m : M A) m', (if len (bstr "Enter the password for '" ++ user ++ bstr "': ") <=? 0 then m' else m) = m) as Hpos.
  { intros A m m'. rewrite (proj2 (Z.leb_gt _ _)); [done|]. rewrite length_app. cbn. lia. }
  cbv zeta. rewrite Hpos.
  assert (s_io s1 = s_io s) as Eio by exact (f_equal s_io E1).
  apply wp_bind, (wp_prompt_typed _ _ _ pw); [done|by rewrite Eio|lia|]. intros login e s2 Hl1 Hl2 Hc E2.
  unfold next_input in E2. rewrite E1, Eio in E2. fold (next_input s) in E2. cbn [Z.eqb negb].
  apply wp_bind, (wp_auth_accepted _ _ _ pw); [by rewrite Eu|done|done|lia|done|]. intros reason' s3 E3. rewrite E2 in E3. cbn [Z.eqb negb].
  pose proof (ready_tty _ _ _ _ _ E3 Hrd) as Hrd3.
  apply wp_bind, (wp_derive_password true False s3 home); [apply Hrd3|congruence|lia|..].
  { intros k s' Ho Hor. destruct (ko_found _ _ _ _ _ Ho key eq_refl (rd_clear _ Hrd3) (rd_key _ Hrd3)) as [-> _].
    by destruct Hor. }
  intros k s' s'' Ho E. destruct (ko_found _ _ _ _ _ Ho key eq_refl (rd_clear _ Hrd3) (rd_key _ Hrd3)) as [Ek Hk].
  apply (inj Some) in Ek. subst k. rewrite Hc, Hd. apply wp_bind. eapply wp_wipe_and_leave; [done|]. apply wp_bind, wp_ret, wp_ret.
  assert (len (hex_of d ++ [Byte.x00]) = 65) as Hlen.
  { rewrite length_app, Nat2Z.inj_add, len_hex_of, (hmac_len _ _ _ Hd). done. }
  cbn [default from_option id]. rewrite splice_all by lia. apply HQ.
  by apply (logged_in_intro s s3 s' _ e).
Qed.

Lemma logged_in_core s s1 s' : core s1 = core s → logged_in s1 s' → logged_in s s'.
Proof.
  intros E (Hr & Hp & Hi & Ho). pose proof (core_same _ _ E) as E'. split_and!; [done|..].
  - eapply process_kept_trans; [by eapply process_kept_tty|done].
  - rewrite Hi. unfold next_input. by rewrite (f_equal s_io E : s_io s1 = s_io s).
  - eapply others_kept_trans; [by eapply others_kept_tty|done].
Qed.

Lemma ready_core s s1 : core s1 = core s → ready s → ready s1.
Proof. intros E. by apply (ready_tty _ _ _ _ _ (core_same _ _ E)). Qed.

(** A path the user names. *)
Definition path_ok (path : list byte) : Prop := no_nul path ∧ 0 < len path < 4096 ∧ ¬ key_files home path.

Lemma wp_open_accepted argv index path s pw d Q :
  login_ok pw d → ready s → typed (io_stdin (s_io s)) = pw → argv !! index = Some path → path_ok path →
  (∀ s', logged_in s s' → Q (inr (path, hex_of d ++ [Byte.x00])) s') →
  wp true False (open_session argv index user) Q s.
Proof.
  intros Hlo Hrd Ht Hpath (Hnn & Hlen & _) HQ. apply wp_bind. eapply wp_mono.
  { apply (cwp_wp _ _ _ (λ res t, res = (0, path) ∧ t = core s)). apply cwp_resolve_path. intros r text Hr.
    destruct (Hr path Hpath) as [-> ->]; rewrite c_str_id by done; [intros ->; cbn in Hlen; lia|]. by rewrite snprintf_fits_text by lia. }
  intros res s1 [-> E1]. cbn [Z.eqb negb]. apply wp_bind, wp_draw; [|lia]. intros hp _ Hhp.
  apply wp_bind, wp_draw; [|lia]. intros reason _ _. apply wp_bind, (wp_derive_accepted _ _ _ pw d).
  - done.
  - by eapply ready_core.
  - by rewrite (f_equal s_io E1 : s_io s1 = s_io s).
  - lia.
  - intros reason' s' Hin. cbn [Z.eqb negb]. apply wp_ret, HQ. by eapply logged_in_core.
Qed.

(** Writing to the store leaves the key and the PAM file alone. *)
Lemma ready_disk s path i m m' x W e L R :
  s_names s !! path = Some i → s_inodes s !! i = Some (Inode false m x) → ¬ key_files home path → pam ≠ x →
  ready s → ready (set_errno_s e (heap L R (disk i m' x W s))).
Proof.
  intros Hn Hi Hkey Hpam [[He Hl Hok H1 H2] (Ht & C1 & C2) (Hk & b & c & Hb & Hc & Hs) (j & mj & Hj & Hjd)].
  set (s' := set_errno_s e (heap L R (disk i m' x W s))).
  assert (∀ p, is_dir s' p = is_dir s p) as Hdir.
  { intros p. unfold is_dir. cbn. destruct (s_names s !! p) as [q|]; [|done].
    destruct (decide (i = q)) as [<-|]; [by rewrite lookup_insert_eq, Hi|by rewrite lookup_insert_ne]. }
  assert (∀ p y, unshared s p → p ≠ path → file_at s p y → file_at s' p y) as Hfile.
  { intros p y Hun Hp (q & mq & Hq & Hqd). exists q, mq. split; [done|]. cbn. rewrite lookup_insert_ne; [done|].
    intros <-. destruct Hp. symmetry. by apply (Hun path i). }
  split.
  - split; [done|done| |done|done]. intros p q Hp. cbn. destruct (decide (i = q)) as [<-|]; [rewrite lookup_insert_eq; eauto|].
    rewrite lookup_insert_ne by done. by apply (Hok p).
  - split_and!; [|by rewrite Hdir..]. intros p q Hp Hq. rewrite Hdir. by apply (Ht p q).
  - split; [done|]. exists b, c. split_and!; [apply Hfile; try done..|done]; intros <-; apply Hkey; [by left|by right].
  - exists j, mj. split; [done|]. cbn. rewrite lookup_insert_ne; [done|]. intros <-. congruence.
Qed.

Lemma path_kept s s' path x : logged_in s s' → path_ok path → file_at s path x → file_at s' path x.
Proof.
  intros (_ & _ & _ & Hf & _) (_ & _ & Hk) Hx. apply Hf; [intros ->; apply Hk; by left|intros ->; apply Hk; by right|done].
Qed.

(** What [set] and [get] need: a user who can log in, and a store. *)
Record store_ready (s : sys) (pw d path x : list byte) (es : list (list byte * list byte)) : Prop := {
  sy_host : host_user = Some user;
  sy_login : login_ok pw d;
  sy_ready : ready s;
  sy_typed : typed (io_stdin (s_io s)) = pw;
  sy_path : path_ok path;
  sy_file : file_at s path x;
  sy_pam : len pam < PADLOCK_HEADER_SIZE;
  sy_store : represents (Some (hex_of d ++ [Byte.x00])) x es
}.

(** A store is larger than the PAM file. *)
Lemma pam_not_store password x es : len pam < PADLOCK_HEADER_SIZE → represents password x es → pam ≠ x.
Proof. intros Hl (h & k & c & Hr) ->. destruct (store_rep_decode _ _ _ _ _ _ Hr) as [? _]. lia. Qed.

Lemma wp_main_set s prog k v pw d path x es Q :
  store_ready s pw d path x es → entry_ok (c_str k) (c_str v) →
  has_room (Some (hex_of d ++ [Byte.x00])) x (c_str k) (c_str v) →
  (∀ s' x', ready s' → process_kept s s' → io_stdin (s_io s') = next_input s → file_at s' path x' →
     represents (Some (hex_of d ++ [Byte.x00])) x' (es ++ [(c_str k, c_str v)]) → Q 0 s') →
  wp true False (main [prog; bstr "set"; k; v; path]) Q s.
Proof.
  intros [Hh Hlo Hrd Ht Hp Hx Hsm Hrep] Hok Hroom HQ. pose proof (pam_not_store _ _ _ Hsm Hrep) as Hne.
  apply wp_bind, wp_lib; [done|]. rewrite Hh. cbn [lookup list_lookup].
  change (streq (bstr "set") (bstr "allocate")) with false. change (streq (bstr "set") (bstr "set")) with true. cbn beta iota.
  unfold main_set. cbn [lookup list_lookup length]. change (_ || _) with false. cbn beta iota.
  apply wp_bind, (wp_open_accepted _ _ path _ pw d); [done..|]. intros s1 Hin.
  pose proof (path_kept _ _ _ _ Hin Hp Hx) as Hx1. pose proof Hin as (Hrd1 & Hk1 & Hi1 & _).
  assert (c_str v = sub 0 (strlen v) v) as Hv by (by rewrite sub_strlen).
  assert (u32 (strlen v) = strlen v) as Hu32.
  { apply u32_small. pose proof (strlen_range v). destruct Hok as (_ & _ & Hl). unfold strlen in *. lia. }
  cbn [default from_option id]. rewrite Hu32. rewrite Hv in Hok, Hroom. pose proof (strlen_range v) as Hvr.
  apply wp_bind. eapply wp_mono; [by apply (wp_set_represented true s1 path (hex_of d ++ [Byte.x00]) k v (strlen v) x es)|].
  intros r s2 (i & m & h & xkey & c & c' & e & R & W & Hn & Hst & Hcc & Hfit & -> & _ & Hr & HW). rewrite (HW eq_refl) in *.
  destruct Hr as [[-> _]|[_ ?]]; [|done]. cbn [Z.eqb negb].
  assert (len (hex_of d ++ [Byte.x00]) = 65) as Hlen.
  { rewrite length_app, Nat2Z.inj_add, len_hex_of, (hmac_len _ _ _ (lo_hmac _ _ Hlo)). done. }
  apply wp_bind, wp_wipe_and_leave; [done|]. apply wp_ret. rewrite Hv in HQ.
  destruct (replay_set_writes (hex_of d ++ [Byte.x00]) i h xkey c es _ _ c' x Hst Hok Hcc Hfit) as (_ & h' & c2 & Hst' & _).
  destruct Hx1 as (i1 & m1 & Hn1 & Hi1d). rewrite Hn in Hn1. apply (inj Some) in Hn1 as <-.
  assert (ready (set_errno_s e (heap (s_live s1) R (disk i m x (set_writes i h c') s1)))) as Hrd2
    by (apply (ready_disk s1 path i m1 m x); [done..|apply Hp|done|done]).
  eapply HQ.
  - eapply ready_core; [|exact Hrd2]. done.
  - by eapply process_kept_trans; [exact Hk1|].
  - exact Hi1.
  - exact (file_at_disk s1 path i m x _ e _ _ Hn).
  - by exists h', xkey, c2.
Qed.

Lemma wp_main_get s prog k v pw d path x es Q :
  store_ready s pw d path x es → lookup_last (c_str k) es = Some v →
  (∀ s', s_live s' = s_live s → s_streams s' = s_streams s →
     io_stdout (s_io s') = io_stdout (s_io s) ++ v ++ [NEWLINE] → file_at s' path x → Q 0 s') →
  wp true False (main [prog; bstr "get"; k; path]) Q s.
Proof.
  intros [Hh Hlo Hrd Ht Hp Hx Hne Hrep] Hv HQ.
  apply wp_bind, wp_lib; [done|]. rewrite Hh. cbn [lookup list_lookup].
  change (streq (bstr "get") (bstr "allocate")) with false. change (streq (bstr "get") (bstr "set")) with false.
  change (streq (bstr "get") (bstr "get")) with true. cbn beta iota.
  unfold main_get. cbn [lookup list_lookup length]. change (_ || _) with false. cbn beta iota.
  apply wp_bind, (wp_open_accepted _ _ path _ pw d); [done..|]. intros s1 Hin.
  pose proof (path_kept _ _ _ _ Hin Hp Hx) as Hx1. pose proof Hin as (Hrd1 & (Hl1 & Hs1 & _ & _ & Ho1 & _) & Hi1 & _).
  destruct Hx1 as (i & m & Hn & Hi). destruct (get_ref_represents (hex_of d ++ [Byte.x00]) k x es Hrep) as [Href Hsafe].
  apply wp_bind. eapply wp_mono; [by apply (wp_padlock_get true False path (hex_of d ++ [Byte.x00]) k s1 i m x); [..|left]|].
  intros res s2 (e & L & R & -> & Hpost). rewrite Href in Hpost.
  destruct Hpost as [(b & v' & -> & Hl & Hb & Hf & ->)|(_ & Hl & _)]; [|rewrite (Hl eq_refl) in Hv; done].
  rewrite Hl in Hv. apply (inj Some) in Hv as ->. cbn [Z.eqb negb].
  assert (len (hex_of d ++ [Byte.x00]) = 65) as Hlen.
  { rewrite length_app, Nat2Z.inj_add, len_hex_of, (hmac_len _ _ _ (lo_hmac _ _ Hlo)). done. }
  apply wp_bind, wp_wipe_and_leave; [done|]. apply wp_bind, wp_ret.
  apply wp_bind, wp_bload; [lia|lia|rewrite Hb, length_app; lia|].
  apply wp_bind, wp_fallible; [done|]. apply wp_modify. apply wp_bind, wp_fallible; [done|]. apply wp_modify.
  apply wp_bind, wp_free; [cbn; set_solver|]. apply wp_ret.
  assert (sub 0 (len v) (b_data b) = v) as ->.
  { rewrite Hb. unfold sub. rewrite drop_0, Nat2Z.id. apply take_app_length. }
  apply HQ.
  - cbn. rewrite <- Hl1. apply leibniz_equiv. set_solver.
  - exact Hs1.
  - cbn. rewrite <- Ho1. by rewrite <- app_assoc.
  - by exists i, m.
Qed.

(** C40: what the user sets the user gets back.  On a machine with a sealed key, a store under the
    header password of the login password, and a PAM stack that asks for that password and accepts it, the
    command [padlock set key value path] followed by [padlock get key path], the password typed each time, exits
    with 0 both times and prints the value and a newline; the store then has the entry appended, and nothing
    stays open or allocated. *)
Theorem set_then_get s prog k v pw d path x es :
  store_ready s pw d path x es → typed (next_input s) = pw →
  entry_ok (c_str k) (c_str v) → has_room (Some (hex_of d ++ [Byte.x00])) x (c_str k) (c_str v) →
  returns (c1 ← main [prog; bstr "set"; k; v; path]; c2 ← main [prog; bstr "get"; k; path]; mret (c1, c2)) s
    (λ codes s', codes = (0, 0) ∧ io_stdout (s_io s') = io_stdout (s_io s) ++ c_str v ++ [NEWLINE] ∧
       s_live s' = s_live s ∧ s_streams s' = s_streams s ∧
       ∃ x', file_at s' path x' ∧ represents (Some (hex_of d ++ [Byte.x00])) x' (es ++ [(c_str k, c_str v)])).
Proof.
  intros Hsr Ht2 Hok Hroom. apply wp_bind. apply (wp_main_set s prog k v pw d path x es); [done..|].
  intros s1 x' Hrd1 (Hl1 & Hs1 & _ & _ & Ho1 & _) Hi1 Hx1 Hrep1.
  assert (store_ready s1 pw d path x' (es ++ [(c_str k, c_str v)])) as Hsr1.
  { destruct Hsr. split; try done. by rewrite Hi1. }
  apply wp_bind, (wp_main_get s1 prog k (c_str v) pw d path x' _ _ Hsr1).
  { by rewrite lookup_last_snoc, decide_True. }
  intros s2 Hl2 Hs2 Ho2 Hx2. apply wp_ret. split_and!; [done|congruence..|]. by exists x'.
Qed.
End Session.

(** ** A machine, and witnesses *)

Module CliDemo.
#[local] Existing Instance Toy.toy.
#[local] Existing Instance Toy.toy_laws.
#[local] Existing Instance ToyTpm.toy.
#[local] Existing Instance ToyTpm.toy_laws.

Definition user : list byte := bstr "me".
Definition login : list byte := bstr "pw".

(** The modules ask for a password and accept "pw". *)
Definition host : Host := {|
  host_user := Some user;
  strerror e := bstr "error";
  pam_start_result service u := PAM_SUCCESS;
  pam_modules service u := PamConv [PAM_PROMPT_ECHO_OFF] (λ rc resp,
    PamDone (if bool_decide (rc = PAM_SUCCESS ∧ resp = [Some login]) then PAM_SUCCESS else 7));
  pam_strerror rc := None
|}.
#[export] Existing Instance host.

Definition path : list byte := bstr "s.plk".
Definition pam : list byte := bstr "auth required pam_unix.so" ++ [NEWLINE].

Definition digest : list byte := default [] (HMAC_SHA256 TpmDemo.key login).
Definition password : list byte := hex_of digest ++ [Byte.x00].

Definition header : padlock_header :=
  match header_key (Some password) (zeros 16) with
  | Some k =>
      match cbc Encrypt k (zeros 16) (PADLOCK_SECRET_MAGIC ++ Demo.store_key) with
      | Some c => sealed_header Demo.blank_header (splice 0 c (zeros 128))
      | None => Demo.blank_header
      end
  | None => Demo.blank_header
  end.

Definition file : list byte := splice 0 (header_image header) (zeros 8192).

(** The machine with this on standard input, a terminal that echoes. *)
Definition machine (input : list byte) : sys :=
  set_io (Io ∅ input [] [] (Some true))
    (add_name PAM_FILE 101 (Inode false 0x1a4 pam) (add_name path 100 (Inode false 0x180 file) TpmDemo.used)).

Definition type (pw : list byte) : list byte := pw ++ [NEWLINE].

Lemma store_file_represents : represents (Some password) file [].
Proof.
  apply (fresh_store _ header Demo.store_key); try (vm_compute; done).
  all: rewrite ?len_zeros by lia; unfold header_typed, PADLOCK_MIN_SIZE; split_and?; done.
Qed.

Lemma store_room : has_room (Some password) file (bstr "k") (bstr "v").
Proof.
  intros h k Hd Hu.
  assert (decode_header (sub 0 PADLOCK_HEADER_SIZE file) = Some (Some header)) as Ed by (vm_compute; reflexivity).
  rewrite Ed in Hd. apply (inj Some), (inj Some) in Hd as <-.
  assert (unseal (Some password) header = Some Demo.store_key) as Eu by (vm_compute; reflexivity).
  rewrite Eu in Hu. apply (inj Some) in Hu as <-.
  split; [vm_compute; discriminate|]. eexists. vm_compute. reflexivity.
Qed.

Lemma machine_ready input : ready TpmDemo.home TpmDemo.key pam (machine input).
Proof.
  split.
  - apply TpmDemo.home_okb_ok. by vm_compute.
  - apply TpmDemo.home_clearb_ok. by vm_compute.
  - split; [done|]. exists [Byte.x01], (Byte.x20 :: ToyTpm.flip TpmDemo.key). split_and!.
    + eexists _, _. split; vm_compute; reflexivity.
    + eexists _, _. split; vm_compute; reflexivity.
    + exists tt, [], (Tpm2bPrivate (ToyTpm.flip TpmDemo.key)), ToyTpm.public. split_and!; vm_compute; reflexivity.
  - eexists _, _. split; vm_compute; reflexivity.
Qed.


Lemma login_accepts : login_accepted user login.
Proof.
  intros rc [[Hrc Hne]|[[? _]|[_ He]]]; [by destruct Hne|done|].
  inversion He as [|styles next rc0 resp rc' Ha He' E1 E2]; subst. inversion He' as [r E|]; subst.
  destruct Ha as [(-> & -> & _)|[(-> & -> & [?|?])|(_ & _ & ?)]]; done.
Qed.

Lemma login_good : login_ok TpmDemo.home TpmDemo.key user pam login digest.
Proof.
  split; [done|by vm_compute| |done|apply login_accepts|by vm_compute]. intros [H|H]; by vm_compute in H.
Qed.
End CliDemo.

Section Witnesses.
#[local] Existing Instance Toy.toy.
#[local] Existing Instance Toy.toy_laws.
#[local] Existing Instance ToyTpm.toy.
#[local] Existing Instance ToyTpm.toy_laws.
Import CliDemo.



(** A read error excuses the user as well: the same file, which asks for a password, does not
    when the first read of it fails. *)
Lemma read_error_excuses :
  excused user pam = false ∧
  ∃ s' c', pam_service_is_passwordless_for_user (Some user) (machine [])
    (Ctl [None; Some (FErr EIO)] (λ i, zbyte (Z.of_nat i)) 0) = Ret 1 s' c'.
Proof. split; [by vm_compute|]. eexists _, _. vm_compute. reflexivity. Qed.

Lemma set_then_get_witness :
  returns (c1 ← main [bstr "padlock"; bstr "set"; bstr "k"; bstr "v"; path];
           c2 ← main [bstr "padlock"; bstr "get"; bstr "k"; path]; mret (c1, c2)) (machine (type login ++ type login))
    (λ codes s', codes = (0, 0) ∧ io_stdout (s_io s') = [] ++ bstr "v" ++ [NEWLINE] ∧
       s_live s' = s_live (machine (type login ++ type login)) ∧
       s_streams s' = s_streams (machine (type login ++ type login)) ∧
       ∃ x', file_at s' path x' ∧ represents (Some password) x' ([] ++ [(bstr "k", bstr "v")])).
Proof.
  apply (set_then_get TpmDemo.home TpmDemo.key user pam (machine (type login ++ type login)) (bstr "padlock")
    (bstr "k") (bstr "v") login digest path file []).
  - split; [done|apply login_good|apply machine_ready|by vm_compute| |by eexists _, _; split; vm_compute; reflexivity|
      by vm_compute|apply store_file_represents].
    split_and!; [|by vm_compute|by vm_compute|intros [H|H]; by vm_compute in H].
    unfold no_nul. by vm_compute; set_solver.
  - by vm_compute.
  - split; [done|]. split; [|vm_compute; discriminate]. unfold no_nul. by vm_compute; set_solver.
  - apply store_room.
Defined.
End Witnesses.
